(* ===== verification/_CoqProject ===== *)
-Q . S2P
Prelude.v
Errors.v
ReplayWindow.v
Time.v
Crypto.v
Packet.v
Session.v
Tai64N.v
Handshake.v
RateLimiter.v
Tunn.v
Tunnel.v
TunnTimers.v
Frame.v
Lfsr.v
Text.v
Serialization.v
Base64Text.v
Show.v
Export.v
Ffi.v
Jni.v
AllowedIps.v
Peer.v
Privileges.v
Tun.v
BsdTun.v
Device.v
EventPoll.v
Kqueue.v
Registry.v
EpollRegistry.v
KqueueRegistry.v
Api.v
Handlers.v
ApiServer.v
Startup.v
Handle.v
IntegrationTests.v
TestPeers.v
Cli.v
DevLock.v
DeviceSafe.v
DeviceDelivery.v
EventLoop.v
UnitTests.v
