(* ===== verification/Prelude.v ===== *)
(** * A verification development for BoringTun

    BoringTun (src/boringtun, with its command line src/boringtun-cli) is a
    userspace implementation of WireGuard.  Packets of the interface are sealed
    by the tunnel of a peer and sent, datagrams are opened by it and written to
    the interface; sessions come from handshakes, which a limiter protects; a
    device holds the peers, and several threads run the handlers of its events.
    The parts, from the inside out, and the files that model them:

    - ReplayWindow.v: the sliding window over 64-bit packet counters
      ([ReceivingKeyCounterValidator], noise/session.rs), a bitmap of sixteen
      words with word-wise clearing loops;
    - Packet.v: the wire format, its parser and the reading of IP headers
      (noise/mod.rs);
    - Session.v: the transport session that seals and opens data packets
      (noise/session.rs);
    - Time.v and Tai64N.v: the monotonic clock (sleepyinstant) and the
      timestamps of handshake initiations (noise/handshake.rs);
    - Crypto.v: the wrappers of noise/handshake.rs over the hash, the MAC, the
      key exchange and the AEAD, which come from other crates;
    - Handshake.v: the Noise handshake state machine (noise/handshake.rs);
    - RateLimiter.v: the limiter and its cookies (noise/rate_limiter.rs);
    - Tunn.v, Tunnel.v, TunnTimers.v: the tunnel to one peer, with its ring of
      eight sessions, its queue, its timers and its statistics (noise/mod.rs,
      noise/timers.rs); Frame.v says what its operations leave alone;
    - Lfsr.v: the generator of peer indexes (device/mod.rs);
    - Text.v, Serialization.v, Show.v: the text of the standard library, keys as
      text (serialization.rs), and how numbers and addresses are printed;
      Base64Text.v is standard base64, an instance of a parameter;
    - Export.v, Ffi.v and Jni.v: the tunnel as it is exported to other languages
      (export.rs), the C bindings (ffi/mod.rs), and the Java bindings on top of
      them (jni.rs, which lib.rs comments out at present);
    - AllowedIps.v, Peer.v: the routing table and the peers of a device
      (device/allowed_ips.rs, device/peer.rs);
    - Privileges.v, Tun.v, BsdTun.v: dropping the privileges
      (device/drop_privileges.rs), and the interfaces of Linux, macOS and BSD
      (device/tun_linux.rs, tun_darwin.rs, tun_bsd.rs);
    - Device.v: the device and its configuration operations (device/mod.rs);
    - EventPoll.v and Kqueue.v: the registry of events over epoll and over
      kqueue (device/epoll.rs, device/kqueue.rs); Registry.v is what the two
      promise, EpollRegistry.v and KqueueRegistry.v prove that they keep it;
    - Api.v and ApiServer.v: the [set] and the [get] command of the
      configuration protocol, and the handlers that serve it (device/api.rs);
    - Handlers.v: the bodies of the event handlers (device/mod.rs);
      DeviceSafe.v: the states that a device can reach, and that no handler
      panics there; DeviceDelivery.v: two devices that exchange a packet;
    - Startup.v and Handle.v: making a device with all its registrations, and
      its handle: the interfaces of the workers, waiting, dropping
      (device/mod.rs, device/api.rs);
    - IntegrationTests.v and TestPeers.v: the integration tests, with their client
      of the configuration socket, their peers in containers and their HTTP
      client (device/integration_tests/mod.rs);
    - Cli.v: what the command line reads, launches and tells
      (boringtun-cli/src/main.rs);
    - DevLock.v: the lock of the device and the loop of a worker as a step
      relation (device/dev_lock.rs, device/mod.rs);
    - EventLoop.v: the handlers as sequences of sections between which other
      workers run, on top of DevLock.v;
    - UnitTests.v: the unit tests of the program, run on these definitions.

    This file holds the monad, its weakest preconditions and the shared lemmas;
    Errors.v the error type of the tunnel.

    ** How the code is modelled

    A Rust function is a function into [M E S A]: it takes a state, and either
    panics or leaves a new state and a [result].  Mutations made before an
    error stay, as in the code.  A method on [&mut self] has the fields of
    [self] as its state; one that reads the clock or the random generator has
    the environment [env] beside it, a [Tunn] has a [world] with the limiters
    that tunnels share, a device has a heap of the peers its maps share, and
    the log of its system calls.  Integers are [Z] with the wrap-around or the
    panic of the source written out; [f32] is IEEE 754 with 24 bits, by the
    Standard Library's [SpecFloat]; byte strings are lists of bytes; a buffer
    [dst] matters by its length, and what a function leaves in the front part
    of it is what the function returns.  Sums that the source leaves unchecked
    wrap around, as in the release profile, and [usize] has 64 bits.  [HashMap]s are [gmap]s; the order in
    which the code iterates over one is a parameter ([HashOrder]).  Pointers
    that the code passes to the system, or hands out, are locations of a store,
    and following one that was freed is no result.

    Code of other crates is a parameter, given as a class: [Crypto] (BLAKE2s,
    HMAC, X25519, ChaCha20-Poly1305) with [CryptoLaws] (lengths, opening undoes
    sealing, the two sides of a key exchange agree); [NetTable] (ip_network and
    ip_network_table) with [NetTableLaws]; [Base64] with [Base64Laws]; [Hex]
    with [HexLaws]; for the Java bindings, the virtual machine ([JNIEnv] with
    [JNIEnvLaws]) and the addresses of boxes ([Boxes] with [BoxesLaws]); for the
    command line, the values that clap gives ([clap_gives]), and the process in
    which daemonize runs its action.  No law
    says that anything is secret or unforgeable: theorems about authenticity
    say that what is delivered is what the AEAD opened, under which key and
    counter.  Each class has a concrete instance, at which the witnesses apply
    the theorems.

    The system is what its manual pages say: epoll with its interest list and
    one-shot events, kqueue with its entries by identifier and filter, eventfd
    counters, the three ids of a user and a group, open descriptors.  Whether a
    call succeeds and which descriptor it gives is arbitrary, except that
    theorems on panics assume [os_ok]: the calls whose errors the code unwraps
    succeed.  The lock of parking_lot is its documentation, with the choice
    whether a reader may pass a waiting writer left open ([barging]).  The clock
    is a stream of readings, the random generator a stream of bytes.

    ** What the theorems show

    - The window (C1-C3): the bitmap implements a set of counters with an upper
      end; below [2^64 - 1024], a new counter at most 1023 behind the highest is
      accepted and any other one refused.  At the top of the range the
      code wraps, and C3 shows what happens there: which counters are refused
      or accepted wrongly, and that the loops end all the same.
    - The wire format and sessions (C4-C7): the parser accepts exactly the
      encodings; sessions round-trip, never reuse a nonce and deliver at most
      once, as long as the counter [2^64 - 1] does not come.
    - The handshake (C8-C11): two peers agree on keys and indices; the machine
      is safe under every sequence of events; an initiation is refused the second
      time, also after the key of the device was changed and changed back; the
      anonymous parser agrees with the handshake.
    - The limiter (C12-C14): the cookie exchange works end to end, a flood is
      bounded, what passes carries the right MACs.
    - The tunnel (C15-C19): it never panics, drops old keys, expires, renews its
      sessions, and writes only authentic data to the interface.
    - The device (C20-C25): as many indexes as claimed, all different; the
      routing table is a longest-prefix match; the maps of a device agree
      whatever the configuration; only authentic packets from allowed addresses
      reach the interface.  C25 composes the parts: a packet read from the
      interface of one device is written to the interface of another, through
      the handlers, the routing table, the limiters, the handshake and the
      sessions of both.  C21 shows texts of keys that read wrong or panic.
    - The threads (C26-C29): writing excludes every other use of the device; a
      thread that wants to write gets to it, within a number of steps; however
      the sections of the handlers interleave, the device stays in order, and a
      worker dies only for want of a key or a socket, or of a [set] command;
      C29 is such a command: a key that makes the parser panic under the lock
      ends the process, or stops the device where a panic unwinds.
    - The registries (C30-C32): over epoll and over kqueue they implement one
      abstract registry, with two restrictions for kqueue that are needed: C31
      shows what cancelling a signal does there, and C32 that an event
      registered over another one is lost.
    - Configuring and ending a device (C33-C37): what [get] prints, [set] reads
      back, except that a peer takes what it lacks from the one before; a
      request of a client does what its text says; a handle can be
      dropped whatever its workers did, and does not wait for anything but the
      lock; flushing a queue ends; C37 shows sockets
      that stay registered when the port changes.
    - The bindings (C38-C40): the exported tunnel, the C functions and the Java
      functions are safe for callers that keep to a contract on the sizes of
      their packets and buffers, which the theorems spell out.

    Other lemmas of interest: [no_counter_accepted_twice] (ReplayWindow.v),
    [privileges_dropped] (Privileges.v),
    [packet_delivery] and [failed_send_queues_twice] (Tunnel.v), [settings_carry_over] (Api.v),
    [datagram_before_key_panics] (DeviceSafe.v), [flush_of_long_packet_panics]
    (Export.v), [settings_read], [foreground_serves], [background_never_starts] and
    [launch_told] (Cli.v), [secret_reads_back] (Serialization.v),
    [conversions_leak] and [jni_never_frees] (Jni.v), [integration_tests_pass]
    (IntegrationTests.v), [response_read] and [container_tests_pass]
    (TestPeers.v), and the descriptors that failing calls leave open
    (Tun.v, BsdTun.v).

    ** Bounds and fuel

    Loops of the source with a bound of their own are recursion on that bound.
    The [while] loops of the window run with [2^64] turns by repeated doubling
    (every loop over a 64-bit counter that ends does so within them, and C3
    shows that all of them end).  The
    flush of a peer's queue has [FLUSH_TURNS], that is [MAX_QUEUE_DEPTH + 3],
    turns: C36 shows that it ends within them and that more change nothing.  The
    loops of the handlers recurse on the list of what their reads give.

    ** Not modelled

    - the parts of tun_bsd.rs for macOS, for which mod.rs takes tun_darwin.rs:
      they are not compiled;
    - the clock of Windows, which is the standard library's;
    - what other programs do when the integration tests run them in containers,
      the commands of macOS in these tests, the benches, and the unit tests of a
      cipher and of sleeping;
    - the generated scaffolding of UniFFI and its binary;
    - logging: subscribers and messages, except the log file that has to be
      created (Cli.v) and the writer that calls a C function (Ffi.v);
    - effects whose outcome the code ignores: the directory of the
      configuration socket and its owner, the mask of blocked signals, and the
      name file of macOS. *)

From Stdlib Require Import ZArith Lia.
From stdpp Require Export base list numbers gmap.
From coqutil Require Import Byte Word.LittleEndianList.

#[global] Open Scope Z_scope.

(** ** Outcomes of Rust code

    A Rust function either returns or panics.  What it returns may be a
    [Result]; a method on [&mut self] also leaves a new [self] behind, and the
    mutations made before an [Err] or before a [?] stay. *)

Inductive result (E A : Type) : Type :=
| Ok (a : A)
| Err (e : E).

Inductive outcome (A : Type) : Type :=
| Ret (a : A)
| Panic.

Arguments Ok {E A} a.
Arguments Err {E A} e.
Arguments Ret {A} a.
Arguments Panic {A}.

(** It returned a value. *)
Definition is_ok {E S A} (o : outcome (result E A * S)) : bool :=
  match o with Ret (Ok _, _) => true | _ => false end.

Lemma is_ok_run {E S A} (o : outcome (result E A * S)) : is_ok o = true → ∃ a s, o = Ret (Ok a, s).
Proof. destruct o as [[[a|e] s]|]; [eauto|done..]. Qed.

(** A method with state [S] whose [?] propagates errors of type [E]. *)
Definition M (E S A : Type) : Type := S → outcome (result E A * S).

Section Monad.
Context {E S : Type}.

#[export] Instance M_ret : MRet (M E S) := λ A a s, Ret (Ok a, s).

#[export] Instance M_bind : MBind (M E S) := λ A B k m s,
  match m s with
  | Ret (Ok a, s') => k a s'
  | Ret (Err e, s') => Ret (Err e, s')
  | Panic => Panic
  end.

Definition get : M E S S := λ s, Ret (Ok s, s).
Definition gets {A} (f : S → A) : M E S A := λ s, Ret (Ok (f s), s).
Definition modify (f : S → S) : M E S () := λ s, Ret (Ok (), f s).
Definition throw {A} (e : E) : M E S A := λ s, Ret (Err e, s).
Definition panic {A} : M E S A := λ _, Panic.

(** [r?] for an already computed [Result]. *)
Definition lift_result {A} (r : result E A) : M E S A := λ s, Ret (r, s).

(** [o.unwrap()] and [assert!(b)]. *)
Definition unwrap {A} (o : option A) : M E S A :=
  match o with Some a => mret a | None => panic end.
Definition assert_ (b : bool) : M E S () := if b then mret () else panic.

Definition when (b : bool) (m : M E S ()) : M E S () := if b then m else mret ().

(** Look at the [Result] of a call instead of propagating it. *)
Definition try_ {A} (m : M E S A) : M E S (result E A) := λ s,
  match m s with
  | Ret (r, s') => Ret (Ok r, s')
  | Panic => Panic
  end.
End Monad.

(** [m.map_err(f)?] *)
Definition map_err {E E' S A} (f : E → E') (m : M E S A) : M E' S A := λ s,
  match m s with
  | Ret (Ok a, s') => Ret (Ok a, s')
  | Ret (Err e, s') => Ret (Err (f e), s')
  | Panic => Panic
  end.

(** [for x in xs { body(x) }] with early exit on an error. *)
Fixpoint for_each {E S A} (xs : list A) (body : A → M E S ()) : M E S () :=
  match xs with
  | [] => mret ()
  | x :: xs' => _ ← body x; for_each xs' body
  end.

(** Run a method whose errors the caller looks at, in a caller with other errors. *)
Definition attempt {E E' S A} (m : M E S A) : M E' S (result E A) := λ s,
  match m s with
  | Ret (r, s') => Ret (Ok r, s')
  | Panic => Panic
  end.

(** Call a method of a local object. *)
Definition on_local {E S T A} (t : T) (m : M E T A) : M E S (A * T) := λ s,
  match m t with
  | Ret (Ok a, t') => Ret (Ok (a, t'), s)
  | Ret (Err e, _) => Ret (Err e, s)
  | Panic => Panic
  end.

(** Run a method of a component that is a part of a bigger state. *)
Definition zoom {E S T A} (proj : S → T) (upd : T → S → S) (m : M E T A) : M E S A := λ s,
  match m (proj s) with
  | Ret (r, t) => Ret (r, upd t s)
  | Panic => Panic
  end.

(** ** Weakest preconditions

    [wp m Q s] says that [m], started in [s], does not panic and that its
    [Result] and final state satisfy [Q]. *)

Definition wp {E S A} (m : M E S A) (Q : result E A → S → Prop) (s : S) : Prop :=
  match m s with
  | Ret (r, s') => Q r s'
  | Panic => False
  end.

Section WpRules.
Context {E S : Type}.
Implicit Types s : S.

Lemma wp_elim {A} (m : M E S A) Q s : wp m Q s → ∃ r s', m s = Ret (r, s') ∧ Q r s'.
Proof. unfold wp. destruct (m s) as [[r s']|]; [eauto | done]. Qed.

Lemma wp_intro {A} (m : M E S A) (Q : result E A → S → Prop) s r s' :
  m s = Ret (r, s') → Q r s' → wp m Q s.
Proof. unfold wp. by intros ->. Qed.

Lemma wp_mono {A} (m : M E S A) (Q Q' : result E A → S → Prop) s :
  wp m Q s → (∀ r s', Q r s' → Q' r s') → wp m Q' s.
Proof. unfold wp. destruct (m s) as [[r s']|]; naive_solver. Qed.

Lemma wp_ret {A} (a : A) (Q : result E A → S → Prop) s : Q (Ok a) s → wp (mret a) Q s.
Proof. done. Qed.

Lemma wp_bind {A B} (m : M E S A) (k : A → M E S B) Q s :
  wp m (λ r s', match r with Ok a => wp (k a) Q s' | Err e => Q (Err e) s' end) s →
  wp (m ≫= k) Q s.
Proof. unfold wp, mbind, M_bind. by destruct (m s) as [[[a|e] s']|]. Qed.

Lemma wp_gets {A} (f : S → A) (Q : result E A → S → Prop) s :
  Q (Ok (f s)) s → wp (gets f) Q s.
Proof. done. Qed.

Lemma wp_modify f (Q : result E () → S → Prop) s : Q (Ok ()) (f s) → wp (modify f) Q s.
Proof. done. Qed.

Lemma wp_throw {A} e (Q : result E A → S → Prop) s : Q (Err e) s → wp (throw e) Q s.
Proof. done. Qed.

Lemma wp_lift_result {A} r (Q : result E A → S → Prop) s : Q r s → wp (lift_result r) Q s.
Proof. done. Qed.

Lemma wp_unwrap {A} (o : option A) (Q : result E A → S → Prop) s a :
  o = Some a → Q (Ok a) s → wp (unwrap o) Q s.
Proof. by intros ->. Qed.

Lemma wp_assert b (Q : result E () → S → Prop) s :
  b = true → Q (Ok ()) s → wp (assert_ b) Q s.
Proof. by intros ->. Qed.

Lemma wp_when b (m : M E S ()) (Q : result E () → S → Prop) s :
  (b = true → wp m Q s) → (b = false → Q (Ok ()) s) → wp (when b m) Q s.
Proof. destruct b; naive_solver. Qed.

Lemma wp_try {A} (m : M E S A) (Q : result E (result E A) → S → Prop) s :
  wp m (λ r s', Q (Ok r) s') s → wp (try_ m) Q s.
Proof. unfold wp, try_. by destruct (m s) as [[r s']|]. Qed.
End WpRules.

Lemma wp_zoom {E S T A} (proj : S → T) upd (m : M E T A) (Q : result E A → S → Prop) s :
  wp m (λ r t, Q r (upd t s)) (proj s) → wp (zoom proj upd m) Q s.
Proof. unfold wp, zoom. by destruct (m (proj s)) as [[r t]|]. Qed.

Lemma wp_map_err {E E' S A} (f : E → E') (m : M E S A) (Q : result E' A → S → Prop) s :
  wp m (λ r s', Q (match r with Ok a => Ok a | Err e => Err (f e) end) s') s → wp (map_err f m) Q s.
Proof. unfold wp, map_err. by destruct (m s) as [[[a|e] s']|]. Qed.

Lemma wp_attempt {E E' S A} (m : M E S A) (Q : result E' (result E A) → S → Prop) s :
  wp m (λ r s', Q (Ok r) s') s → wp (attempt m) Q s.
Proof. unfold wp, attempt. by destruct (m s) as [[r s']|]. Qed.

(** An invariant of the turns of a loop that do not fail. *)
Lemma wp_for_each {E S A} (I : S → Prop) (xs : list A) (body : A → M E S ()) s :
  I s → (∀ x s, x ∈ xs → I s → wp (body x) (λ r s', r = Ok () ∧ I s') s) →
  wp (for_each xs body) (λ r s', r = Ok () ∧ I s') s.
Proof.
  revert s. induction xs as [|x xs IH]; intros s Hs Hbody; cbn; [done|].
  apply wp_bind. eapply wp_mono; [apply Hbody; [by left|done]|].
  intros r s' [-> Hs']. apply IH; [done|]. intros y t Hy. apply Hbody. by right.
Qed.

(** ** Relations every run keeps

    [preserves R m]: a run of [m] that does not panic, whatever its [Result],
    ends in a state related to the first one. *)

Definition preserves {E S A} (R : S → S → Prop) (m : M E S A) : Prop :=
  ∀ s r s', m s = Ret (r, s') → R s s'.

Section PreservesRules.
Context {E S : Type} (R : S → S → Prop) `{!PreOrder R}.

Lemma pres_ret {A} (a : A) : preserves R (mret (M := M E S) a).
Proof. by intros s r s' [= <- <-]. Qed.

Lemma pres_throw {A} e : preserves (E := E) (A := A) R (throw e).
Proof. by intros s r s' [= <- <-]. Qed.

Lemma pres_panic {A} : preserves (E := E) (A := A) R panic.
Proof. by intros s r s' [=]. Qed.

Lemma pres_gets {A} (f : S → A) : preserves (E := E) R (gets f).
Proof. by intros s r s' [= <- <-]. Qed.

Lemma pres_bind {A B} (m : M E S A) (k : A → M E S B) :
  preserves R m → (∀ a, preserves R (k a)) → preserves R (m ≫= k).
Proof.
  intros Hm Hk s r s'. unfold mbind, M_bind. destruct (m s) as [[[a|e] s1]|] eqn:He; [| |done].
  - intros Hr. etransitivity; [by eapply Hm|by eapply Hk].
  - intros [= <- <-]. by eapply Hm.
Qed.

Lemma pres_modify f : (∀ s, R s (f s)) → preserves (E := E) R (modify f).
Proof. by intros Hf s r s' [= <- <-]. Qed.

Lemma pres_assert b : preserves (E := E) R (assert_ b).
Proof. intros s r s'. destruct b; [by intros [= <- <-]|done]. Qed.

Lemma pres_unwrap {A} (o : option A) : preserves (E := E) R (unwrap o).
Proof. intros s r s'. destruct o; [by intros [= <- <-]|done]. Qed.

Lemma pres_try {A} (m : M E S A) : preserves R m → preserves R (try_ m).
Proof. intros Hm s r s'. unfold try_. destruct (m s) as [[? ?]|] eqn:He; [|done]. intros [= <- <-]. by eapply Hm. Qed.

Lemma pres_lift_result {A} (r : result E A) : preserves R (lift_result r).
Proof. by intros s x s' [= <- <-]. Qed.

Lemma pres_attempt {E' A} (m : M E' S A) : preserves R m → preserves (E := E) R (attempt m).
Proof. intros Hm s r s'. unfold attempt. destruct (m s) as [[? ?]|] eqn:He; [|done]. intros [= <- <-]. by eapply Hm. Qed.

Lemma pres_for_each {A} (xs : list A) (body : A → M E S ()) :
  (∀ x, preserves R (body x)) → preserves R (for_each xs body).
Proof. intros Hb. induction xs; cbn; [apply pres_ret|by apply pres_bind]. Qed.
End PreservesRules.

Lemma pres_zoom {E S T A} (R : S → S → Prop) (proj : S → T) upd (m : M E T A) :
  (∀ s t, R s (upd t s)) → preserves R (zoom proj upd m).
Proof. intros Hu s r s'. unfold zoom. destruct (m (proj s)) as [[? ?]|]; [|done]. by intros [= <- <-]. Qed.

Lemma pres_zoom_rel {E S T A} (R : S → S → Prop) (Q : T → T → Prop) (proj : S → T) upd (m : M E T A) :
  preserves Q m → (∀ s t, Q (proj s) t → R s (upd t s)) → preserves R (zoom proj upd m).
Proof.
  intros Hm Hu s r s'. unfold zoom. destruct (m (proj s)) as [[? ?]|] eqn:He; [|done].
  intros [= <- <-]. apply Hu. by eapply Hm.
Qed.

(** A call whose errors are translated. *)
Lemma pres_map_err {E E' S A} (R : S → S → Prop) (f : E → E') (m : M E S A) :
  preserves R m → preserves R (map_err f m).
Proof. intros Hm s r s'. unfold map_err. destruct (m s) as [[[a|e] s1]|] eqn:He; [..|done]; intros [= _ <-]; by eapply Hm. Qed.

Create HintDb preserves.

(** Go through the program; what is left are the calls no hint knows. *)
Ltac pres_step :=
  match goal with
  | |- preserves _ (_ ≫= _) => apply pres_bind; [try typeclasses eauto| |intros ?]
  | |- preserves _ (match ?x with _ => _ end) => destruct x
  | |- preserves _ (mret _) => apply pres_ret; try typeclasses eauto
  | |- preserves _ (throw _) => apply pres_throw; try typeclasses eauto
  | |- preserves _ panic => apply pres_panic
  | |- preserves _ (gets _) => apply pres_gets; try typeclasses eauto
  | |- preserves _ (assert_ _) => apply pres_assert; try typeclasses eauto
  | |- preserves _ (unwrap _) => apply pres_unwrap; try typeclasses eauto
  | |- preserves _ (lift_result _) => apply pres_lift_result; try typeclasses eauto
  | |- preserves _ (map_err _ _) => apply pres_map_err
  | |- preserves _ (attempt _) => apply pres_attempt
  | |- preserves _ (try_ _) => apply pres_try
  | |- preserves _ (for_each _ _) => apply pres_for_each; [try typeclasses eauto|intros ?]
  | |- preserves _ _ => solve [eauto with preserves]
  end.
Ltac pres := repeat pres_step.

(** ** Values

    [yields P m] says that a value [m] returns satisfies [P]. *)

Definition yields {E S A} (P : A → Prop) (m : M E S A) : Prop :=
  ∀ s a s', m s = Ret (Ok a, s') → P a.

Section YieldsRules.
Context {E S : Type}.

Lemma yields_ret {A} (P : A → Prop) a : P a → yields P (mret (M := M E S) a).
Proof. by intros Hp s b s' [= <- <-]. Qed.

Lemma yields_throw {A} (P : A → Prop) e : yields P (@throw E S A e).
Proof. by intros s a s' [=]. Qed.

Lemma yields_panic {A} (P : A → Prop) : yields P (@panic E S A).
Proof. by intros s a s' [=]. Qed.

Lemma yields_bind {A B} (Q : A → Prop) (P : B → Prop) (m : M E S A) (k : A → M E S B) :
  yields Q m → (∀ a, Q a → yields P (k a)) → yields P (m ≫= k).
Proof.
  intros Hm Hk s b s'. unfold mbind, M_bind. destruct (m s) as [[[a|e] s1]|] eqn:He; [|done..].
  apply Hk. by eapply Hm.
Qed.

Lemma yields_then {A B} (P : B → Prop) (m : M E S A) (k : A → M E S B) :
  (∀ a, yields P (k a)) → yields P (m ≫= k).
Proof. intros Hk. by apply (yields_bind (λ _, True)). Qed.

Lemma yields_mono {A} (P Q : A → Prop) (m : M E S A) : yields P m → (∀ a, P a → Q a) → yields Q m.
Proof. intros Hm Hpq s a s' Hr. eapply Hpq, Hm, Hr. Qed.

Lemma yields_assert {A} (P : A → Prop) b (k : () → M E S A) :
  (b = true → yields P (k ())) → yields P (assert_ b ≫= k).
Proof. intros Hk s a s'. destruct b; [by apply Hk|done]. Qed.

Lemma yields_attempt {E' A} (P : A → Prop) (m : M E' S A) :
  yields P m → yields (E := E) (λ r, match r with Ok a => P a | Err _ => True end) (attempt m).
Proof.
  intros Hm s r s'. unfold attempt. destruct (m s) as [[[a|e] s1]|] eqn:He; [..|done].
  - intros [= <- <-]. by eapply Hm.
  - by intros [= <- <-].
Qed.

Lemma yields_zoom {T A} (P : A → Prop) (proj : S → T) upd (m : M E T A) :
  yields P m → yields P (zoom proj upd m).
Proof.
  intros Hm s a s'. unfold zoom. destruct (m (proj s)) as [[r t]|] eqn:He; [|done].
  intros [= -> <-]. by eapply Hm.
Qed.

Lemma yields_on_local {T A} (P : A → Prop) (t : T) (m : M E T A) :
  yields P m → yields (λ x, P x.1) (on_local (S := S) t m).
Proof.
  intros Hm s a s'. unfold on_local. destruct (m t) as [[[b|e] t']|] eqn:He; [|done..].
  intros [= <- <-]. by eapply Hm.
Qed.
End YieldsRules.

(** Running a program one call at a time. *)
Section RunRules.
Context {E S : Type}.

Lemma bind_ok {A B} (m : M E S A) (k : A → M E S B) s a s' :
  m s = Ret (Ok a, s') → (m ≫= k) s = k a s'.
Proof. unfold mbind, M_bind. by intros ->. Qed.

Lemma bind_ext {A B} (m : M E S A) (k k' : A → M E S B) s :
  (∀ a s, k a s = k' a s) → (m ≫= k) s = (m ≫= k') s.
Proof. intros Hk. unfold mbind, M_bind. destruct (m s) as [[[a|e] s']|]; [apply Hk|done..]. Qed.

Lemma bind_inv {A B} (m : M E S A) (k : A → M E S B) s b s' :
  (m ≫= k) s = Ret (Ok b, s') → ∃ a s1, m s = Ret (Ok a, s1) ∧ k a s1 = Ret (Ok b, s').
Proof. unfold mbind, M_bind. destruct (m s) as [[[a|e] s1]|]; [eauto|done..]. Qed.

Lemma bind_any_inv {A B} (m : M E S A) (k : A → M E S B) s r s' :
  (m ≫= k) s = Ret (r, s') →
  (∃ a s1, m s = Ret (Ok a, s1) ∧ k a s1 = Ret (r, s')) ∨ (∃ e, m s = Ret (Err e, s') ∧ r = Err e).
Proof.
  unfold mbind, M_bind. destruct (m s) as [[[a|e] s1]|]; [eauto| |done].
  intros [= <- <-]. right. eauto.
Qed.

Lemma assert_true b (s : S) : b = true → @assert_ E S b s = Ret (Ok (), s).
Proof. by intros ->. Qed.

Lemma zoom_run {T A} (proj : S → T) upd (m : M E T A) s r t :
  m (proj s) = Ret (r, t) → zoom proj upd m s = Ret (r, upd t s).
Proof. unfold zoom. by intros ->. Qed.

End RunRules.

Lemma attempt_run {E E' S A} (m : M E S A) s r s' :
  m s = Ret (r, s') → @attempt E E' S A m s = Ret (Ok r, s').
Proof. unfold attempt. by intros ->. Qed.

Ltac run_ok := erewrite bind_ok by reflexivity; cbn beta.
Ltac run_oks := repeat run_ok.

(** One step of the calculus, chosen by the head of the program. *)
Ltac wp_step :=
  lazymatch goal with
  | |- wp (mret _) _ _ => apply wp_ret
  | |- wp (_ ≫= _) _ _ => apply wp_bind
  | |- wp (gets _) _ _ => apply wp_gets
  | |- wp (modify _) _ _ => apply wp_modify
  | |- wp (throw _) _ _ => apply wp_throw
  | |- wp (lift_result _) _ _ => apply wp_lift_result
  | |- wp (try_ _) _ _ => apply wp_try
  | |- wp (zoom _ _ _) _ _ => apply wp_zoom
  | |- wp (map_err _ _) _ _ => apply wp_map_err
  | |- wp (attempt _) _ _ => apply wp_attempt
  | |- wp (when _ _) _ _ => apply wp_when; intro
  | |- wp (if ?b then _ else _) _ _ => destruct b eqn:?
  end; cbn beta iota.
(** ** Machine integers

    A [w]-bit unsigned integer is a [Z] in [0, 2^w).  The arithmetic operators
    of a release build wrap around (the workspace's profiles do not enable
    overflow checks); [wrap w] is that reduction. *)

Definition wrap (w z : Z) : Z := z mod 2 ^ w.
Definition in_width (w z : Z) : Prop := 0 ≤ z < 2 ^ w.

Lemma wrap_in_width w z : 0 ≤ w → in_width w (wrap w z).
Proof. intros ?. apply Z.mod_pos_bound. by apply Z.pow_pos_nonneg. Qed.

Lemma wrap_small w z : in_width w z → wrap w z = z.
Proof. apply Z.mod_small. Qed.

(** ** Bytes, words and buffers *)

#[global] Instance byte_eq_dec : EqDecision byte := Byte.byte_eq_dec.

#[global] Program Instance byte_countable : Countable byte :=
  inj_countable' byte.unsigned byte.of_Z _.
Next Obligation. apply byte.of_Z_unsigned. Qed.

Definition to_le_bytes (n : nat) (z : Z) : list byte := le_split n z.
Definition from_le_bytes (bs : list byte) : Z := le_combine bs.
Definition to_be_bytes (n : nat) (z : Z) : list byte := rev (le_split n z).
Definition from_be_bytes (bs : list byte) : Z := le_combine (rev bs).

Lemma length_to_le_bytes n z : length (to_le_bytes n z) = n.
Proof. apply length_le_split. Qed.

Lemma length_to_be_bytes n z : length (to_be_bytes n z) = n.
Proof. unfold to_be_bytes. rewrite length_rev. apply length_le_split. Qed.

Lemma from_to_le_bytes n z :
  in_width (Z.of_nat n * 8) z → from_le_bytes (to_le_bytes n z) = z.
Proof.
  intros ?. unfold from_le_bytes, to_le_bytes. rewrite le_combine_split.
  by apply wrap_small.
Qed.

Lemma to_from_le_bytes n bs : length bs = n → to_le_bytes n (from_le_bytes bs) = bs.
Proof. apply split_le_combine'. Qed.

Lemma from_le_bytes_width n bs :
  length bs = n → in_width (Z.of_nat n * 8) (from_le_bytes bs).
Proof.
  intros <-. unfold from_le_bytes, in_width. rewrite Z.mul_comm. apply le_combine_bound.
Qed.

Lemma from_to_be_bytes n z :
  in_width (Z.of_nat n * 8) z → from_be_bytes (to_be_bytes n z) = z.
Proof.
  intros ?. unfold from_be_bytes, to_be_bytes. rewrite rev_involutive.
  by apply from_to_le_bytes.
Qed.

Lemma from_be_bytes_width n bs :
  length bs = n → in_width (Z.of_nat n * 8) (from_be_bytes bs).
Proof. intros <-. apply from_le_bytes_width. by rewrite length_rev. Qed.

Lemma to_from_be_bytes n bs : length bs = n → to_be_bytes n (from_be_bytes bs) = bs.
Proof.
  intros Hlen. unfold to_be_bytes, from_be_bytes.
  rewrite split_le_combine'; [apply rev_involutive | by rewrite length_rev].
Qed.

(** [buf[a..b]], for a range that the code has checked. *)
Definition slice {A} (a b : nat) (l : list A) : list A := take (b - a) (drop a l).

(** [buf[off..off + src.len()].copy_from_slice(src)], for a range in bounds. *)
Definition copy_at {A} (off : nat) (src buf : list A) : list A :=
  take off buf ++ src ++ drop (off + length src) buf.

Arguments slice : simpl never.
Arguments copy_at : simpl never.

Lemma length_slice {A} a b (l : list A) :
  (b ≤ length l)%nat → length (slice a b l) = (b - a)%nat.
Proof. intros ?. unfold slice. rewrite length_take, length_drop. lia. Qed.

Lemma slice_app_skip {A} a b (l1 l2 : list A) :
  (length l1 ≤ a)%nat → slice a b (l1 ++ l2) = slice (a - length l1) (b - length l1) l2.
Proof.
  intros ?. unfold slice. rewrite drop_app_ge by lia. f_equal. lia.
Qed.

Lemma slice_app_exact {A} b (l1 l2 : list A) : length l1 = b → slice 0 b (l1 ++ l2) = l1.
Proof. intros <-. unfold slice. rewrite drop_0, Nat.sub_0_r. apply take_app_length. Qed.

Lemma slice_full {A} b (l : list A) : length l = b → slice 0 b l = l.
Proof. intros <-. unfold slice. rewrite drop_0, Nat.sub_0_r. by apply firstn_all. Qed.

Lemma length_copy_at {A} off (src buf : list A) :
  (off + length src ≤ length buf)%nat → length (copy_at off src buf) = length buf.
Proof. intros ?. unfold copy_at. rewrite !length_app, length_take, length_drop. lia. Qed.

(** Filling a buffer from the front, piece after piece, leaves the pieces. *)
Lemma copy_at_filled {A} off (done src rest : list A) :
  length done = off → (length src ≤ length rest)%nat →
  copy_at off src (done ++ rest) = (done ++ src) ++ drop (length src) rest.
Proof.
  intros <- ?. unfold copy_at. rewrite take_app_length, drop_app_ge by lia.
  rewrite <-app_assoc. do 3 f_equal. lia.
Qed.

(** ** Loops

    [while_ cond body s] is [while cond { body }], cut after [2^64] turns.  The
    turns are counted by doubling, so that a loop that ends early is evaluated
    early; no loop of the program that counts with a 64-bit integer takes more.
    [while_total] is the total-correctness rule: with a measure below [2^64],
    the invariant holds at the end and the guard is false. *)

Inductive turn (S : Type) : Type :=
| Stop (s : S)
| Go (s : S).

Arguments Stop {S} s.
Arguments Go {S} s.

(** Up to [2^n] turns. *)
Fixpoint turns {S} (n : nat) (cond : S → bool) (body : S → S) (s : S) : turn S :=
  match n with
  | O => if cond s then Go (body s) else Stop s
  | Datatypes.S n' =>
    match turns n' cond body s with
    | Stop s' => Stop s'
    | Go s' => turns n' cond body s'
    end
  end.

Definition while_ {S} (cond : S → bool) (body : S → S) (s : S) : S :=
  match turns 64 cond body s with Stop s' | Go s' => s' end.

Section Loops.
Context {S : Type} (I : S → Prop) (cond : S → bool) (body : S → S).

Lemma turns_total (measure : S → Z) n s :
  I s →
  (∀ s, I s → cond s = true → I (body s) ∧ 0 ≤ measure (body s) < measure s) →
  match turns n cond body s with
  | Stop s' => I s' ∧ cond s' = false
  | Go s' => I s' ∧ 0 ≤ measure s' ≤ measure s - 2 ^ Z.of_nat n
  end.
Proof.
  intros Hs Hstep. revert s Hs. induction n as [|n IH]; intros s Hs; cbn [turns].
  - destruct (cond s) eqn:Hc; [|done]. destruct (Hstep s Hs Hc) as (? & ? & ?). cbn. split; [done|lia].
  - specialize (IH s Hs) as Hn. destruct (turns n cond body s) as [s1|s1]; [done|].
    destruct Hn as [Hs1 Hm1]. specialize (IH s1 Hs1).
    destruct (turns n cond body s1); [done|]. destruct IH as [? ?]. split; [done|].
    rewrite Nat2Z.inj_succ, Z.pow_succ_r by lia. lia.
Qed.

Lemma while_total (measure : S → Z) s :
  I s → measure s < 2 ^ 64 →
  (∀ s, I s → cond s = true → I (body s) ∧ 0 ≤ measure (body s) < measure s) →
  I (while_ cond body s) ∧ cond (while_ cond body s) = false.
Proof.
  intros Hs Hm Hstep. pose proof (turns_total measure 64 s Hs Hstep) as Ht. unfold while_.
  destruct (turns 64 cond body s); [done|]. change (2 ^ Z.of_nat 64) with (2 ^ 64) in Ht. lia.
Qed.

(** An invariant alone. *)
Lemma turns_inv n s :
  I s → (∀ s, I s → cond s = true → I (body s)) →
  match turns n cond body s with Stop s' | Go s' => I s' end.
Proof.
  intros Hs Hstep. revert s Hs. induction n as [|n IH]; intros s Hs; cbn [turns].
  - destruct (cond s) eqn:Hc; auto.
  - specialize (IH s Hs) as Hn. destruct (turns n cond body s) as [s1|s1]; [done|]. by apply IH.
Qed.

Lemma while_inv s : I s → (∀ s, I s → cond s = true → I (body s)) → I (while_ cond body s).
Proof. intros Hs Hstep. unfold while_. pose proof (turns_inv 64 s Hs Hstep). by case_match. Qed.
End Loops.

(** ** Bits of machine words *)

Lemma testbit_wrap w z i :
  0 ≤ w → 0 ≤ i → Z.testbit (wrap w z) i = Z.testbit z i && (i <? w).
Proof.
  intros ??. unfold wrap. destruct (Z.ltb_spec i w).
  - rewrite Z.mod_pow2_bits_low, andb_true_r by lia. done.
  - rewrite Z.mod_pow2_bits_high, andb_false_r by lia. done.
Qed.

Lemma testbit_shiftl_1 b i :
  0 ≤ b → 0 ≤ i → Z.testbit (Z.shiftl 1 b) i = (i =? b).
Proof.
  intros ??. rewrite Z.shiftl_1_l.
  destruct (Z.eqb_spec i b) as [->|]; [by apply Z.pow2_bits_true|].
  apply Z.pow2_bits_false. lia.
Qed.

Lemma shiftr_land_1 z b : 0 ≤ b → (Z.land (Z.shiftr z b) 1 =? 1) = Z.testbit z b.
Proof.
  intros ?. change 1 with (Z.ones 1) at 1.
  rewrite Z.land_ones, <-Z.bit0_mod, Z.shiftr_spec, Z.add_0_l by lia.
  by destruct (Z.testbit z b).
Qed.

Lemma in_width_bits w x y :
  0 ≤ w → in_width w x → in_width w y →
  (∀ i, 0 ≤ i < w → Z.testbit x i = Z.testbit y i) → x = y.
Proof.
  intros ? Hx Hy Hbits. apply Z.bits_inj'. intros i ?.
  destruct (Z.lt_ge_cases i w); [apply Hbits; lia|].
  rewrite <-(wrap_small w x), <-(wrap_small w y) by done. unfold wrap.
  by rewrite !Z.mod_pow2_bits_high by lia.
Qed.

Lemma in_width_lor w x y : in_width w x → in_width w y → in_width w (Z.lor x y).
Proof.
  intros [Hx1 Hx2] [Hy1 Hy2]. split; [by apply Z.lor_nonneg|].
  assert (Hw : 0 ≤ w) by (destruct (Z.lt_ge_cases w 0); [rewrite Z.pow_neg_r in Hx2; lia | lia]).
  destruct (Z.eq_dec x 0) as [->|]; [done|]. destruct (Z.eq_dec y 0) as [->|].
  { by rewrite Z.lor_0_r. }
  assert (Z.lor x y ≠ 0) by (rewrite Z.lor_eq_0_iff; lia).
  apply Z.log2_lt_pow2; [pose proof (proj2 (Z.lor_nonneg x y)); lia|].
  rewrite Z.log2_lor by lia. apply Z.max_lub_lt; apply Z.log2_lt_pow2; lia.
Qed.

Lemma in_width_land_l w x y : 0 ≤ y → in_width w x → in_width w (Z.land x y).
Proof.
  intros ? [Hx1 Hx2]. split; [apply Z.land_nonneg; auto|].
  eapply Z.le_lt_trans; [|done]. apply Z.ldiff_le; [done|].
  apply Z.bits_inj'. intros i ?. rewrite Z.ldiff_spec, Z.land_spec, Z.bits_0.
  by destruct (Z.testbit x i), (Z.testbit y i).
Qed.

(** Linear arithmetic with division and remainder by constants. *)
Ltac dlia := Z.div_mod_to_equations; lia.

Lemma copy_at_0 {A} (src buf : list A) : copy_at 0 src buf = src ++ drop (length src) buf.
Proof. done. Qed.

(** The same with the length of the first part given by an equation. *)
Lemma slice_skip {A} n a b (l1 l2 : list A) :
  length l1 = n → (n ≤ a)%nat → slice a b (l1 ++ l2) = slice (a - n) (b - n) l2.
Proof. intros <-. apply slice_app_skip. Qed.

Lemma drop_skip {A} n a (l1 l2 : list A) :
  length l1 = n → (n ≤ a)%nat → drop a (l1 ++ l2) = drop (a - n) l2.
Proof. intros <- ?. by rewrite drop_app_ge. Qed.

Lemma drop_slice {A} a b (l : list A) : (a ≤ b)%nat → drop a l = slice a b l ++ drop b l.
Proof.
  intros ?. unfold slice. rewrite <-(take_drop (b - a) (drop a l)) at 1.
  rewrite drop_drop. do 2 f_equal. lia.
Qed.
