(* ===== verification/Errors.v ===== *)
(** * The error type of the protocol core (noise/errors.rs) *)

From S2P Require Import Prelude.

Inductive WireGuardError : Type :=
| DestinationBufferTooSmall
| IncorrectPacketLength
| UnexpectedPacket
| WrongPacketType
| WrongIndex
| WrongKey
| WrongTai64nTimestamp
| InvalidMac
| InvalidAeadTag
| InvalidCounter
| DuplicateCounter
| InvalidPacket
| NoCurrentSession
| LockFailed
| ConnectionExpired
| UnderLoad.

#[global] Instance WireGuardError_eq_dec : EqDecision WireGuardError.
Proof. solve_decision. Defined.
