(* ===== verification/ReplayWindow.v ===== *)
(** * The replay window of a session (noise/session.rs, lines 33-156)

    [ReceivingKeyCounterValidator] keeps a bitmap of the last [N_BITS] packet
    counters and the value after the highest one.  The file translates its
    methods, gives an abstract specification (the set of all counters accepted
    so far) and proves that the bitmap implements it. *)

From S2P Require Import Prelude Errors.

Definition WORD_SIZE : Z := 64.
Definition N_WORDS : Z := 16.
Definition N_BITS : Z := WORD_SIZE * N_WORDS.

Module Validator.

Record ReceivingKeyCounterValidator := Validator {
  next : Z;
  receive_cnt : Z;
  bitmap : list Z;
}.

(** [#[derive(Default)]] *)
Definition default : ReceivingKeyCounterValidator :=
  Validator 0 0 (replicate (Z.to_nat N_WORDS) 0).

Definition with_next (n : Z) (v : ReceivingKeyCounterValidator) :=
  Validator n v.(receive_cnt) v.(bitmap).
Definition with_receive_cnt (n : Z) (v : ReceivingKeyCounterValidator) :=
  Validator v.(next) n v.(bitmap).
Definition with_bitmap (b : list Z) (v : ReceivingKeyCounterValidator) :=
  Validator v.(next) v.(receive_cnt) b.

(** [!x] on a [u64]. *)
Definition u64_not (x : Z) : Z := wrap 64 (Z.lnot x).

Definition set_bit (idx : Z) (v : ReceivingKeyCounterValidator) :=
  let bit_idx := idx mod N_BITS in
  let word := Z.to_nat (bit_idx / WORD_SIZE) in
  let bit := bit_idx mod WORD_SIZE in
  with_bitmap (alter (λ w, Z.lor w (Z.shiftl 1 bit)) word v.(bitmap)) v.

Definition clear_bit (idx : Z) (v : ReceivingKeyCounterValidator) :=
  let bit_idx := idx mod N_BITS in
  let word := Z.to_nat (bit_idx / WORD_SIZE) in
  let bit := bit_idx mod WORD_SIZE in
  with_bitmap (alter (λ w, Z.land w (u64_not (Z.shiftl 1 bit))) word v.(bitmap)) v.

Definition clear_word (idx : Z) (v : ReceivingKeyCounterValidator) :=
  let bit_idx := idx mod N_BITS in
  let word := Z.to_nat (bit_idx / WORD_SIZE) in
  with_bitmap (<[word := 0]> v.(bitmap)) v.

Definition check_bit (idx : Z) (v : ReceivingKeyCounterValidator) : bool :=
  let bit_idx := idx mod N_BITS in
  let word := Z.to_nat (bit_idx / WORD_SIZE) in
  let bit := bit_idx mod WORD_SIZE in
  Z.land (Z.shiftr (v.(bitmap) !!! word) bit) 1 =? 1.

Definition will_accept (counter : Z) (v : ReceivingKeyCounterValidator) :
    result WireGuardError () :=
  if v.(next) <=? counter then Ok ()
  else if wrap 64 (counter + N_BITS) <? v.(next) then Err InvalidCounter
  else if check_bit counter v then Err DuplicateCounter
  else Ok ().

(** The three loops of [mark_did_receive] that clear the bits of the skipped
    counters, on the loop variable [i] and the validator. *)
Definition boundary_cond (counter : Z) (st : Z * ReceivingKeyCounterValidator) : bool :=
  negb (st.1 mod WORD_SIZE =? 0) && (st.1 <? counter).
Definition bit_body (st : Z * ReceivingKeyCounterValidator) : Z * ReceivingKeyCounterValidator :=
  (wrap 64 (st.1 + 1), clear_bit st.1 st.2).
Definition clear_to_word_boundary (counter : Z) := while_ (boundary_cond counter) bit_body.

Definition words_cond (counter : Z) (st : Z * ReceivingKeyCounterValidator) : bool :=
  wrap 64 (st.1 + WORD_SIZE) <? counter.
Definition words_body (st : Z * ReceivingKeyCounterValidator) : Z * ReceivingKeyCounterValidator :=
  (Z.land (wrap 64 (st.1 + WORD_SIZE)) (wrap 64 (0 - WORD_SIZE)), clear_word st.1 st.2).
Definition clear_whole_words (counter : Z) := while_ (words_cond counter) words_body.

Definition remaining_cond (counter : Z) (st : Z * ReceivingKeyCounterValidator) : bool :=
  st.1 <? counter.
Definition clear_remaining_bits (counter : Z) := while_ (remaining_cond counter) bit_body.

Definition clear_skipped (counter : Z) (v : ReceivingKeyCounterValidator) :
    Z * ReceivingKeyCounterValidator :=
  clear_remaining_bits counter
    (clear_whole_words counter
      (clear_to_word_boundary counter (v.(next), v))).

Definition mark_did_receive (counter : Z) (v : ReceivingKeyCounterValidator) :
    result WireGuardError () * ReceivingKeyCounterValidator :=
  if wrap 64 (counter + N_BITS) <? v.(next) then (Err InvalidCounter, v)
  else if counter =? v.(next) then
    (Ok (), with_next (wrap 64 (v.(next) + 1)) (set_bit counter v))
  else if counter <? v.(next) then
    if check_bit counter v then (Err InvalidCounter, v)
    else (Ok (), set_bit counter v)
  else
    let v' :=
      if N_BITS <=? counter - v.(next)
      then with_bitmap ((λ _, 0) <$> v.(bitmap)) v
      else (clear_skipped counter v).2 in
    (Ok (), with_next (wrap 64 (counter + 1)) (set_bit counter v')).

(** ** The bitmap, bit by bit *)

Definition bit (v : ReceivingKeyCounterValidator) (p : Z) : bool :=
  Z.testbit (v.(bitmap) !!! Z.to_nat (p / WORD_SIZE)) (p mod WORD_SIZE).

Definition pos (p : Z) : Prop := 0 ≤ p < N_BITS.

(** The type invariant: sixteen 64-bit words and 64-bit counters. *)
Record wf (v : ReceivingKeyCounterValidator) : Prop := {
  wf_words : length v.(bitmap) = Z.to_nat N_WORDS;
  wf_width : Forall (in_width 64) v.(bitmap);
  wf_next : in_width 64 v.(next);
  wf_cnt : in_width 64 v.(receive_cnt);
}.

Lemma pos_mod idx : pos (idx mod N_BITS).
Proof. by apply Z.mod_pos_bound. Qed.

Lemma u64_not_width x : in_width 64 (u64_not x).
Proof. by apply wrap_in_width. Qed.

Lemma shiftl_1_width b : 0 ≤ b < WORD_SIZE → in_width 64 (Z.shiftl 1 b).
Proof.
  intros ?. rewrite Z.shiftl_1_l. split; [by apply Z.pow_nonneg|].
  apply Z.pow_lt_mono_r; unfold WORD_SIZE in *; lia.
Qed.

Lemma check_bit_spec idx v : check_bit idx v = bit v (idx mod N_BITS).
Proof. unfold check_bit, bit. apply shiftr_land_1. by apply Z.mod_pos_bound. Qed.

Lemma same_pos p q :
  pos p → pos q →
  Z.to_nat (p / WORD_SIZE) = Z.to_nat (q / WORD_SIZE) →
  p mod WORD_SIZE = q mod WORD_SIZE → p = q.
Proof. unfold pos, N_BITS, WORD_SIZE, N_WORDS. intros. dlia. Qed.

Lemma bit_set_bit idx v p :
  wf v → pos p → bit (set_bit idx v) p = bit v p || (p =? idx mod N_BITS).
Proof.
  intros [Hlen _ _ _] Hp. pose proof (pos_mod idx) as Hq. revert Hq.
  unfold bit, set_bit. cbn. generalize (idx mod N_BITS). intros q Hq.
  rewrite list_lookup_total_alter. case_decide as Hw.
  - destruct Hw as [Hw _]. rewrite Z.lor_spec, Hw, testbit_shiftl_1;
      [|by apply Z.mod_pos_bound..]. f_equal.
    destruct (Z.eqb_spec p q) as [->|Hne]; [apply Z.eqb_refl|].
    apply Z.eqb_neq. intros Heq. apply Hne. by apply same_pos.
  - destruct (Z.eqb_spec p q) as [->|]; [|by rewrite orb_false_r].
    destruct Hw. split; [done|]. rewrite Hlen.
    revert Hq. unfold pos, N_BITS, WORD_SIZE, N_WORDS. intros. dlia.
Qed.

Lemma bit_clear_bit idx v p :
  wf v → pos p → bit (clear_bit idx v) p = bit v p && negb (p =? idx mod N_BITS).
Proof.
  intros [Hlen _ _ _] Hp. pose proof (pos_mod idx) as Hq. revert Hq.
  unfold bit, clear_bit. cbn. generalize (idx mod N_BITS). intros q Hq.
  assert (Hlow : ∀ x, 0 ≤ x mod WORD_SIZE < WORD_SIZE) by (intros; by apply Z.mod_pos_bound).
  pose proof (Hlow p) as Hp64. pose proof (Hlow q) as Hq64.
  rewrite list_lookup_total_alter. case_decide as Hw.
  - destruct Hw as [Hw _]. unfold u64_not.
    rewrite Z.land_spec, testbit_wrap, Z.lnot_spec, testbit_shiftl_1, Hw by lia.
    rewrite (proj2 (Z.ltb_lt _ 64)), andb_true_r by (unfold WORD_SIZE in *; lia).
    do 2 f_equal. destruct (Z.eqb_spec p q) as [->|Hne]; [apply Z.eqb_refl|].
    apply Z.eqb_neq. intros Heq. apply Hne. by apply same_pos.
  - destruct (Z.eqb_spec p q) as [->|]; [|by rewrite andb_true_r].
    destruct Hw. split; [done|]. rewrite Hlen.
    revert Hq. unfold pos, N_BITS, WORD_SIZE, N_WORDS. intros. dlia.
Qed.

Lemma bit_clear_word idx v p :
  wf v → pos p →
  bit (clear_word idx v) p = bit v p && negb (p / WORD_SIZE =? idx mod N_BITS / WORD_SIZE).
Proof.
  intros [Hlen _ _ _] Hp. pose proof (pos_mod idx) as Hq. revert Hq.
  unfold bit, clear_word. cbn. generalize (idx mod N_BITS). intros q Hq.
  assert (Hword : ∀ x, pos x → 0 ≤ x / WORD_SIZE < N_WORDS).
  { unfold pos, N_BITS, WORD_SIZE, N_WORDS. intros. dlia. }
  pose proof (Hword p Hp). pose proof (Hword q Hq).
  rewrite list_lookup_total_insert. case_decide as Hw.
  - rewrite (proj2 (Z.eqb_eq _ _)), andb_false_r by lia. apply Z.testbit_0_l.
  - rewrite (proj2 (Z.eqb_neq _ _)), andb_true_r; [done|].
    intros Heq. apply Hw. rewrite Hlen, Heq. split; [done|]. lia.
Qed.

(** ** The methods keep the invariant *)

Lemma wf_default : wf default.
Proof. split; [done|by apply Forall_replicate|done..]. Qed.

Lemma wf_with_bitmap b v :
  wf v → length b = length v.(bitmap) → Forall (in_width 64) b → wf (with_bitmap b v).
Proof. intros [? ? ? ?] Hlen ?. split; cbn; congruence. Qed.

Lemma wf_with_next n v : wf v → in_width 64 n → wf (with_next n v).
Proof. by intros [? ? ? ?]. Qed.

Lemma wf_set_bit idx v : wf v → wf (set_bit idx v).
Proof.
  intros Hv. apply wf_with_bitmap; [done|apply length_alter|].
  apply Forall_alter; [apply Hv|]. intros x _ Hx. apply in_width_lor; [done|].
  apply shiftl_1_width. by apply Z.mod_pos_bound.
Qed.

Lemma wf_clear_bit idx v : wf v → wf (clear_bit idx v).
Proof.
  intros Hv. apply wf_with_bitmap; [done|apply length_alter|].
  apply Forall_alter; [apply Hv|]. intros x _ Hx. apply in_width_land_l; [|done].
  apply u64_not_width.
Qed.

Lemma wf_clear_word idx v : wf v → wf (clear_word idx v).
Proof.
  intros Hv. apply wf_with_bitmap; [done|apply length_insert|].
  apply Forall_insert; [apply Hv|done].
Qed.

Lemma wf_clear_all v : wf v → wf (with_bitmap ((λ _, 0) <$> v.(bitmap)) v).
Proof.
  intros Hv. apply wf_with_bitmap; [done|apply length_fmap|].
  apply Forall_fmap, Forall_true. by intros x.
Qed.

Lemma bit_clear_all v p :
  wf v → pos p → bit (with_bitmap ((λ _, 0) <$> v.(bitmap)) v) p = false.
Proof.
  intros [Hlen _ _ _] Hp. unfold bit. cbn.
  assert (Z.to_nat (p / WORD_SIZE) < length v.(bitmap))%nat.
  { rewrite Hlen. revert Hp. unfold pos, N_BITS, WORD_SIZE, N_WORDS. intros. dlia. }
  rewrite list_lookup_total_fmap by done. apply Z.testbit_0_l.
Qed.

Lemma bit_with_next n v p : bit (with_next n v) p = bit v p.
Proof. done. Qed.

Create HintDb window.
#[export] Hint Resolve wf_default wf_with_next wf_set_bit wf_clear_bit wf_clear_word
  wf_clear_all : window.

(** ** The clearing loops *)

(** Position [p] of the bitmap belongs to a counter of [lo, hi). *)
Definition in_range (lo hi p : Z) : bool := (p - lo) mod N_BITS <? hi - lo.

Lemma in_range_snoc lo i p :
  pos p → lo ≤ i < lo + N_BITS →
  in_range lo (i + 1) p = in_range lo i p || (p =? i mod N_BITS).
Proof.
  unfold in_range, pos, N_BITS, WORD_SIZE, N_WORDS. intros.
  apply eq_true_iff_eq. rewrite orb_true_iff, !Z.ltb_lt, Z.eqb_eq. dlia.
Qed.

Lemma in_range_word lo i p :
  pos p → lo ≤ i → i + WORD_SIZE ≤ lo + N_BITS → i mod WORD_SIZE = 0 →
  in_range lo (i + WORD_SIZE) p =
    in_range lo i p || (p / WORD_SIZE =? i mod N_BITS / WORD_SIZE).
Proof.
  unfold in_range, pos, N_BITS, WORD_SIZE, N_WORDS. intros.
  apply eq_true_iff_eq. rewrite orb_true_iff, !Z.ltb_lt, Z.eqb_eq. dlia.
Qed.

Lemma align_word x :
  in_width 64 x → x mod WORD_SIZE = 0 → Z.land x (wrap 64 (0 - WORD_SIZE)) = x.
Proof.
  intros Hx Hal. apply (in_width_bits 64); [done| |done|].
  { apply in_width_land_l; [|done]. by apply wrap_in_width. }
  intros i Hi. change (0 - WORD_SIZE) with (Z.lnot (Z.ones 6)).
  rewrite Z.land_spec, testbit_wrap, Z.lnot_spec by lia.
  rewrite (proj2 (Z.ltb_lt _ _)), andb_true_r by lia.
  destruct (Z.lt_ge_cases i 6).
  - rewrite Z.ones_spec_low, andb_false_r by lia. symmetry.
    rewrite <-(Z.mod_pow2_bits_low x 6 i) by lia. change (2 ^ 6) with WORD_SIZE.
    rewrite Hal. apply Z.testbit_0_l.
  - rewrite Z.ones_spec_high by lia. by rewrite andb_true_r.
Qed.

(** The three loops of [clear_skipped], run from [next], have come to their
    ends: the guard of each is false in the state it returns. *)
Definition loops_end (counter : Z) (v : ReceivingKeyCounterValidator) : Prop :=
  let st1 := clear_to_word_boundary counter (v.(next), v) in
  let st2 := clear_whole_words counter st1 in
  boundary_cond counter st1 = false ∧ words_cond counter st2 = false ∧
  remaining_cond counter (clear_remaining_bits counter st2) = false.

Section ClearLoops.
Context (v0 : ReceivingKeyCounterValidator) (counter : Z).
Context (Hwf : wf v0) (Hlo : v0.(next) < counter) (Hhi : counter - v0.(next) < N_BITS)
  (Hmax : counter < 2 ^ 64 - N_BITS).

(** Every loop has cleared exactly the positions of [next, i). *)
Record cleared (st : Z * ReceivingKeyCounterValidator) : Prop := {
  cl_next : st.2.(next) = v0.(next);
  cl_wf : wf st.2;
  cl_low : v0.(next) ≤ st.1 ≤ counter;
  cl_bits : ∀ p, pos p → bit st.2 p = bit v0 p && negb (in_range v0.(next) st.1 p);
}.

Lemma cleared_start : cleared (v0.(next), v0).
Proof.
  split; cbn; [done|done|lia|]. intros p Hp. unfold in_range.
  rewrite Z.sub_diag, (proj2 (Z.ltb_ge _ 0)); [by rewrite andb_true_r|].
  by apply Z.mod_pos_bound.
Qed.

Lemma cleared_bit i v :
  cleared (i, v) → i < counter → cleared (wrap 64 (i + 1), clear_bit i v).
Proof.
  intros [Hn Hv Hl Hb] Hi. cbn in *.
  assert (0 ≤ v0.(next)) by apply Hwf.
  rewrite wrap_small by (unfold in_width, N_BITS, WORD_SIZE, N_WORDS in *; lia).
  split; cbn; [done|by auto with window|lia|]. intros p Hp.
  rewrite bit_clear_bit, Hb, in_range_snoc by (auto; lia).
  by rewrite negb_orb, andb_assoc.
Qed.

Lemma cleared_word i v :
  cleared (i, v) → i mod WORD_SIZE = 0 → i + WORD_SIZE < counter →
  cleared (Z.land (wrap 64 (i + WORD_SIZE)) (wrap 64 (0 - WORD_SIZE)), clear_word i v).
Proof.
  intros [Hn Hv Hl Hb] Hal Hi. cbn in *.
  assert (0 ≤ v0.(next)) by apply Hwf.
  assert (in_width 64 (i + WORD_SIZE))
    by (unfold in_width, N_BITS, WORD_SIZE, N_WORDS in *; lia).
  rewrite wrap_small, align_word; [|done| |done].
  2: { rewrite <-Zplus_mod_idemp_r, Z.mod_same, Z.add_0_r; done. }
  split; cbn; [done|by auto with window|unfold WORD_SIZE in *; lia|]. intros p Hp.
  rewrite bit_clear_word, Hb, in_range_word by (auto; lia).
  by rewrite negb_orb, andb_assoc.
Qed.

Lemma cleared_bit_step st :
  cleared st → st.1 < counter →
  cleared (wrap 64 (st.1 + 1), clear_bit st.1 st.2) ∧
  0 ≤ counter - wrap 64 (st.1 + 1) < counter - st.1.
Proof.
  destruct st as [i v]. cbn. intros Hc Hi.
  split; [by apply cleared_bit|]. destruct Hc as [_ _ Hl _]. cbn in Hl.
  assert (0 ≤ v0.(next)) by apply Hwf.
  rewrite wrap_small by (unfold in_width, N_BITS, WORD_SIZE, N_WORDS in *; lia). lia.
Qed.

Lemma measure_small st : cleared st → counter - st.1 < 2 ^ 64.
Proof.
  intros [_ _ Hl _]. assert (0 ≤ v0.(next)) by apply Hwf.
  unfold N_BITS, WORD_SIZE, N_WORDS in *. lia.
Qed.

(** The first loop stops at a word boundary or at [counter]. *)
Lemma boundary_done st :
  cleared st →
  let st' := clear_to_word_boundary counter st in
  cleared st' ∧ (st'.1 mod WORD_SIZE = 0 ∨ st'.1 = counter).
Proof.
  intros Hst. cbn. unfold clear_to_word_boundary, boundary_cond, bit_body.
  lazymatch goal with |- context [while_ ?c ?b st] =>
    destruct (while_total cleared c b (λ st, counter - st.1) st) as [Hcl Hex]
  end; [exact Hst|by apply measure_small| |split; [exact Hcl|]].
  { intros [i v] Hc [_ Hi%Z.ltb_lt]%andb_true_iff. by apply (cleared_bit_step (i, v)). }
  destruct (while_ _ _ st) as [i v]. destruct Hcl as [_ _ Hl _]. cbn in *.
  apply andb_false_iff in Hex as [Hal|Hge].
  - left. by apply negb_false_iff, Z.eqb_eq in Hal.
  - right. apply Z.ltb_ge in Hge. lia.
Qed.

(** The second loop keeps to word boundaries until less than a word is left. *)
Lemma words_done st :
  cleared st → st.1 mod WORD_SIZE = 0 ∨ st.1 = counter →
  cleared (clear_whole_words counter st) ∧
  counter ≤ (clear_whole_words counter st).1 + WORD_SIZE.
Proof.
  intros Hst Hal. unfold clear_whole_words, words_cond, words_body.
  assert (0 ≤ v0.(next)) by apply Hwf.
  assert (Hnowrap : ∀ i, v0.(next) ≤ i ≤ counter → wrap 64 (i + WORD_SIZE) = i + WORD_SIZE).
  { intros. apply wrap_small. unfold in_width, N_BITS, WORD_SIZE, N_WORDS in *; lia. }
  lazymatch goal with |- context [while_ ?c ?b st] =>
    destruct (while_total (λ st, cleared st ∧ (st.1 mod WORD_SIZE = 0 ∨ st.1 = counter)) c b
      (λ st, counter - st.1) st) as [[Hcl _] Hex]
  end; [exact (conj Hst Hal)|by apply measure_small| |split; [exact Hcl|]].
  - intros [i v] [Hc Ha] Hi%Z.ltb_lt. cbn [fst snd] in Ha, Hi.
    pose proof (cl_low _ Hc) as Hl. cbn in Hl. rewrite Hnowrap in Hi by lia.
    destruct Ha as [Ha|Ha]; [|unfold WORD_SIZE in *; lia].
    pose proof (cleared_word i v Hc Ha Hi) as Hc'. cbn. revert Hc'.
    assert (Ha' : (i + WORD_SIZE) mod WORD_SIZE = 0)
      by (rewrite <-Zplus_mod_idemp_r, Z.mod_same, Z.add_0_r; done).
    rewrite Hnowrap, align_word by
      (lia || done || (unfold in_width, N_BITS, WORD_SIZE, N_WORDS in *; lia)).
    split; [by split; [|left]|]. unfold WORD_SIZE in *. lia.
  - destruct (while_ _ _ st) as [i v]. destruct Hcl as [_ _ Hl _]. cbn in *.
    rewrite Hnowrap in Hex by lia. apply Z.ltb_ge in Hex. lia.
Qed.

Lemma remaining_done st :
  cleared st →
  cleared (clear_remaining_bits counter st) ∧
  (clear_remaining_bits counter st).1 = counter.
Proof.
  intros Hst. unfold clear_remaining_bits, remaining_cond, bit_body.
  lazymatch goal with |- context [while_ ?c ?b st] =>
    destruct (while_total cleared c b (λ st, counter - st.1) st) as [Hcl Hex]
  end; [exact Hst|by apply measure_small| |split; [exact Hcl|]].
  { intros [i v] Hc Hi%Z.ltb_lt. by apply (cleared_bit_step (i, v)). }
  destruct (while_ _ _ st) as [i v]. destruct Hcl as [_ _ Hl _]. cbn in *.
  apply Z.ltb_ge in Hex. lia.
Qed.

(** Together the loops clear exactly the positions of [next, counter). *)
Lemma clear_skipped_done :
  cleared (clear_skipped counter v0) ∧ (clear_skipped counter v0).1 = counter.
Proof.
  unfold clear_skipped.
  destruct (boundary_done (v0.(next), v0) cleared_start) as [H1 H1'].
  destruct (words_done _ H1 H1') as [H2 _]. by apply remaining_done.
Qed.

(** Every loop has ended when [while_] returns: its guard is false. *)
Lemma clear_skipped_ends : loops_end counter v0.
Proof.
  unfold loops_end. destruct (boundary_done (v0.(next), v0) cleared_start) as [H1 H1'].
  destruct (words_done _ H1 H1') as [H2 H2']. destruct (remaining_done _ H2) as [_ H3'].
  split_and!.
  - unfold boundary_cond. destruct H1' as [-> | ->]; [done|]. by rewrite Z.ltb_irrefl, andb_false_r.
  - unfold words_cond. destruct H2 as [_ _ Hl _]. assert (0 ≤ v0.(next)) by apply Hwf.
    rewrite wrap_small by (unfold in_width, N_BITS, WORD_SIZE, N_WORDS in *; lia). by apply Z.ltb_ge.
  - unfold remaining_cond. by rewrite H3', Z.ltb_irrefl.
Qed.

End ClearLoops.

(** The type invariant is kept for every counter, also where the loops wrap. *)
Lemma wf_clear_skipped counter v : wf v → wf (clear_skipped counter v).2.
Proof.
  intros Hv. unfold clear_skipped, clear_remaining_bits, clear_whole_words, clear_to_word_boundary.
  apply (while_inv (λ st, wf st.2)).
  - apply (while_inv (λ st, wf st.2)).
    + apply (while_inv (λ st, wf st.2)); [done|]. intros [i w] Hw _. by apply wf_clear_bit.
    + intros [i w] Hw _. by apply wf_clear_word.
  - intros [i w] Hw _. by apply wf_clear_bit.
Qed.

Lemma wf_mark counter v : wf v → wf (mark_did_receive counter v).2.
Proof.
  intros Hv. unfold mark_did_receive. repeat case_match; cbn [snd]; try done;
    repeat first [apply wf_with_next; [|by apply wrap_in_width] | apply wf_set_bit]; try done.
  - by apply wf_clear_all.
  - by apply wf_clear_skipped.
Qed.

(** ** The abstract specification

    A window is the set of counters accepted so far and the value after the
    highest of them; a counter is good when it is new and not more than
    [N_BITS] behind. *)

Record window := Window {
  w_next : Z;
  w_seen : gset Z;
}.

Definition w_empty : window := Window 0 ∅.

Definition w_accepts (c : Z) (w : window) : bool :=
  bool_decide (w.(w_next) ≤ c + N_BITS ∧ c ∉ w.(w_seen)).

Definition w_mark (c : Z) (w : window) : result WireGuardError () * window :=
  if w_accepts c w
  then (Ok (), Window (Z.max w.(w_next) (c + 1)) ({[c]} ∪ w.(w_seen)))
  else (Err InvalidCounter, w).

(** Counters of the range in which no sum of the code wraps around. *)
Definition small_counter (c : Z) : Prop := 0 ≤ c < 2 ^ 64 - N_BITS.

(** Every counter but the very last one, after which [next] is 0 again. *)
Definition good_counter (c : Z) : Prop := 0 ≤ c < 2 ^ 64 - 1.

Record implements (v : ReceivingKeyCounterValidator) (w : window) : Prop := {
  im_wf : wf v;
  im_next : v.(next) = w.(w_next);
  im_seen : ∀ c, c ∈ w.(w_seen) → 0 ≤ c < v.(next);
  im_bits : ∀ c, 0 ≤ c < v.(next) → v.(next) ≤ c + N_BITS →
    bit v (c mod N_BITS) = bool_decide (c ∈ w.(w_seen));
}.

Lemma default_implements : implements default w_empty.
Proof. split; [auto with window|done|set_solver|]. cbn. lia. Qed.

Lemma small_sum c : small_counter c → wrap 64 (c + N_BITS) = c + N_BITS.
Proof. intros. apply wrap_small. unfold small_counter, in_width, N_BITS, WORD_SIZE, N_WORDS in *. lia. Qed.

Lemma small_good c : small_counter c → good_counter c.
Proof. unfold small_counter, good_counter, N_BITS, WORD_SIZE, N_WORDS. lia. Qed.

Lemma good_succ c : good_counter c → wrap 64 (c + 1) = c + 1.
Proof. intros. apply wrap_small. unfold good_counter, in_width in *. lia. Qed.

(** Two counters of one window have different positions. *)
Lemma mod_window_inj n c c' :
  n ≤ c + N_BITS → c < n → n ≤ c' + N_BITS → c' < n →
  (c mod N_BITS =? c' mod N_BITS) = bool_decide (c = c').
Proof.
  intros. destruct (Z.eqb_spec (c mod N_BITS) (c' mod N_BITS)); symmetry;
    [apply bool_decide_eq_true|apply bool_decide_eq_false];
    unfold N_BITS, WORD_SIZE, N_WORDS in *; dlia.
Qed.

(** Setting the bit of [c] and moving [next] up to [n] adds [c] to the window,
    provided the bits of the new window already say what was seen before. *)
Lemma implements_add v w c n :
  wf v → n < 2 ^ 64 → 0 ≤ c < n → n ≤ c + N_BITS → w.(w_next) ≤ n →
  (∀ c', c' ∈ w.(w_seen) → 0 ≤ c' < n) →
  (∀ c', c' ≠ c → 0 ≤ c' < n → n ≤ c' + N_BITS →
     bit v (c' mod N_BITS) = bool_decide (c' ∈ w.(w_seen))) →
  implements (with_next n (set_bit c v)) (Window n ({[c]} ∪ w.(w_seen))).
Proof.
  intros Hwf Hn Hc Hcw Hwn Hseen Hbits.
  split; cbn; [|done| |].
  - apply wf_with_next; [auto with window|]. unfold in_width; lia.
  - intros c' [->%elem_of_singleton|?]%elem_of_union; [lia|auto].
  - intros c' Hc' Hw'. rewrite bit_with_next, bit_set_bit by (auto using pos_mod).
    rewrite (mod_window_inj n) by lia. destruct (decide (c' = c)) as [->|Hne].
    + rewrite !bool_decide_eq_true_2; [by rewrite orb_true_r|by apply elem_of_union_l, elem_of_singleton|done].
    + rewrite Hbits, (bool_decide_eq_false_2 (c' = c)), orb_false_r by done.
      apply bool_decide_ext. rewrite elem_of_union, elem_of_singleton.
      split; [by right|by intros [|]].
Qed.

(** Receiving the next counter, or one further ahead.  [v'] is the validator
    with the bits of the skipped counters cleared. *)
Lemma implements_ahead v v' w c :
  implements v w → wf v' → good_counter c → v.(next) ≤ c →
  (∀ p, pos p → bit v' p =
     bit v p && negb (in_range v.(next) c p) && negb (N_BITS <=? c - v.(next))) →
  implements (with_next (wrap 64 (c + 1)) (set_bit c v'))
    (Window (Z.max v.(next) (c + 1)) ({[c]} ∪ w.(w_seen))).
Proof.
  intros [Hwf Hn Hs Hbits] Hwf' Hc Hle Hbits'. rewrite good_succ by done.
  rewrite Z.max_r by lia. assert (0 ≤ v.(next)) by apply Hwf.
  unfold good_counter in Hc. apply implements_add; [done|lia|lia| |lia| |].
  { unfold N_BITS, WORD_SIZE, N_WORDS. lia. }
  { intros c' ?%Hs. lia. }
  intros c' Hne Hlt Hwin. rewrite Hbits' by apply pos_mod. unfold in_range.
  destruct (Z.lt_ge_cases c' v.(next)) as [Hold|Hnew].
  - rewrite Hbits by lia.
    rewrite (proj2 (Z.ltb_ge _ _)), (proj2 (Z.leb_gt _ _)), !andb_true_r; [done|..];
      unfold N_BITS, WORD_SIZE, N_WORDS in *; dlia.
  - rewrite (bool_decide_eq_false_2 (c' ∈ _)) by (intros ?%Hs; lia).
    destruct (Z.leb_spec N_BITS (c - v.(next))); [by rewrite andb_false_r|].
    rewrite (proj2 (Z.ltb_lt _ _)), andb_false_r; [done|].
    unfold N_BITS, WORD_SIZE, N_WORDS in *; dlia.
Qed.

Lemma in_range_empty lo p : in_range lo lo p = false.
Proof. unfold in_range. rewrite Z.sub_diag. apply Z.ltb_ge. by apply Z.mod_pos_bound. Qed.

Lemma mark_implements v w c :
  implements v w → small_counter c →
  (mark_did_receive c v).1 = (w_mark c w).1 ∧
  implements (mark_did_receive c v).2 (w_mark c w).2.
Proof.
  intros Him Hc. pose proof Him as [Hwf Hn Hs Hbits]. assert (0 ≤ v.(next)) by apply Hwf.
  unfold mark_did_receive, w_mark, w_accepts. rewrite small_sum, <-Hn by done.
  destruct (Z.ltb_spec (c + N_BITS) v.(next)) as [Hold|Hwin].
  { rewrite bool_decide_eq_false_2 by lia. done. }
  destruct (Z.eqb_spec c v.(next)) as [Heq|Hne].
  { rewrite bool_decide_eq_true_2 by (split; [done|intros ?%Hs; lia]). split; [done|].
    replace (wrap 64 (v.(next) + 1)) with (wrap 64 (c + 1)) by congruence.
    apply (implements_ahead v); [done|done|by apply small_good|lia|].
    intros p ?. rewrite Heq, in_range_empty, Z.sub_diag. by rewrite !andb_true_r. }
  destruct (Z.ltb_spec c v.(next)) as [Hback|Hahead].
  - rewrite check_bit_spec, Hbits by (unfold small_counter in Hc; lia).
    destruct (decide (c ∈ w.(w_seen))) as [Hin|Hnin].
    + rewrite bool_decide_eq_true_2, bool_decide_eq_false_2 by (done || tauto). done.
    + rewrite bool_decide_eq_false_2, bool_decide_eq_true_2 by (done || tauto).
      split; [done|]. rewrite Z.max_l by lia. cbn.
      apply (implements_add v w c v.(next)); [done|apply Hwf|unfold small_counter in Hc; lia..|
        done|by auto].
  - rewrite bool_decide_eq_true_2 by (split; [done|intros ?%Hs; lia]). split; [done|].
    destruct (Z.leb_spec N_BITS (c - v.(next))) as [Hfar|Hnear].
    + apply (implements_ahead v); [done|auto with window|by apply small_good|lia|].
      intros p Hp. rewrite bit_clear_all, (proj2 (Z.leb_le _ _)), andb_false_r by done. done.
    + destruct (clear_skipped_done v c) as [[_ Hwf' _ Hcl] Hi];
        [done|lia|lia|unfold small_counter in Hc; lia|].
      apply (implements_ahead v); [done|done|by apply small_good|lia|].
      intros p Hp. rewrite Hcl, Hi, (proj2 (Z.leb_gt _ _)), andb_true_r by done. done.
Qed.

(** The highest [N_BITS] counters: [counter + N_BITS] wraps around to less than
    [N_BITS], so that only a window that is still as low accepts one, and then
    it is far ahead. *)
Lemma top_sum c : 2 ^ 64 - N_BITS ≤ c < 2 ^ 64 → wrap 64 (c + N_BITS) = c + N_BITS - 2 ^ 64.
Proof. unfold wrap, N_BITS, WORD_SIZE, N_WORDS. intros. dlia. Qed.

Lemma mark_top_eq v c :
  wf v → 2 ^ 64 - N_BITS ≤ c < 2 ^ 64 →
  mark_did_receive c v =
    if v.(next) <=? c + N_BITS - 2 ^ 64
    then (Ok (), with_next (wrap 64 (c + 1)) (set_bit c (with_bitmap ((λ _, 0) <$> v.(bitmap)) v)))
    else (Err InvalidCounter, v).
Proof.
  intros Hwf Hc. unfold mark_did_receive. rewrite top_sum by done.
  assert (0 ≤ v.(next)) by apply Hwf.
  destruct (Z.leb_spec v.(next) (c + N_BITS - 2 ^ 64)) as [Hle|Hgt].
  - unfold N_BITS, WORD_SIZE, N_WORDS in *.
    rewrite (proj2 (Z.ltb_ge _ _)), (proj2 (Z.eqb_neq _ _)), (proj2 (Z.ltb_ge _ _)),
      (proj2 (Z.leb_le _ _)) by lia. done.
  - by rewrite (proj2 (Z.ltb_lt _ _)).
Qed.

(** What holds of every counter but the last: a counter that is accepted is one
    the specification accepts, and a refused one changes nothing. *)
Lemma mark_good v w c :
  implements v w → good_counter c →
  match mark_did_receive c v with
  | (Ok _, v') => w_accepts c w = true ∧ implements v' (w_mark c w).2
  | (Err _, v') => v' = v
  end.
Proof.
  intros Him Hc. destruct (decide (small_counter c)) as [Hs|Hs].
  { destruct (mark_implements v w c Him Hs) as [H1 H2]. revert H1 H2. unfold w_mark.
    destruct (mark_did_receive c v) as [[]] eqn:Hm; destruct (w_accepts c w); try done.
    intros _ _. revert Hm. unfold mark_did_receive. repeat case_match; by intros [= _ <-]. }
  pose proof Him as [Hwf Hn Hse Hbits]. assert (0 ≤ v.(next)) by apply Hwf.
  rewrite mark_top_eq by (done || (unfold small_counter, good_counter in *; lia)).
  destruct (Z.leb_spec v.(next) (c + N_BITS - 2 ^ 64)) as [Hle|]; [|done].
  assert (Hle' : v.(next) ≤ c) by (unfold good_counter, N_BITS, WORD_SIZE, N_WORDS in *; lia).
  assert (Ha : w_accepts c w = true).
  { apply bool_decide_eq_true. rewrite <-Hn. split; [lia|]. intros ?%Hse. lia. }
  split; [done|]. unfold w_mark. rewrite Ha, <-Hn. cbn [snd].
  apply (implements_ahead v); [done|by apply wf_clear_all|done|done|].
  intros p Hp. rewrite bit_clear_all, (proj2 (Z.leb_le _ _)), andb_false_r; [done| |done..].
  unfold small_counter, good_counter, N_BITS, WORD_SIZE, N_WORDS in *. lia.
Qed.

Lemma will_accept_spec v w c :
  implements v w → small_counter c →
  will_accept c v =
    if w_accepts c w then Ok ()
    else if c + N_BITS <? w.(w_next) then Err InvalidCounter else Err DuplicateCounter.
Proof.
  intros [Hwf Hn Hs Hbits] Hc. unfold will_accept, w_accepts.
  rewrite small_sum, <-Hn by done.
  destruct (Z.leb_spec v.(next) c) as [Hle|Hlt].
  { rewrite bool_decide_eq_true_2; [done|]. split; [|intros ?%Hs; lia].
    unfold N_BITS, WORD_SIZE, N_WORDS. lia. }
  destruct (Z.ltb_spec (c + N_BITS) v.(next)).
  { by rewrite bool_decide_eq_false_2 by lia. }
  rewrite check_bit_spec, Hbits by (unfold small_counter in Hc; lia).
  destruct (decide (c ∈ w.(w_seen))).
  - by rewrite bool_decide_eq_true_2, bool_decide_eq_false_2 by (done || tauto).
  - by rewrite bool_decide_eq_false_2, bool_decide_eq_true_2 by (done || tauto).
Qed.

(** ** Histories *)

(** Feed a sequence of counters to a fresh validator; the counters that were
    answered [Ok], the last one first. *)
Fixpoint receive_all (cs : list Z) (v : ReceivingKeyCounterValidator) (acc : list Z) :
    ReceivingKeyCounterValidator * list Z :=
  match cs with
  | [] => (v, acc)
  | c :: cs' =>
    match mark_did_receive c v with
    | (Ok _, v') => receive_all cs' v' (c :: acc)
    | (Err _, v') => receive_all cs' v' acc
    end
  end.

Definition accepted (cs : list Z) : list Z := (receive_all cs default []).2.
Definition after (cs : list Z) : ReceivingKeyCounterValidator := (receive_all cs default []).1.

(** The value after the highest counter of a list. *)
Definition next_of (acc : list Z) : Z := foldr (λ c n, Z.max n (c + 1)) 0 acc.

Lemma receive_all_spec cs v acc :
  Forall good_counter cs → NoDup acc →
  implements v (Window (next_of acc) (list_to_set acc)) →
  let '(v', acc') := receive_all cs v acc in
  NoDup acc' ∧ implements v' (Window (next_of acc') (list_to_set acc')).
Proof.
  revert v acc. induction cs as [|c cs IH]; intros v acc Hcs Hnd Him; cbn; [done|].
  apply Forall_cons in Hcs as [Hc Hcs].
  pose proof (mark_good _ _ c Him Hc) as H1. revert H1. unfold w_mark.
  destruct (mark_did_receive c v) as [[] v']; [|intros ->; by apply IH].
  intros [Ha Him']. rewrite Ha in Him'. unfold w_accepts in Ha. cbn in Ha, Him'.
  apply bool_decide_eq_true in Ha as [_ Hnew]. rewrite elem_of_list_to_set in Hnew.
  apply IH; [done| |done]. by apply NoDup_cons.
Qed.

Lemma history_spec cs :
  Forall good_counter cs →
  NoDup (accepted cs) ∧
  implements (after cs) (Window (next_of (accepted cs)) (list_to_set (accepted cs))).
Proof.
  intros Hcs. pose proof (receive_all_spec cs default [] Hcs) as H.
  unfold accepted, after. destruct (receive_all cs default []).
  apply H; [constructor|apply default_implements].
Qed.

(** C1.  [mark_did_receive] implements the specification: from a bitmap that
    represents a window, a counter below [2^64 - 1024] gets the answer the
    specification gives ([Ok] exactly for a new counter at most 1023 behind the
    highest accepted one, that is at most 1024 behind [next], and
    [InvalidCounter] otherwise), and the new bitmap represents the new window;
    skipped counters are forgotten by the word-wise clearing loops and nothing
    else is. *)
Theorem mark_did_receive_refines v w c :
  implements v w → small_counter c →
  (mark_did_receive c v).1 = (w_mark c w).1 ∧
  implements (mark_did_receive c v).2 (w_mark c w).2.
Proof. apply mark_implements. Qed.

Lemma mark_did_receive_refines_witness :
  (mark_did_receive 1000 default).1 = Ok () ∧
  implements (mark_did_receive 1000 default).2 (Window 1001 {[1000]}).
Proof.
  destruct (mark_did_receive_refines default w_empty 1000 default_implements ltac:(done))
    as [H1 H2].
  split; [exact H1|]. replace (Window 1001 {[1000]}) with (w_mark 1000 w_empty).2; [exact H2|].
  unfold w_mark, w_accepts. rewrite bool_decide_eq_true_2 by done. cbn.
  f_equal.
Defined.

(** No replay: however the counters of a session arrive, none of them is
    accepted twice. *)
Theorem no_counter_accepted_twice cs :
  Forall good_counter cs → NoDup (accepted cs).
Proof. intros Hcs. by destruct (history_spec cs Hcs). Qed.

Lemma no_counter_accepted_twice_witness :
  accepted [5; 5; 3; 2000; 5; 3] = [2000; 3; 5] ∧ NoDup (accepted [5; 5; 3; 2000; 5; 3]).
Proof.
  split; [by vm_compute|]. apply no_counter_accepted_twice. repeat constructor; done.
Defined.

(** C2.  Nothing good is lost: after any history of counters other than
    [2^64 - 1], [will_accept] and [mark_did_receive] both say [Ok] to a counter
    below [2^64 - 1024] exactly when it was not accepted before and is at most
    1023 behind the highest accepted one (at most 1024 behind [next]); the quick
    check names the reason of a refusal ([InvalidCounter] when too old,
    [DuplicateCounter] when already seen).  What happens to the counters that
    are left out is C3. *)
Theorem window_decision cs c :
  Forall good_counter cs → small_counter c →
  let fresh := c ∉ accepted cs in
  let near := next_of (accepted cs) ≤ c + N_BITS in
  ((mark_did_receive c (after cs)).1 = Ok () ↔ fresh ∧ near) ∧
  (will_accept c (after cs) = Ok () ↔ fresh ∧ near) ∧
  (will_accept c (after cs) = Err InvalidCounter ↔ ¬ near) ∧
  (will_accept c (after cs) = Err DuplicateCounter ↔ ¬ fresh ∧ near).
Proof.
  intros Hcs Hc. destruct (history_spec cs Hcs) as [_ Him]. cbn.
  rewrite (will_accept_spec _ _ _ Him Hc).
  destruct (mark_implements _ _ c Him Hc) as [-> _].
  unfold w_mark, w_accepts. cbn.
  destruct (Z.ltb_spec (c + N_BITS) (next_of (accepted cs)));
    case_bool_decide as Hd; rewrite elem_of_list_to_set in Hd; cbn;
    repeat split; try done; try lia; try tauto.
Qed.

Lemma window_decision_witness :
  (mark_did_receive 15 (after [0; 63])).1 = Ok () ∧
  will_accept 63 (after [0; 63]) = Err DuplicateCounter.
Proof.
  destruct (window_decision [0; 63] 15) as (H1 & _); [by repeat constructor|done|].
  destruct (window_decision [0; 63] 63) as (_ & _ & _ & H4); [by repeat constructor|done|].
  assert (Hacc : accepted [0; 63] = [63; 0]) by (by vm_compute).
  rewrite Hacc in H1, H4. unfold N_BITS, WORD_SIZE, N_WORDS in *. cbn in H1, H4.
  split; [apply H1|apply H4]; rewrite !elem_of_cons, elem_of_nil; lia.
Defined.

(** ** Counters at the top of the range *)

(** The clearing loops are entered only for counters of the range in which
    nothing wraps: the first guard of [mark_did_receive] refuses a counter of the
    top range unless the window is more than [N_BITS] behind it. *)
Lemma mark_loops_end v c :
  wf v → in_width 64 c →
  v.(next) ≤ wrap 64 (c + N_BITS) → v.(next) < c → c - v.(next) < N_BITS → loops_end c v.
Proof.
  intros Hwf Hc Hg Hlt Hnear. destruct (Z.lt_ge_cases c (2 ^ 64 - N_BITS)) as [Hs|Ht].
  - by apply clear_skipped_ends.
  - exfalso. assert (Htop : 2 ^ 64 - N_BITS ≤ c < 2 ^ 64) by (split; [done|apply Hc]).
    rewrite (top_sum c Htop) in Hg. unfold N_BITS, WORD_SIZE, N_WORDS in *. lia.
Qed.

(** From [next = 0] everything is accepted. *)
Lemma mark_from_zero v c : v.(next) = 0 → in_width 64 c → (mark_did_receive c v).1 = Ok ().
Proof.
  intros Hn Hc. unfold mark_did_receive. rewrite Hn.
  assert (0 ≤ wrap 64 (c + N_BITS)) by (by apply wrap_in_width).
  rewrite (proj2 (Z.ltb_ge _ _)) by done. destruct (c =? 0); [done|].
  by rewrite (proj2 (Z.ltb_ge _ _)) by apply Hc.
Qed.

(** C3.  The top of the counter range, for every state of the validator, in a
    build without overflow checks (with them the sums below panic).
    Because [counter + N_BITS] wraps around, one of the highest 1024 counters is
    accepted by [mark_did_receive] only while [next] is at most
    [counter + 1024 - 2^64], and otherwise refused and nothing changes, although
    the quick check [will_accept] says [Ok] to it when it is not behind.  Because
    [next] wraps around too, a validator with [next < 1024] that accepts
    [2^64 - 1] is back at [next = 0], where every 64-bit counter is accepted,
    those accepted before included.  And whatever the counter, the clearing
    loops are entered only where they come to their ends. *)
Theorem top_counter_faults v :
  wf v →
  (∀ c, 2 ^ 64 - N_BITS ≤ c < 2 ^ 64 →
     ((mark_did_receive c v).1 = Ok () ↔ v.(next) ≤ c + N_BITS - 2 ^ 64) ∧
     (c + N_BITS - 2 ^ 64 < v.(next) → mark_did_receive c v = (Err InvalidCounter, v)) ∧
     (v.(next) ≤ c → will_accept c v = Ok ())) ∧
  (v.(next) < N_BITS →
     (mark_did_receive (2 ^ 64 - 1) v).1 = Ok () ∧
     (mark_did_receive (2 ^ 64 - 1) v).2.(next) = 0 ∧
     ∀ c, in_width 64 c → (mark_did_receive c (mark_did_receive (2 ^ 64 - 1) v).2).1 = Ok ()) ∧
  (∀ c, in_width 64 c → v.(next) ≤ wrap 64 (c + N_BITS) → v.(next) < c → c - v.(next) < N_BITS →
     loops_end c v).
Proof.
  intros Hwf. split_and!.
  - intros c Hc. rewrite (mark_top_eq v c Hwf Hc). unfold will_accept.
    split; [|split; [|by intros ->%Z.leb_le]];
      destruct (Z.leb_spec v.(next) (c + N_BITS - 2 ^ 64)); try done; try lia.
    split; [done|lia].
  - intros Hn. assert (Hc : 2 ^ 64 - N_BITS ≤ 2 ^ 64 - 1 < 2 ^ 64) by done.
    rewrite (mark_top_eq v _ Hwf Hc), (proj2 (Z.leb_le _ _)); [|unfold N_BITS, WORD_SIZE, N_WORDS in *; lia].
    split_and!; [done|done|]. intros c Hw. by apply mark_from_zero.
  - intros c. by apply mark_loops_end.
Qed.

(** Seven, then the last counter, then seven again. *)
Lemma top_counter_faults_witness :
  wf (after [7]) ∧
  (mark_did_receive (2 ^ 64 - 1) (after [7])).1 = Ok () ∧
  (mark_did_receive 7 (mark_did_receive (2 ^ 64 - 1) (after [7])).2).1 = Ok () ∧
  mark_did_receive (2 ^ 64 - 1024) (after [7]) = (Err InvalidCounter, after [7]) ∧
  will_accept (2 ^ 64 - 1024) (after [7]) = Ok () ∧
  loops_end 300 (after [7]).
Proof.
  assert (Hwf : wf (after [7])).
  { replace (after [7]) with (mark_did_receive 7 default).2 by (by vm_compute).
    apply wf_mark, wf_default. }
  destruct (top_counter_faults (after [7]) Hwf) as (H1 & H2 & H3).
  destruct (H1 (2 ^ 64 - 1024)) as (_ & Hr & Hw); [done|].
  destruct (H2 ltac:(done)) as (? & _ & Hall).
  split_and!; [done|done|by apply Hall|by apply Hr|by apply Hw|by apply H3].
Defined.

End Validator.
