(* ===== verification/Time.v ===== *)
(** * Clocks, durations and randomness

    [sleepyinstant] ([sleepyinstant/mod.rs], [sleepyinstant/unix.rs]) and the
    environment the protocol core reads from: the monotonic clock, the system
    clock and the operating system's random bytes.  Each read of a source
    advances it, so an operation that reads the clock twice sees two readings. *)

From S2P Require Import Prelude.
From coqutil Require Import Byte.

(** A [Duration] is its number of nanoseconds. *)
Abbreviation Duration := Z (only parsing).

Definition NANOSECOND : Z := 1000000000.
Definition from_secs (s : Z) : Duration := s * NANOSECOND.
Definition from_mins (m : Z) : Duration := from_secs (m * 60).
Definition as_secs (d : Duration) : Z := d / NANOSECOND.
Definition subsec_nanos (d : Duration) : Z := d mod NANOSECOND.
Definition as_millis (d : Duration) : Z := d / 1000000.

(** [Duration::checked_sub] *)
Definition checked_sub (a b : Duration) : option Duration :=
  if b <=? a then Some (a - b) else None.

(** Arithmetic on an [i64]. *)
Definition i64 (z : Z) : Z := (z + 2 ^ 63) mod 2 ^ 64 - 2 ^ 63.

Record Instant := TimeSpec {
  tv_sec : Z;
  tv_nsec : Z;
}.

Definition checked_duration_since (self earlier : Instant) : option Duration :=
  let '(sec, nsec) :=
    if self.(tv_nsec) <? earlier.(tv_nsec)
    then (i64 (i64 (self.(tv_sec) - earlier.(tv_sec)) - 1),
          i64 (i64 (self.(tv_nsec) - earlier.(tv_nsec)) + NANOSECOND))
    else (i64 (self.(tv_sec) - earlier.(tv_sec)),
          i64 (self.(tv_nsec) - earlier.(tv_nsec))) in
  if sec <? 0 then None else Some (from_secs sec + nsec).

Definition duration_since (self earlier : Instant) : Duration :=
  match checked_duration_since self earlier with
  | Some d => d
  | None => 0
  end.

(** What [clock_gettime] gives: a normalised time after the epoch of the clock. *)
Record timespec_ok (t : Instant) : Prop := {
  ts_sec : 0 ≤ t.(tv_sec) < 2 ^ 62;
  ts_nsec : 0 ≤ t.(tv_nsec) < NANOSECOND;
}.

Definition instant_ns (t : Instant) : Z := from_secs t.(tv_sec) + t.(tv_nsec).

Lemma i64_small z : - 2 ^ 63 ≤ z < 2 ^ 63 → i64 z = z.
Proof. intros ?. unfold i64. rewrite Z.mod_small; lia. Qed.

Lemma duration_since_ns t u :
  timespec_ok t → timespec_ok u →
  duration_since t u = Z.max 0 (instant_ns t - instant_ns u).
Proof.
  intros [Hts Htn] [Hus Hun]. unfold duration_since, checked_duration_since, instant_ns.
  unfold from_secs, NANOSECOND in *.
  destruct (Z.ltb_spec (tv_nsec t) (tv_nsec u)).
  - rewrite !i64_small by (rewrite ?i64_small by lia; lia).
    destruct (Z.ltb_spec (tv_sec t - tv_sec u - 1) 0); lia.
  - rewrite !i64_small by lia.
    destruct (Z.ltb_spec (tv_sec t - tv_sec u) 0); lia.
Qed.

(** ** The environment *)

Record env := Env {
  e_clock : nat → Instant;             (* successive readings of the monotonic clock *)
  e_system : nat → option Duration;    (* [SystemTime::now()] since the epoch, [None] before it *)
  e_tick : nat;                        (* readings taken so far *)
  e_rng : nat → byte;                  (* the stream of [OsRng] *)
  e_rng_pos : nat;                     (* bytes drawn so far *)
}.

(** [Instant::now()] *)
Definition Instant_now {E} : M E env Instant := λ e,
  Ret (Ok (e.(e_clock) e.(e_tick)),
       Env e.(e_clock) e.(e_system) (S e.(e_tick)) e.(e_rng) e.(e_rng_pos)).

(** [SystemTime::now().duration_since(UNIX_EPOCH)] *)
Definition SystemTime_since_epoch {E} : M E env (option Duration) := λ e,
  Ret (Ok (e.(e_system) e.(e_tick)),
       Env e.(e_clock) e.(e_system) (S e.(e_tick)) e.(e_rng) e.(e_rng_pos)).

(** [OsRng.fill_bytes] on a buffer of [n] bytes. *)
Definition fill_bytes {E} (n : nat) : M E env (list byte) := λ e,
  Ret (Ok (e.(e_rng) <$> seq e.(e_rng_pos) n),
       Env e.(e_clock) e.(e_system) e.(e_tick) e.(e_rng) (e.(e_rng_pos) + n)).

(** [self.elapsed()] *)
Definition elapsed {E} (self : Instant) : M E env Duration :=
  now ← Instant_now; mret (duration_since now self).

(** A clock that keeps what [Instant] documents: normalised readings that
    never go backwards. *)
Record clock_ok (e : env) : Prop := {
  clock_norm : ∀ i, timespec_ok (e.(e_clock) i);
  clock_mono : ∀ i j, (i ≤ j)%nat → instant_ns (e.(e_clock) i) ≤ instant_ns (e.(e_clock) j);
}.

(** [e'] is [e] after some more reads. *)
Record env_le (e e' : env) : Prop := {
  env_clock : e'.(e_clock) = e.(e_clock);
  env_system : e'.(e_system) = e.(e_system);
  env_rng : e'.(e_rng) = e.(e_rng);
  env_tick : (e.(e_tick) ≤ e'.(e_tick))%nat;
  env_pos : (e.(e_rng_pos) ≤ e'.(e_rng_pos))%nat;
}.

#[export] Instance env_le_refl : Reflexive env_le.
Proof. by split. Qed.

#[export] Instance env_le_trans : Transitive env_le.
Proof. intros ??? [????] [????]. split; first [congruence | lia]. Qed.

Lemma clock_ok_le e e' : env_le e e' → clock_ok e → clock_ok e'.
Proof. intros [Hc _ _ _ _] [Hn Hm]. split; rewrite Hc; auto. Qed.

Lemma wp_Instant_now {E} (Q : result E Instant → env → Prop) e :
  (∀ e', env_le e e' → e'.(e_tick) = S e.(e_tick) → Q (Ok (e.(e_clock) e.(e_tick))) e') →
  wp Instant_now Q e.
Proof. intros H. unfold wp, Instant_now. apply H; [|done]. split; cbn; auto. Qed.

Lemma wp_fill_bytes {E} n (Q : result E (list byte) → env → Prop) e :
  (∀ bs e', length bs = n → env_le e e' → e'.(e_tick) = e.(e_tick) → Q (Ok bs) e') →
  wp (fill_bytes n) Q e.
Proof.
  intros H. unfold wp, fill_bytes. apply H; [|split; cbn; auto; lia|done].
  by rewrite length_fmap, length_seq.
Qed.
