(* ===== verification/Crypto.v ===== *)
(** * The cryptographic primitives and the functions built on them

    The primitives come from other crates ([blake2], [hmac], [ring],
    [chacha20poly1305], [x25519-dalek]): they are the operations of the class
    [Crypto], and what the code relies on is the class [CryptoLaws].  The
    helper functions of noise/handshake.rs (lines 28-185) are defined on top. *)

From S2P Require Import Prelude Errors.
From coqutil Require Import Byte.

(** Arrays such as [[u8; 32]] are byte lists. *)
Abbreviation bytes := (list byte) (only parsing).

Class Crypto := {
  blake2s256 : bytes → bytes;                        (* [Blake2s256] of the bytes fed to it *)
  hmac_blake2s256 : bytes → bytes → bytes;           (* key, data: [SimpleHmac<Blake2s256>] *)
  blake2s_mac128 : bytes → bytes → bytes;            (* key, data: [Blake2sMac] of 16 bytes *)
  blake2s_mac192 : bytes → bytes → bytes;            (* key, data: [Blake2sMac] of 24 bytes *)
  (* key, nonce, aad, plaintext: ciphertext and tag of [seal_in_place_separate_tag] *)
  chacha20poly1305_seal : bytes → bytes → bytes → bytes → bytes * bytes;
  (* key, nonce, aad, ciphertext and tag: plaintext of [open_in_place] *)
  chacha20poly1305_open : bytes → bytes → bytes → bytes → option bytes;
  (* key, nonce, aad, plaintext: [encrypt_in_place_detached] *)
  xchacha20poly1305_seal : bytes → bytes → bytes → bytes → option (bytes * bytes);
  (* key, nonce, aad, ciphertext, tag: [decrypt_in_place_detached] *)
  xchacha20poly1305_open : bytes → bytes → bytes → bytes → bytes → option bytes;
  x25519_public : bytes → bytes;                     (* [PublicKey::from(&secret)] *)
  x25519_dh : bytes → bytes → bytes;                 (* [secret.diffie_hellman(&public)] *)
}.

(** Lengths, inverse pairs and the commutation of Diffie-Hellman.  Nothing
    here is a hardness assumption. *)
Class CryptoLaws `{Crypto} : Prop := {
  length_blake2s256 d : length (blake2s256 d) = 32%nat;
  length_hmac_blake2s256 k d : length (hmac_blake2s256 k d) = 32%nat;
  length_blake2s_mac128 k d : length (blake2s_mac128 k d) = 16%nat;
  length_blake2s_mac192 k d : length (blake2s_mac192 k d) = 24%nat;
  length_x25519_public a : length (x25519_public a) = 32%nat;
  length_x25519_dh a p : length (x25519_dh a p) = 32%nat;
  x25519_dh_comm a b : x25519_dh a (x25519_public b) = x25519_dh b (x25519_public a);
  seal_length k n a p :
    length (chacha20poly1305_seal k n a p).1 = length p ∧
    length (chacha20poly1305_seal k n a p).2 = 16%nat;
  open_seal k n a p :
    let '(ct, tag) := chacha20poly1305_seal k n a p in
    chacha20poly1305_open k n a (ct ++ tag) = Some p;
  open_length k n a c p : chacha20poly1305_open k n a c = Some p → length c = (length p + 16)%nat;
  xseal_open k n a p :
    length p = 16%nat →
    ∃ ct tag, xchacha20poly1305_seal k n a p = Some (ct, tag) ∧
      length ct = 16%nat ∧ length tag = 16%nat ∧
      xchacha20poly1305_open k n a ct tag = Some p;
  xopen_length k n a ct tag p :
    xchacha20poly1305_open k n a ct tag = Some p → length p = length ct;
}.

(** ASCII strings of the protocol. *)
Definition LABEL_MAC1 : bytes := byte.of_Z <$> [109; 97; 99; 49; 45; 45; 45; 45].
Definition LABEL_COOKIE : bytes := byte.of_Z <$> [99; 111; 111; 107; 105; 101; 45; 45].
Definition KEY_LEN : nat := 32.
Definition TIMESTAMP_LEN : nat := 12.
Definition AEAD_SIZE : nat := 16.

Definition INITIAL_CHAIN_KEY : bytes := byte.of_Z <$>
  [96; 226; 109; 174; 243; 39; 239; 192; 46; 195; 53; 226; 160; 37; 210; 208; 22; 235; 66; 6;
   248; 114; 119; 245; 45; 56; 209; 152; 139; 120; 205; 54].
Definition INITIAL_CHAIN_HASH : bytes := byte.of_Z <$>
  [34; 17; 179; 97; 8; 26; 197; 102; 105; 18; 67; 219; 69; 138; 213; 50; 45; 156; 108; 102; 34;
   147; 232; 183; 14; 225; 156; 101; 186; 7; 158; 243].

Definition zeros (n : nat) : bytes := replicate n (byte.of_Z 0).

Section Functions.
Context `{Crypto}.

Definition b2s_hash (data1 data2 : bytes) : bytes := blake2s256 (data1 ++ data2).

Definition b2s_hmac (key data1 : bytes) : bytes := hmac_blake2s256 key data1.

Definition b2s_hmac2 (key data1 data2 : bytes) : bytes := hmac_blake2s256 key (data1 ++ data2).

Definition b2s_kdf1 (key input : bytes) : bytes :=
  b2s_hmac (b2s_hmac key input) [byte.of_Z 1].

Definition b2s_kdf2 (key input : bytes) : bytes * bytes :=
  let temp := b2s_hmac key input in
  let out1 := b2s_hmac temp [byte.of_Z 1] in
  let out2 := b2s_hmac2 temp out1 [byte.of_Z 2] in
  (out1, out2).

Definition b2s_kdf3 (key input : bytes) : bytes * bytes * bytes :=
  let temp := b2s_hmac key input in
  let out1 := b2s_hmac temp [byte.of_Z 1] in
  let out2 := b2s_hmac2 temp out1 [byte.of_Z 2] in
  let out3 := b2s_hmac2 temp out2 [byte.of_Z 3] in
  (out1, out2, out3).

Definition b2s_keyed_mac_16 (key data1 : bytes) : bytes := blake2s_mac128 key data1.

Definition b2s_keyed_mac_16_2 (key data1 data2 : bytes) : bytes :=
  blake2s_mac128 key (data1 ++ data2).

Definition b2s_mac_24 (key data1 : bytes) : bytes := blake2s_mac192 key data1.

(** Twelve bytes, the last eight of them the little-endian counter. *)
Definition counter_nonce (counter : Z) : bytes := copy_at 4 (to_le_bytes 8 counter) (zeros 12).

(** [ciphertext[..data.len()]] holds the data, then its encryption; the tag
    fills the rest of the buffer. *)
Definition aead_chacha20_seal_inner (key nonce data aad : bytes) : bytes :=
  let '(ct, tag) := chacha20poly1305_seal key nonce aad data in
  ct ++ tag.

Definition aead_chacha20_seal (key : bytes) (counter : Z) (data aad : bytes) : bytes :=
  aead_chacha20_seal_inner key (counter_nonce counter) data aad.

Definition aead_chacha20_open_inner (key nonce data aad : bytes) : option bytes :=
  chacha20poly1305_open key nonce aad data.

Definition aead_chacha20_open (key : bytes) (counter : Z) (data aad : bytes) :
    result WireGuardError bytes :=
  match aead_chacha20_open_inner key (counter_nonce counter) data aad with
  | Some plaintext => Ok plaintext
  | None => Err InvalidAeadTag
  end.

End Functions.

Section FunctionLemmas.
Context `{CryptoLaws}.

Lemma aead_open_seal key counter data aad :
  aead_chacha20_open key counter (aead_chacha20_seal key counter data aad) aad = Ok data.
Proof.
  unfold aead_chacha20_open, aead_chacha20_open_inner, aead_chacha20_seal,
    aead_chacha20_seal_inner.
  pose proof (open_seal key (counter_nonce counter) aad data) as Ho.
  destruct (chacha20poly1305_seal _ _ _ _) as [ct tag]. by rewrite Ho.
Qed.

Lemma length_aead_seal key counter data aad :
  length (aead_chacha20_seal key counter data aad) = (length data + 16)%nat.
Proof.
  unfold aead_chacha20_seal, aead_chacha20_seal_inner.
  destruct (seal_length key (counter_nonce counter) aad data) as [H1 H2].
  destruct (chacha20poly1305_seal _ _ _ _) as [ct tag]. cbn in *. rewrite length_app. lia.
Qed.

End FunctionLemmas.

(** ** A concrete instance, for evaluation

    Not secure: keys are multiplied modulo [2^256], hashes are polynomial. *)

Definition toy_digest (n : nat) (d : bytes) : bytes :=
  to_le_bytes n (foldl (λ acc b, Z.land (acc * 257 + byte.unsigned b + 1) 0xffffffffffffffff) 7 d).

Definition toy_tag (k n a p : bytes) : bytes := toy_digest 16 (k ++ n ++ a ++ p).

Definition toy_crypto : Crypto := {|
  blake2s256 := toy_digest 32;
  hmac_blake2s256 k d := toy_digest 32 (k ++ d);
  blake2s_mac128 k d := toy_digest 16 (k ++ d);
  blake2s_mac192 k d := toy_digest 24 (k ++ d);
  chacha20poly1305_seal k n a p := (p, toy_tag k n a p);
  chacha20poly1305_open k n a c :=
    let p := take (length c - 16) c in
    if bool_decide (c = p ++ toy_tag k n a p) then Some p else None;
  xchacha20poly1305_seal k n a p := Some (p, toy_tag k n a p);
  xchacha20poly1305_open k n a ct tag :=
    if bool_decide (tag = toy_tag k n a ct) then Some ct else None;
  x25519_public a := to_le_bytes 32 (from_le_bytes a * 9);
  x25519_dh a p := to_le_bytes 32 (from_le_bytes a * from_le_bytes p);
|}.

Lemma toy_dh_public a b :
  to_le_bytes 32 (from_le_bytes a * from_le_bytes (to_le_bytes 32 (from_le_bytes b * 9))) =
  to_le_bytes 32 (from_le_bytes a * (from_le_bytes b * 9)).
Proof.
  unfold to_le_bytes at 1 3. rewrite LittleEndianList.le_split_mod.
  rewrite (LittleEndianList.le_split_mod (_ * (_ * 9))). f_equal.
  unfold from_le_bytes at 2. unfold to_le_bytes.
  rewrite LittleEndianList.le_combine_split. apply Zmult_mod_idemp_r.
Qed.

Lemma toy_laws : @CryptoLaws toy_crypto.
Proof.
  assert (Htag : ∀ k n a p, length (toy_tag k n a p) = 16%nat)
    by (intros; apply length_to_le_bytes).
  split; try (intros; apply length_to_le_bytes); cbn.
  - intros a b. rewrite !toy_dh_public. f_equal. ring.
  - intros. by split.
  - intros k n a p. rewrite length_app, Htag, Nat.add_sub, take_app_length.
    by rewrite bool_decide_eq_true_2.
  - intros k n a c p. case_bool_decide as Hc; [|done]. intros [= <-].
    rewrite Hc at 1. rewrite length_app, Htag. done.
  - intros k n a p Hp. exists p, (toy_tag k n a p). by rewrite bool_decide_eq_true_2.
  - intros k n a ct tag p. case_bool_decide; [|done]. by intros [= <-].
Qed.
