(* ===== verification/Packet.v ===== *)
(** * Wire format (noise/mod.rs, lines 30-193)

    The message types, [Tunn::parse_incoming_packet] and
    [Tunn::dst_address].  [encode] is the wire format written down once as a
    specification; the parser is proved to accept exactly the encodings. *)

From S2P Require Import Prelude Errors Crypto.
From coqutil Require Import Byte.

Definition IPV4_MIN_HEADER_SIZE : nat := 20.
Definition IPV4_LEN_OFF : nat := 2.
Definition IPV4_SRC_IP_OFF : nat := 12.
Definition IPV4_DST_IP_OFF : nat := 16.
Definition IPV4_IP_SZ : nat := 4.
Definition IPV6_MIN_HEADER_SIZE : nat := 40.
Definition IPV6_LEN_OFF : nat := 4.
Definition IPV6_SRC_IP_OFF : nat := 8.
Definition IPV6_DST_IP_OFF : nat := 24.
Definition IPV6_IP_SZ : nat := 16.
Definition IP_LEN_SZ : nat := 2.

Definition HANDSHAKE_INIT : Z := 1.
Definition HANDSHAKE_RESP : Z := 2.
Definition COOKIE_REPLY : Z := 3.
Definition DATA : Z := 4.

Definition HANDSHAKE_INIT_SZ : nat := 148.
Definition HANDSHAKE_RESP_SZ : nat := 92.
Definition COOKIE_REPLY_SZ : nat := 64.
Definition DATA_OVERHEAD_SZ : nat := 32.

(** [std::net::IpAddr]: four or sixteen octets. *)
Inductive IpAddr : Type :=
| V4 (octets : bytes)
| V6 (octets : bytes).

#[global] Instance IpAddr_eq_dec : EqDecision IpAddr.
Proof. solve_decision. Defined.

Record HandshakeInit := MkHandshakeInit {
  hi_sender_idx : Z;
  hi_unencrypted_ephemeral : bytes;
  hi_encrypted_static : bytes;
  hi_encrypted_timestamp : bytes;
}.

Record HandshakeResponse := MkHandshakeResponse {
  hr_sender_idx : Z;
  hr_receiver_idx : Z;
  hr_unencrypted_ephemeral : bytes;
  hr_encrypted_nothing : bytes;
}.

Record PacketCookieReply := MkPacketCookieReply {
  cr_receiver_idx : Z;
  cr_nonce : bytes;
  cr_encrypted_cookie : bytes;
}.

Record PacketData := MkPacketData {
  pd_receiver_idx : Z;
  pd_counter : Z;
  pd_encrypted_encapsulated_packet : bytes;
}.

Inductive Packet : Type :=
| PHandshakeInit (p : HandshakeInit)
| PHandshakeResponse (p : HandshakeResponse)
| PCookieReply (p : PacketCookieReply)
| PData (p : PacketData).

Definition parse_incoming_packet (src : bytes) : result WireGuardError Packet :=
  if (length src <? 4)%nat then Err InvalidPacket
  else
    let packet_type := from_le_bytes (slice 0 4 src) in
    let len := length src in
    if (packet_type =? HANDSHAKE_INIT) && (len =? HANDSHAKE_INIT_SZ)%nat then
      Ok (PHandshakeInit {|
        hi_sender_idx := from_le_bytes (slice 4 8 src);
        hi_unencrypted_ephemeral := slice 8 40 src;
        hi_encrypted_static := slice 40 88 src;
        hi_encrypted_timestamp := slice 88 116 src |})
    else if (packet_type =? HANDSHAKE_RESP) && (len =? HANDSHAKE_RESP_SZ)%nat then
      Ok (PHandshakeResponse {|
        hr_sender_idx := from_le_bytes (slice 4 8 src);
        hr_receiver_idx := from_le_bytes (slice 8 12 src);
        hr_unencrypted_ephemeral := slice 12 44 src;
        hr_encrypted_nothing := slice 44 60 src |})
    else if (packet_type =? COOKIE_REPLY) && (len =? COOKIE_REPLY_SZ)%nat then
      Ok (PCookieReply {|
        cr_receiver_idx := from_le_bytes (slice 4 8 src);
        cr_nonce := slice 8 32 src;
        cr_encrypted_cookie := slice 32 64 src |})
    else if (packet_type =? DATA) && (DATA_OVERHEAD_SZ <=? len)%nat then
      Ok (PData {|
        pd_receiver_idx := from_le_bytes (slice 4 8 src);
        pd_counter := from_le_bytes (slice 8 16 src);
        pd_encrypted_encapsulated_packet := drop 16 src |})
    else Err InvalidPacket.

(** [packet[0] >> 4], for a packet that is not empty. *)
Definition ip_version (packet : bytes) : option Z :=
  (λ b, Z.shiftr (byte.unsigned b) 4) <$> head packet.

Definition dst_address (packet : bytes) : option IpAddr :=
  match ip_version packet with
  | None => None
  | Some version =>
    if (version =? 4) && (IPV4_MIN_HEADER_SIZE <=? length packet)%nat then
      Some (V4 (slice IPV4_DST_IP_OFF (IPV4_DST_IP_OFF + IPV4_IP_SZ) packet))
    else if (version =? 6) && (IPV6_MIN_HEADER_SIZE <=? length packet)%nat then
      Some (V6 (slice IPV6_DST_IP_OFF (IPV6_DST_IP_OFF + IPV6_IP_SZ) packet))
    else None
  end.

(** ** The wire format as a specification *)

(** The fields of a message have the widths of their Rust types. *)
Definition packet_wf (p : Packet) : Prop :=
  match p with
  | PHandshakeInit p =>
    in_width 32 p.(hi_sender_idx) ∧ length p.(hi_unencrypted_ephemeral) = 32%nat ∧
    length p.(hi_encrypted_static) = 48%nat ∧ length p.(hi_encrypted_timestamp) = 28%nat
  | PHandshakeResponse p =>
    in_width 32 p.(hr_sender_idx) ∧ in_width 32 p.(hr_receiver_idx) ∧
    length p.(hr_unencrypted_ephemeral) = 32%nat ∧ length p.(hr_encrypted_nothing) = 16%nat
  | PCookieReply p =>
    in_width 32 p.(cr_receiver_idx) ∧ length p.(cr_nonce) = 24%nat ∧
    length p.(cr_encrypted_cookie) = 32%nat
  | PData p =>
    in_width 32 p.(pd_receiver_idx) ∧ in_width 64 p.(pd_counter) ∧
    (16 ≤ length p.(pd_encrypted_encapsulated_packet))%nat
  end.

(** The two MAC fields that end a handshake message are checked elsewhere and
    do not appear in the parsed packet. *)
Definition macs_len (p : Packet) : nat :=
  match p with
  | PHandshakeInit _ | PHandshakeResponse _ => 32
  | PCookieReply _ | PData _ => 0
  end.

Definition encode (p : Packet) (macs : bytes) : bytes :=
  match p with
  | PHandshakeInit p =>
    to_le_bytes 4 HANDSHAKE_INIT ++ to_le_bytes 4 p.(hi_sender_idx) ++
    p.(hi_unencrypted_ephemeral) ++ p.(hi_encrypted_static) ++ p.(hi_encrypted_timestamp) ++ macs
  | PHandshakeResponse p =>
    to_le_bytes 4 HANDSHAKE_RESP ++ to_le_bytes 4 p.(hr_sender_idx) ++
    to_le_bytes 4 p.(hr_receiver_idx) ++ p.(hr_unencrypted_ephemeral) ++
    p.(hr_encrypted_nothing) ++ macs
  | PCookieReply p =>
    to_le_bytes 4 COOKIE_REPLY ++ to_le_bytes 4 p.(cr_receiver_idx) ++
    p.(cr_nonce) ++ p.(cr_encrypted_cookie) ++ macs
  | PData p =>
    to_le_bytes 4 DATA ++ to_le_bytes 4 p.(pd_receiver_idx) ++
    to_le_bytes 8 p.(pd_counter) ++ p.(pd_encrypted_encapsulated_packet) ++ macs
  end.

(** Lengths of the parts of a message, and pieces cut out of a concatenation
    whose parts have known lengths. *)
Ltac length_known := first [eassumption | apply length_to_le_bytes | reflexivity].
Ltac slices :=
  repeat first
    [ rewrite slice_app_exact by length_known
    | rewrite slice_full by length_known
    | erewrite slice_skip; [cbn [Nat.sub]|length_known|cbn; lia]
    | erewrite drop_skip; [cbn [Nat.sub]|length_known|cbn; lia]
    | rewrite drop_0 ].

Lemma length_encode p macs :
  packet_wf p → length macs = macs_len p →
  length (encode p macs) =
    match p with
    | PHandshakeInit _ => HANDSHAKE_INIT_SZ
    | PHandshakeResponse _ => HANDSHAKE_RESP_SZ
    | PCookieReply _ => COOKIE_REPLY_SZ
    | PData p => (16 + length p.(pd_encrypted_encapsulated_packet))%nat
    end.
Proof.
  destruct p; intros Hwf Hm; unfold encode; cbn in Hwf, Hm;
    rewrite !length_app, !length_to_le_bytes, Hm.
  - destruct Hwf as (_ & -> & -> & ->). done.
  - destruct Hwf as (_ & _ & -> & ->). done.
  - destruct Hwf as (_ & -> & ->). done.
  - lia.
Qed.

Lemma parse_encode p macs :
  packet_wf p → length macs = macs_len p → parse_incoming_packet (encode p macs) = Ok p.
Proof.
  intros Hwf Hm. pose proof (length_encode p macs Hwf Hm) as Hlen.
  unfold parse_incoming_packet. rewrite Hlen. clear Hlen.
  destruct p as [p|p|p|p]; destruct p; cbn [packet_wf encode macs_len] in *; cbn in Hwf;
    destruct_and!; slices; rewrite from_to_le_bytes by done; cbn [Z.eqb Pos.eqb andb].
  - cbn. slices. by rewrite from_to_le_bytes.
  - cbn. slices. by rewrite !from_to_le_bytes.
  - cbn. slices. by rewrite from_to_le_bytes.
  - rewrite (proj2 (Nat.leb_le DATA_OVERHEAD_SZ _)) by (cbn; unfold DATA_OVERHEAD_SZ; lia).
    cbn. slices.
    apply nil_length_inv in Hm as ->. by rewrite app_nil_r, !from_to_le_bytes.
Qed.

Lemma le_field n a b (src : bytes) :
  (b ≤ length src)%nat → (b - a = n)%nat →
  to_le_bytes n (from_le_bytes (slice a b src)) = slice a b src ∧
  in_width (Z.of_nat n * 8) (from_le_bytes (slice a b src)).
Proof.
  intros ? <-. split; [apply to_from_le_bytes | apply from_le_bytes_width]; by apply length_slice.
Qed.

(** Each accepted datagram is the encoding of the packet it parses to: the
    fields are the whole of it, apart from the MACs. *)
Lemma parse_sound src p :
  parse_incoming_packet src = Ok p →
  packet_wf p ∧ ∃ macs, length macs = macs_len p ∧ src = encode p macs.
Proof.
  unfold parse_incoming_packet. destruct (Nat.ltb_spec (length src) 4); [done|].
  repeat case_match; intros [= <-]; try done;
    repeat match goal with
    | H : _ && _ = true |- _ => apply andb_true_iff in H as [Hty%Z.eqb_eq Hlen]
    end;
    first [apply Nat.eqb_eq in Hlen | apply Nat.leb_le in Hlen];
    unfold HANDSHAKE_INIT_SZ, HANDSHAKE_RESP_SZ, COOKIE_REPLY_SZ, DATA_OVERHEAD_SZ in Hlen;
    cbn [packet_wf macs_len encode hi_sender_idx hi_unencrypted_ephemeral hi_encrypted_static
      hi_encrypted_timestamp hr_sender_idx hr_receiver_idx hr_unencrypted_ephemeral
      hr_encrypted_nothing cr_receiver_idx cr_nonce cr_encrypted_cookie pd_receiver_idx
      pd_counter pd_encrypted_encapsulated_packet];
    (destruct (le_field 4 0 4 src) as [Hf0 _]; [lia..|]);
    (destruct (le_field 4 4 8 src) as [Hf4 Hw4]; [lia..|]).
  - split; [split_and!; first [exact Hw4 | by rewrite length_slice by lia]|].
    exists (drop 116 src). split; [rewrite length_drop; lia|].
    rewrite <-Hty, Hf0, Hf4, <-!drop_slice by lia. by rewrite drop_0.
  - destruct (le_field 4 8 12 src) as [Hf8 Hw8]; [lia..|].
    split; [split_and!; first [exact Hw4 | exact Hw8 | by rewrite length_slice by lia]|].
    exists (drop 60 src). split; [rewrite length_drop; lia|].
    rewrite <-Hty, Hf0, Hf4, Hf8, <-!drop_slice by lia. by rewrite drop_0.
  - split; [split_and!; first [exact Hw4 | by rewrite length_slice by lia]|].
    exists (drop 64 src). split; [rewrite length_drop; lia|].
    rewrite <-Hty, Hf0, Hf4, <-!drop_slice by lia. by rewrite drop_0.
  - destruct (le_field 8 8 16 src) as [Hf8 Hw8]; [lia..|].
    split; [split_and!; first [exact Hw4 | exact Hw8 | rewrite length_drop; lia]|].
    exists []. split; [done|].
    rewrite <-Hty, Hf0, Hf4, Hf8, app_nil_r, <-!drop_slice by lia. by rewrite drop_0.
Qed.

(** C4.  [parse_incoming_packet] accepts exactly the datagrams of the wire
    format: a datagram parses to [p] if and only if the fields of [p] have
    their widths and the datagram is the encoding of [p] followed by the two
    MAC fields of a handshake message.  In particular the type word with its
    three reserved zero bytes and the total length are checked, and no byte of
    the datagram is read twice or skipped. *)
Theorem parse_incoming_packet_iff src p :
  parse_incoming_packet src = Ok p ↔
  packet_wf p ∧ ∃ macs, length macs = macs_len p ∧ src = encode p macs.
Proof.
  split; [apply parse_sound|]. intros (Hwf & macs & Hm & ->). by apply parse_encode.
Qed.
