(* ===== verification/Session.v ===== *)
(** * Transport sessions (noise/session.rs)

    A session encrypts packets under a counter nonce and decrypts the packets
    of the peer behind the replay window.  Atomics and mutexes are plain
    fields: every method touches each of them once or under one lock. *)

From S2P Require Import Prelude Errors ReplayWindow Crypto Packet.
From coqutil Require Import Byte.
Import Validator.

Definition DATA_OFFSET : nat := 16.

Record Session := MkSession {
  receiving_index : Z;
  sending_index : Z;
  receiver : bytes;                 (* the key of [receiver] *)
  sender : bytes;                   (* the key of [sender] *)
  sending_key_counter : Z;          (* an [AtomicUsize], of the 64-bit targets *)
  receiving_key_counter : ReceivingKeyCounterValidator;
}.

Definition Session_new (local_index peer_index : Z) (receiving_key sending_key : bytes) : Session := {|
  receiving_index := local_index;
  sending_index := peer_index;
  receiver := receiving_key;
  sender := sending_key;
  sending_key_counter := 0;
  receiving_key_counter := default;
|}.

Definition local_index (s : Session) : Z := s.(receiving_index).

Definition with_sending_key_counter (c : Z) (s : Session) : Session :=
  MkSession s.(receiving_index) s.(sending_index) s.(receiver) s.(sender) c
    s.(receiving_key_counter).
Definition with_receiving_key_counter (v : ReceivingKeyCounterValidator) (s : Session) : Session :=
  MkSession s.(receiving_index) s.(sending_index) s.(receiver) s.(sender)
    s.(sending_key_counter) v.

Definition receiving_counter_quick_check (counter : Z) (s : Session) : result WireGuardError () :=
  will_accept counter s.(receiving_key_counter).

Definition receiving_counter_mark (counter : Z) : M WireGuardError Session () := λ s,
  let '(ret, v) := mark_did_receive counter s.(receiving_key_counter) in
  let v' :=
    match ret with
    | Ok _ => with_receive_cnt (wrap 64 (v.(receive_cnt) + 1)) v
    | Err _ => v
    end in
  Ret (ret, with_receiving_key_counter v' s).

(** [(next, receive_cnt)] *)
Definition current_packet_cnt (s : Session) : Z * Z :=
  (s.(receiving_key_counter).(next), s.(receiving_key_counter).(receive_cnt)).

Section Transport.
Context `{Crypto}.

(** The returned slice is [dst[..DATA_OFFSET + n]]. *)
Definition format_packet_data (src dst : bytes) : M WireGuardError Session bytes :=
  _ ← assert_ (length src + DATA_OVERHEAD_SZ <=? length dst)%nat;
  counter ← gets sending_key_counter;                    (* fetch_add(1) *)
  _ ← modify (with_sending_key_counter (wrap 64 (counter + 1)));
  idx ← gets sending_index;
  key ← gets sender;
  let dst := copy_at 0 (to_le_bytes 4 DATA) dst in
  let dst := copy_at 4 (to_le_bytes 4 idx) dst in
  let dst := copy_at 8 (to_le_bytes 8 counter) dst in
  let nonce := copy_at 4 (to_le_bytes 8 counter) (zeros 12) in
  let dst := copy_at DATA_OFFSET src dst in
  let '(ct, tag) := chacha20poly1305_seal key nonce [] (slice 16 (16 + length src) dst) in
  let dst := copy_at DATA_OFFSET ct dst in
  let dst := copy_at (DATA_OFFSET + length src) tag dst in
  let n := (length src + AEAD_SIZE)%nat in
  mret (take (DATA_OFFSET + n) dst).

(** The returned slice is the front of [dst]. *)
Definition receive_packet_data (packet : PacketData) (dst : bytes) :
    M WireGuardError Session bytes :=
  let ct_len := length packet.(pd_encrypted_encapsulated_packet) in
  _ ← assert_ (ct_len <=? length dst)%nat;
  idx ← gets receiving_index;
  if negb (packet.(pd_receiver_idx) =? idx) then throw WrongIndex
  else
    quick ← gets (receiving_counter_quick_check packet.(pd_counter));
    _ ← lift_result quick;
    key ← gets receiver;
    let nonce := copy_at 4 (to_le_bytes 8 packet.(pd_counter)) (zeros 12) in
    let dst := copy_at 0 packet.(pd_encrypted_encapsulated_packet) dst in
    ret ← lift_result
      (match chacha20poly1305_open key nonce [] (take ct_len dst) with
       | Some plaintext => Ok plaintext
       | None => Err InvalidAeadTag
       end);
    _ ← receiving_counter_mark packet.(pd_counter);
    mret ret.

End Transport.

(** ** Type invariant *)

Record session_wf (s : Session) : Prop := {
  sw_receiving_index : in_width 32 s.(receiving_index);
  sw_sending_index : in_width 32 s.(sending_index);
  sw_counter : in_width 64 s.(sending_key_counter);
  sw_window : wf s.(receiving_key_counter);
}.

Lemma session_new_wf l p rk sk :
  in_width 32 l → in_width 32 p → session_wf (Session_new l p rk sk).
Proof. intros. split; cbn; auto with window. done. Qed.

Section TransportLemmas.
Context `{CryptoLaws}.

(** The packet a session emits for a counter. *)
Definition data_packet (s : Session) (src : bytes) : Packet :=
  let counter := s.(sending_key_counter) in
  PData {|
    pd_receiver_idx := s.(sending_index);
    pd_counter := counter;
    pd_encrypted_encapsulated_packet := aead_chacha20_seal s.(sender) counter src [];
  |}.

Lemma format_packet_data_eq src dst s :
  (length src + DATA_OVERHEAD_SZ ≤ length dst)%nat →
  format_packet_data src dst s =
    Ret (Ok (encode (data_packet s src) []),
         with_sending_key_counter (wrap 64 (s.(sending_key_counter) + 1)) s).
Proof.
  intros Hlen. unfold DATA_OVERHEAD_SZ in Hlen. unfold format_packet_data.
  erewrite bind_ok; [|apply assert_true, Nat.leb_le; exact Hlen]. run_oks.
  rewrite copy_at_0, length_to_le_bytes.
  rewrite (copy_at_filled 4), (copy_at_filled 8), (copy_at_filled DATA_OFFSET)
    by (rewrite ?length_app, ?length_drop, ?length_to_le_bytes; lia || done).
  rewrite !length_to_le_bytes, !drop_drop.
  set (hdr := (_ ++ _) ++ to_le_bytes 8 _).
  assert (Hhdr : length hdr = 16%nat) by (unfold hdr; by rewrite !length_app, !length_to_le_bytes).
  rewrite <-!(app_assoc hdr).
  erewrite (slice_skip 16) by (done || lia). cbn [Nat.sub].
  rewrite slice_app_exact by lia.
  destruct (seal_length s.(sender) (counter_nonce s.(sending_key_counter)) [] src) as [Hct Htag].
  unfold encode, data_packet, aead_chacha20_seal, aead_chacha20_seal_inner.
  unfold counter_nonce in *. cbn [pd_receiver_idx pd_counter pd_encrypted_encapsulated_packet].
  destruct (chacha20poly1305_seal _ _ _ _) as [ct tag]. cbn [fst snd] in Hct, Htag.
  rewrite (copy_at_filled DATA_OFFSET) by (rewrite ?length_app; lia || done).
  rewrite Hct, drop_app_length.
  rewrite (copy_at_filled (DATA_OFFSET + length src))
    by (rewrite ?length_app, ?length_drop; unfold DATA_OFFSET; lia).
  unfold mret, M_ret. do 3 f_equal.
  rewrite take_app_le, take_ge by (rewrite !length_app; unfold DATA_OFFSET, AEAD_SIZE; lia).
  unfold hdr. by rewrite app_nil_r, <-!app_assoc.
Qed.
(** [receive_packet_data] without the plumbing: what decides, in which order. *)
Lemma receive_packet_data_eq p dst s :
  (length p.(pd_encrypted_encapsulated_packet) ≤ length dst)%nat →
  receive_packet_data p dst s =
    if negb (p.(pd_receiver_idx) =? s.(receiving_index)) then Ret (Err WrongIndex, s)
    else match will_accept p.(pd_counter) s.(receiving_key_counter) with
    | Err e => Ret (Err e, s)
    | Ok _ =>
      match aead_chacha20_open s.(receiver) p.(pd_counter)
              p.(pd_encrypted_encapsulated_packet) [] with
      | Err e => Ret (Err e, s)
      | Ok plaintext =>
        match receiving_counter_mark p.(pd_counter) s with
        | Ret (Ok _, s') => Ret (Ok plaintext, s')
        | Ret (Err e, s') => Ret (Err e, s')
        | Panic => Panic
        end
      end
    end.
Proof.
  intros Hlen. unfold receive_packet_data.
  erewrite bind_ok; [|apply assert_true, Nat.leb_le; exact Hlen]. run_ok.
  destruct (negb _); [done|]. run_ok. unfold receiving_counter_quick_check.
  destruct (will_accept _ _) as [[]|e]; [|done]. run_oks.
  rewrite copy_at_0, take_app_length.
  unfold aead_chacha20_open, aead_chacha20_open_inner, counter_nonce.
  destruct (chacha20poly1305_open _ _ _ _) as [plaintext|]; [|done]. run_ok.
  unfold receiving_counter_mark. unfold mbind, M_bind.
  by destruct (mark_did_receive _ _) as [[[]|] v].
Qed.

Lemma mark_err_same c v e v' : mark_did_receive c v = (Err e, v') → v' = v.
Proof. unfold mark_did_receive. repeat case_match; by intros [= _ <-]. Qed.

Lemma with_same_window s : with_receiving_key_counter s.(receiving_key_counter) s = s.
Proof. by destruct s. Qed.

Lemma implements_receive_cnt v w n :
  in_width 64 n → implements v w → implements (with_receive_cnt n v) w.
Proof. intros ? [[? ? ? ?] ? ? ?]. by split. Qed.

(** One packet against the specification of the window. *)
Lemma receive_one p dst s w :
  (length p.(pd_encrypted_encapsulated_packet) ≤ length dst)%nat →
  good_counter p.(pd_counter) →
  implements s.(receiving_key_counter) w →
  (∃ e, receive_packet_data p dst s = Ret (Err e, s)) ∨
  (∃ plaintext s', receive_packet_data p dst s = Ret (Ok plaintext, s') ∧
     p.(pd_receiver_idx) = s.(receiving_index) ∧
     aead_chacha20_open s.(receiver) p.(pd_counter) p.(pd_encrypted_encapsulated_packet) [] =
       Ok plaintext ∧
     w_accepts p.(pd_counter) w = true ∧
     implements s'.(receiving_key_counter) (w_mark p.(pd_counter) w).2 ∧
     s' = with_receiving_key_counter s'.(receiving_key_counter) s).
Proof.
  intros Hlen Hc Him. rewrite receive_packet_data_eq by done.
  destruct (Z.eqb_spec p.(pd_receiver_idx) s.(receiving_index)) as [Hidx|]; cbn [negb]; [|eauto].
  destruct (will_accept _ _) as [[]|e]; [|eauto].
  destruct (aead_chacha20_open _ _ _ _) as [pt|e]; [|eauto].
  unfold receiving_counter_mark. pose proof (mark_good _ _ _ Him Hc) as Hg.
  destruct (mark_did_receive _ _) as [[[]|e] v].
  - destruct Hg as [Ha Him']. right. eexists _, _. split_and!; [reflexivity|done|done|done| |by destruct s].
    cbn. apply implements_receive_cnt; [by apply wrap_in_width|done].
  - left. rewrite Hg, with_same_window. eauto.
Qed.

(** Both directions keep the type invariant and the indices. *)
Definition same_ends (s s' : Session) : Prop :=
  session_wf s' ∧ s'.(receiving_index) = s.(receiving_index) ∧ s'.(sending_index) = s.(sending_index) ∧
  s'.(receiver) = s.(receiver) ∧ s'.(sender) = s.(sender).

Lemma format_packet_data_wp src dst s :
  session_wf s → (length src + DATA_OVERHEAD_SZ ≤ length dst)%nat →
  wp (format_packet_data src dst) (λ r s', r = Ok (encode (data_packet s src) []) ∧ same_ends s s') s.
Proof.
  intros [? ? ? ?] Hlen. eapply wp_intro; [by apply format_packet_data_eq|].
  split; [done|]. split_and!; try done. split; cbn; [done..| |done]. by apply wrap_in_width.
Qed.

Lemma receive_packet_data_wp p dst s :
  session_wf s → (length p.(pd_encrypted_encapsulated_packet) ≤ length dst)%nat →
  wp (receive_packet_data p dst) (λ r s', same_ends s s' ∧
    match r with
    | Ok pt => aead_chacha20_open s.(receiver) p.(pd_counter) p.(pd_encrypted_encapsulated_packet) [] = Ok pt
    | Err _ => s' = s
    end) s.
Proof.
  intros Hwf Hlen. assert (same_ends s s) by (by split). unfold wp. rewrite receive_packet_data_eq by done.
  destruct (negb _); [done|]. destruct (will_accept _ _); [|done].
  destruct (aead_chacha20_open _ _ _ _) as [pt|] eqn:Ho; [|done].
  unfold receiving_counter_mark. destruct Hwf as [? ? ? Hw].
  pose proof (wf_mark p.(pd_counter) _ Hw) as Hw'.
  destruct (mark_did_receive _ _) as [[[]|err] v] eqn:Hm; cbn [snd] in Hw'.
  - split; [|done]. split_and!; try done. split; cbn; [done..|]. destruct Hw'. split; cbn; try done.
    by apply wrap_in_width.
  - apply mark_err_same in Hm as ->. by rewrite with_same_window.
Qed.

(** A packet sealed under the key of the session, with a counter the window
    accepts, is decrypted to its plaintext. *)
Lemma receive_fresh s w c pt dst :
  (length pt + AEAD_SIZE ≤ length dst)%nat → small_counter c →
  implements s.(receiving_key_counter) w → w_accepts c w = true →
  ∃ s', receive_packet_data (MkPacketData s.(receiving_index) c (aead_chacha20_seal s.(receiver) c pt [])) dst s =
      Ret (Ok pt, s') ∧
    implements s'.(receiving_key_counter) (w_mark c w).2 ∧
    s' = with_receiving_key_counter s'.(receiving_key_counter) s.
Proof.
  intros Hlen Hc Him Ha. set (p := MkPacketData _ _ _).
  assert (Hl : (length p.(pd_encrypted_encapsulated_packet) ≤ length dst)%nat)
    by (cbn; by rewrite length_aead_seal).
  destruct (receive_one p dst s w Hl (small_good _ Hc) Him) as [[e He]|(pt' & s' & Hr & _ & Ho & _ & Him' & Hs')].
  - exfalso. revert He. rewrite receive_packet_data_eq by done. cbn. rewrite Z.eqb_refl. cbn [negb].
    rewrite (will_accept_spec _ _ _ Him Hc), Ha, aead_open_seal. unfold receiving_counter_mark.
    destruct (mark_implements _ _ _ Him Hc) as [Hm _]. unfold w_mark in Hm. rewrite Ha in Hm. cbn in Hm.
    destruct (mark_did_receive _ _) as [r v]. cbn in Hm. by subst r.
  - cbn in Ho. rewrite aead_open_seal in Ho. injection Ho as <-. by exists s'.
Qed.

(** ** Streams of packets *)

(** Receive packets one after the other, keeping counter and plaintext of the
    accepted ones (the last one first). *)
Fixpoint receive_all_packets (ps : list PacketData) (dst : bytes) (s : Session)
    (acc : list (Z * bytes)) : outcome (list (Z * bytes) * Session) :=
  match ps with
  | [] => Ret (acc, s)
  | p :: ps' =>
    match receive_packet_data p dst s with
    | Ret (Ok plaintext, s') => receive_all_packets ps' dst s' ((p.(pd_counter), plaintext) :: acc)
    | Ret (Err _, s') => receive_all_packets ps' dst s' acc
    | Panic => Panic
    end
  end.

Fixpoint send_all_packets (srcs : list bytes) (dst : bytes) (s : Session) (acc : list bytes) :
    outcome (list bytes * Session) :=
  match srcs with
  | [] => Ret (acc, s)
  | src :: srcs' =>
    match format_packet_data src dst s with
    | Ret (Ok packet, s') => send_all_packets srcs' dst s' (packet :: acc)
    | Ret (Err _, s') => send_all_packets srcs' dst s' acc
    | Panic => Panic
    end
  end.

(** The nonce a data packet was encrypted under. *)
Definition packet_counter (b : bytes) : option Z :=
  match parse_incoming_packet b with
  | Ok (PData p) => Some p.(pd_counter)
  | _ => None
  end.

Lemma receive_all_packets_spec ps dst s acc :
  Forall (λ p, length p.(pd_encrypted_encapsulated_packet) ≤ length dst)%nat ps →
  Forall (λ p, good_counter p.(pd_counter)) ps →
  NoDup acc.*1 →
  implements s.(receiving_key_counter) (Window (next_of acc.*1) (list_to_set acc.*1)) →
  ∃ acc' s', receive_all_packets ps dst s acc = Ret (acc', s') ∧ NoDup acc'.*1 ∧
    (∀ c pt, (c, pt) ∈ acc' → (c, pt) ∈ acc ∨ ∃ p, p ∈ ps ∧ p.(pd_counter) = c ∧
       p.(pd_receiver_idx) = s.(receiving_index) ∧
       aead_chacha20_open s.(receiver) c p.(pd_encrypted_encapsulated_packet) [] = Ok pt).
Proof.
  intros Hlen Hc. revert s acc. induction ps as [|p ps IH]; intros s acc Hnd Him; cbn.
  { exists acc, s. eauto. }
  apply Forall_cons in Hlen as [Hl Hlen]. apply Forall_cons in Hc as [Hc1 Hc].
  specialize (IH Hlen Hc).
  destruct (receive_one p dst s _ Hl Hc1 Him) as [[e ->]|(pt & s' & -> & Hidx & Ho & Ha & Him' & Hs')].
  - destruct (IH s acc Hnd Him) as (acc' & s'' & -> & Hnd' & Hin). exists acc', s''.
    split_and!; [done..|]. intros c pt [?|(q & ? & ?)]%Hin; [by left|right].
    exists q. split; [by right|done].
  - unfold w_mark in Him'. rewrite Ha in Him'. unfold w_accepts in Ha.
    apply bool_decide_eq_true in Ha as [_ Hnew]. cbn in Hnew, Him'.
    destruct (IH s' ((p.(pd_counter), pt) :: acc)) as (acc' & s'' & -> & Hnd' & Hin).
    { cbn. apply NoDup_cons. split; [|done]. by rewrite elem_of_list_to_set in Hnew. }
    { done. }
    exists acc', s''. split_and!; [done..|]. intros c q Hcq.
    rewrite Hs' in Hin. cbn in Hin.
    destruct (Hin c q Hcq) as [[[= -> ->]|?]%elem_of_cons|(r & ? & ?)]; [right|by left|right].
    + exists p. split_and!; [by left|done..].
    + exists r. split; [by right|done].
Qed.

Lemma send_all_packets_spec srcs dst s acc :
  session_wf s →
  Forall (λ src, length src + DATA_OVERHEAD_SZ ≤ length dst)%nat srcs →
  ∃ packets s', send_all_packets srcs dst s acc = Ret (rev packets ++ acc, s') ∧
    packet_counter <$> packets =
      (λ i, Some (wrap 64 (s.(sending_key_counter) + Z.of_nat i))) <$> seq 0 (length srcs).
Proof.
  intros Hwf Hlen. revert s acc Hwf. induction srcs as [|src srcs IH]; intros s acc Hwf; cbn.
  { by exists [], s. }
  apply Forall_cons in Hlen as [Hl Hlen]. rewrite format_packet_data_eq by done.
  destruct Hwf as [Hri Hsi Hctr Hwin].
  set (s1 := with_sending_key_counter _ s).
  destruct (IH Hlen s1 (encode (data_packet s src) [] :: acc)) as (packets & s' & -> & Hctrs).
  { split; try done. by apply wrap_in_width. }
  exists (encode (data_packet s src) [] :: packets), s'. split.
  { cbn. by rewrite <-app_assoc. }
  rewrite fmap_cons, Hctrs. f_equal.
  - unfold packet_counter. rewrite parse_encode; [|split_and!; cbn|done].
    + cbn. by rewrite Z.add_0_r, wrap_small.
    + done.
    + done.
    + rewrite length_aead_seal. lia.
  - rewrite <-fmap_S_seq, <-list_fmap_compose. apply list_fmap_ext. intros i x _. cbn. f_equal.
    unfold wrap. rewrite Zplus_mod_idemp_l. f_equal. lia.
Qed.

End TransportLemmas.

Section Theorems.
Context `{CryptoLaws}.

(** A packet that was just accepted is refused as a duplicate. *)
Lemma accepted_then_duplicate p dst s pt s' w :
  (length p.(pd_encrypted_encapsulated_packet) ≤ length dst)%nat →
  small_counter p.(pd_counter) →
  implements s.(receiving_key_counter) w →
  receive_packet_data p dst s = Ret (Ok pt, s') →
  receive_packet_data p dst s' = Ret (Err DuplicateCounter, s').
Proof.
  intros Hlen Hc Him Hr.
  destruct (receive_one p dst s w Hlen (small_good _ Hc) Him) as [[e He]|(pt' & s'' & Hr' & Hidx & _ & Ha & Him' & Hs')];
    [congruence|].
  assert (s'' = s') as -> by congruence. unfold w_mark in Him'. rewrite Ha in Him'. cbn in Him'.
  apply bool_decide_eq_true in Ha as [Hnear _].
  rewrite receive_packet_data_eq by done. rewrite Hs' at 1. cbn [receiving_index with_receiving_key_counter].
  rewrite Hidx, Z.eqb_refl. cbn [negb].
  rewrite (will_accept_spec _ _ _ Him' Hc). unfold w_accepts. cbn.
  rewrite bool_decide_eq_false_2; [|by intros [_ []%not_elem_of_union]; set_solver].
  rewrite (proj2 (Z.ltb_ge _ _)); [done|]. unfold N_BITS, WORD_SIZE, N_WORDS in *. lia.
Qed.

(** C5.  What one end seals the other opens: if [a] sends under the key and
    the index [b] receives under, and [b]'s window accepts [a]'s counter, the
    packet [a] formats parses as a data packet, [b] decrypts it to the very
    bytes [a] was given, and the same packet is refused when it comes again. *)
Theorem session_roundtrip (a b : Session) src dst dst' w :
  session_wf a → a.(sender) = b.(receiver) → a.(sending_index) = b.(receiving_index) →
  (length src + DATA_OVERHEAD_SZ ≤ length dst)%nat → (length src + AEAD_SIZE ≤ length dst')%nat →
  implements b.(receiving_key_counter) w →
  small_counter a.(sending_key_counter) → w_accepts a.(sending_key_counter) w = true →
  ∃ packet a' p b',
    format_packet_data src dst a = Ret (Ok packet, a') ∧
    parse_incoming_packet packet = Ok (PData p) ∧
    receive_packet_data p dst' b = Ret (Ok src, b') ∧
    receive_packet_data p dst' b' = Ret (Err DuplicateCounter, b').
Proof.
  intros [_ Hsi Hctr _] Hkey Hidx Hdst Hdst' Him Hc Ha.
  pose (p := MkPacketData a.(sending_index) a.(sending_key_counter)
    (aead_chacha20_seal a.(sender) a.(sending_key_counter) src [])).
  assert (Hlen : (length p.(pd_encrypted_encapsulated_packet) ≤ length dst')%nat)
    by (cbn; by rewrite length_aead_seal).
  assert (Hr : ∃ b', receive_packet_data p dst' b = Ret (Ok src, b')).
  { destruct (receive_fresh b w a.(sending_key_counter) src dst' Hdst' Hc Him Ha) as (b' & Hr & _).
    exists b'. unfold p. by rewrite Hkey, Hidx. }
  destruct Hr as [b' Hr]. eexists _, _, p, b'. split_and!.
  - by apply format_packet_data_eq.
  - apply parse_encode; [|done]. split_and!; [done..|]. cbn. rewrite length_aead_seal. lia.
  - done.
  - by eapply accepted_then_duplicate.
Qed.

(** C6.  No nonce reuse: the packets a session formats one after the other,
    up to [2^64] of them, carry pairwise different counters, so no two are
    sealed under the same nonce. *)
Theorem no_nonce_reuse s srcs dst :
  session_wf s →
  Forall (λ src, length src + DATA_OVERHEAD_SZ ≤ length dst)%nat srcs →
  Z.of_nat (length srcs) ≤ 2 ^ 64 →
  ∃ packets s', send_all_packets srcs dst s [] = Ret (packets, s') ∧
    length packets = length srcs ∧ Forall (λ b, is_Some (packet_counter b)) packets ∧
    NoDup (packet_counter <$> packets).
Proof.
  intros Hwf Hlen Hn. destruct (send_all_packets_spec srcs dst s [] Hwf Hlen) as (ps & s' & Hs & Hctr).
  rewrite app_nil_r in Hs. exists (rev ps), s'. split; [done|].
  assert (Hlps : length ps = length srcs).
  { by rewrite <-(length_fmap packet_counter), Hctr, length_fmap, length_seq. }
  split_and!; [by rewrite length_rev| |].
  - assert (Hsome : Forall is_Some (packet_counter <$> ps)).
    { rewrite Hctr. apply Forall_fmap, Forall_true. by intros i; eexists. }
    rewrite Forall_fmap in Hsome. by apply List.Forall_rev.
  - replace (packet_counter <$> rev ps) with (rev (packet_counter <$> ps)) by (symmetry; apply List.map_rev).
    rewrite Hctr. apply NoDup_ListNoDup, List.NoDup_rev, NoDup_ListNoDup.
    apply NoDup_fmap_2_strong; [|apply NoDup_seq].
    intros i j Hi%elem_of_seq Hj%elem_of_seq [= Heq]. unfold wrap in Heq.
    cut (Z.of_nat i = Z.of_nat j); [lia|]. 
    assert (Hd : (s.(sending_key_counter) + Z.of_nat i) mod 2 ^ 64 =
                 (s.(sending_key_counter) + Z.of_nat j) mod 2 ^ 64) by done.
    dlia.
Qed.

(** C7.  At-most-once delivery on any network: whatever data packets reach a
    new session (duplicated, reordered, forged), none makes it panic, no
    counter is delivered twice, and every delivered plaintext is the
    authenticated decryption of a packet that arrived and was addressed to it.
    The buffer has room for the packets, and no packet has the counter
    [2^64 - 1], the one number that resets the window (C3). *)
Theorem at_most_once_delivery l pr rk sk ps dst :
  in_width 32 l → in_width 32 pr →
  Forall (λ p, length p.(pd_encrypted_encapsulated_packet) ≤ length dst)%nat ps →
  Forall (λ p, good_counter p.(pd_counter)) ps →
  ∃ delivered s', receive_all_packets ps dst (Session_new l pr rk sk) [] = Ret (delivered, s') ∧
    NoDup delivered.*1 ∧
    (∀ c pt, (c, pt) ∈ delivered → ∃ p, p ∈ ps ∧ p.(pd_counter) = c ∧ p.(pd_receiver_idx) = l ∧
       aead_chacha20_open rk c p.(pd_encrypted_encapsulated_packet) [] = Ok pt).
Proof.
  intros Hl Hpr Hlen Hc.
  destruct (receive_all_packets_spec ps dst (Session_new l pr rk sk) []) as (d & s' & Hr & Hnd & Hin);
    [done|done|constructor|apply default_implements|].
  exists d, s'. split_and!; [done|done|].
  intros c pt [Hnil|?]%Hin; [by apply not_elem_of_nil in Hnil|done].
Qed.

(** A refused packet changes nothing: when [receive_packet_data] returns
    an error (wrong index, stale or repeated counter, bad tag) the session is
    as before, so forged packets cannot move the window. *)
Lemma refused_packet_changes_nothing p dst s e s' :
  receive_packet_data p dst s = Ret (Err e, s') → s' = s.
Proof.
  intros Hr. destruct (Nat.le_gt_cases (length p.(pd_encrypted_encapsulated_packet)) (length dst)).
  - revert Hr. rewrite receive_packet_data_eq by done.
    destruct (negb _); [by intros [= _ ->]|].
    destruct (will_accept _ _) as [[]|]; [|by intros [= _ ->]].
    destruct (aead_chacha20_open _ _ _ _); [|by intros [= _ ->]].
    unfold receiving_counter_mark.
    destruct (mark_did_receive _ _) as [[[]|] v] eqn:Hm; [done|]. intros [= _ <-].
    apply mark_err_same in Hm as ->. apply with_same_window.
  - revert Hr. unfold receive_packet_data, mbind, M_bind, assert_.
    by rewrite (proj2 (Nat.leb_gt _ _)).
Qed.

End Theorems.

(** ** Witnesses *)

Section Witnesses.
#[local] Existing Instance toy_crypto.
#[local] Existing Instance toy_laws.

Definition k1 : bytes := byte.of_Z <$> seqZ 1 32.
Definition k2 : bytes := byte.of_Z <$> seqZ 101 32.
Definition alice : Session := Session_new 257 513 k2 k1.
Definition bob : Session := Session_new 513 257 k1 k2.
Definition hello : bytes := byte.of_Z <$> [104; 101; 108; 108; 111].

Lemma alice_wf : session_wf alice.
Proof. by apply session_new_wf. Qed.

Lemma session_roundtrip_witness :
  ∃ packet a' p b',
    format_packet_data hello (zeros 64) alice = Ret (Ok packet, a') ∧
    parse_incoming_packet packet = Ok (PData p) ∧
    receive_packet_data p (zeros 64) bob = Ret (Ok hello, b') ∧
    receive_packet_data p (zeros 64) b' = Ret (Err DuplicateCounter, b').
Proof.
  apply (session_roundtrip alice bob hello (zeros 64) (zeros 64) w_empty);
    [exact alice_wf|done|done|vm_compute; lia|vm_compute; lia|exact default_implements|done|].
  unfold w_accepts. by rewrite bool_decide_eq_true_2.
Defined.

Lemma no_nonce_reuse_witness :
  ∃ packets s', send_all_packets [hello; []; hello] (zeros 64) alice [] = Ret (packets, s') ∧
    length packets = 3%nat ∧ Forall (λ b, is_Some (packet_counter b)) packets ∧
    NoDup (packet_counter <$> packets).
Proof.
  apply (no_nonce_reuse alice [hello; []; hello] (zeros 64)); [exact alice_wf| |done].
  repeat constructor; vm_compute; lia.
Defined.

(** Alice's first packet twice, and a forgery. *)
Definition hello_packet : PacketData :=
  MkPacketData 513 0 (aead_chacha20_seal k1 0 hello []).
Definition forged_packet : PacketData := MkPacketData 513 1 (zeros 21).

Lemma at_most_once_delivery_witness :
  (∃ delivered s', receive_all_packets [hello_packet; hello_packet; forged_packet] (zeros 64)
     (Session_new 513 257 k1 k2) [] = Ret (delivered, s') ∧ NoDup delivered.*1 ∧
    (∀ c pt, (c, pt) ∈ delivered → ∃ p, p ∈ [hello_packet; hello_packet; forged_packet] ∧
       p.(pd_counter) = c ∧ p.(pd_receiver_idx) = 513 ∧
       aead_chacha20_open k1 c p.(pd_encrypted_encapsulated_packet) [] = Ok pt)) ∧
  (∃ s', receive_all_packets [hello_packet; hello_packet; forged_packet] (zeros 64) bob [] =
     Ret ([(0, hello)], s')).
Proof.
  split; [|by eexists; vm_compute].
  apply (at_most_once_delivery 513 257 k1 k2 [hello_packet; hello_packet; forged_packet] (zeros 64));
    [done|done| |]; repeat constructor; done || (vm_compute; lia).
Defined.

End Witnesses.
