(* ===== verification/Tai64N.v ===== *)
(** * Handshake timestamps (noise/handshake.rs, lines 187-251) *)

From S2P Require Import Prelude Time Crypto.
From coqutil Require Import Byte.

Record Tai64N := MkTai64N {
  secs : Z;
  nano : Z;
}.

Record TimeStamper := MkTimeStamper {
  duration_at_start : Duration;
  instant_at_start : Instant;
}.

Definition TimeStamper_new {E} : M E env TimeStamper :=
  since ← SystemTime_since_epoch;
  duration ← unwrap since;
  now ← Instant_now;
  mret {| duration_at_start := duration; instant_at_start := now |}.

Definition TAI64_BASE : Z := Z.shiftl 1 62 + 37.

(** [Duration + Duration] panics when the seconds do not fit in a [u64]. *)
Definition duration_add (a b : Duration) : option Duration :=
  if as_secs (a + b) <? 2 ^ 64 then Some (a + b) else None.

(** The twelve bytes written for a time since the epoch. *)
Definition ext_stamp (stamp : Duration) : bytes :=
  copy_at 8 (to_be_bytes 4 (subsec_nanos stamp))
    (copy_at 0 (to_be_bytes 8 (wrap 64 (as_secs stamp + TAI64_BASE))) (zeros 12)).

Definition stamp {E} (self : TimeStamper) : M E env bytes :=
  now ← Instant_now;
  stamp ← unwrap (duration_add (duration_since now self.(instant_at_start)) self.(duration_at_start));
  mret (ext_stamp stamp).

Definition Tai64N_zero : Tai64N := {| secs := 0; nano := 0 |}.

Definition Tai64N_parse (buf : bytes) : Tai64N := {|
  secs := from_be_bytes (take 8 buf);
  nano := from_be_bytes (drop 8 buf);
|}.

Definition after (self other : Tai64N) : bool :=
  (other.(secs) <? self.(secs)) || ((self.(secs) =? other.(secs)) && (other.(nano) <? self.(nano))).

(** ** Properties *)

Lemma after_irrefl t : after t t = false.
Proof. unfold after. rewrite !Z.ltb_irrefl. by rewrite andb_false_r. Qed.

Lemma after_spec t u :
  after t u = true ↔ u.(secs) < t.(secs) ∨ (t.(secs) = u.(secs) ∧ u.(nano) < t.(nano)).
Proof. unfold after. rewrite orb_true_iff, andb_true_iff, !Z.ltb_lt, Z.eqb_eq. done. Qed.

Lemma after_trans t u v : after t u = true → after u v = true → after t v = true.
Proof. rewrite !after_spec. lia. Qed.

Lemma after_asym t u : after t u = true → after u t = false.
Proof. intros Ht. apply not_true_is_false. intros Hu. revert Ht Hu. rewrite !after_spec. lia. Qed.

(** Times for which the seconds plus [TAI64_BASE] fit in a [u64]. *)
Definition stampable (d : Duration) : Prop := 0 ≤ d ∧ as_secs d < 2 ^ 62.

Lemma ext_stamp_eq d :
  ext_stamp d = to_be_bytes 8 (wrap 64 (as_secs d + TAI64_BASE)) ++ to_be_bytes 4 (subsec_nanos d).
Proof.
  unfold ext_stamp. rewrite copy_at_0, copy_at_filled by (by rewrite ?length_to_be_bytes; cbn; lia).
  rewrite !length_to_be_bytes, drop_drop. apply app_nil_r.
Qed.

Lemma length_ext_stamp d : length (ext_stamp d) = 12%nat.
Proof. rewrite ext_stamp_eq, length_app, !length_to_be_bytes. done. Qed.

Lemma parse_ext_stamp d :
  stampable d →
  Tai64N_parse (ext_stamp d) = {| secs := as_secs d + TAI64_BASE; nano := subsec_nanos d |}.
Proof.
  intros [Hd Hs]. assert (0 ≤ as_secs d) by (by apply Z.div_pos).
  rewrite ext_stamp_eq. unfold Tai64N_parse. rewrite take_app_le, take_ge, drop_app_ge
    by (rewrite length_to_be_bytes; lia).
  rewrite length_to_be_bytes, drop_0. f_equal.
  - rewrite from_to_be_bytes; [|by apply wrap_in_width]. apply wrap_small.
    unfold in_width, TAI64_BASE. change (Z.shiftl 1 62) with (2 ^ 62). lia.
  - apply from_to_be_bytes. unfold in_width, subsec_nanos, NANOSECOND. dlia.
Qed.

Lemma after_ext_stamp d d' :
  stampable d → stampable d' →
  after (Tai64N_parse (ext_stamp d')) (Tai64N_parse (ext_stamp d)) = true ↔ d < d'.
Proof.
  intros Hd Hd'. rewrite !parse_ext_stamp by done. rewrite after_spec. cbn.
  unfold as_secs, subsec_nanos, NANOSECOND. dlia.
Qed.

Lemma after_zero d : stampable d → after (Tai64N_parse (ext_stamp d)) Tai64N_zero = true.
Proof.
  intros [Hd Hs]. rewrite parse_ext_stamp by done. apply after_spec. left. cbn.
  assert (0 ≤ as_secs d) by (by apply Z.div_pos). unfold TAI64_BASE. change (Z.shiftl 1 62) with (2 ^ 62). lia.
Qed.

(** What a stamper may be asked to stamp: a clock whose readings, added to the
    time at start, stay below [2^62] seconds. *)
Record stamper_ok (st : TimeStamper) (e : env) : Prop := {
  so_start : timespec_ok st.(instant_at_start);
  so_duration : 0 ≤ st.(duration_at_start);
  so_bound : ∀ i, as_secs (instant_ns (e.(e_clock) i) + st.(duration_at_start)) < 2 ^ 62;
}.

(** The time since the epoch that a stamper gives for a reading. *)
Definition stamp_time (st : TimeStamper) (now : Instant) : Duration :=
  duration_since now st.(instant_at_start) + st.(duration_at_start).

Lemma stamp_time_ok st e i :
  clock_ok e → stamper_ok st e → stampable (stamp_time st (e.(e_clock) i)).
Proof.
  intros [Hn _] [Hs Hd Hb]. unfold stampable, stamp_time.
  rewrite duration_since_ns by auto. specialize (Hb i). specialize (Hn i).
  destruct Hn as [? ?], Hs as [? ?]. revert Hb. unfold instant_ns, as_secs, from_secs, NANOSECOND.
  unfold NANOSECOND in *. dlia.
Qed.

Lemma stamp_eq {E} st (e : env) :
  clock_ok e → stamper_ok st e →
  @stamp E st e = Ret (Ok (ext_stamp (stamp_time st (e.(e_clock) e.(e_tick)))),
    Env e.(e_clock) e.(e_system) (S e.(e_tick)) e.(e_rng) e.(e_rng_pos)).
Proof.
  intros He Hst. pose proof (stamp_time_ok st e (e_tick e) He Hst) as [_ Hb].
  unfold stamp. run_ok. unfold duration_add, stamp_time in *.
  rewrite (proj2 (Z.ltb_lt _ _)) by lia. done.
Qed.

(** Timestamps order handshakes as the clock does: of two stamps taken
    from one [TimeStamper] on a clock that never goes backwards, the second is
    [after] the first exactly when the time since start advanced between them,
    and the first is never [after] the second. *)
Lemma stamp_order {E} (st : TimeStamper) (e1 e2 : env) :
  clock_ok e1 → stamper_ok st e1 → env_le e1 e2 →
  ∃ b1 e1' b2 e2',
    @stamp E st e1 = Ret (Ok b1, e1') ∧ @stamp E st e2 = Ret (Ok b2, e2') ∧
    (after (Tai64N_parse b2) (Tai64N_parse b1) = true ↔
       duration_since (e1.(e_clock) e1.(e_tick)) st.(instant_at_start) <
       duration_since (e2.(e_clock) e2.(e_tick)) st.(instant_at_start)) ∧
    after (Tai64N_parse b1) (Tai64N_parse b2) = false.
Proof.
  intros He Hst Hle. pose proof (clock_ok_le _ _ Hle He) as He2.
  destruct Hle as [Hc _ _ Ht _].
  assert (Hst2 : stamper_ok st e2) by (destruct Hst; split; rewrite ?Hc; auto).
  eexists _, _, _, _. split_and!; [by apply stamp_eq..| |].
  - rewrite after_ext_stamp by (by apply stamp_time_ok). unfold stamp_time. lia.
  - apply not_true_is_false. rewrite after_ext_stamp by (by apply stamp_time_ok).
    unfold stamp_time. rewrite Hc. rewrite !duration_since_ns by (by destruct He; destruct Hst).
    pose proof (clock_mono _ He _ _ Ht). lia.
Qed.

(** ** Witnesses *)

(** A clock that ticks once a millisecond for a million seconds and then stops,
    and a generator that counts. *)
Definition test_clock (i : nat) : Instant :=
  let ms := Z.min (Z.of_nat i) 1000000000 in
  TimeSpec (1000 + ms / 1000) (ms mod 1000 * 1000000).

Definition test_env : env := {|
  e_clock := test_clock;
  e_system _ := Some (from_secs 1700000000);
  e_tick := 0;
  e_rng i := byte.of_Z (7 * Z.of_nat i + 3);
  e_rng_pos := 0;
|}.

Definition test_stamper : TimeStamper :=
  {| duration_at_start := from_secs 1700000000; instant_at_start := test_clock 0 |}.

Lemma test_clock_ok : clock_ok test_env.
Proof.
  split; intros i; [split; cbn; unfold NANOSECOND; dlia|].
  intros j ?. unfold instant_ns, from_secs, NANOSECOND. cbn. dlia.
Qed.

Lemma test_stamper_ok : stamper_ok test_stamper test_env.
Proof.
  split; [apply test_clock_ok|done|]. intros i. unfold as_secs, instant_ns, from_secs, NANOSECOND.
  cbn [e_clock test_env test_clock tv_sec tv_nsec duration_at_start test_stamper].
  unfold test_clock, from_secs, NANOSECOND. cbn [tv_sec tv_nsec].
  apply Z.div_lt_upper_bound; [done|]. dlia.
Qed.

(** The same environment after [n] reads of the clock. *)
Definition later (n : nat) (e : env) : env :=
  Env e.(e_clock) e.(e_system) (e.(e_tick) + n) e.(e_rng) e.(e_rng_pos).

Lemma later_le n e : env_le e (later n e).
Proof. split; cbn; auto; lia. Qed.

