(* ===== verification/Handshake.v ===== *)
(** * The Noise handshake (noise/handshake.rs, lines 253-849)

    [Handshake] is the state machine of one peer.  Its operations read the
    clock and draw random bytes, so they run in [Handshake * env]; what they
    mutate before returning an error stays mutated. *)

From S2P Require Import Prelude Errors Time Crypto Packet Session Tai64N.
From coqutil Require Import Byte.

(** ** Data *)

Definition COOKIE_SIZE : nat := 16.

Record NoiseParams := MkNoiseParams {
  static_public : bytes;
  static_private : bytes;
  peer_static_public : bytes;
  static_shared : bytes;
  sending_mac1_key : bytes;
  cookie_key : bytes;
  preshared_key : option bytes;
}.

Record HandshakeInitSentState := MkInitSent {
  his_local_index : Z;
  his_hash : bytes;
  his_chaining_key : bytes;
  his_ephemeral_private : bytes;
  his_time_sent : Instant;
}.

Inductive HandshakeState : Type :=
| HNone
| InitSent (s : HandshakeInitSentState)
| InitReceived (hash chaining_key peer_ephemeral_public : bytes) (peer_index : Z)
| Expired.

Record Cookies := MkCookies {
  last_mac1 : option bytes;
  ck_index : Z;
  write_cookie : option bytes;
}.

Definition Cookies_default : Cookies := MkCookies None 0 None.

Record Handshake := MkHandshake {
  params : NoiseParams;
  next_index : Z;
  previous : HandshakeState;
  state : HandshakeState;
  cookies : Cookies;
  last_handshake_timestamp : Tai64N;
  stamper : TimeStamper;
  last_rtt : option Z;
}.

Record HalfHandshake := MkHalfHandshake {
  hh_peer_index : Z;
  hh_peer_static_public : bytes;
}.

Definition with_params (p : NoiseParams) (h : Handshake) : Handshake :=
  MkHandshake p h.(next_index) h.(previous) h.(state) h.(cookies)
    h.(last_handshake_timestamp) h.(stamper) h.(last_rtt).
Definition with_next_index (i : Z) (h : Handshake) : Handshake :=
  MkHandshake h.(params) i h.(previous) h.(state) h.(cookies)
    h.(last_handshake_timestamp) h.(stamper) h.(last_rtt).
Definition with_previous (p : HandshakeState) (h : Handshake) : Handshake :=
  MkHandshake h.(params) h.(next_index) p h.(state) h.(cookies)
    h.(last_handshake_timestamp) h.(stamper) h.(last_rtt).
Definition with_state (s : HandshakeState) (h : Handshake) : Handshake :=
  MkHandshake h.(params) h.(next_index) h.(previous) s h.(cookies)
    h.(last_handshake_timestamp) h.(stamper) h.(last_rtt).
Definition with_cookies (c : Cookies) (h : Handshake) : Handshake :=
  MkHandshake h.(params) h.(next_index) h.(previous) h.(state) c
    h.(last_handshake_timestamp) h.(stamper) h.(last_rtt).
Definition with_timestamp (t : Tai64N) (h : Handshake) : Handshake :=
  MkHandshake h.(params) h.(next_index) h.(previous) h.(state) h.(cookies)
    t h.(stamper) h.(last_rtt).
Definition with_last_rtt (r : option Z) (h : Handshake) : Handshake :=
  MkHandshake h.(params) h.(next_index) h.(previous) h.(state) h.(cookies)
    h.(last_handshake_timestamp) h.(stamper) r.

(** ** Operations *)

(** Methods of a [Handshake] that reads its environment. *)
Abbreviation HM := (M WireGuardError (Handshake * env)).

Definition self_gets {A} (f : Handshake → A) : HM A := gets (λ s, f s.1).
Definition self_modify (f : Handshake → Handshake) : HM () := modify (λ s, (f s.1, s.2)).
Definition io {A} (m : M WireGuardError env A) : HM A := zoom snd (λ e s, (s.1, e)) m.

Definition is_in_progress (self : Handshake) : bool :=
  match self.(state) with HNone | Expired => false | _ => true end.

Definition timer (self : Handshake) : option Instant :=
  match self.(state) with InitSent s => Some s.(his_time_sent) | _ => None end.

Definition set_expired (self : Handshake) : Handshake :=
  with_state Expired (with_previous Expired self).

Definition is_expired (self : Handshake) : bool :=
  match self.(state) with Expired => true | _ => false end.

Definition has_cookie (self : Handshake) : bool :=
  match self.(cookies).(write_cookie) with Some _ => true | None => false end.

Definition clear_cookie (self : Handshake) : Handshake :=
  with_cookies (MkCookies self.(cookies).(last_mac1) self.(cookies).(ck_index) None) self.

(** The next index: 24 bits of the peer, and 8 bits that cycle. *)
Definition incremented (index : Z) : Z :=
  let idx8 := wrap 8 index in
  Z.lor (Z.land index (wrap 32 (Z.lnot 255))) (wrap 8 (idx8 + 1)).

Definition inc_index : HM Z :=
  index ← self_gets next_index;
  _ ← self_modify (with_next_index (incremented index));
  self_gets next_index.

Section Operations.
Context `{Crypto}.

Definition NoiseParams_new (static_private static_public peer_static_public : bytes)
    (preshared_key : option bytes) : NoiseParams := {|
  static_public := static_public;
  static_private := static_private;
  peer_static_public := peer_static_public;
  static_shared := x25519_dh static_private peer_static_public;
  sending_mac1_key := b2s_hash LABEL_MAC1 peer_static_public;
  cookie_key := b2s_hash LABEL_COOKIE peer_static_public;
  preshared_key := preshared_key;
|}.

(** Panics when the public key is not the one of the private key. *)
Definition NoiseParams_set_static_private {E} (private public : bytes) : M E NoiseParams () :=
  let check_key := x25519_public private in
  _ ← assert_ (bool_decide (check_key = public));
  modify (λ self, {|
    static_public := public;
    static_private := private;
    peer_static_public := self.(peer_static_public);
    static_shared := x25519_dh private self.(peer_static_public);
    sending_mac1_key := self.(sending_mac1_key);
    cookie_key := self.(cookie_key);
    preshared_key := self.(preshared_key);
  |}).

Definition Handshake_new {E} (static_private static_public peer_static_public : bytes)
    (global_idx : Z) (preshared_key : option bytes) : M E env Handshake :=
  let params := NoiseParams_new static_private static_public peer_static_public preshared_key in
  stamper ← TimeStamper_new;
  mret {|
    params := params;
    next_index := global_idx;
    previous := HNone;
    state := HNone;
    last_handshake_timestamp := Tai64N_zero;
    stamper := stamper;
    cookies := Cookies_default;
    last_rtt := None;
  |}.

Definition set_static_private {E} (private_key public_key : bytes) : M E Handshake () :=
  zoom params with_params (NoiseParams_set_static_private private_key public_key).

Definition parse_handshake_anon (static_private static_public : bytes) (packet : HandshakeInit) :
    result WireGuardError HalfHandshake :=
  let peer_index := packet.(hi_sender_idx) in
  let chaining_key := INITIAL_CHAIN_KEY in
  let hash := INITIAL_CHAIN_HASH in
  let hash := b2s_hash hash static_public in
  let peer_ephemeral_public := packet.(hi_unencrypted_ephemeral) in
  let hash := b2s_hash hash peer_ephemeral_public in
  let chaining_key := b2s_kdf1 chaining_key peer_ephemeral_public in
  let ephemeral_shared := x25519_dh static_private peer_ephemeral_public in
  let '(_, key) := b2s_kdf2 chaining_key ephemeral_shared in
  match aead_chacha20_open key 0 packet.(hi_encrypted_static) hash with
  | Ok peer_static_public => Ok (MkHalfHandshake peer_index peer_static_public)
  | Err e => Err e
  end.

(** Compute the two MACs of a handshake message into its last 32 bytes. *)
Definition append_mac1_and_mac2 (local_index : Z) (dst : bytes) : HM bytes :=
  self ← self_gets id;
  let mac1_off := (length dst - 32)%nat in
  let mac2_off := (length dst - 16)%nat in
  let msg_mac1 := b2s_keyed_mac_16 self.(params).(sending_mac1_key) (take mac1_off dst) in
  let dst := copy_at mac1_off msg_mac1 dst in
  let msg_mac2 :=
    match self.(cookies).(write_cookie) with
    | Some cookie => b2s_keyed_mac_16 cookie (take mac2_off dst)
    | None => zeros 16
    end in
  let dst := copy_at mac2_off msg_mac2 dst in
  _ ← self_modify (with_cookies (MkCookies (Some msg_mac1) local_index self.(cookies).(write_cookie)));
  mret dst.

(** The default of [Option<[u8; 32]>::unwrap_or_default]. *)
Definition psk_or_default (psk : option bytes) : bytes :=
  match psk with Some k => k | None => zeros 32 end.

Definition format_handshake_initiation (dst : bytes) : HM bytes :=
  if (length dst <? HANDSHAKE_INIT_SZ)%nat then throw DestinationBufferTooSmall
  else
    local_index ← inc_index;
    self ← self_gets id;
    let p := self.(params) in
    let chaining_key := INITIAL_CHAIN_KEY in
    let hash := INITIAL_CHAIN_HASH in
    let hash := b2s_hash hash p.(peer_static_public) in
    ephemeral_private ← io (fill_bytes 32);
    let dst := copy_at 0 (to_le_bytes 4 HANDSHAKE_INIT) dst in
    let dst := copy_at 4 (to_le_bytes 4 local_index) dst in
    let unencrypted_ephemeral := x25519_public ephemeral_private in
    let dst := copy_at 8 unencrypted_ephemeral dst in
    let hash := b2s_hash hash unencrypted_ephemeral in
    let chaining_key := b2s_kdf1 chaining_key unencrypted_ephemeral in
    let ephemeral_shared := x25519_dh ephemeral_private p.(peer_static_public) in
    let '(chaining_key, key) := b2s_kdf2 chaining_key ephemeral_shared in
    let encrypted_static := aead_chacha20_seal key 0 p.(static_public) hash in
    let dst := copy_at 40 encrypted_static dst in
    let hash := b2s_hash hash encrypted_static in
    let '(chaining_key, key) := b2s_kdf2 chaining_key p.(static_shared) in
    timestamp ← io (stamp self.(stamper));
    let encrypted_timestamp := aead_chacha20_seal key 0 timestamp hash in
    let dst := copy_at 88 encrypted_timestamp dst in
    let hash := b2s_hash hash encrypted_timestamp in
    time_now ← io Instant_now;
    _ ← self_modify (λ self, with_state (InitSent {|
          his_local_index := local_index;
          his_chaining_key := chaining_key;
          his_hash := hash;
          his_ephemeral_private := ephemeral_private;
          his_time_sent := time_now |}) (with_previous self.(state) self));
    append_mac1_and_mac2 local_index (take HANDSHAKE_INIT_SZ dst).

Definition format_handshake_response (dst : bytes) : HM (bytes * Session) :=
  if (length dst <? HANDSHAKE_RESP_SZ)%nat then throw DestinationBufferTooSmall
  else
    st ← self_gets state;
    _ ← self_modify (with_state HNone);
    match st with
    | InitReceived hash chaining_key peer_ephemeral_public peer_index =>
      ephemeral_private ← io (fill_bytes 32);
      local_index ← inc_index;
      self ← self_gets id;
      let p := self.(params) in
      let dst := copy_at 0 (to_le_bytes 4 HANDSHAKE_RESP) dst in
      let dst := copy_at 4 (to_le_bytes 4 local_index) dst in
      let dst := copy_at 8 (to_le_bytes 4 peer_index) dst in
      let unencrypted_ephemeral := x25519_public ephemeral_private in
      let dst := copy_at 12 unencrypted_ephemeral dst in
      let hash := b2s_hash hash unencrypted_ephemeral in
      let chaining_key := b2s_kdf1 chaining_key unencrypted_ephemeral in
      let ephemeral_shared := x25519_dh ephemeral_private peer_ephemeral_public in
      let chaining_key := b2s_kdf1 chaining_key ephemeral_shared in
      let chaining_key := b2s_kdf1 chaining_key (x25519_dh ephemeral_private p.(peer_static_public)) in
      let '(chaining_key, temp2, key) := b2s_kdf3 chaining_key (psk_or_default p.(preshared_key)) in
      let hash := b2s_hash hash temp2 in
      let encrypted_nothing := aead_chacha20_seal key 0 [] hash in
      let dst := copy_at 44 encrypted_nothing dst in
      let '(temp2, temp3) := b2s_kdf2 chaining_key [] in
      dst ← append_mac1_and_mac2 local_index (take HANDSHAKE_RESP_SZ dst);
      mret (dst, Session_new local_index peer_index temp2 temp3)
    | _ => panic
    end.

Definition receive_handshake_initialization (packet : HandshakeInit) (dst : bytes) :
    HM (bytes * Session) :=
  self ← self_gets id;
  let p := self.(params) in
  let chaining_key := INITIAL_CHAIN_KEY in
  let hash := INITIAL_CHAIN_HASH in
  let hash := b2s_hash hash p.(static_public) in
  let peer_index := packet.(hi_sender_idx) in
  let peer_ephemeral_public := packet.(hi_unencrypted_ephemeral) in
  let hash := b2s_hash hash peer_ephemeral_public in
  let chaining_key := b2s_kdf1 chaining_key peer_ephemeral_public in
  let ephemeral_shared := x25519_dh p.(static_private) peer_ephemeral_public in
  let '(chaining_key, key) := b2s_kdf2 chaining_key ephemeral_shared in
  peer_static_public_decrypted ←
    lift_result (aead_chacha20_open key 0 packet.(hi_encrypted_static) hash);
  if negb (bool_decide (p.(peer_static_public) = peer_static_public_decrypted)) then throw WrongKey
  else
    let hash := b2s_hash hash packet.(hi_encrypted_static) in
    let '(chaining_key, key) := b2s_kdf2 chaining_key p.(static_shared) in
    timestamp ← lift_result (aead_chacha20_open key 0 packet.(hi_encrypted_timestamp) hash);
    let timestamp := Tai64N_parse timestamp in
    if negb (after timestamp self.(last_handshake_timestamp)) then throw WrongTai64nTimestamp
    else
      _ ← self_modify (with_timestamp timestamp);
      let hash := b2s_hash hash packet.(hi_encrypted_timestamp) in
      _ ← self_modify (λ self,
            with_state (InitReceived hash chaining_key peer_ephemeral_public peer_index)
              (with_previous self.(state) self));
      format_handshake_response dst.

(** The handshake that awaits this response, and whether it is the previous one. *)
Definition awaiting (self : Handshake) (receiver_idx : Z) : option (HandshakeInitSentState * bool) :=
  let in_previous :=
    match self.(previous) with
    | InitSent s => if s.(his_local_index) =? receiver_idx then Some (s, true) else None
    | _ => None
    end in
  match self.(state) with
  | InitSent s => if s.(his_local_index) =? receiver_idx then Some (s, false) else in_previous
  | _ => in_previous
  end.

Definition receive_handshake_response (packet : HandshakeResponse) : HM Session :=
  self ← self_gets id;
  match awaiting self packet.(hr_receiver_idx) with
  | None => throw UnexpectedPacket
  | Some (st, is_previous) =>
    let peer_index := packet.(hr_sender_idx) in
    let local_index := st.(his_local_index) in
    let unencrypted_ephemeral := packet.(hr_unencrypted_ephemeral) in
    let hash := b2s_hash st.(his_hash) unencrypted_ephemeral in
    let '(chaining_key, _) := b2s_kdf2 st.(his_chaining_key) unencrypted_ephemeral in
    let ephemeral_shared := x25519_dh st.(his_ephemeral_private) unencrypted_ephemeral in
    let chaining_key := b2s_kdf1 chaining_key ephemeral_shared in
    let chaining_key :=
      b2s_kdf1 chaining_key (x25519_dh self.(params).(static_private) unencrypted_ephemeral) in
    let '(chaining_key, temp2, key) :=
      b2s_kdf3 chaining_key (psk_or_default self.(params).(preshared_key)) in
    let hash := b2s_hash hash temp2 in
    _ ← lift_result (aead_chacha20_open key 0 packet.(hr_encrypted_nothing) hash);
    let '(temp2, temp3) := b2s_kdf2 chaining_key [] in
    now ← io Instant_now;
    let rtt_time := duration_since now st.(his_time_sent) in
    _ ← self_modify (with_last_rtt (Some (wrap 32 (as_millis rtt_time))));
    _ ← self_modify (if is_previous : bool then with_previous HNone else with_state HNone);
    mret (Session_new local_index peer_index temp3 temp2)
  end.

Definition receive_cookie_reply (packet : PacketCookieReply) : HM () :=
  self ← self_gets id;
  match self.(cookies).(last_mac1) with
  | None => throw UnexpectedPacket
  | Some mac1 =>
    let local_index := self.(cookies).(ck_index) in
    if negb (packet.(cr_receiver_idx) =? local_index) then throw WrongIndex
    else
      let cookie := take COOKIE_SIZE packet.(cr_encrypted_cookie) in
      cookie ← lift_result
        (match xchacha20poly1305_open self.(params).(cookie_key) packet.(cr_nonce) mac1 cookie
                 (drop COOKIE_SIZE packet.(cr_encrypted_cookie)) with
         | Some cookie => Ok cookie
         | None => Err InvalidAeadTag
         end);
      self_modify (with_cookies (MkCookies (Some mac1) local_index (Some cookie)))
  end.
End Operations.

(** ** What the operations compute

    The transcript of the protocol as pure functions of its inputs, and one
    equation per operation. *)

Lemma encode_macs p macs : encode p macs = encode p [] ++ macs.
Proof. destruct p; unfold encode; by rewrite <-?app_assoc, ?app_nil_r. Qed.

Section Transcript.
Context `{Crypto}.

(** After the ephemeral key of an initiation: hash, chaining key and the key
    of [encrypted_static]. *)
Definition init_transcript (responder ephemeral es : bytes) : bytes * bytes * bytes :=
  let hash := b2s_hash (b2s_hash INITIAL_CHAIN_HASH responder) ephemeral in
  let '(ck, key) := b2s_kdf2 (b2s_kdf1 INITIAL_CHAIN_KEY ephemeral) es in
  (hash, ck, key).

(** After [encrypted_static]: hash, chaining key and the key of the timestamp. *)
Definition static_transcript (t : bytes * bytes) (encrypted_static ss : bytes) :
    bytes * bytes * bytes :=
  let '(ck, key) := b2s_kdf2 t.2 ss in
  (b2s_hash t.1 encrypted_static, ck, key).

(** Of a response: chaining key, key and hash of [encrypted_nothing]. *)
Definition resp_transcript (t : bytes * bytes) (ephemeral ee se psk : bytes) :
    bytes * bytes * bytes :=
  let hash := b2s_hash t.1 ephemeral in
  let ck := b2s_kdf1 (b2s_kdf1 (b2s_kdf1 t.2 ephemeral) ee) se in
  let '(ck, temp2, key) := b2s_kdf3 ck psk in
  (b2s_hash hash temp2, ck, key).

(** The initiation that these inputs determine, with the hash and the
    chaining key it ends in. *)
Definition initiation (p : NoiseParams) (idx : Z) (ephemeral timestamp : bytes) :
    HandshakeInit * (bytes * bytes) :=
  let public := x25519_public ephemeral in
  let '(hash, ck, key) :=
    init_transcript p.(peer_static_public) public (x25519_dh ephemeral p.(peer_static_public)) in
  let encrypted_static := aead_chacha20_seal key 0 p.(static_public) hash in
  let '(hash, ck, key) := static_transcript (hash, ck) encrypted_static p.(static_shared) in
  let encrypted_timestamp := aead_chacha20_seal key 0 timestamp hash in
  (MkHandshakeInit idx public encrypted_static encrypted_timestamp,
   (b2s_hash hash encrypted_timestamp, ck)).

(** The response that these inputs determine, with the chaining key. *)
Definition response (p : NoiseParams) (t : bytes * bytes) (idx peer_idx : Z)
    (peer_ephemeral ephemeral : bytes) : HandshakeResponse * bytes :=
  let public := x25519_public ephemeral in
  let '(hash, ck, key) :=
    resp_transcript t public (x25519_dh ephemeral peer_ephemeral)
      (x25519_dh ephemeral p.(peer_static_public)) (psk_or_default p.(preshared_key)) in
  (MkHandshakeResponse idx peer_idx public (aead_chacha20_seal key 0 [] hash), ck).

Definition mac1_of (h : Handshake) (body : bytes) : bytes :=
  b2s_keyed_mac_16 h.(params).(sending_mac1_key) body.
Definition mac2_of (h : Handshake) (body : bytes) : bytes :=
  match h.(cookies).(write_cookie) with
  | Some cookie => b2s_keyed_mac_16 cookie (body ++ mac1_of h body)
  | None => zeros 16
  end.

(** A message with its MACs, and the cookies that remember it. *)
Definition sealed (h : Handshake) (p : Packet) : bytes :=
  encode p (mac1_of h (encode p []) ++ mac2_of h (encode p [])).
Definition remembered (h : Handshake) (idx : Z) (p : Packet) : Handshake :=
  with_cookies (MkCookies (Some (mac1_of h (encode p []))) idx h.(cookies).(write_cookie)) h.
End Transcript.

Section Equations.
Context `{CryptoLaws}.

Lemma length_mac1_of h body : length (mac1_of h body) = 16%nat.
Proof. apply length_blake2s_mac128. Qed.

Lemma length_mac2_of h body : length (mac2_of h body) = 16%nat.
Proof. unfold mac2_of. case_match; [apply length_blake2s_mac128|done]. Qed.

Lemma append_mac1_and_mac2_eq idx body rest h e :
  length rest = 32%nat →
  append_mac1_and_mac2 idx (body ++ rest) (h, e) =
    Ret (Ok (body ++ mac1_of h body ++ mac2_of h body),
         (with_cookies (MkCookies (Some (mac1_of h body)) idx h.(cookies).(write_cookie)) h, e)).
Proof.
  intros Hrest. unfold append_mac1_and_mac2. run_ok. cbn [fst snd id].
  rewrite !length_app, Hrest.
  replace (length body + 32 - 32)%nat with (length body) by lia.
  replace (length body + 32 - 16)%nat with (length body + 16)%nat by lia.
  rewrite take_app_length. fold (mac1_of h body).
  pose proof (length_mac1_of h body) as H1.
  rewrite copy_at_filled by (lia || done). rewrite take_app_length' by (rewrite length_app; lia).
  fold (mac2_of h body). pose proof (length_mac2_of h body) as H2.
  rewrite copy_at_filled by (rewrite ?length_app, ?length_drop; lia). run_ok.
  rewrite drop_drop, drop_ge by lia. by rewrite app_nil_r, <-app_assoc.
Qed.

Lemma incremented_spec i : in_width 32 i →
  incremented i = i / 256 * 256 + (i + 1) mod 256.
Proof.
  intros Hi. unfold incremented.
  assert (Hl : Z.land i (wrap 32 (Z.lnot 255)) = i / 256 * 256).
  { apply (in_width_bits 32); [done|by apply in_width_land_l| |].
    { unfold in_width in *. dlia. }
    intros b Hb. rewrite Z.land_spec, testbit_wrap by lia.
    rewrite (proj2 (Z.ltb_lt b 32)), andb_true_r by lia.
    rewrite Z.lnot_spec by lia. change 255 with (Z.ones 8). rewrite Z.testbit_ones_nonneg by lia.
    change 256 with (2 ^ 8). rewrite <-Z.shiftr_div_pow2, <-Z.shiftl_mul_pow2 by lia.
    destruct (Z.ltb_spec b 8).
    - by rewrite Z.shiftl_spec_low, andb_false_r.
    - rewrite Z.shiftl_spec, Z.shiftr_spec, andb_true_r by lia. f_equal. lia. }
  rewrite Hl. change 256 with (2 ^ 8). rewrite <-Z.shiftl_mul_pow2 by lia.
  unfold wrap at 1 2. rewrite Zplus_mod_idemp_l.
  symmetry. rewrite <-Z.add_lor_land.
  enough (Z.land (Z.shiftl (i / 2 ^ 8) 8) ((i + 1) mod 2 ^ 8) = 0) by lia.
  apply Z.bits_inj'. intros b Hb. rewrite Z.land_spec, Z.bits_0. destruct (Z.lt_ge_cases b 8).
  - by rewrite Z.shiftl_spec_low.
  - rewrite Z.mod_pow2_bits_high, andb_false_r by lia. done.
Qed.

Lemma incremented_width i : in_width 32 i → in_width 32 (incremented i).
Proof. intros Hi. rewrite incremented_spec by done. unfold in_width in *. dlia. Qed.

(** Running an operation of the environment inside a method. *)
Lemma io_run {A} (m : M WireGuardError env A) h e r e' :
  m e = Ret (r, e') → io m (h, e) = Ret (r, (h, e')).
Proof. intros Hm. unfold io. by erewrite zoom_run. Qed.

(** Five pieces written one after the other into a big enough buffer. *)
Lemma write_five (a b c d f buf : bytes) na nb nc nd :
  length a = na → length b = nb → length c = nc → length d = nd →
  (na + nb + nc + nd + length f ≤ length buf)%nat →
  copy_at (na + nb + nc + nd) f
    (copy_at (na + nb + nc) d (copy_at (na + nb) c (copy_at na b (copy_at 0 a buf)))) =
  (a ++ b ++ c ++ d ++ f) ++ drop (na + nb + nc + nd + length f) buf.
Proof.
  intros Ha Hb Hc Hd Hlen. rewrite copy_at_0, Ha.
  rewrite (copy_at_filled na), (copy_at_filled (na + nb)), (copy_at_filled (na + nb + nc)),
    (copy_at_filled (na + nb + nc + nd)) by (rewrite ?length_app, ?length_drop; lia).
  rewrite !drop_drop. f_equal; [by rewrite <-!app_assoc|f_equal; lia].
Qed.

Definition fresh_ephemeral (e : env) : bytes := e.(e_rng) <$> seq e.(e_rng_pos) 32.

(** The state after an initiation and the state that awaits its response. *)
Definition init_sent (h : Handshake) (e : env) (timestamp : bytes) (now : Instant) : HandshakeInitSentState :=
  let idx := incremented h.(next_index) in
  let '(_, (hash, ck)) := initiation h.(params) idx (fresh_ephemeral e) timestamp in
  {| his_local_index := idx; his_hash := hash; his_chaining_key := ck;
     his_ephemeral_private := fresh_ephemeral e; his_time_sent := now |}.

Lemma format_handshake_initiation_eq dst h e :
  (HANDSHAKE_INIT_SZ ≤ length dst)%nat → length h.(params).(static_public) = 32%nat →
  clock_ok e → stamper_ok h.(stamper) e →
  let idx := incremented h.(next_index) in
  let timestamp := ext_stamp (stamp_time h.(stamper) (e.(e_clock) e.(e_tick))) in
  let p := PHandshakeInit (initiation h.(params) idx (fresh_ephemeral e) timestamp).1 in
  let st := init_sent h e timestamp (e.(e_clock) (S e.(e_tick))) in
  format_handshake_initiation dst (h, e) =
    Ret (Ok (sealed h p),
         (remembered (with_state (InitSent st) (with_previous h.(state) (with_next_index idx h))) idx p,
          Env e.(e_clock) e.(e_system) (S (S e.(e_tick))) e.(e_rng) (e.(e_rng_pos) + 32))).
Proof.
  intros Hlen Hpub He Hst. cbn zeta. unfold format_handshake_initiation.
  rewrite (proj2 (Nat.ltb_ge _ _)) by done. unfold HANDSHAKE_INIT_SZ in Hlen.
  run_ok. run_ok. erewrite bind_ok by (by apply io_run). cbn beta zeta.
  cbn [params self_gets gets fst snd id with_next_index stamper].
  unfold init_sent, initiation, init_transcript, static_transcript.
  fold (fresh_ephemeral e).
  repeat (rewrite (surjective_pairing (b2s_kdf2 _ _)); cbn [fst snd]).
  erewrite bind_ok; [|apply io_run, stamp_eq; [by destruct He; split|by destruct Hst; split]].
  run_ok. run_ok. cbn [e_clock e_tick e_system e_rng e_rng_pos fst snd].
  set (es := aead_chacha20_seal _ _ (static_public _) _).
  set (et := aead_chacha20_seal _ _ (ext_stamp _) _).
  assert (Hes : length es = 48%nat) by (unfold es; by rewrite length_aead_seal, Hpub).
  assert (Het : length et = 28%nat) by (unfold et; by rewrite length_aead_seal, length_ext_stamp).
  pose proof (length_x25519_public (fresh_ephemeral e)) as Hep.
  rewrite (write_five _ _ _ _ _ _ 4 4 32 48) by (rewrite ?length_to_le_bytes; lia).
  rewrite Het. cbn [Nat.add].
  rewrite take_app_ge by (rewrite !length_app, !length_to_le_bytes; unfold HANDSHAKE_INIT_SZ; lia).
  rewrite append_mac1_and_mac2_eq.
  2:{ rewrite length_take, length_drop, !length_app, !length_to_le_bytes. unfold HANDSHAKE_INIT_SZ. lia. }
  unfold sealed, remembered. rewrite encode_macs. cbn [encode hi_sender_idx hi_unencrypted_ephemeral
    hi_encrypted_static hi_encrypted_timestamp]. rewrite app_nil_r. done.
Qed.

Lemma format_handshake_response_eq dst h e hash ck peer_ephemeral peer_idx :
  (HANDSHAKE_RESP_SZ ≤ length dst)%nat →
  h.(state) = InitReceived hash ck peer_ephemeral peer_idx →
  let idx := incremented h.(next_index) in
  let '(r, ck') := response h.(params) (hash, ck) idx peer_idx peer_ephemeral (fresh_ephemeral e) in
  let '(temp2, temp3) := b2s_kdf2 ck' [] in
  format_handshake_response dst (h, e) =
    Ret (Ok (sealed h (PHandshakeResponse r), Session_new idx peer_idx temp2 temp3),
         (remembered (with_next_index idx (with_state HNone h)) idx (PHandshakeResponse r),
          Env e.(e_clock) e.(e_system) e.(e_tick) e.(e_rng) (e.(e_rng_pos) + 32))).
Proof.
  intros Hlen Hst. cbn zeta. unfold response, resp_transcript.
  repeat (rewrite (surjective_pairing (b2s_kdf3 _ _)); cbn [fst snd]).
  rewrite (surjective_pairing (b2s_kdf3 _ _).1). cbn [fst snd].
  rewrite (surjective_pairing (b2s_kdf2 _ _)).
  unfold format_handshake_response.
  rewrite (proj2 (Nat.ltb_ge _ _)) by done. unfold HANDSHAKE_RESP_SZ in Hlen.
  run_ok. run_ok. cbn [fst snd]. rewrite Hst.
  erewrite bind_ok by (by apply io_run). cbn beta zeta. run_ok. run_ok.
  cbn [params self_gets gets fst snd id with_next_index with_state stamper e_clock e_system e_tick
    e_rng e_rng_pos]. fold (fresh_ephemeral e).
  repeat (rewrite (surjective_pairing (b2s_kdf3 _ _)); cbn [fst snd]).
  rewrite (surjective_pairing (b2s_kdf3 _ _).1). cbn [fst snd].
  rewrite (surjective_pairing (b2s_kdf2 _ _)).
  set (en := aead_chacha20_seal _ _ [] _).
  assert (Hen : length en = 16%nat) by (unfold en; by rewrite length_aead_seal).
  pose proof (length_x25519_public (fresh_ephemeral e)) as Hep.
  rewrite (write_five _ _ _ _ _ _ 4 4 4 32) by (rewrite ?length_to_le_bytes; lia).
  rewrite Hen. cbn [Nat.add].
  rewrite take_app_ge by (rewrite !length_app, !length_to_le_bytes; unfold HANDSHAKE_RESP_SZ; lia).
  erewrite bind_ok; [|apply append_mac1_and_mac2_eq].
  2:{ rewrite length_take, length_drop, !length_app, !length_to_le_bytes. unfold HANDSHAKE_RESP_SZ. lia. }
  unfold sealed, remembered. rewrite encode_macs. cbn [encode hr_sender_idx hr_receiver_idx
    hr_unencrypted_ephemeral hr_encrypted_nothing]. rewrite app_nil_r. done.
Qed.

(** What decides about an initiation, in which order. *)
Lemma receive_handshake_initialization_eq packet dst h e :
  let p := h.(params) in
  let ephemeral := packet.(hi_unencrypted_ephemeral) in
  let '(hash, ck, key) :=
    init_transcript p.(static_public) ephemeral (x25519_dh p.(static_private) ephemeral) in
  let '(hash', ck', key') := static_transcript (hash, ck) packet.(hi_encrypted_static) p.(static_shared) in
  receive_handshake_initialization packet dst (h, e) =
    match aead_chacha20_open key 0 packet.(hi_encrypted_static) hash with
    | Err err => Ret (Err err, (h, e))
    | Ok s =>
      if bool_decide (p.(peer_static_public) = s) then
        match aead_chacha20_open key' 0 packet.(hi_encrypted_timestamp) hash' with
        | Err err => Ret (Err err, (h, e))
        | Ok t =>
          if after (Tai64N_parse t) h.(last_handshake_timestamp) then
            format_handshake_response dst
              (with_state (InitReceived (b2s_hash hash' packet.(hi_encrypted_timestamp)) ck' ephemeral
                             packet.(hi_sender_idx))
                 (with_previous h.(state) (with_timestamp (Tai64N_parse t) h)), e)
          else Ret (Err WrongTai64nTimestamp, (h, e))
        end
      else Ret (Err WrongKey, (h, e))
    end.
Proof.
  cbn zeta. unfold init_transcript, static_transcript.
  repeat (rewrite (surjective_pairing (b2s_kdf2 _ _)); cbn [fst snd]).
  unfold receive_handshake_initialization. run_ok. cbn [fst snd id].
  repeat (rewrite (surjective_pairing (b2s_kdf2 _ _)); cbn [fst snd]).
  destruct (aead_chacha20_open _ _ packet.(hi_encrypted_static) _) as [s|]; [run_ok|done].
  case_bool_decide; cbn [negb]; [|done].
  destruct (aead_chacha20_open _ _ _ _) as [t|]; [run_ok|done].
  destruct (after _ _); cbn [negb]; done.
Qed.

(** What decides about a response. *)
Lemma receive_handshake_response_eq packet h e :
  receive_handshake_response packet (h, e) =
    match awaiting h packet.(hr_receiver_idx) with
    | None => Ret (Err UnexpectedPacket, (h, e))
    | Some (st, is_previous) =>
      let ephemeral := packet.(hr_unencrypted_ephemeral) in
      let '(hash, ck, key) := resp_transcript (st.(his_hash), st.(his_chaining_key)) ephemeral
        (x25519_dh st.(his_ephemeral_private) ephemeral)
        (x25519_dh h.(params).(static_private) ephemeral) (psk_or_default h.(params).(preshared_key)) in
      let '(temp2, temp3) := b2s_kdf2 ck [] in
      match aead_chacha20_open key 0 packet.(hr_encrypted_nothing) hash with
      | Err err => Ret (Err err, (h, e))
      | Ok _ =>
        let rtt := duration_since (e.(e_clock) e.(e_tick)) st.(his_time_sent) in
        Ret (Ok (Session_new st.(his_local_index) packet.(hr_sender_idx) temp3 temp2),
             ((if is_previous : bool then with_previous HNone else with_state HNone)
                (with_last_rtt (Some (wrap 32 (as_millis rtt))) h),
              Env e.(e_clock) e.(e_system) (S e.(e_tick)) e.(e_rng) e.(e_rng_pos)))
      end
    end.
Proof.
  unfold receive_handshake_response. run_ok. cbn [fst snd id].
  destruct (awaiting _ _) as [[st b]|]; [|done]. unfold resp_transcript. cbn [fst snd].
  rewrite (surjective_pairing (b2s_kdf2 st.(his_chaining_key) _)).
  change (b2s_kdf2 st.(his_chaining_key) ?eph).1 with (b2s_kdf1 st.(his_chaining_key) eph).
  destruct (b2s_kdf3 _ _) as [[ck temp2] key]. destruct (b2s_kdf2 ck []).
  destruct (aead_chacha20_open _ _ _ _); [|done]. run_ok. by destruct b.
Qed.
End Equations.

(** ** Key agreement *)

Section Agreement.
Context `{CryptoLaws}.

(** The keys of a peer belong together; [NoiseParams::new] establishes it for
    a public key computed from the private one, and a change of key keeps it. *)
Record params_wf (p : NoiseParams) : Prop := {
  pw_public : p.(static_public) = x25519_public p.(static_private);
  pw_shared : p.(static_shared) = x25519_dh p.(static_private) p.(peer_static_public);
  pw_mac1 : p.(sending_mac1_key) = b2s_hash LABEL_MAC1 p.(peer_static_public);
  pw_cookie : p.(cookie_key) = b2s_hash LABEL_COOKIE p.(peer_static_public);
}.

(** Two ends that are configured as each other's peers. *)
Record paired (i r : NoiseParams) : Prop := {
  pd_i : params_wf i;
  pd_r : params_wf r;
  pd_ir : i.(peer_static_public) = r.(static_public);
  pd_ri : r.(peer_static_public) = i.(static_public);
  pd_psk : psk_or_default i.(preshared_key) = psk_or_default r.(preshared_key);
}.

Lemma params_new_wf sk peer psk : params_wf (NoiseParams_new sk (x25519_public sk) peer psk).
Proof. by split. Qed.

Lemma paired_shared i r : paired i r → i.(static_shared) = r.(static_shared).
Proof.
  intros [[Hip His _ _] [Hrp Hrs _ _] Hir Hri _].
  rewrite His, Hrs, Hir, Hri, Hip, Hrp. apply x25519_dh_comm.
Qed.

Lemma paired_ephemeral i r a :
  paired i r → x25519_dh a i.(peer_static_public) = x25519_dh r.(static_private) (x25519_public a).
Proof. intros [_ [Hrp _ _ _] Hir _ _]. rewrite Hir, Hrp. apply x25519_dh_comm. Qed.

Lemma paired_ephemeral' i r a :
  paired i r → x25519_dh a r.(peer_static_public) = x25519_dh i.(static_private) (x25519_public a).
Proof. intros [[Hip _ _ _] _ _ Hri _]. rewrite Hri, Hip. apply x25519_dh_comm. Qed.

(** The responder reads back what the initiator put into the initiation. *)
Lemma receive_initiation i r idx eph ts dst h e :
  paired i r → h.(params) = r →
  let '(packet, (hash, ck)) := initiation i idx eph ts in
  receive_handshake_initialization packet dst (h, e) =
    if after (Tai64N_parse ts) h.(last_handshake_timestamp) then
      format_handshake_response dst
        (with_state (InitReceived hash ck (x25519_public eph) idx)
           (with_previous h.(state) (with_timestamp (Tai64N_parse ts) h)), e)
    else Ret (Err WrongTai64nTimestamp, (h, e)).
Proof.
  intros Hp Hh. unfold initiation.
  rewrite (paired_ephemeral _ _ _ Hp), (paired_shared _ _ Hp).
  pose proof (pd_ir _ _ Hp) as Hir. pose proof (pd_ri _ _ Hp) as Hri. rewrite Hir.
  destruct (init_transcript _ _ _) as [[hash ck] key] eqn:Hit.
  destruct (static_transcript _ _ _) as [[hash' ck'] key'] eqn:Hst.
  pose proof (receive_handshake_initialization_eq (MkHandshakeInit idx (x25519_public eph)
    (aead_chacha20_seal key 0 (static_public i) hash) (aead_chacha20_seal key' 0 ts hash')) dst h e) as Hr.
  cbn [hi_sender_idx hi_unencrypted_ephemeral hi_encrypted_static hi_encrypted_timestamp] in Hr.
  rewrite Hh, Hit, Hst in Hr. rewrite Hr, aead_open_seal, bool_decide_eq_true_2, aead_open_seal by done.
  done.
Qed.

(** The initiator reads back the response to its initiation. *)
Lemma receive_response i r t idx peer_idx eph reph h e st prev :
  paired i r → h.(params) = i → (st.(his_hash), st.(his_chaining_key)) = t →
  st.(his_ephemeral_private) = eph →
  awaiting h peer_idx = Some (st, prev) →
  let '(packet, ck) := response r t idx peer_idx (x25519_public eph) reph in
  let '(temp2, temp3) := b2s_kdf2 ck [] in
  ∃ h' e',
    receive_handshake_response packet (h, e) =
      Ret (Ok (Session_new st.(his_local_index) idx temp3 temp2), (h', e')) ∧
    h'.(params) = h.(params) ∧ env_le e e'.
Proof.
  intros Hp Hh <- <- Haw. unfold response.
  rewrite (paired_ephemeral' _ _ _ Hp), <-(pd_psk _ _ Hp), <-(x25519_dh_comm st.(his_ephemeral_private)).
  destruct (resp_transcript _ _ _ _ _) as [[hash ck] key] eqn:Hrt.
  destruct (b2s_kdf2 ck []) as [t2 t3] eqn:Hk.
  rewrite receive_handshake_response_eq. cbn [hr_receiver_idx hr_sender_idx hr_unencrypted_ephemeral
    hr_encrypted_nothing]. rewrite Haw, Hh. cbn zeta. rewrite Hrt, Hk, aead_open_seal.
  eexists _, _. split_and!; [done|by destruct prev|split; cbn; auto].
Qed.

Lemma params_public_length p : params_wf p → length p.(static_public) = 32%nat.
Proof. intros [-> _ _ _]. apply length_x25519_public. Qed.

Lemma initiation_wf p idx eph ts :
  params_wf p → in_width 32 idx → length ts = 12%nat →
  packet_wf (PHandshakeInit (initiation p idx eph ts).1).
Proof.
  intros Hp%params_public_length Hidx Hts. unfold initiation. repeat case_match. cbn.
  rewrite !length_aead_seal, length_x25519_public, Hp, Hts. by split_and!.
Qed.

Lemma response_wf p t idx peer_idx pe eph :
  in_width 32 idx → in_width 32 peer_idx →
  packet_wf (PHandshakeResponse (response p t idx peer_idx pe eph).1).
Proof.
  intros Hidx Hp. unfold response. repeat case_match. cbn.
  by rewrite length_aead_seal, length_x25519_public.
Qed.

Lemma parse_sealed h p :
  packet_wf p → macs_len p = 32%nat → parse_incoming_packet (sealed h p) = Ok p.
Proof.
  intros Hp Hm. apply parse_encode; [done|]. by rewrite length_app, length_mac1_of, length_mac2_of.
Qed.

Lemma initiation_idx p idx eph ts : hi_sender_idx (initiation p idx eph ts).1 = idx.
Proof. unfold initiation. by repeat case_match. Qed.

(** The sessions of the two ends of one tunnel. *)
Record sessions_agree (a b : Session) : Prop := {
  sa_ab : a.(sender) = b.(receiver);
  sa_ba : b.(sender) = a.(receiver);
  sa_idx_ab : a.(sending_index) = b.(receiving_index);
  sa_idx_ba : b.(sending_index) = a.(receiving_index);
}.

(** One run of the protocol: what each step returns. *)
Lemma agreement_run hI eI dstI hR eR dstR :
  paired hI.(params) hR.(params) →
  in_width 32 hI.(next_index) → in_width 32 hR.(next_index) →
  clock_ok eI → stamper_ok hI.(stamper) eI →
  after (Tai64N_parse (ext_stamp (stamp_time hI.(stamper) (eI.(e_clock) eI.(e_tick)))))
    hR.(last_handshake_timestamp) = true →
  (HANDSHAKE_INIT_SZ ≤ length dstI)%nat → (HANDSHAKE_RESP_SZ ≤ length dstR)%nat →
  let ii := incremented hI.(next_index) in let ri := incremented hR.(next_index) in
  ∃ pi hI1 eI1 pr hR1 eR1 k1 k2,
    format_handshake_initiation dstI (hI, eI) = Ret (Ok (sealed hI (PHandshakeInit pi)), (hI1, eI1)) ∧
    packet_wf (PHandshakeInit pi) ∧
    receive_handshake_initialization pi dstR (hR, eR) =
      Ret (Ok (sealed hR (PHandshakeResponse pr), Session_new ri ii k1 k2), (hR1, eR1)) ∧
    packet_wf (PHandshakeResponse pr) ∧ pr.(hr_receiver_idx) = ii ∧
    ∀ eI2, ∃ hI2 eI3,
      receive_handshake_response pr (hI1, eI2) = Ret (Ok (Session_new ii ri k2 k1), (hI2, eI3)).
Proof.
  intros Hp Hi Hr He Hst Haft HdI HdR. pose proof (pd_i _ _ Hp) as Hwf.
  pose proof (format_handshake_initiation_eq dstI hI eI HdI (params_public_length _ Hwf) He Hst) as Hf.
  cbn zeta in Hf |- *. set (idx := incremented hI.(next_index)) in *. set (ts := ext_stamp _) in Hf, Haft.
  assert (Hidx : in_width 32 idx) by (by apply incremented_width).
  pose proof (initiation_wf hI.(params) idx (fresh_ephemeral eI) ts Hwf Hidx (length_ext_stamp _)) as Hpi.
  pose proof (receive_initiation hI.(params) hR.(params) idx (fresh_ephemeral eI) ts dstR hR eR Hp eq_refl) as Hri.
  unfold init_sent in Hf. fold idx in Hf.
  destruct (initiation _ _ _ _) as [pi [hash ck]]. cbn [fst snd] in *. rewrite Haft in Hri.
  epose proof (format_handshake_response_eq dstR
    (with_state (InitReceived hash ck (x25519_public (fresh_ephemeral eI)) idx) _) eR hash ck
    (x25519_public (fresh_ephemeral eI)) idx HdR eq_refl) as Hfr.
  cbn zeta in Hfr. erewrite <-Hri in Hfr.
  cbn [with_state with_previous with_timestamp params next_index] in Hfr.
  set (ridx := incremented hR.(next_index)) in *.
  pose proof (response_wf hR.(params) (hash, ck) ridx idx (x25519_public (fresh_ephemeral eI))
    (fresh_ephemeral eR) (incremented_width _ Hr) Hidx) as Hpr.
  epose proof (λ h e st, receive_response hI.(params) hR.(params) (hash, ck) ridx idx (fresh_ephemeral eI)
    (fresh_ephemeral eR) h e st false Hp) as Hrr.
  assert (Hpri : hr_receiver_idx (response hR.(params) (hash, ck) ridx idx
    (x25519_public (fresh_ephemeral eI)) (fresh_ephemeral eR)).1 = idx) by (unfold response; by case_match).
  destruct (response _ _ _ _ _ _) as [pr ck']. cbn [fst snd] in Hpr, Hpri.
  destruct (b2s_kdf2 ck' []) as [t2 t3].
  eexists pi, _, _, pr, _, _, _, _. split_and!; [exact Hf|done|exact Hfr|done|done|].
  intros eI2.
  lazymatch type of Hf with _ = Ret (_, (remembered (with_state (InitSent ?st) ?h0) ?i ?p, _)) =>
    destruct (Hrr (remembered (with_state (InitSent st) h0) i p) eI2 st) as (hI2 & eI3 & Hres & _)
  end; [done..| |].
  - unfold awaiting. cbn. by rewrite Z.eqb_refl.
  - eexists _, _. exact Hres.
Qed.

(** C8.  Key agreement: when two ends are configured as each other's peers
    and the clock of the initiator is ahead of the last handshake the
    responder saw, the initiation one formats is parsed and accepted by the
    other, the response it answers with is parsed and accepted by the first
    (at any later time), and the two sessions use each other's indices, each
    sending under the key the other receives with. *)
Theorem handshake_agreement hI eI dstI hR eR dstR :
  paired hI.(params) hR.(params) →
  in_width 32 hI.(next_index) → in_width 32 hR.(next_index) →
  clock_ok eI → stamper_ok hI.(stamper) eI →
  after (Tai64N_parse (ext_stamp (stamp_time hI.(stamper) (eI.(e_clock) eI.(e_tick)))))
    hR.(last_handshake_timestamp) = true →
  (HANDSHAKE_INIT_SZ ≤ length dstI)%nat → (HANDSHAKE_RESP_SZ ≤ length dstR)%nat →
  ∃ init hI1 eI1 pi resp sR hR1 eR1 pr,
    format_handshake_initiation dstI (hI, eI) = Ret (Ok init, (hI1, eI1)) ∧
    parse_incoming_packet init = Ok (PHandshakeInit pi) ∧
    receive_handshake_initialization pi dstR (hR, eR) = Ret (Ok (resp, sR), (hR1, eR1)) ∧
    parse_incoming_packet resp = Ok (PHandshakeResponse pr) ∧
    ∀ eI2, ∃ sI hI2 eI3,
      receive_handshake_response pr (hI1, eI2) = Ret (Ok sI, (hI2, eI3)) ∧ sessions_agree sI sR.
Proof.
  intros Hp Hi Hr He Hst Haft HdI HdR.
  destruct (agreement_run hI eI dstI hR eR dstR Hp Hi Hr He Hst Haft HdI HdR)
    as (pi & hI1 & eI1 & pr & hR1 & eR1 & k1 & k2 & Hf & Hpi & Hri & Hpr & _ & Hrr).
  eexists _, hI1, eI1, pi, _, _, hR1, eR1, pr.
  split_and!; [exact Hf|by apply parse_sealed|exact Hri|by apply parse_sealed|].
  intros eI2. destruct (Hrr eI2) as (hI2 & eI3 & Hres). eexists _, hI2, eI3. by split; [exact Hres|].
Qed.
End Agreement.

(** ** The state machine *)

Section Events.
Context `{Crypto}.

(** What can happen to the handshake of a peer. *)
Inductive event : Type :=
| EInitiate (dst : bytes)
| EInitiation (packet : HandshakeInit) (dst : bytes)
| EResponse (packet : HandshakeResponse)
| ECookieReply (packet : PacketCookieReply)
| EExpire
| EClearCookie.

(** Handle an event; the caller of a method that fails goes on. *)
Definition handle (ev : event) : HM () :=
  match ev with
  | EInitiate dst => _ ← try_ (format_handshake_initiation dst); mret ()
  | EInitiation packet dst => _ ← try_ (receive_handshake_initialization packet dst); mret ()
  | EResponse packet => _ ← try_ (receive_handshake_response packet); mret ()
  | ECookieReply packet => _ ← try_ (receive_cookie_reply packet); mret ()
  | EExpire => self_modify set_expired
  | EClearCookie => self_modify clear_cookie
  end.

Fixpoint handle_all (evs : list event) : HM () :=
  match evs with
  | [] => mret ()
  | ev :: evs' => _ ← handle ev; handle_all evs'
  end.

(** In the life of a handshake the device may also be given another key. *)
Inductive life : Type :=
| Happens (ev : event)
| Rekey (private_key : bytes).

Definition live (x : life) : HM () :=
  match x with
  | Happens ev => handle ev
  | Rekey sk => zoom fst (λ h s, (h, s.2)) (set_static_private sk (x25519_public sk))
  end.

Fixpoint live_all (xs : list life) : HM () :=
  match xs with
  | [] => mret ()
  | x :: xs' => _ ← live x; live_all xs'
  end.

(** The invariant, for a peer whose indices are [g * 256 .. g * 256 + 255]: the
    handshake awaiting a response in [state] has the newest index, the one in
    [previous] another one of the same peer. *)
Record handshake_inv (g : Z) (h : Handshake) : Prop := {
  hi_params : params_wf h.(params);
  hi_width : in_width 32 h.(next_index);
  hi_group : h.(next_index) / 256 = g;
  hi_state : ∀ s, h.(state) = InitSent s → s.(his_local_index) = h.(next_index);
  hi_previous : ∀ s, h.(previous) = InitSent s →
    in_width 32 s.(his_local_index) ∧ s.(his_local_index) / 256 = g ∧
    ∀ s', h.(state) = InitSent s' → s'.(his_local_index) ≠ s.(his_local_index);
}.

(** What no event changes or takes back. *)
Record evolves (h h' : Handshake) : Prop := {
  ev_params : h'.(params) = h.(params);
  ev_stamper : h'.(stamper) = h.(stamper);
  ev_timestamp : h'.(last_handshake_timestamp) = h.(last_handshake_timestamp) ∨
    after h'.(last_handshake_timestamp) h.(last_handshake_timestamp) = true;
}.

(** What changes of the key leave, too. *)
Record outlives (h h' : Handshake) : Prop := {
  ol_peer : h'.(params).(peer_static_public) = h.(params).(peer_static_public);
  ol_psk : h'.(params).(preshared_key) = h.(params).(preshared_key);
  ol_stamper : h'.(stamper) = h.(stamper);
  ol_timestamp : h'.(last_handshake_timestamp) = h.(last_handshake_timestamp) ∨
    after h'.(last_handshake_timestamp) h.(last_handshake_timestamp) = true;
}.
End Events.

#[export] Instance evolves_refl : Reflexive evolves.
Proof. split; auto. Qed.

#[export] Instance evolves_trans : Transitive evolves.
Proof.
  intros h1 h2 h3 [Hp Hs Ht] [Hp' Hs' Ht']. split; [congruence..|].
  destruct Ht as [Ht|Ht], Ht' as [Ht'|Ht']; [left; congruence|right; congruence..|].
  right. by eapply after_trans.
Qed.

#[export] Instance outlives_trans : Transitive outlives.
Proof.
  intros h1 h2 h3 [Hp Hk Hs Ht] [Hp' Hk' Hs' Ht']. split; [congruence..|].
  destruct Ht as [Ht|Ht], Ht' as [Ht'|Ht']; [left; congruence|right; congruence..|].
  right. by eapply after_trans.
Qed.

Lemma evolves_outlives h h' : evolves h h' → outlives h h'.
Proof. intros [Hp Hs ?]. by split; rewrite ?Hp. Qed.

Section Invariant.
Context `{CryptoLaws}.

Lemma incremented_group i : in_width 32 i → incremented i / 256 = i / 256 ∧ incremented i ≠ i.
Proof. intros Hi. rewrite incremented_spec by done. unfold in_width in *. dlia. Qed.

(** Every way an initiation can end. *)
Lemma receive_initialization_cases packet dst h e :
  (∃ err, receive_handshake_initialization packet dst (h, e) = Ret (Err err, (h, e)) ∧
     (err = InvalidAeadTag ∨ err = WrongKey ∨ err = WrongTai64nTimestamp)) ∨
  ∃ t hash ck,
    after t h.(last_handshake_timestamp) = true ∧
    let h1 := with_state (InitReceived hash ck packet.(hi_unencrypted_ephemeral) packet.(hi_sender_idx))
                (with_previous h.(state) (with_timestamp t h)) in
    receive_handshake_initialization packet dst (h, e) = format_handshake_response dst (h1, e).
Proof.
  pose proof (receive_handshake_initialization_eq packet dst h e) as Hr. cbn zeta in Hr.
  destruct (init_transcript _ _ _) as [[hash ck] key].
  destruct (static_transcript _ _ _) as [[hash' ck'] key']. rewrite Hr. clear Hr.
  unfold aead_chacha20_open. destruct (aead_chacha20_open_inner _ _ _ _); [|eauto].
  case_bool_decide; [|eauto 10]. destruct (aead_chacha20_open_inner _ _ _ _) as [t|]; [|eauto].
  destruct (after _ _) eqn:Ha; [|eauto 10]. right. eexists _, _, _. split; [exact Ha|]. done.
Qed.

(** Every way the formatting of a response can end. *)
Lemma format_response_cases dst h e hash ck pe pidx :
  h.(state) = InitReceived hash ck pe pidx →
  (length dst < HANDSHAKE_RESP_SZ ∧
     format_handshake_response dst (h, e) = Ret (Err DestinationBufferTooSmall, (h, e)))%nat ∨
  ∃ msg t2 t3 c e',
    let idx := incremented h.(next_index) in
    format_handshake_response dst (h, e) =
      Ret (Ok (msg, Session_new idx pidx t2 t3), (with_cookies c (with_next_index idx (with_state HNone h)), e')) ∧
    length msg = HANDSHAKE_RESP_SZ ∧ (HANDSHAKE_RESP_SZ ≤ length dst)%nat ∧ env_le e e'.
Proof.
  intros Hst. destruct (Nat.lt_ge_cases (length dst) HANDSHAKE_RESP_SZ) as [Hl|Hl].
  { left. split; [done|]. unfold format_handshake_response. by rewrite (proj2 (Nat.ltb_lt _ _) Hl). }
  right. pose proof (format_handshake_response_eq dst h e hash ck pe pidx Hl Hst) as Hf. cbn zeta in Hf.
  destruct (response _ _ _ _ _ _) as [r ck'] eqn:Hr. destruct (b2s_kdf2 ck' []) as [t2 t3].
  eexists _, _, _, _, _. cbn zeta. split_and!; [exact Hf| |done|split; cbn; auto; lia].
  unfold sealed, encode, response in *. repeat case_match. injection Hr as <- _. cbn.
  rewrite !length_app, length_mac1_of, length_mac2_of, length_aead_seal, length_x25519_public. done.
Qed.

Lemma format_response_timestamp dst h e res h' e' :
  format_handshake_response dst (h, e) = Ret (Ok res, (h', e')) →
  h'.(last_handshake_timestamp) = h.(last_handshake_timestamp).
Proof.
  intros Hf. destruct (state h) as [| |hash ck pe pidx|] eqn:Hst;
    [..|destruct (format_response_cases dst h e hash ck pe pidx Hst)
          as [[_ Hf']|(? & ? & ? & ? & ? & Hf' & _)]; rewrite Hf in Hf'; simplify_eq/=; done|];
    revert Hf; unfold format_handshake_response; case_match; try done;
    run_ok; run_ok; cbn [fst snd]; by rewrite Hst.
Qed.

Lemma inv_cookies g h c : handshake_inv g h → handshake_inv g (with_cookies c h).
Proof. by intros []. Qed.

(** A handshake that moves to [previous] keeps the invariant. *)
Lemma inv_shift g h t idx st :
  handshake_inv g h → idx = h.(next_index) ∨ idx = incremented h.(next_index) →
  (∀ s, st ≠ InitSent s) →
  handshake_inv g (with_next_index idx (with_state st (with_previous h.(state) (with_timestamp t h)))).
Proof.
  intros [Hp Hw Hg Hs _] Hidx Hst. split; cbn; [done| | |by intros s ?%Hst|].
  - destruct Hidx as [->| ->]; [done|by apply incremented_width].
  - destruct Hidx as [->| ->]; [done|]. by rewrite (proj1 (incremented_group _ Hw)).
  - intros s ->%Hs. split_and!; [done..|]. by intros s' ?%Hst.
Qed.

Arguments init_sent : simpl never.

Lemma init_sent_index h e ts now : his_local_index (init_sent h e ts now) = incremented h.(next_index).
Proof. unfold init_sent. by repeat case_match. Qed.

(** A matching handshake is the only one that matches. *)
Lemma awaiting_spec g h i st (prev : bool) :
  handshake_inv g h → awaiting h i = Some (st, prev) →
  st.(his_local_index) = i ∧ in_width 32 i ∧ i / 256 = g ∧
  let h' := (if prev then with_previous HNone else with_state HNone) h in
  handshake_inv g h' ∧ awaiting h' i = None.
Proof.
  intros [Hp Hw Hg Hs Hprev] Haw.
  assert (Hcase : prev = false ∧ state h = InitSent st ∧ his_local_index st = i ∨
    prev = true ∧ previous h = InitSent st ∧ his_local_index st = i ∧
    ∀ s, state h = InitSent s → his_local_index s ≠ i).
  { clear Hp Hw Hg Hs Hprev. revert Haw. unfold awaiting.
    destruct (state h) as [|s| |]; [|destruct (Z.eqb_spec (his_local_index s) i)|..];
      [|naive_solver|..]; destruct (previous h) as [|s2| |]; try done;
      destruct (Z.eqb_spec (his_local_index s2) i); naive_solver. }
  destruct Hcase as [(-> & Hst & <-)|(-> & Hpr & <- & Hne)].
  - pose proof (Hs _ Hst) as Hn. rewrite Hn. split_and!; [done..|]. split.
    + split; cbn; [done..|]. intros s2 Hs2. by destruct (Hprev s2 Hs2) as (?&?&_).
    + unfold awaiting. cbn. destruct (previous h) as [|s2| |]; try done.
      destruct (Hprev s2 eq_refl) as (_&_&Hne). specialize (Hne _ Hst).
      by rewrite (proj2 (Z.eqb_neq _ _)) by congruence.
  - destruct (Hprev st Hpr) as (? & ? & _). split_and!; [done..|]. split; [split; cbn; done|].
    unfold awaiting. cbn. destruct (state h) as [|s| |]; try done.
    by rewrite (proj2 (Z.eqb_neq _ _)) by (by apply Hne).
Qed.

(** Where an operation may lead. *)
Definition keeps (g : Z) (s s' : Handshake * env) : Prop :=
  handshake_inv g s'.1 ∧ evolves s.1 s'.1 ∧ env_le s.2 s'.2.

Lemma keeps_refl g h e : handshake_inv g h → keeps g (h, e) (h, e).
Proof. by split. Qed.

Lemma initiate_keeps g dst h e :
  handshake_inv g h → clock_ok e → stamper_ok h.(stamper) e →
  wp (format_handshake_initiation dst) (λ r s', keeps g (h, e) s' ∧
    match r with
    | Ok msg => length msg = HANDSHAKE_INIT_SZ ∧ (HANDSHAKE_INIT_SZ ≤ length dst)%nat
    | Err err => err = DestinationBufferTooSmall ∧ (length dst < HANDSHAKE_INIT_SZ)%nat
    end) (h, e).
Proof.
  intros Hinv He Hst. pose proof Hinv as [Hp Hw Hg Hs Hprev].
  destruct (Nat.lt_ge_cases (length dst) HANDSHAKE_INIT_SZ) as [Hl|Hl].
  { unfold format_handshake_initiation. rewrite (proj2 (Nat.ltb_lt _ _) Hl). by apply wp_throw. }
  eapply wp_intro; [apply format_handshake_initiation_eq; [done|by apply params_public_length|done..]|].
  pose proof (initiation_wf h.(params) (incremented h.(next_index)) (fresh_ephemeral e)
    (ext_stamp (stamp_time h.(stamper) (e.(e_clock) e.(e_tick)))) Hp (incremented_width _ Hw)
    (length_ext_stamp _)) as Hpw.
  split.
  - split_and!; [|split; cbn; auto|split; cbn; auto; lia].
    destruct (incremented_group _ Hw) as [Hig Hne].
    split; cbn; [done|by apply incremented_width|by rewrite Hig|intros s [= <-]; apply init_sent_index|].
    intros s Hsent. rewrite (Hs s Hsent). split_and!; [done..|].
    intros s' [= <-]. by rewrite init_sent_index.
  - split; [|done]. unfold sealed. rewrite length_encode; [done|done|].
    by rewrite length_app, length_mac1_of, length_mac2_of.
Qed.

Lemma initialization_keeps g packet dst h e :
  handshake_inv g h →
  wp (receive_handshake_initialization packet dst) (λ r s', keeps g (h, e) s' ∧
    match r with
    | Ok (msg, s) => length msg = HANDSHAKE_RESP_SZ ∧ (HANDSHAKE_RESP_SZ ≤ length dst)%nat ∧
        ∃ rk sk, s = Session_new s'.1.(next_index) packet.(hi_sender_idx) rk sk
    | Err err => err = DestinationBufferTooSmall ∧ (length dst < HANDSHAKE_RESP_SZ)%nat ∨
        err ≠ DestinationBufferTooSmall ∧ s' = (h, e)
    end) (h, e).
Proof.
  intros Hinv. destruct (receive_initialization_cases packet dst h e)
    as [(err & Hr & Herr)|(t & hash & ck & Ha & Hr)].
  { eapply wp_intro; [exact Hr|]. split; [by apply keeps_refl|]. right. split; [|done].
    by destruct Herr as [-> |[-> | ->]]. }
  cbn zeta in Hr. destruct (format_response_cases dst
    (with_state (InitReceived hash ck (hi_unencrypted_ephemeral packet) (hi_sender_idx packet))
      (with_previous h.(state) (with_timestamp t h))) e hash ck (hi_unencrypted_ephemeral packet)
    (hi_sender_idx packet) eq_refl) as [[Hl Hf]|(msg & t2 & t3 & c & e' & Hf & Hlen & Hdst & Hle)];
    cbn zeta in *.
  - eapply wp_intro; [rewrite Hr; exact Hf|]. split; [|by left]. split_and!; [|split; cbn; auto|done].
    by apply (inv_shift g h t h.(next_index)
      (InitReceived hash ck (hi_unencrypted_ephemeral packet) (hi_sender_idx packet)) Hinv (or_introl eq_refl)).
  - eapply wp_intro; [rewrite Hr; exact Hf|]. split; [|by eauto 10]. split_and!; [|split; cbn; auto|done].
    apply inv_cookies. by apply (inv_shift g h t _ HNone Hinv (or_intror eq_refl)).
Qed.

Lemma response_keeps g packet h e :
  handshake_inv g h →
  wp (receive_handshake_response packet) (λ r s', keeps g (h, e) s' ∧
    match r with
    | Ok s => (∃ rk sk, s = Session_new packet.(hr_receiver_idx) packet.(hr_sender_idx) rk sk) ∧
        in_width 32 packet.(hr_receiver_idx) ∧ packet.(hr_receiver_idx) / 256 = g ∧
        awaiting s'.1 packet.(hr_receiver_idx) = None
    | Err _ => s' = (h, e)
    end) (h, e).
Proof.
  intros Hinv. unfold wp. rewrite receive_handshake_response_eq.
  destruct (awaiting h packet.(hr_receiver_idx)) as [[st prev]|] eqn:Haw; [|split; [by apply keeps_refl|done]].
  cbn zeta. destruct (resp_transcript _ _ _ _ _) as [[hash ck] key].
  destruct (b2s_kdf2 _ _) as [t2 t3]. destruct (aead_chacha20_open _ _ _ _); [|split; [by apply keeps_refl|done]].
  destruct (awaiting_spec g h _ _ _ Hinv Haw) as (Hi & Hw & Hg & [] & Hnone). cbn zeta in Hnone.
  rewrite Hi. split.
  - split_and!; [destruct prev; by split|split; destruct prev; cbn; auto|split; cbn; auto].
  - split_and!; [by eauto|done|done|]. by destruct prev.
Qed.

Lemma cookie_reply_keeps g packet h e :
  handshake_inv g h →
  wp (receive_cookie_reply packet) (λ r s', keeps g (h, e) s' ∧
    match r with
    | Ok _ => ∃ c, s' = (with_cookies c h, e)
    | Err _ => s' = (h, e)
    end) (h, e).
Proof.
  intros Hinv. unfold wp, receive_cookie_reply. run_ok. cbn [fst snd id].
  destruct (last_mac1 _); [|split; [by apply keeps_refl|done]].
  destruct (negb _); [split; [by apply keeps_refl|done]|].
  destruct (xchacha20poly1305_open _ _ _ _ _); [|split; [by apply keeps_refl|done]].
  cbn. split; [|eauto]. split_and!; [by apply inv_cookies|split; cbn; auto|done].
Qed.

Lemma try_keeps {A} g (m : HM A) (Q : result WireGuardError A → Handshake * env → Prop) s :
  wp m (λ r s', keeps g s s' ∧ Q r s') s → wp (_ ← try_ m; mret ()) (λ r s', r = Ok () ∧ keeps g s s') s.
Proof. intros Hm. apply wp_bind, wp_try. eapply wp_mono; [exact Hm|]. by intros r s' [? _]. Qed.

Lemma handle_keeps g ev h e :
  handshake_inv g h → clock_ok e → stamper_ok h.(stamper) e →
  wp (handle ev) (λ r s', r = Ok () ∧ keeps g (h, e) s') (h, e).
Proof.
  intros Hinv He Hst. destruct ev; cbn [handle].
  - eapply try_keeps. by apply initiate_keeps.
  - eapply try_keeps. by apply initialization_keeps.
  - eapply try_keeps. by apply response_keeps.
  - eapply try_keeps. by apply cookie_reply_keeps.
  - split; [done|]. split_and!; [|split; cbn; auto|done]. destruct Hinv. by split.
  - split; [done|]. split_and!; [by apply inv_cookies|split; cbn; auto|done].
Qed.

Lemma stamper_ok_le st e e' : env_le e e' → stamper_ok st e → stamper_ok st e'.
Proof. intros [Hc _ _ _ _] [? ? ?]. split; rewrite ?Hc; auto. Qed.

Lemma handle_all_keeps g evs h e :
  handshake_inv g h → clock_ok e → stamper_ok h.(stamper) e →
  wp (handle_all evs) (λ r s', r = Ok () ∧ keeps g (h, e) s') (h, e).
Proof.
  revert h e. induction evs as [|ev evs IH]; intros h e Hinv He Hst; cbn [handle_all].
  { split; [done|]. by apply keeps_refl. }
  apply wp_bind. eapply wp_mono; [by apply handle_keeps|].
  intros r [h1 e1] (-> & Hinv1 & Hev & Hle). cbn in *.
  eapply wp_mono; [apply (IH h1 e1); [done|by eapply clock_ok_le|]|].
  - rewrite (ev_stamper _ _ Hev). by eapply stamper_ok_le.
  - intros r [h2 e2] (-> & Hinv2 & Hev2 & Hle2). split; [done|]. cbn in *.
    split_and!; [done|by etrans|by etrans].
Qed.

(** A new key pair replaces the keys and what is computed from them. *)
Lemma live_keeps g x h e :
  handshake_inv g h → clock_ok e → stamper_ok h.(stamper) e →
  ∃ h' e', live x (h, e) = Ret (Ok (), (h', e')) ∧ handshake_inv g h' ∧ outlives h h' ∧ env_le e e'.
Proof.
  intros Hinv He Hst. destruct x as [ev|sk].
  - destruct (wp_elim _ _ _ (handle_keeps g ev h e Hinv He Hst)) as (r & [h' e'] & Hrun & -> & Hinv' & Hev & Hle).
    exists h', e'. split_and!; [done|done|by apply evolves_outlives|done].
  - eexists _, e. cbn [live]. unfold set_static_private, NoiseParams_set_static_private, mbind, M_bind, assert_.
    unfold zoom. cbn [fst snd]. rewrite bool_decide_eq_true_2 by done. cbn.
    destruct Hinv as [[Hpu Hps Hpm Hpc] Hw Hg Hs Hp]. split_and!; [reflexivity| | |done].
    + split; cbn; [by split|done..].
    + split; cbn; auto.
Qed.

Lemma live_all_keeps g xs h e :
  handshake_inv g h → clock_ok e → stamper_ok h.(stamper) e →
  ∃ h' e', live_all xs (h, e) = Ret (Ok (), (h', e')) ∧ handshake_inv g h' ∧ outlives h h'.
Proof.
  revert h e. induction xs as [|x xs IH]; intros h e Hinv He Hst; cbn [live_all].
  { exists h, e. split_and!; [done..|by apply evolves_outlives]. }
  destruct (live_keeps g x h e Hinv He Hst) as (h1 & e1 & Hrun & Hinv1 & Ho & Hle).
  destruct (IH h1 e1) as (h2 & e2 & Hrun2 & Hinv2 & Ho2); [done|by eapply clock_ok_le| |].
  { rewrite (ol_stamper _ _ Ho). by eapply stamper_ok_le. }
  exists h2, e2. split_and!; [|done|by etrans]. by rewrite (bind_ok _ _ _ _ _ Hrun).
Qed.

(** The parameters are determined by the two keys of the ends and the
    preshared key. *)
Lemma params_ext (p q : NoiseParams) :
  params_wf p → params_wf q → q.(static_private) = p.(static_private) →
  q.(peer_static_public) = p.(peer_static_public) → q.(preshared_key) = p.(preshared_key) → q = p.
Proof.
  intros [Hp1 Hp2 Hp3 Hp4] [Hq1 Hq2 Hq3 Hq4] H1 H2 H3.
  destruct p, q. cbn in *. congruence.
Qed.

Lemma handshake_new_eq {E} sk peer idx psk e d :
  e.(e_system) e.(e_tick) = Some d →
  @Handshake_new _ E sk (x25519_public sk) peer idx psk e =
    Ret (Ok {| params := NoiseParams_new sk (x25519_public sk) peer psk;
               next_index := idx; previous := HNone; state := HNone; cookies := Cookies_default;
               last_handshake_timestamp := Tai64N_zero;
               stamper := MkTimeStamper d (e.(e_clock) (S e.(e_tick))); last_rtt := None |},
         later 2 e).
Proof.
  intros Hd. unfold Handshake_new, TimeStamper_new, mbind, M_bind. cbn. rewrite Hd. cbn.
  unfold later. by rewrite (Nat.add_comm _ 2).
Qed.

(** The environment lets a stamper start: the system clock is after the epoch
    and the two clocks together stay below [2^62] seconds. *)
Record can_start (e : env) (d : Duration) : Prop := {
  cs_clock : clock_ok e;
  cs_system : e.(e_system) e.(e_tick) = Some d;
  cs_nonneg : 0 ≤ d;
  cs_bound : ∀ i, as_secs (instant_ns (e.(e_clock) i) + d) < 2 ^ 62;
}.

(** The system clock is after the epoch whenever it is read. *)
Record steady (e : env) : Prop := {
  st_clock : clock_ok e;
  st_system : ∀ i, ∃ d, e.(e_system) i = Some d ∧ 0 ≤ d ∧ ∀ j, as_secs (instant_ns (e.(e_clock) j) + d) < 2 ^ 62;
}.

Lemma steady_le e e' : env_le e e' → steady e → steady e'.
Proof. intros Hle [Hc Hs]. split; [by eapply clock_ok_le|]. destruct Hle as [-> -> _ _ _]. done. Qed.

Lemma steady_start e : steady e → ∃ d, can_start e d.
Proof. intros [Hc Hs]. destruct (Hs e.(e_tick)) as (d & Hd & Hn & Hb). exists d. by split. Qed.

Lemma new_inv sk peer idx psk e d (h : Handshake) :
  in_width 32 idx →
  h = {| params := NoiseParams_new sk (x25519_public sk) peer psk;
         next_index := idx; previous := HNone; state := HNone; cookies := Cookies_default;
         last_handshake_timestamp := Tai64N_zero;
         stamper := MkTimeStamper d (e.(e_clock) (S e.(e_tick))); last_rtt := None |} →
  can_start e d →
  handshake_inv (idx / 256) h ∧ clock_ok (later 2 e) ∧ stamper_ok h.(stamper) (later 2 e).
Proof.
  intros Hi -> [Hc Hs Hn Hb]. split_and!.
  - by split.
  - by apply (clock_ok_le e); [apply later_le|].
  - split; cbn; [by destruct Hc|done|done].
Qed.
End Invariant.

Section NoAwaiting.
Context `{CryptoLaws}.

(** No pending handshake of [h] has index [i]. *)
Definition not_awaited (i : Z) (h : Handshake) : Prop :=
  ∀ s, h.(state) = InitSent s ∨ h.(previous) = InitSent s → s.(his_local_index) ≠ i.

Lemma awaiting_None h i : awaiting h i = None ↔ not_awaited i h.
Proof.
  unfold awaiting, not_awaited. split.
  - intros Haw s Hs Hi. subst i. destruct (state h) as [|s1| |], (previous h) as [|s2| |];
      repeat case_match; destruct Hs; simplify_eq/=;
      repeat match goal with H : (_ =? _) = false |- _ => apply Z.eqb_neq in H end; done.
  - intros Hno. destruct (state h) as [|s1| |], (previous h) as [|s2| |]; try done;
      rewrite ?(proj2 (Z.eqb_neq (his_local_index s1) i)) by auto;
      rewrite ?(proj2 (Z.eqb_neq (his_local_index s2) i)) by auto; done.
Qed.

Definition is_initiate (ev : event) : bool := match ev with EInitiate _ => true | _ => false end.

Lemma handle_not_awaited ev h e i r h' e' :
  is_initiate ev = false → not_awaited i h → handle ev (h, e) = Ret (r, (h', e')) → not_awaited i h'.
Proof.
  intros Hev Hno Hrun. destruct ev as [|packet dst|packet|packet| |]; [done|..]; unfold handle in Hrun.
  - destruct (receive_initialization_cases packet dst h e) as [(err & Hr & _)|(t & hash & ck & _ & Hr)].
    + unfold mbind, M_bind, try_ in Hrun. rewrite Hr in Hrun. by injection Hrun as _ <- <-.
    + cbn zeta in Hr. unfold mbind, M_bind, try_ in Hrun. rewrite Hr in Hrun.
      destruct (format_response_cases dst (with_state (InitReceived hash ck (hi_unencrypted_ephemeral packet)
        (hi_sender_idx packet)) (with_previous h.(state) (with_timestamp t h))) e hash ck
        (hi_unencrypted_ephemeral packet) (hi_sender_idx packet) eq_refl)
        as [[_ Hf]|(? & ? & ? & ? & ? & Hf & _)]; rewrite Hf in Hrun; injection Hrun as _ <- <-;
        intros s [Hs|Hs]; cbn in Hs; try done; by apply Hno; left.
  - unfold mbind, M_bind, try_ in Hrun. rewrite receive_handshake_response_eq in Hrun.
    destruct (awaiting _ _) as [[st prev]|]; [|by injection Hrun as _ <- <-]. cbn zeta in Hrun.
    destruct (resp_transcript _ _ _ _ _) as [[hash ck] key]. destruct (b2s_kdf2 _ _) as [t2 t3].
    destruct (aead_chacha20_open _ _ _ _); injection Hrun as _ <- <-; [|done].
    intros s [Hs|Hs]; destruct prev; cbn in Hs; try done; by apply Hno; auto.
  - unfold mbind, M_bind, try_ in Hrun. unfold receive_cookie_reply in Hrun.
    rewrite (bind_ok _ _ (h, e) h (h, e)) in Hrun by done.
    destruct (last_mac1 _); [|by injection Hrun as _ <- <-].
    destruct (negb _); [by injection Hrun as _ <- <-|].
    destruct (xchacha20poly1305_open _ _ _ _ _); by injection Hrun as _ <- <-.
  - injection Hrun as _ <- <-. intros s [Hs|Hs]; done.
  - injection Hrun as _ <- <-. done.
Qed.

Lemma handle_all_not_awaited evs h e i r h' e' :
  Forall (λ ev, is_initiate ev = false) evs → not_awaited i h →
  handle_all evs (h, e) = Ret (r, (h', e')) → not_awaited i h'.
Proof.
  intros Hevs. revert h e. induction Hevs as [|ev evs Hev Hevs IH]; intros h e Hno; cbn.
  { by intros [= _ <- _]. }
  unfold mbind, M_bind. destruct (handle ev (h, e)) as [[[[]|err] [h1 e1]]|] eqn:Hh; [..|done].
  - apply IH. by eapply handle_not_awaited.
  - intros [= _ <- _]. by eapply handle_not_awaited.
Qed.
End NoAwaiting.

Section Theorems.
Context `{CryptoLaws}.

(** C9.  The handshake of a peer is safe whatever happens to it: started with
    a key pair on a sane clock, it handles every sequence of initiations,
    incoming handshake messages (forged ones and any buffer size included),
    expiries and cookies without panicking; the keys stay consistent, the
    pending handshakes keep different indices of the peer's own range, and the
    timestamp of the last accepted initiation never goes back. *)
Theorem handshake_machine_safe sk peer idx psk e d evs :
  can_start e d → in_width 32 idx →
  ∃ h0 e0 h' e',
    @Handshake_new _ WireGuardError sk (x25519_public sk) peer idx psk e = Ret (Ok h0, e0) ∧
    handle_all evs (h0, e0) = Ret (Ok (), (h', e')) ∧
    handshake_inv (idx / 256) h' ∧ evolves h0 h'.
Proof.
  intros Hcs Hi. eexists _, _.
  destruct (new_inv sk peer idx psk e d _ Hi eq_refl Hcs) as (Hinv & Hc & Hst).
  destruct (wp_elim _ _ _ (handle_all_keeps _ evs _ _ Hinv Hc Hst)) as (r & [h' e'] & Hrun & -> & Hinv' & Hev & _).
  exists h', e'. split_and!; [by apply handshake_new_eq, Hcs|exact Hrun|done..].
Qed.

(** Sessions are found by their index: every session a handshake
    yields, as responder or as initiator, receives on a 32-bit index whose
    upper 24 bits are those of the peer, and sends to the index the other side
    chose; the initiator's session has the index its initiation announced. *)
Lemma session_index_of_peer g h e :
  handshake_inv g h →
  (∀ packet dst msg s s', receive_handshake_initialization packet dst (h, e) = Ret (Ok (msg, s), s') →
     in_width 32 s.(receiving_index) ∧ s.(receiving_index) / 256 = g ∧
     s.(sending_index) = packet.(hi_sender_idx)) ∧
  (∀ packet s s', receive_handshake_response packet (h, e) = Ret (Ok s, s') →
     in_width 32 s.(receiving_index) ∧ s.(receiving_index) / 256 = g ∧
     s.(receiving_index) = packet.(hr_receiver_idx) ∧ s.(sending_index) = packet.(hr_sender_idx)).
Proof.
  intros Hinv. split.
  - intros packet dst msg s s' Hr. pose proof (initialization_keeps g packet dst h e Hinv) as Hw.
    unfold wp in Hw. rewrite Hr in Hw. destruct Hw as [[[_ Hw Hg _ _] _] (_ & _ & rk & sk & ->)]. done.
  - intros packet s s' Hr. pose proof (response_keeps g packet h e Hinv) as Hw.
    unfold wp in Hw. rewrite Hr in Hw. destruct Hw as [_ ((rk & sk & ->) & ? & ? & _)]. done.
Qed.

(** C10.  An initiation is accepted at most once: after a peer accepted an
    initiation, whatever happens to its handshake afterwards (messages, expiries,
    cookies, changes of the device's key) happens without a panic, and when the
    device has the static key it had at the acceptance, the same initiation is
    refused as a replay and changes nothing.  (Nothing is
    claimed of a device that has another static key by then.) *)
Theorem initiation_replay_refused g packet dst h e res h1 e1 xs :
  handshake_inv g h → clock_ok e → stamper_ok h.(stamper) e →
  receive_handshake_initialization packet dst (h, e) = Ret (Ok res, (h1, e1)) →
  ∃ h2 e2, live_all xs (h1, e1) = Ret (Ok (), (h2, e2)) ∧
    (h2.(params).(static_private) = h.(params).(static_private) → ∀ dst' e3,
      receive_handshake_initialization packet dst' (h2, e3) = Ret (Err WrongTai64nTimestamp, (h2, e3))).
Proof.
  intros Hinv He Hst Hr.
  pose proof (initialization_keeps g packet dst h e Hinv) as Hw. unfold wp in Hw. rewrite Hr in Hw.
  destruct Hw as [(Hinv1 & Hev1 & Hle) _]. cbn in *.
  assert (Hst1 : stamper_ok h1.(stamper) e1).
  { rewrite (ev_stamper _ _ Hev1). by eapply stamper_ok_le. }
  destruct (live_all_keeps g xs h1 e1 Hinv1 (clock_ok_le _ _ Hle He) Hst1) as (h2 & e2 & Hrun & Hinv2 & Ho).
  exists h2, e2. split; [done|]. intros Hkey dst' e3.
  assert (Hpar : h2.(params) = h.(params)).
  { apply params_ext; [apply Hinv|apply Hinv2|done|..];
      rewrite <-(ev_params _ _ Hev1); [apply (ol_peer _ _ Ho)|apply (ol_psk _ _ Ho)]. }
  pose proof (receive_handshake_initialization_eq packet dst' h2 e3) as Hr2. rewrite Hpar in Hr2.
  pose proof (receive_handshake_initialization_eq packet dst h e) as Hr1. cbn zeta in Hr1, Hr2.
  destruct (init_transcript _ _ _) as [[hash ck] key].
  destruct (static_transcript _ _ _) as [[hash' ck'] key']. rewrite Hr1 in Hr. rewrite Hr2. clear Hr1 Hr2.
  destruct (aead_chacha20_open _ _ _ _); [|done]. case_bool_decide; [|done].
  destruct (aead_chacha20_open _ _ _ _) as [t|]; [|done]. destruct (after _ _) eqn:Ha; [|done].
  apply format_response_timestamp in Hr. cbn in Hr. destruct (ol_timestamp _ _ Ho) as [Ht|Ht];
    rewrite ?Ht; rewrite Hr in *; [by rewrite after_irrefl|by rewrite after_asym].
Qed.

(** A response is accepted at most once: after a response completed a
    handshake, it is refused as unexpected until the peer initiates again,
    whatever messages come in between. *)
Lemma response_accepted_once g packet h e s h1 e1 evs r h2 e2 e3 :
  handshake_inv g h →
  receive_handshake_response packet (h, e) = Ret (Ok s, (h1, e1)) →
  Forall (λ ev, is_initiate ev = false) evs →
  handle_all evs (h1, e1) = Ret (r, (h2, e2)) →
  receive_handshake_response packet (h2, e3) = Ret (Err UnexpectedPacket, (h2, e3)).
Proof.
  intros Hinv Hr Hevs Hrun. pose proof (response_keeps g packet h e Hinv) as Hw.
  unfold wp in Hw. rewrite Hr in Hw. destruct Hw as (_ & _ & _ & _ & Haw%awaiting_None).
  cbn in Haw. pose proof (handle_all_not_awaited _ _ _ _ _ _ _ Hevs Haw Hrun) as Hno%awaiting_None.
  by rewrite receive_handshake_response_eq, Hno.
Qed.

(** A refused handshake message changes nothing: an initiation, a
    response or a cookie reply that fails (bad tag, wrong key, old timestamp,
    unknown index) leaves handshake and random generator as they were.  Only
    an authentic initiation for which the buffer is too small gets through. *)
Lemma refused_handshake_changes_nothing h e :
  (∀ packet dst err s', receive_handshake_initialization packet dst (h, e) = Ret (Err err, s') →
     s' = (h, e) ∨ err = DestinationBufferTooSmall ∧ (length dst < HANDSHAKE_RESP_SZ)%nat) ∧
  (∀ packet err s', receive_handshake_response packet (h, e) = Ret (Err err, s') → s' = (h, e)) ∧
  (∀ packet err s', receive_cookie_reply packet (h, e) = Ret (Err err, s') → s' = (h, e)).
Proof.
  split_and!.
  - intros packet dst err s' Hr.
    destruct (receive_initialization_cases packet dst h e) as [(err' & Hr' & _)|(t & hash & ck & _ & Hr')].
    { left. congruence. }
    cbn zeta in Hr'. destruct (format_response_cases dst (with_state (InitReceived hash ck
      (hi_unencrypted_ephemeral packet) (hi_sender_idx packet)) (with_previous h.(state)
      (with_timestamp t h))) e hash ck (hi_unencrypted_ephemeral packet) (hi_sender_idx packet) eq_refl)
      as [[? Hf]|(? & ? & ? & ? & ? & Hf & _)]; rewrite Hr', Hf in Hr; [|done].
    right. by injection Hr as <- _.
  - intros packet err s'. rewrite receive_handshake_response_eq.
    destruct (awaiting _ _) as [[st prev]|]; [|by intros [= _ <-]]. cbn zeta.
    destruct (resp_transcript _ _ _ _ _) as [[hash ck] key]. destruct (b2s_kdf2 _ _) as [t2 t3].
    destruct (aead_chacha20_open _ _ _ _); [done|by intros [= _ <-]].
  - intros packet err s'. unfold receive_cookie_reply. run_ok. cbn [fst snd id].
    destruct (last_mac1 _); [|by intros [= _ <-]]. destruct (negb _); [by intros [= _ <-]|].
    destruct (xchacha20poly1305_open _ _ _ _ _); [done|by intros [= _ <-]].
Qed.

(** The anonymous parser and the handshake agree about who initiates. *)
Lemma anon_agrees h e packet dst :
  let p := h.(params) in
  match parse_handshake_anon p.(static_private) p.(static_public) packet with
  | Err err => receive_handshake_initialization packet dst (h, e) = Ret (Err err, (h, e))
  | Ok half =>
    half.(hh_peer_index) = packet.(hi_sender_idx) ∧
    (half.(hh_peer_static_public) ≠ p.(peer_static_public) →
       receive_handshake_initialization packet dst (h, e) = Ret (Err WrongKey, (h, e)))
  end.
Proof.
  pose proof (receive_handshake_initialization_eq packet dst h e) as Hr. cbn zeta in *.
  unfold init_transcript in Hr. unfold parse_handshake_anon.
  destruct (b2s_kdf2 _ _) as [ck key]. destruct (static_transcript _ _ _) as [[hash' ck'] key'].
  rewrite Hr. destruct (aead_chacha20_open _ _ _ _); [|done]. split; [done|].
  intros Hne. by rewrite bool_decide_eq_false_2.
Qed.

Lemma anon_accepts h e packet dst x s' :
  receive_handshake_initialization packet dst (h, e) = Ret (Ok x, s') →
  ∃ half, parse_handshake_anon h.(params).(static_private) h.(params).(static_public) packet = Ok half ∧
    half.(hh_peer_static_public) = h.(params).(peer_static_public).
Proof.
  intros Hr. pose proof (anon_agrees h e packet dst) as Ha. cbn zeta in Ha.
  destruct (parse_handshake_anon _ _ _) as [half|err]; [|congruence]. exists half. split; [done|]. destruct Ha as [_ Ha].
  destruct (decide (half.(hh_peer_static_public) = h.(params).(peer_static_public))) as [|Hne]; [done|].
  specialize (Ha Hne). congruence.
Qed.

(** C11.  The anonymous parser and the handshake agree about who initiates:
    an initiation that [parse_handshake_anon] rejects is rejected by every
    peer with the same error, one that names a static key is rejected with
    [WrongKey] by every peer with another key, and for the initiation an
    honest initiator formats the parser finds its public key and index. *)
Theorem parse_handshake_anon_correct h e packet dst :
  let p := h.(params) in
  match parse_handshake_anon p.(static_private) p.(static_public) packet with
  | Err err => receive_handshake_initialization packet dst (h, e) = Ret (Err err, (h, e))
  | Ok half =>
    half.(hh_peer_index) = packet.(hi_sender_idx) ∧
    (half.(hh_peer_static_public) ≠ p.(peer_static_public) →
       receive_handshake_initialization packet dst (h, e) = Ret (Err WrongKey, (h, e)))
  end ∧
  ∀ i idx eph ts, paired i p →
    parse_handshake_anon p.(static_private) p.(static_public) (initiation i idx eph ts).1 =
      Ok (MkHalfHandshake idx i.(static_public)).
Proof.
  cbn zeta. split.
  - apply anon_agrees.
  - intros i idx eph ts Hp. unfold initiation. rewrite (paired_ephemeral _ _ _ Hp), (pd_ir _ _ Hp).
    unfold init_transcript. destruct (b2s_kdf2 _ _) as [ck key] eqn:Hk.
    destruct (static_transcript _ _ _) as [[hash' ck'] key']. unfold parse_handshake_anon.
    cbn [fst hi_sender_idx hi_unencrypted_ephemeral hi_encrypted_static]. by rewrite Hk, aead_open_seal.
Qed.
End Theorems.

(** ** Witnesses *)

Section HandshakeWitnesses.
#[local] Existing Instance toy_crypto.
#[local] Existing Instance toy_laws.

Definition initiator_params : NoiseParams := NoiseParams_new k1 (x25519_public k1) (x25519_public k2) None.
Definition responder_params : NoiseParams := NoiseParams_new k2 (x25519_public k2) (x25519_public k1) None.
Definition new_handshake (p : NoiseParams) (idx : Z) : Handshake :=
  MkHandshake p idx HNone HNone Cookies_default Tai64N_zero test_stamper None.
Definition initiator : Handshake := new_handshake initiator_params 256.
Definition responder : Handshake := new_handshake responder_params 512.

Lemma test_paired : paired initiator_params responder_params.
Proof. split; first [apply params_new_wf|done]. Qed.

Lemma test_can_start : can_start test_env (from_secs 1700000000).
Proof. split; [exact test_clock_ok|done|done|apply test_stamper_ok]. Qed.

Lemma test_steady : steady test_env.
Proof. split; [exact test_clock_ok|]. intros i. by exists (from_secs 1700000000); split_and!; [..|apply test_stamper_ok]. Qed.

Lemma initiator_inv : handshake_inv 1 initiator.
Proof. split; [apply params_new_wf|done..]. Qed.

Lemma responder_inv : handshake_inv 2 responder.
Proof. split; [apply params_new_wf|done..]. Qed.

Lemma handshake_agreement_witness :
  ∃ init hI1 eI1 pi resp sR hR1 eR1 pr,
    format_handshake_initiation (zeros 148) (initiator, test_env) = Ret (Ok init, (hI1, eI1)) ∧
    parse_incoming_packet init = Ok (PHandshakeInit pi) ∧
    receive_handshake_initialization pi (zeros 148) (responder, test_env) = Ret (Ok (resp, sR), (hR1, eR1)) ∧
    parse_incoming_packet resp = Ok (PHandshakeResponse pr) ∧
    ∀ eI2, ∃ sI hI2 eI3,
      receive_handshake_response pr (hI1, eI2) = Ret (Ok sI, (hI2, eI3)) ∧ sessions_agree sI sR.
Proof.
  apply (handshake_agreement initiator test_env (zeros 148) responder test_env (zeros 148));
    [exact test_paired|done|done|exact test_clock_ok|exact test_stamper_ok|by vm_compute|vm_compute; lia..].
Defined.

(** An honest initiation and the response to it. *)
Definition run {E S A} (m : M E S A) (s : S) (d : A) : A * S :=
  match m s with Ret (Ok a, s') => (a, s') | _ => (d, s) end.

Lemma run_eq {E A} (m : M E (Handshake * env) A) s d :
  is_ok (m s) = true → m s = Ret (Ok (run m s d).1, ((run m s d).2.1, (run m s d).2.2)).
Proof. unfold run. by destruct (m s) as [[[a|] [h e]]|]. Qed.

Definition initiator1 : bytes * (Handshake * env) :=
  run (format_handshake_initiation (zeros 148)) (initiator, test_env) [].
Definition expect_init (r : result WireGuardError Packet) : HandshakeInit :=
  match r with Ok (PHandshakeInit p) => p | _ => MkHandshakeInit 0 [] [] [] end.
Definition expect_response (r : result WireGuardError Packet) : HandshakeResponse :=
  match r with Ok (PHandshakeResponse p) => p | _ => MkHandshakeResponse 0 0 [] [] end.

Definition init_packet : HandshakeInit := Eval vm_compute in
  expect_init (parse_incoming_packet initiator1.1).
Definition responder1 : (bytes * Session) * (Handshake * env) :=
  run (receive_handshake_initialization init_packet (zeros 148)) (responder, test_env) ([], alice).
Definition resp_packet : HandshakeResponse := Eval vm_compute in
  expect_response (parse_incoming_packet responder1.1.1).

Lemma respond_run : receive_handshake_initialization init_packet (zeros 148) (responder, test_env) =
  Ret (Ok responder1.1, (responder1.2.1, responder1.2.2)).
Proof.
  assert (Hok : is_ok (receive_handshake_initialization init_packet (zeros 148) (responder, test_env)) = true)
    by (by vm_compute). exact (run_eq _ _ _ Hok).
Qed.

Lemma handshake_machine_safe_witness :
  ∃ h0 e0 h' e',
    @Handshake_new _ WireGuardError k2 (x25519_public k2) (x25519_public k1) 512 None test_env = Ret (Ok h0, e0) ∧
    handle_all [EInitiate (zeros 10); EInitiation init_packet (zeros 148); EInitiate (zeros 148);
      EResponse resp_packet; EExpire; EClearCookie] (h0, e0) = Ret (Ok (), (h', e')) ∧
    handshake_inv 2 h' ∧ evolves h0 h'.
Proof.
  apply (handshake_machine_safe k2 (x25519_public k1) 512 None test_env (from_secs 1700000000)
    [EInitiate (zeros 10); EInitiation init_packet (zeros 148); EInitiate (zeros 148);
      EResponse resp_packet; EExpire; EClearCookie]); [exact test_can_start|done].
Defined.

(** The device changes its key and changes back. *)
Definition key_changes : list life :=
  [Rekey k1; Happens (EInitiation init_packet (zeros 148)); Rekey k2; Happens EExpire].

Lemma initiation_replay_refused_witness :
  ∃ h2 e2, live_all key_changes (responder1.2.1, responder1.2.2) = Ret (Ok (), (h2, e2)) ∧
    (h2.(params).(static_private) = k2 → ∀ dst' e3,
      receive_handshake_initialization init_packet dst' (h2, e3) = Ret (Err WrongTai64nTimestamp, (h2, e3))) ∧
    h2.(params).(static_private) = k2.
Proof.
  destruct (initiation_replay_refused 2 init_packet (zeros 148) responder test_env responder1.1
    responder1.2.1 responder1.2.2 key_changes) as (h2 & e2 & Hrun & Hre);
    [exact responder_inv|exact test_clock_ok|exact test_stamper_ok|exact respond_run|].
  exists h2, e2. split; [exact Hrun|]. split; [exact Hre|].
  assert (Hk : (run (live_all key_changes) (responder1.2.1, responder1.2.2) ()).2.1.(params).(static_private) = k2)
    by (by vm_compute).
  unfold run in Hk. by rewrite Hrun in Hk.
Defined.

Lemma parse_handshake_anon_correct_witness :
  parse_handshake_anon k2 (x25519_public k2) (initiation initiator_params 257 k1 (zeros 12)).1 =
    Ok (MkHalfHandshake 257 (x25519_public k1)).
Proof.
  destruct (parse_handshake_anon_correct responder test_env init_packet (zeros 148)) as [_ Hparse].
  apply (Hparse initiator_params 257 k1 (zeros 12)). exact test_paired.
Defined.
End HandshakeWitnesses.
