(* ===== verification/RateLimiter.v ===== *)
(** * Cookies and rate limiting (noise/rate_limiter.rs)

    Verification of the MACs of handshake messages, and the cookie mechanism
    that makes a loaded responder answer only to addresses it has seen.  The
    atomics are plain fields: the model is of calls that do not overlap. *)

From S2P Require Import Prelude Errors Time Crypto Packet Session Tai64N Handshake.
From coqutil Require Import Byte.

(** [TunnResult] of noise/mod.rs: what a call asks its caller to do. *)
Inductive TunnResult : Type :=
| TDone
| TErr (e : WireGuardError)
| WriteToNetwork (packet : bytes)
| WriteToTunnelV4 (packet addr : bytes)
| WriteToTunnelV6 (packet addr : bytes).

Definition COOKIE_REFRESH : Z := 128.
Definition COOKIE_NONCE_SIZE : nat := 24.
Definition RESET_PERIOD : Z := 1.

Record RateLimiter := MkRateLimiter {
  nonce_key : bytes;
  secret_key : bytes;
  start_time : Instant;
  nonce_ctr : Z;
  mac1_key : bytes;
  rl_cookie_key : bytes;
  limit : Z;
  count : Z;
  last_reset : Instant;
}.

Definition with_nonce_ctr (n : Z) (r : RateLimiter) : RateLimiter :=
  MkRateLimiter r.(nonce_key) r.(secret_key) r.(start_time) n r.(mac1_key) r.(rl_cookie_key)
    r.(limit) r.(count) r.(last_reset).
Definition with_count (n : Z) (r : RateLimiter) : RateLimiter :=
  MkRateLimiter r.(nonce_key) r.(secret_key) r.(start_time) r.(nonce_ctr) r.(mac1_key)
    r.(rl_cookie_key) r.(limit) n r.(last_reset).
Definition with_last_reset (t : Instant) (r : RateLimiter) : RateLimiter :=
  MkRateLimiter r.(nonce_key) r.(secret_key) r.(start_time) r.(nonce_ctr) r.(mac1_key)
    r.(rl_cookie_key) r.(limit) r.(count) t.

(** Methods of a limiter that reads its environment. *)
Definition rl_gets {E A} (f : RateLimiter → A) : M E (RateLimiter * env) A := gets (λ s, f s.1).
Definition rl_modify {E} (f : RateLimiter → RateLimiter) : M E (RateLimiter * env) () :=
  modify (λ s, (f s.1, s.2)).
Definition rl_io {E A} (m : M E env A) : M E (RateLimiter * env) A := zoom snd (λ e s, (s.1, e)) m.

Section Operations.
Context `{Crypto}.

Definition RateLimiter_new {E} (public_key : bytes) (limit : Z) : M E env RateLimiter :=
  secret_key ← fill_bytes 16;
  nonce_key ← fill_bytes 32;
  start_time ← Instant_now;
  last_reset ← Instant_now;
  mret {|
    nonce_key := nonce_key;
    secret_key := secret_key;
    start_time := start_time;
    nonce_ctr := 0;
    mac1_key := b2s_hash LABEL_MAC1 public_key;
    rl_cookie_key := b2s_hash LABEL_COOKIE public_key;
    limit := limit;
    count := 0;
    last_reset := last_reset;
  |}.

Definition reset_count {E} : M E (RateLimiter * env) () :=
  current_time ← rl_io Instant_now;
  last_reset_time ← rl_gets last_reset;
  when (RESET_PERIOD <=? as_secs (duration_since current_time last_reset_time))
    (rl_modify (λ r, with_last_reset current_time (with_count 0 r))).

(** The sixteen bytes an address is hashed as. *)
Definition addr_bytes (addr : IpAddr) : bytes :=
  match addr with
  | V4 a => copy_at 0 a (zeros 16)
  | V6 a => copy_at 0 a (zeros 16)
  end.

Definition current_cookie {E} (addr : IpAddr) : M E (RateLimiter * env) bytes :=
  now ← rl_io Instant_now;
  self ← rl_gets id;
  let cur_counter := as_secs (duration_since now self.(start_time)) / COOKIE_REFRESH in
  mret (b2s_keyed_mac_16_2 self.(secret_key) (to_le_bytes 8 cur_counter) (addr_bytes addr)).

Definition nonce {E} : M E (RateLimiter * env) bytes :=
  ctr ← rl_gets nonce_ctr;                                (* fetch_add(1) *)
  _ ← rl_modify (with_nonce_ctr (wrap 64 (ctr + 1)));
  key ← rl_gets nonce_key;
  mret (b2s_mac_24 key (to_le_bytes 8 ctr)).

Definition is_under_load {E} : M E (RateLimiter * env) bool :=
  n ← rl_gets count;                                      (* fetch_add(1) *)
  _ ← rl_modify (with_count (wrap 64 (n + 1)));
  limit ← rl_gets limit;
  mret (limit <=? n).

Definition format_cookie_reply (idx : Z) (cookie mac1 dst : bytes) :
    M WireGuardError (RateLimiter * env) bytes :=
  if (length dst <? COOKIE_REPLY_SZ)%nat then throw DestinationBufferTooSmall
  else
    let dst := copy_at 0 (to_le_bytes 4 COOKIE_REPLY) dst in
    let dst := copy_at 4 (to_le_bytes 4 idx) dst in
    nonce ← nonce;
    let dst := copy_at 8 nonce dst in
    key ← rl_gets rl_cookie_key;
    let iv := slice 8 32 dst in
    let dst := copy_at 32 cookie dst in
    sealed ← lift_result
      (match xchacha20poly1305_seal key iv mac1 (slice 32 48 dst) with
       | Some r => Ok r
       | None => Err DestinationBufferTooSmall
       end);
    let dst := copy_at 32 sealed.1 dst in
    let dst := copy_at 48 sealed.2 dst in
    mret (take COOKIE_REPLY_SZ dst).

(** The sender index of a handshake message. *)
Definition handshake_sender (p : Packet) : option Z :=
  match p with
  | PHandshakeInit p => Some p.(hi_sender_idx)
  | PHandshakeResponse p => Some p.(hr_sender_idx)
  | _ => None
  end.

Definition verify_packet (src_addr : option IpAddr) (src dst : bytes) :
    M TunnResult (RateLimiter * env) Packet :=
  packet ← map_err TErr (lift_result (parse_incoming_packet src));
  match handshake_sender packet with
  | None => mret packet
  | Some sender_idx =>
    let msg := take (length src - 32) src in
    let macs := drop (length src - 32) src in
    let mac1 := take 16 macs in
    let mac2 := drop 16 macs in
    key ← rl_gets mac1_key;
    let computed_mac1 := b2s_keyed_mac_16 key msg in
    if negb (bool_decide (take 16 computed_mac1 = mac1)) then throw (TErr InvalidMac)
    else
      under_load ← is_under_load;
      if negb under_load then mret packet
      else
        match src_addr with
        | None => throw (TErr UnderLoad)
        | Some addr =>
          cookie ← current_cookie addr;
          let computed_mac2 := b2s_keyed_mac_16_2 cookie msg mac1 in
          if negb (bool_decide (take 16 computed_mac2 = mac2)) then
            cookie_packet ← map_err TErr (format_cookie_reply sender_idx cookie mac1 dst);
            throw (WriteToNetwork cookie_packet)
          else mret packet
        end
  end.
End Operations.

(** ** What the operations compute *)

Section Equations.
Context `{CryptoLaws}.

(** The environment after one reading of the clock. *)
Abbreviation tick e := (Env e.(e_clock) e.(e_system) (S e.(e_tick)) e.(e_rng) e.(e_rng_pos)).

(** The cookie of an address at a time: it changes every [COOKIE_REFRESH] seconds. *)
Definition cookie_period (r : RateLimiter) (now : Instant) : Z :=
  as_secs (duration_since now r.(start_time)) / COOKIE_REFRESH.
Definition cookie_at (r : RateLimiter) (addr : IpAddr) (period : Z) : bytes :=
  b2s_keyed_mac_16_2 r.(secret_key) (to_le_bytes 8 period) (addr_bytes addr).

Lemma length_cookie_at r addr period : length (cookie_at r addr period) = 16%nat.
Proof. apply length_blake2s_mac128. Qed.

Lemma format_cookie_reply_eq idx cookie mac1 dst r e :
  (COOKIE_REPLY_SZ ≤ length dst)%nat → length cookie = 16%nat →
  let iv := b2s_mac_24 r.(nonce_key) (to_le_bytes 8 r.(nonce_ctr)) in
  ∃ ct tag,
    xchacha20poly1305_seal r.(rl_cookie_key) iv mac1 cookie = Some (ct, tag) ∧
    length ct = 16%nat ∧ length tag = 16%nat ∧
    xchacha20poly1305_open r.(rl_cookie_key) iv mac1 ct tag = Some cookie ∧
    format_cookie_reply idx cookie mac1 dst (r, e) =
      Ret (Ok (encode (PCookieReply (MkPacketCookieReply idx iv (ct ++ tag))) []),
           (with_nonce_ctr (wrap 64 (r.(nonce_ctr) + 1)) r, e)).
Proof.
  intros Hlen Hc. cbn zeta. set (iv := b2s_mac_24 _ _).
  assert (Hiv : length iv = 24%nat) by apply length_blake2s_mac192.
  destruct (xseal_open r.(rl_cookie_key) iv mac1 cookie Hc) as (ct & tag & Hs & Hct & Htag & Ho).
  exists ct, tag. split_and!; [done..|]. unfold format_cookie_reply.
  rewrite (proj2 (Nat.ltb_ge _ _)) by done. unfold COOKIE_REPLY_SZ in Hlen.
  erewrite bind_ok by reflexivity. cbn beta zeta. erewrite bind_ok by reflexivity. cbn beta zeta.
  cbn [rl_gets gets fst snd with_nonce_ctr rl_cookie_key nonce_key nonce_ctr id].
  fold iv. rewrite copy_at_0, length_to_le_bytes.
  rewrite (copy_at_filled 4), (copy_at_filled 8)
    by (rewrite ?length_app, ?length_drop, ?length_to_le_bytes; lia || done).
  rewrite length_to_le_bytes, !drop_drop, Hiv.
  set (hdr := to_le_bytes 4 COOKIE_REPLY ++ to_le_bytes 4 idx).
  assert (Hhdr : length hdr = 8%nat) by (unfold hdr; by rewrite length_app, !length_to_le_bytes).
  assert (Hsl : ∀ rest, slice 8 32 ((hdr ++ iv) ++ rest) = iv).
  { intros rest. rewrite <-app_assoc. erewrite slice_skip by (done || lia). by rewrite slice_app_exact. }
  rewrite Hsl.
  rewrite (copy_at_filled 32) by (rewrite ?length_app, ?length_drop; lia). rewrite Hc, drop_drop.
  rewrite <-(app_assoc (hdr ++ iv)).
  erewrite (slice_skip 32) by (rewrite ?length_app; lia). cbn [Nat.sub].
  rewrite slice_app_exact, Hs by done. run_ok. cbn [fst snd].
  rewrite (copy_at_filled 32) by (rewrite ?length_app, ?length_drop; lia).
  rewrite drop_app_length' by lia.
  rewrite (copy_at_filled 48) by (rewrite ?length_app, ?length_drop; lia).
  rewrite take_app_le, take_ge by (rewrite !length_app; unfold COOKIE_REPLY_SZ; lia).
  unfold encode. cbn [cr_receiver_idx cr_nonce cr_encrypted_cookie].
  unfold hdr. by rewrite app_nil_r, <-!app_assoc.
Qed.

Lemma current_cookie_eq {E} addr r e :
  @current_cookie _ E addr (r, e) =
    Ret (Ok (cookie_at r addr (cookie_period r (e.(e_clock) e.(e_tick)))), (r, tick e)).
Proof. done. Qed.

(** What decides about a handshake message, in which order. *)
Lemma verify_handshake addr p idx m1 m2 dst r e :
  packet_wf p → handshake_sender p = Some idx → length m1 = 16%nat → length m2 = 16%nat →
  verify_packet addr (encode p (m1 ++ m2)) dst (r, e) =
    let body := encode p [] in
    let r1 := with_count (wrap 64 (r.(count) + 1)) r in
    if bool_decide (b2s_keyed_mac_16 r.(mac1_key) body = m1) then
      if r.(limit) <=? r.(count) then
        match addr with
        | None => Ret (Err (TErr UnderLoad), (r1, e))
        | Some a =>
          let cookie := cookie_at r a (cookie_period r (e.(e_clock) e.(e_tick))) in
          if bool_decide (b2s_keyed_mac_16 cookie (body ++ m1) = m2) then Ret (Ok p, (r1, tick e))
          else
            (map_err TErr (format_cookie_reply idx cookie m1 dst) ≫= λ packet,
               throw (WriteToNetwork packet)) (r1, tick e)
        end
      else Ret (Ok p, (r1, e))
    else Ret (Err (TErr InvalidMac), (r, e)).
Proof.
  intros Hwf Hs H1 H2. unfold verify_packet.
  assert (Hm : length (m1 ++ m2) = macs_len p).
  { rewrite length_app, H1, H2. by destruct p. }
  erewrite bind_ok by (unfold map_err, lift_result; by rewrite parse_encode). cbn beta. rewrite Hs.
  assert (Hm32 : length (m1 ++ m2) = 32%nat) by (by rewrite length_app, H1, H2).
  rewrite encode_macs. replace (length (encode p [] ++ m1 ++ m2) - 32)%nat with (length (encode p []))
    by (rewrite length_app; lia).
  rewrite take_app_length, drop_app_length. run_ok. cbn [fst snd].
  rewrite (take_ge (b2s_keyed_mac_16 _ _)) by (unfold b2s_keyed_mac_16; by rewrite length_blake2s_mac128).
  rewrite take_app_length', drop_app_length' by done.
  case_bool_decide; cbn [negb]; [|done]. run_ok. cbn [fst snd with_count limit].
  destruct (Z.leb_spec r.(limit) r.(count)); cbn [negb]; [|done].
  destruct addr as [a|]; [|done]. erewrite bind_ok by apply current_cookie_eq. cbn beta zeta.
  rewrite take_ge by (unfold b2s_keyed_mac_16_2; by rewrite length_blake2s_mac128).
  change (b2s_keyed_mac_16_2 ?c ?x ?y) with (b2s_keyed_mac_16 c (x ++ y)).
  change (cookie_period (with_count ?n r) ?t) with (cookie_period r t).
  change (cookie_at (with_count ?n r) a ?q) with (cookie_at r a q).
  case_bool_decide; done.
Qed.

(** A datagram is not a handshake message, or it splits into its body and its
    two MACs. *)
Lemma datagram_cases src :
  (∃ e, parse_incoming_packet src = Err e) ∨
  (∃ p, parse_incoming_packet src = Ok p ∧ handshake_sender p = None) ∨
  (∃ p idx m1 m2, parse_incoming_packet src = Ok p ∧ handshake_sender p = Some idx ∧ packet_wf p ∧
     length m1 = 16%nat ∧ length m2 = 16%nat ∧ src = encode p (m1 ++ m2)).
Proof.
  destruct (parse_incoming_packet src) as [p|e] eqn:Hp; [right|by left; eauto].
  destruct (handshake_sender p) as [idx|] eqn:Hs; [right|left; by eauto].
  destruct (parse_sound _ _ Hp) as (Hwf & macs & Hm & Hsrc).
  assert (length macs = 32%nat) by (by destruct p; cbn in Hs, Hm).
  exists p, idx, (take 16 macs), (drop 16 macs). split_and!; [done..| | |].
  - rewrite length_take. lia.
  - rewrite length_drop. lia.
  - by rewrite take_drop.
Qed.

(** The two MAC fields of a datagram. *)
Definition mac1_field (src : bytes) : bytes := slice (length src - 32) (length src - 16) src.
Definition mac2_field (src : bytes) : bytes := drop (length src - 16) src.

Lemma mac_fields p m1 m2 :
  length m1 = 16%nat → length m2 = 16%nat →
  let src := encode p (m1 ++ m2) in
  take (length src - 32) src = encode p [] ∧ take (length src - 16) src = encode p [] ++ m1 ∧
  mac1_field src = m1 ∧ mac2_field src = m2.
Proof.
  intros H1 H2. cbn zeta. unfold mac1_field, mac2_field, slice. rewrite encode_macs, !length_app, H1, H2.
  replace (length (encode p []) + (16 + 16) - 32)%nat with (length (encode p [])) by lia.
  replace (length (encode p []) + (16 + 16) - 16)%nat with (length (encode p [] ++ m1))
    by (rewrite length_app; lia).
  rewrite drop_app_length. rewrite app_assoc, take_app_length, drop_app_length, <-app_assoc.
  rewrite take_app_length. split_and!; [done..| |done].
  rewrite length_app, H1, Nat.add_comm, Nat.add_sub. by apply take_app_length'.
Qed.

(** The environment after one reading of the clock. *)
Lemma tick_le e : env_le e (tick e).
Proof. split; cbn; auto. Qed.

(** Nothing but the counters and the time of the last reset ever changes. *)
Record same_limiter (r r' : RateLimiter) : Prop := {
  sl_secret : r'.(secret_key) = r.(secret_key);
  sl_nonce : r'.(nonce_key) = r.(nonce_key);
  sl_start : r'.(start_time) = r.(start_time);
  sl_mac1 : r'.(mac1_key) = r.(mac1_key);
  sl_cookie : r'.(rl_cookie_key) = r.(rl_cookie_key);
  sl_limit : r'.(limit) = r.(limit);
}.

Lemma same_cookie r r' a t : same_limiter r r' → cookie_at r' a t = cookie_at r a t.
Proof. intros [? _ _ _ _ _]. unfold cookie_at. congruence. Qed.

(** Every way a verification can end. *)
Lemma verify_packet_wp addr src dst r e :
  (COOKIE_REPLY_SZ ≤ length dst)%nat →
  wp (verify_packet addr src dst) (λ res s', same_limiter r s'.1 ∧ env_le e s'.2 ∧
    match res with
    | Ok p => parse_incoming_packet src = Ok p
    | Err (WriteToNetwork reply) => length reply = COOKIE_REPLY_SZ
    | Err (TErr _) => True
    | Err _ => False
    end) (r, e).
Proof.
  intros Hdst.
  destruct (datagram_cases src) as [[err Herr]|[(p & Hp & Hs)|(p & idx & m1 & m2 & Hp & Hs & Hwf & H1 & H2 & ->)]].
  - unfold wp, verify_packet, mbind, M_bind, map_err, lift_result. by rewrite Herr.
  - unfold wp, verify_packet, mbind, M_bind, map_err, lift_result. by rewrite Hp, Hs.
  - unfold wp. rewrite (verify_handshake addr p idx) by done. cbn zeta.
    case_bool_decide; [|done]. destruct (_ <=? _); [|by split_and!].
    destruct addr as [a|]; [|by split_and!]. case_bool_decide; [by split_and!; [|apply tick_le|]|].
    set (r1 := with_count _ r). set (c := cookie_at _ _ _).
    destruct (format_cookie_reply_eq idx c m1 dst r1 (tick e) Hdst (length_cookie_at _ _ _))
      as (ct & tag & _ & Hct & Htag & _ & Hf).
    unfold mbind, M_bind, map_err. rewrite Hf. split_and!; [done|apply tick_le|].
    unfold encode. cbn. rewrite !length_app, Hct, Htag. unfold b2s_mac_24.
    by rewrite length_blake2s_mac192.
Qed.

Lemma reset_count_wp {E} r e :
  wp (@reset_count E) (λ res s', res = Ok () ∧ same_limiter r s'.1 ∧ env_le e s'.2) (r, e).
Proof.
  unfold wp, reset_count. run_ok. run_ok. cbn [fst snd]. unfold when.
  destruct (_ <=? _); cbn; (split_and!; [done|done|apply tick_le]).
Qed.

(** The limiter of the owner of a public key. *)
Record limiter_of (public : bytes) (r : RateLimiter) : Prop := {
  lo_mac1 : r.(mac1_key) = b2s_hash LABEL_MAC1 public;
  lo_cookie : r.(rl_cookie_key) = b2s_hash LABEL_COOKIE public;
}.

(** What a peer sends to the owner of the limiter has the right first MAC;
    under load the second decides. *)
Lemma verify_sealed h p idx addr dst r e :
  packet_wf p → handshake_sender p = Some idx →
  params_wf h.(params) → limiter_of h.(params).(peer_static_public) r →
  verify_packet addr (sealed h p) dst (r, e) =
    let r1 := with_count (wrap 64 (r.(count) + 1)) r in
    if r.(limit) <=? r.(count) then
      match addr with
      | None => Ret (Err (TErr UnderLoad), (r1, e))
      | Some a =>
        let cookie := cookie_at r a (cookie_period r (e.(e_clock) e.(e_tick))) in
        let m1 := mac1_of h (encode p []) in
        if bool_decide (b2s_keyed_mac_16 cookie (encode p [] ++ m1) = mac2_of h (encode p []))
        then Ret (Ok p, (r1, tick e))
        else
          (map_err TErr (format_cookie_reply idx cookie m1 dst) ≫= λ packet,
             throw (WriteToNetwork packet)) (r1, tick e)
      end
    else Ret (Ok p, (r1, e)).
Proof.
  intros Hwf Hs Hp [Hm1 _]. unfold sealed.
  rewrite (verify_handshake addr p idx) by (done || apply length_mac1_of || apply length_mac2_of).
  cbn zeta. rewrite Hm1, <-(pw_mac1 _ Hp). unfold mac1_of at 1. by rewrite bool_decide_eq_true_2.
Qed.

(** A peer that remembers the message accepts the reply to it and holds the
    cookie from then on. *)
Lemma receive_reply h e idx m1 c iv ct tag :
  h.(cookies).(last_mac1) = Some m1 → h.(cookies).(ck_index) = idx → length ct = 16%nat →
  xchacha20poly1305_open h.(params).(cookie_key) iv m1 ct tag = Some c →
  receive_cookie_reply (MkPacketCookieReply idx iv (ct ++ tag)) (h, e) =
    Ret (Ok (), (with_cookies (MkCookies (Some m1) idx (Some c)) h, e)).
Proof.
  intros Hl <- Hct Ho. unfold receive_cookie_reply. run_ok. cbn [fst snd id]. rewrite Hl.
  cbn [cr_receiver_idx cr_nonce cr_encrypted_cookie]. rewrite Z.eqb_refl. cbn [negb].
  rewrite take_app_length', drop_app_length' by done. by rewrite Ho.
Qed.
End Equations.

Section Flood.
Context `{CryptoLaws}.

(** Verify datagrams one after the other, counting the handshake messages
    that get through. *)
Fixpoint verify_each (ds : list (option IpAddr * bytes)) (dst : bytes) (s : RateLimiter * env) :
    outcome (Z * (RateLimiter * env)) :=
  match ds with
  | [] => Ret (0, s)
  | (addr, src) :: ds' =>
    match verify_packet addr src dst s with
    | Ret (r, s') =>
      match verify_each ds' dst s' with
      | Ret (n, s'') =>
        Ret (n + match r with Ok p => match handshake_sender p with Some _ => 1 | None => 0 end | Err _ => 0 end, s'')
      | Panic => Panic
      end
    | Panic => Panic
    end
  end.

(** The datagram was made without a cookie of the limiter for its address. *)
Definition no_cookie (r : RateLimiter) (d : option IpAddr * bytes) : Prop :=
  ∀ a period, d.1 = Some a →
    b2s_keyed_mac_16 (cookie_at r a period) (take (length d.2 - 16) d.2) ≠ mac2_field d.2.

Lemma no_cookie_same r r' d : same_limiter r r' → no_cookie r d → no_cookie r' d.
Proof. intros Hs Hd a period Ha. rewrite (same_cookie r r' a period Hs). by apply Hd. Qed.

(** One datagram of the flood. *)
Lemma verify_no_cookie d dst r e :
  no_cookie r d → (COOKIE_REPLY_SZ ≤ length dst)%nat →
  0 ≤ r.(count) < 2 ^ 64 - 1 →
  ∃ res r' e', verify_packet d.1 d.2 dst (r, e) = Ret (res, (r', e')) ∧ same_limiter r r' ∧
    r.(count) ≤ r'.(count) ≤ r.(count) + 1 ∧
    (∀ p, res = Ok p → is_Some (handshake_sender p) →
       r.(count) < r.(limit) ∧ r'.(count) = r.(count) + 1).
Proof.
  destruct d as [addr src]. intros Hno Hdst Hc. cbn [fst snd].
  destruct (datagram_cases src) as [[err Herr]|[(p & Hp & Hs)|(p & idx & m1 & m2 & Hp & Hs & Hwf & H1 & H2 & ->)]].
  - exists (Err (TErr err)), r, e. split_and!; [|done|lia|lia|done].
    unfold verify_packet, mbind, M_bind, map_err, lift_result. by rewrite Herr.
  - exists (Ok p), r, e. split_and!; [|done|lia|lia|intros ? [= <-]; rewrite Hs; by intros []].
    unfold verify_packet, mbind, M_bind, map_err, lift_result. by rewrite Hp, Hs.
  - rewrite (verify_handshake addr p idx) by done. cbn zeta.
    assert (Hw : wrap 64 (count r + 1) = count r + 1) by (apply wrap_small; unfold in_width; lia).
    case_bool_decide; [|eexists _, _, _; split_and!; [reflexivity|done|lia|lia|done]].
    destruct (Z.leb_spec (limit r) (count r)).
    2:{ eexists _, _, _. split_and!; [reflexivity|done|cbn; lia|cbn; lia|]. cbn. intros; lia. }
    destruct addr as [a|].
    2:{ eexists _, _, _. split_and!; [reflexivity|done|cbn; lia|cbn; lia|done]. }
    rewrite bool_decide_eq_false_2.
    2:{ destruct (mac_fields p m1 m2 H1 H2) as (_ & Ht & _ & Hm2). specialize (Hno a
          (cookie_period r (e.(e_clock) e.(e_tick))) eq_refl). cbn [snd] in Hno. by rewrite Ht, Hm2 in Hno. }
    destruct (format_cookie_reply_eq idx (cookie_at r a (cookie_period r (e.(e_clock) e.(e_tick)))) m1 dst
      (with_count (wrap 64 (count r + 1)) r) (Env e.(e_clock) e.(e_system) (S e.(e_tick)) e.(e_rng) e.(e_rng_pos)) Hdst (length_cookie_at _ _ _))
      as (ct & tag & _ & _ & _ & _ & Hf).
    eexists _, _, _. split_and!; [unfold mbind, M_bind, map_err; by rewrite Hf|done|cbn; lia|cbn; lia|done].
Qed.

Lemma verify_each_bound ds dst r e :
  Forall (no_cookie r) ds → (COOKIE_REPLY_SZ ≤ length dst)%nat →
  0 ≤ r.(count) → r.(count) + Z.of_nat (length ds) < 2 ^ 64 →
  ∃ n s', verify_each ds dst (r, e) = Ret (n, s') ∧ n ≤ Z.max 0 (r.(limit) - r.(count)).
Proof.
  intros Hno Hdst. revert r e Hno. induction ds as [|[addr src] ds IH]; intros r e Hno Hc Hlen; cbn.
  { eexists _, _. split; [done|lia]. }
  apply Forall_cons in Hno as [Hd Hno]. cbn [length] in Hlen.
  destruct (verify_no_cookie (addr, src) dst r e Hd Hdst ltac:(lia)) as (res & r' & e' & Hv & Hs & Hc' & Hok).
  cbn [fst snd] in Hv. rewrite Hv.
  destruct (IH r' e') as (n & s' & Hr & Hn); [|lia|lia|].
  { eapply Forall_impl; [exact Hno|]. intros d. by apply no_cookie_same. }
  rewrite Hr. eexists _, _. split; [done|]. rewrite (sl_limit _ _ Hs) in Hn.
  destruct res as [p|]; [|lia]. destruct (handshake_sender p) as [i|] eqn:Hi; [|lia].
  destruct (Hok p eq_refl ltac:(by rewrite Hi)). lia.
Qed.
End Flood.

Section CookieExchange.
Context `{CryptoLaws}.

(** [format_handshake_initiation] seals a well-formed initiation with the MACs
    of the handshake, and remembers it. *)
Lemma initiation_sealed dst h e :
  params_wf h.(params) → in_width 32 h.(next_index) →
  clock_ok e → stamper_ok h.(stamper) e → (HANDSHAKE_INIT_SZ ≤ length dst)%nat →
  ∃ p idx h1 e1,
    format_handshake_initiation dst (h, e) = Ret (Ok (sealed h p), (h1, e1)) ∧
    packet_wf p ∧ handshake_sender p = Some idx ∧ in_width 32 idx ∧
    h1.(cookies) = MkCookies (Some (mac1_of h (encode p []))) idx h.(cookies).(write_cookie) ∧
    h1.(params) = h.(params) ∧ in_width 32 h1.(next_index) ∧ h1.(stamper) = h.(stamper) ∧ env_le e e1.
Proof.
  intros Hp Hi He Hst Hlen. eexists _, (incremented h.(next_index)), _, _.
  split; [by apply format_handshake_initiation_eq; [|apply params_public_length|..]|].
  pose proof (incremented_width _ Hi) as Hw.
  split_and!; [by apply initiation_wf; [..|apply length_ext_stamp]|unfold handshake_sender; f_equal; apply initiation_idx|
    done|done|done|done|done|split; cbn; auto; lia].
Qed.

(** An initiation made with the current cookie passes a loaded limiter. *)
Lemma cookie_holder_accepted dst h e r addr period :
  params_wf h.(params) → in_width 32 h.(next_index) →
  clock_ok e → stamper_ok h.(stamper) e → (HANDSHAKE_INIT_SZ ≤ length dst)%nat →
  limiter_of h.(params).(peer_static_public) r →
  h.(cookies).(write_cookie) = Some (cookie_at r addr period) →
  ∃ msg h' e', format_handshake_initiation dst (h, e) = Ret (Ok msg, (h', e')) ∧
    ∀ r2 er2 dst2, same_limiter r r2 → cookie_period r (er2.(e_clock) er2.(e_tick)) = period →
      ∃ p s, verify_packet (Some addr) msg dst2 (r2, er2) = Ret (Ok p, s).
Proof.
  intros Hp Hi He Hst Hlen [Hm1 Hck] Hc.
  destruct (initiation_sealed dst h e Hp Hi He Hst Hlen) as (p & idx & h' & e' & Hf & Hwf & Hs & _).
  eexists _, h', e'. split; [exact Hf|]. intros r2 er2 dst2 Hsame Hper.
  rewrite (verify_sealed h p idx) by (done || (split; rewrite ?(sl_mac1 _ _ Hsame), ?(sl_cookie _ _ Hsame); done)).
  cbn zeta. destruct (_ <=? _); [|eauto].
  rewrite bool_decide_eq_true_2; [eauto|].
  unfold mac2_of. rewrite Hc, (same_cookie _ _ _ _ Hsame). do 2 f_equal.
  unfold cookie_period in *. by rewrite (sl_start _ _ Hsame).
Qed.
End CookieExchange.

Section Theorems.
Context `{CryptoLaws}.

(** C12.  The cookie exchange works end to end: when a loaded responder gets
    an initiation without a valid cookie, it answers with a cookie reply; the
    initiator parses and accepts the reply, and the next initiation it formats
    is accepted by the responder, loaded as it is, from the same address and as
    long as the cookie is current.  (The first disjunct is the initiation whose
    second MAC happens to be right at once.) *)
Theorem cookie_exchange h e dst r er addr dst' :
  params_wf h.(params) → in_width 32 h.(next_index) →
  clock_ok e → stamper_ok h.(stamper) e → (HANDSHAKE_INIT_SZ ≤ length dst)%nat →
  limiter_of h.(params).(peer_static_public) r → r.(limit) ≤ r.(count) →
  (COOKIE_REPLY_SZ ≤ length dst')%nat →
  ∃ msg h1 e1 r1 er1,
    format_handshake_initiation dst (h, e) = Ret (Ok msg, (h1, e1)) ∧
    ((∃ p, verify_packet (Some addr) msg dst' (r, er) = Ret (Ok p, (r1, er1)) ∧
       b2s_keyed_mac_16 (cookie_at r addr (cookie_period r (er.(e_clock) er.(e_tick))))
         (take (length msg - 16) msg) = mac2_field msg) ∨
     ∃ reply cr h2,
       verify_packet (Some addr) msg dst' (r, er) = Ret (Err (WriteToNetwork reply), (r1, er1)) ∧
       parse_incoming_packet reply = Ok (PCookieReply cr) ∧
       receive_cookie_reply cr (h1, e1) = Ret (Ok (), (h2, e1)) ∧
       ∃ msg2 h3 e3, format_handshake_initiation dst (h2, e1) = Ret (Ok msg2, (h3, e3)) ∧
         ∀ r2 er2, same_limiter r r2 →
           cookie_period r (er2.(e_clock) er2.(e_tick)) = cookie_period r (er.(e_clock) er.(e_tick)) →
           ∃ p s, verify_packet (Some addr) msg2 dst' (r2, er2) = Ret (Ok p, s)).
Proof.
  intros Hp Hi He Hst Hlen Hlo Hload Hlen'.
  destruct (initiation_sealed dst h e Hp Hi He Hst Hlen)
    as (p & idx & h1 & e1 & Hf & Hwf & Hs & Hidx & Hck & Hp1 & Hi1 & Hst1 & Hle).
  pose proof (verify_sealed h p idx (Some addr) dst' r er Hwf Hs Hp Hlo) as Hv. cbn zeta in Hv.
  rewrite (proj2 (Z.leb_le _ _) Hload) in Hv.
  destruct (mac_fields p _ _ (length_mac1_of h (encode p [])) (length_mac2_of h (encode p [])))
    as (_ & Ht & _ & Hm2). fold (sealed h p) in Ht, Hm2.
  case_bool_decide as Hmac.
  { eexists _, h1, e1, _, _. split; [exact Hf|]. left. exists p. split; [exact Hv|].
    by rewrite Ht, Hm2. }
  set (r1 := with_count _ r) in Hv. set (er1 := Env _ _ (S (e_tick er)) _ _) in Hv.
  set (c := cookie_at _ _ _) in *.
  destruct (format_cookie_reply_eq idx c (mac1_of h (encode p [])) dst' r1 er1 Hlen' (length_cookie_at _ _ _))
    as (ct & tag & _ & Hct & Htag & Ho & Hr).
  eexists _, h1, e1, _, _. split; [exact Hf|]. right.
  pose proof (receive_reply h1 e1 idx (mac1_of h (encode p [])) c _ ct tag
    ltac:(by rewrite Hck) ltac:(by rewrite Hck) Hct
    ltac:(rewrite Hp1, (pw_cookie _ Hp), <-(lo_cookie _ _ Hlo); exact Ho)) as Hrr.
  eexists _, _, _. split_and!; [rewrite Hv; unfold mbind, M_bind, map_err; by rewrite Hr| |exact Hrr|].
  - apply parse_encode; [|done]. split_and!; [done|apply length_blake2s_mac192|].
    cbn. rewrite length_app. lia.
  - lazymatch type of Hrr with _ = Ret (_, (?h2, _)) =>
      destruct (cookie_holder_accepted dst h2 e1 r addr (cookie_period r (er.(e_clock) er.(e_tick))))
        as (msg2 & h3 & e3 & Hf2 & Hacc)
    end; cbn [params next_index stamper cookies with_cookies write_cookie]; rewrite ?Hp1, ?Hst1; try done.
    + by eapply clock_ok_le.
    + by eapply stamper_ok_le.
    + exists msg2, h3, e3. split; [exact Hf2|]. intros r2 er2 Hs2 Hper. by apply Hacc.
Qed.

(** C13.  A flood of handshake messages is bounded: of any number of
    datagrams that were made without a cookie of the limiter, at most
    [limit - count] handshake messages pass before the counter is reset,
    whatever their MACs and addresses. *)
Theorem flood_is_bounded ds dst r e :
  Forall (no_cookie r) ds → (COOKIE_REPLY_SZ ≤ length dst)%nat →
  0 ≤ r.(count) → r.(count) + Z.of_nat (length ds) < 2 ^ 64 →
  ∃ n s', verify_each ds dst (r, e) = Ret (n, s') ∧ n ≤ Z.max 0 (r.(limit) - r.(count)).
Proof. apply verify_each_bound. Qed.

(** C14.  A handshake message that passes verification carries the right MACs:
    the first is the MAC of its body under the limiter's key, and, when the
    limiter is loaded, the second is the MAC under the cookie of the source
    address at this time.  A message with a wrong first MAC is refused and
    leaves the limiter, its counter included, as it was. *)
Theorem verified_macs addr src dst r e :
  (∀ p s', verify_packet addr src dst (r, e) = Ret (Ok p, s') → is_Some (handshake_sender p) →
     b2s_keyed_mac_16 r.(mac1_key) (take (length src - 32) src) = mac1_field src ∧
     (r.(count) < r.(limit) ∨ ∃ a, addr = Some a ∧
        b2s_keyed_mac_16 (cookie_at r a (cookie_period r (e.(e_clock) e.(e_tick))))
          (take (length src - 16) src) = mac2_field src)) ∧
  (∀ p, parse_incoming_packet src = Ok p → is_Some (handshake_sender p) →
     b2s_keyed_mac_16 r.(mac1_key) (take (length src - 32) src) ≠ mac1_field src →
     verify_packet addr src dst (r, e) = Ret (Err (TErr InvalidMac), (r, e))).
Proof.
  destruct (datagram_cases src) as [[err Herr]|[(p & Hp & Hs)|(p & idx & m1 & m2 & Hp & Hs & Hwf & H1 & H2 & Hsrc)]].
  - split; [|by rewrite Herr]. intros p s'. unfold verify_packet, mbind, M_bind, map_err, lift_result.
    by rewrite Herr.
  - split; [|intros q; rewrite Hp; intros [= <-]; rewrite Hs; by intros []].
    intros q s'. unfold verify_packet, mbind, M_bind, map_err, lift_result. rewrite Hp, Hs.
    intros [= <- _]. rewrite Hs. by intros [].
  - destruct (mac_fields p m1 m2 H1 H2) as (Hb & Ht & Hm1 & Hm2). rewrite <-Hsrc in Hb, Ht, Hm1, Hm2.
    rewrite Hb, Ht, Hm1, Hm2, Hsrc, (verify_handshake addr p idx) by done. cbn zeta.
    split; [|intros q _ _ Hne; by rewrite bool_decide_eq_false_2].
    intros q s' Hv _. case_bool_decide; [|done]. split; [done|].
    destruct (Z.leb_spec (limit r) (count r)); [right|by left].
    destruct addr as [a|]; [|done]. exists a. split; [done|]. case_bool_decide; [done|].
    unfold mbind, M_bind, map_err in Hv. by destruct (format_cookie_reply _ _ _ _ _) as [[[]]|].
Qed.
End Theorems.

(** ** Witnesses *)

Section LimiterWitnesses.
#[local] Existing Instance toy_crypto.
#[local] Existing Instance toy_laws.

Definition test_limiter (limit : Z) : RateLimiter := {|
  nonce_key := k1;
  secret_key := zeros 16;
  start_time := test_clock 0;
  nonce_ctr := 0;
  mac1_key := b2s_hash LABEL_MAC1 (x25519_public k2);
  rl_cookie_key := b2s_hash LABEL_COOKIE (x25519_public k2);
  limit := limit;
  count := 0;
  last_reset := test_clock 0;
|}.
Definition test_addr : IpAddr := V4 (byte.of_Z <$> [192; 0; 2; 7]).

Lemma cookie_exchange_witness :
  ∃ msg h1 e1 r1 er1,
    format_handshake_initiation (zeros 148) (initiator, test_env) = Ret (Ok msg, (h1, e1)) ∧
    ((∃ p, verify_packet (Some test_addr) msg (zeros 64) (test_limiter 0, test_env) = Ret (Ok p, (r1, er1)) ∧
       b2s_keyed_mac_16 (cookie_at (test_limiter 0) test_addr
           (cookie_period (test_limiter 0) (test_env.(e_clock) test_env.(e_tick))))
         (take (length msg - 16) msg) = mac2_field msg) ∨
     ∃ reply cr h2,
       verify_packet (Some test_addr) msg (zeros 64) (test_limiter 0, test_env) =
         Ret (Err (WriteToNetwork reply), (r1, er1)) ∧
       parse_incoming_packet reply = Ok (PCookieReply cr) ∧
       receive_cookie_reply cr (h1, e1) = Ret (Ok (), (h2, e1)) ∧
       ∃ msg2 h3 e3, format_handshake_initiation (zeros 148) (h2, e1) = Ret (Ok msg2, (h3, e3)) ∧
         ∀ r2 er2, same_limiter (test_limiter 0) r2 →
           cookie_period (test_limiter 0) (er2.(e_clock) er2.(e_tick)) =
             cookie_period (test_limiter 0) (test_env.(e_clock) test_env.(e_tick)) →
           ∃ p s, verify_packet (Some test_addr) msg2 (zeros 64) (r2, er2) = Ret (Ok p, s)).
Proof.
  apply (cookie_exchange initiator test_env (zeros 148) (test_limiter 0) test_env test_addr (zeros 64));
    [apply params_new_wf|done|exact test_clock_ok|exact test_stamper_ok|vm_compute; lia|done|done|vm_compute; lia].
Defined.

Lemma flood_is_bounded_witness :
  ∃ n s', verify_each [(None, initiator1.1); (None, initiator1.1); (None, zeros 40)] (zeros 64)
      (test_limiter 1, test_env) = Ret (n, s') ∧ n ≤ 1.
Proof.
  apply (flood_is_bounded [(None, initiator1.1); (None, initiator1.1); (None, zeros 40)] (zeros 64)
    (test_limiter 1) test_env); [|vm_compute; lia|done|done].
  repeat (apply Forall_cons_2; [intros a period [=]|]). apply Forall_nil_2.
Defined.

Lemma verified_macs_witness :
  verify_packet (Some test_addr) (encode (PHandshakeInit init_packet) (zeros 32)) (zeros 64)
    (test_limiter 0, test_env) = Ret (Err (TErr InvalidMac), (test_limiter 0, test_env)).
Proof.
  apply (verified_macs (Some test_addr) (encode (PHandshakeInit init_packet) (zeros 32)) (zeros 64)
    (test_limiter 0) test_env) with (p := PHandshakeInit init_packet).
  - by vm_compute.
  - by eexists.
  - intros Hmac. by vm_compute in Hmac.
Defined.
End LimiterWitnesses.
