(* ===== verification/Tunn.v ===== *)
(** * The tunnel of one peer (noise/mod.rs, lines 195-602, and noise/timers.rs)

    [Tunn] puts the handshake, the ring of sessions, the queue of blocked
    packets and the timers together.  A rate limiter is shared by all peers of
    a device ([Arc<RateLimiter>]): limiters live in a store of the [world] and
    a tunnel holds the location of its own. *)

From S2P Require Import Prelude Errors ReplayWindow Time Crypto Packet Session Tai64N Handshake RateLimiter.
From Stdlib Require Floats.SpecFloat.
From coqutil Require Import Byte.

Definition PEER_HANDSHAKE_RATE_LIMIT : Z := 10.
Definition MAX_QUEUE_DEPTH : nat := 256.
Definition N_SESSIONS : nat := 8.

(** ** Timers *)

Definition REKEY_AFTER_TIME : Duration := from_mins 2.
Definition REJECT_AFTER_TIME : Duration := from_mins 3.
Definition REKEY_ATTEMPT_TIME : Duration := from_secs 90.
Definition REKEY_TIMEOUT : Duration := from_secs 5.
Definition KEEPALIVE_TIMEOUT : Duration := from_secs 10.
Definition COOKIE_EXPIRATION_TIME : Duration := from_mins 2.

Inductive TimerName : Type :=
| TimeCurrent
| TimeSessionEstablished
| TimeLastHandshakeStarted
| TimeLastPacketReceived
| TimeLastPacketSent
| TimeLastDataPacketReceived
| TimeLastDataPacketSent
| TimeCookieReceived
| TimePersistentKeepalive
| Top.

(** [name as usize] *)
Definition timer_index (name : TimerName) : nat :=
  match name with
  | TimeCurrent => 0
  | TimeSessionEstablished => 1
  | TimeLastHandshakeStarted => 2
  | TimeLastPacketReceived => 3
  | TimeLastPacketSent => 4
  | TimeLastDataPacketReceived => 5
  | TimeLastDataPacketSent => 6
  | TimeCookieReceived => 7
  | TimePersistentKeepalive => 8
  | Top => 9
  end.

Record Timers := MkTimers {
  is_initiator : bool;
  time_started : Instant;
  timers : list Duration;
  session_timers : list Duration;
  want_keepalive : bool;
  want_handshake : bool;
  persistent_keepalive_secs : Z;
  should_reset_rr : bool;
}.

Definition with_is_initiator (b : bool) (t : Timers) : Timers :=
  MkTimers b t.(time_started) t.(timers) t.(session_timers) t.(want_keepalive) t.(want_handshake)
    t.(persistent_keepalive_secs) t.(should_reset_rr).
Definition with_timers (l : list Duration) (t : Timers) : Timers :=
  MkTimers t.(is_initiator) t.(time_started) l t.(session_timers) t.(want_keepalive)
    t.(want_handshake) t.(persistent_keepalive_secs) t.(should_reset_rr).
Definition with_session_timers (l : list Duration) (t : Timers) : Timers :=
  MkTimers t.(is_initiator) t.(time_started) t.(timers) l t.(want_keepalive)
    t.(want_handshake) t.(persistent_keepalive_secs) t.(should_reset_rr).
Definition with_want (keepalive handshake : bool) (t : Timers) : Timers :=
  MkTimers t.(is_initiator) t.(time_started) t.(timers) t.(session_timers) keepalive
    handshake t.(persistent_keepalive_secs) t.(should_reset_rr).
Definition with_should_reset_rr (b : bool) (t : Timers) : Timers :=
  MkTimers t.(is_initiator) t.(time_started) t.(timers) t.(session_timers) t.(want_keepalive)
    t.(want_handshake) t.(persistent_keepalive_secs) b.

Definition Timers_new {E} (persistent_keepalive : option Z) (reset_rr : bool) : M E env Timers :=
  now ← Instant_now;
  mret {|
    is_initiator := false;
    time_started := now;
    timers := replicate (timer_index Top) 0;
    session_timers := replicate N_SESSIONS 0;
    want_keepalive := false;
    want_handshake := false;
    persistent_keepalive_secs := match persistent_keepalive with Some k => k | None => 0 end;
    should_reset_rr := reset_rr;
  |}.

(** [timers[name]], for a name other than [Top]. *)
Definition timer_get (name : TimerName) (t : Timers) : Duration :=
  match t.(timers) !! timer_index name with Some d => d | None => 0 end.
Definition timer_set (name : TimerName) (d : Duration) (t : Timers) : Timers :=
  with_timers (<[timer_index name := d]> t.(timers)) t.

Definition timer_tick (name : TimerName) (t : Timers) : Timers :=
  let t :=
    match name with
    | TimeLastPacketReceived => with_want true false t
    | TimeLastPacketSent => with_want false true t
    | _ => t
    end in
  timer_set name (timer_get TimeCurrent t) t.

(** The slot of a session index in the ring. *)
Definition slot (idx : Z) : nat := Z.to_nat (idx mod Z.of_nat N_SESSIONS).

Definition timer_tick_session_established (initiator : bool) (session_idx : Z) (t : Timers) : Timers :=
  let t := timer_tick TimeSessionEstablished t in
  let t := with_session_timers (<[slot session_idx := timer_get TimeCurrent t]> t.(session_timers)) t in
  with_is_initiator initiator t.

(** ** The tunnel *)

Record Tunn := MkTunn {
  handshake : Handshake;
  sessions : list (option Session);
  current : Z;
  packet_queue : list bytes;
  t_timers : Timers;
  tx_bytes : Z;
  rx_bytes : Z;
  rate_limiter : nat;
}.

Record world := MkWorld {
  w_env : env;
  w_limiters : gmap nat RateLimiter;
}.

Definition with_handshake (h : Handshake) (t : Tunn) : Tunn :=
  MkTunn h t.(sessions) t.(current) t.(packet_queue) t.(t_timers) t.(tx_bytes) t.(rx_bytes) t.(rate_limiter).
Definition with_sessions (l : list (option Session)) (t : Tunn) : Tunn :=
  MkTunn t.(handshake) l t.(current) t.(packet_queue) t.(t_timers) t.(tx_bytes) t.(rx_bytes) t.(rate_limiter).
Definition with_current (i : Z) (t : Tunn) : Tunn :=
  MkTunn t.(handshake) t.(sessions) i t.(packet_queue) t.(t_timers) t.(tx_bytes) t.(rx_bytes) t.(rate_limiter).
Definition with_packet_queue (q : list bytes) (t : Tunn) : Tunn :=
  MkTunn t.(handshake) t.(sessions) t.(current) q t.(t_timers) t.(tx_bytes) t.(rx_bytes) t.(rate_limiter).
Definition with_t_timers (x : Timers) (t : Tunn) : Tunn :=
  MkTunn t.(handshake) t.(sessions) t.(current) t.(packet_queue) x t.(tx_bytes) t.(rx_bytes) t.(rate_limiter).
Definition with_tx_bytes (n : Z) (t : Tunn) : Tunn :=
  MkTunn t.(handshake) t.(sessions) t.(current) t.(packet_queue) t.(t_timers) n t.(rx_bytes) t.(rate_limiter).
Definition with_rx_bytes (n : Z) (t : Tunn) : Tunn :=
  MkTunn t.(handshake) t.(sessions) t.(current) t.(packet_queue) t.(t_timers) t.(tx_bytes) n t.(rate_limiter).
Definition with_rate_limiter (l : nat) (t : Tunn) : Tunn :=
  MkTunn t.(handshake) t.(sessions) t.(current) t.(packet_queue) t.(t_timers) t.(tx_bytes) t.(rx_bytes) l.

Definition with_w_env (e : env) (w : world) : world := MkWorld e w.(w_limiters).

(** ** Access to the parts *)

Abbreviation TM := (M WireGuardError (Tunn * world)).

Definition t_gets {A} (f : Tunn → A) : TM A := gets (λ s, f s.1).
Definition t_modify (f : Tunn → Tunn) : TM () := modify (λ s, (f s.1, s.2)).
Definition t_tick (name : TimerName) : TM () :=
  t_modify (λ t, with_t_timers (timer_tick name t.(t_timers)) t).
Definition t_io {A} (m : M WireGuardError env A) : TM A :=
  zoom (λ s, s.2.(w_env)) (λ e s, (s.1, with_w_env e s.2)) m.

Definition on_handshake {A} (m : HM A) : TM A :=
  zoom (λ s, (s.1.(handshake), s.2.(w_env)))
    (λ x s, (with_handshake x.1 s.1, with_w_env x.2 s.2)) m.

(** The session in a slot of the ring. *)
Definition session_at (i : nat) (t : Tunn) : option Session :=
  match t.(sessions) !! i with Some s => s | None => None end.

(** Call a method of the session in a slot, which is there. *)
Definition on_session {A} (i : nat) (m : M WireGuardError Session A) : TM A := λ s,
  match session_at i s.1 with
  | None => Panic
  | Some session =>
    match m session with
    | Ret (r, session') => Ret (r, (with_sessions (<[i := Some session']> s.1.(sessions)) s.1, s.2))
    | Panic => Panic
    end
  end.

(** Call a method of the limiter at a location of the store. *)
Definition on_limiter {E A} (l : nat) (m : M E (RateLimiter * env) A) : M E (Tunn * world) A := λ s,
  match s.2.(w_limiters) !! l with
  | None => Panic
  | Some rl =>
    match m (rl, s.2.(w_env)) with
    | Ret (r, (rl', e')) => Ret (r, (s.1, MkWorld e' (<[l := rl']> s.2.(w_limiters))))
    | Panic => Panic
    end
  end.

(** A [Result] of a method of the tunnel, as the [TunnResult] it returns. *)
Definition tunn_result (r : result WireGuardError TunnResult) : TunnResult :=
  match r with Ok r => r | Err e => TErr e end.

(** ** Single-precision numbers: IEEE 754 with 24 bits of precision and the
    exponents of [f32]; integers are rounded to nearest, ties to even. *)

Definition f32 : Type := SpecFloat.spec_float.
Definition f32_of (z : Z) : f32 := SpecFloat.binary_normalize 24 128 z 0 false.
Definition f32_add : f32 → f32 → f32 := SpecFloat.SFadd 24 128.
Definition f32_sub : f32 → f32 → f32 := SpecFloat.SFsub 24 128.
Definition f32_mul : f32 → f32 → f32 := SpecFloat.SFmul 24 128.
Definition f32_div : f32 → f32 → f32 := SpecFloat.SFdiv 24 128.
Definition f32_eqb : f32 → f32 → bool := SpecFloat.SFeqb.

(** ** Operations *)

(** [Timers::clear]: every timer is set to the current time. *)
Definition timers_clear : TM () :=
  now ← t_io Instant_now;
  t_modify (λ t,
    let x := t.(t_timers) in
    let d := duration_since now x.(time_started) in
    with_t_timers (with_want false false (with_timers ((λ _, d) <$> x.(timers)) x)) t).

Definition queue_packet (packet : bytes) (t : Tunn) : Tunn :=
  if (length t.(packet_queue) <? MAX_QUEUE_DEPTH)%nat
  then with_packet_queue (t.(packet_queue) ++ [packet]) t
  else t.

Definition requeue_packet (packet : bytes) (t : Tunn) : Tunn :=
  if (length t.(packet_queue) <? MAX_QUEUE_DEPTH)%nat
  then with_packet_queue (packet :: t.(packet_queue)) t
  else t.

Definition dequeue_packet : TM (option bytes) :=
  queue ← t_gets packet_queue;
  match queue with
  | [] => mret None
  | packet :: rest => _ ← t_modify (with_packet_queue rest); mret (Some packet)
  end.

Definition set_current_session (new_idx : Z) (t : Tunn) : Tunn :=
  let cur_idx := t.(current) in
  if cur_idx =? new_idx then t
  else
    let timer_of idx := match t.(t_timers).(session_timers) !! slot idx with Some d => d | None => 0 end in
    if match session_at (slot cur_idx) t with None => true | Some _ => false end
       || (timer_of cur_idx <=? timer_of new_idx)
    then with_current new_idx t
    else t.

(** The length an IP header of the given version claims, and the source. *)
Definition ip_header (version : Z) (packet : bytes) : option (Z * IpAddr) :=
  if (version =? 4) && (IPV4_MIN_HEADER_SIZE <=? length packet)%nat then
    Some (from_be_bytes (slice IPV4_LEN_OFF (IPV4_LEN_OFF + IP_LEN_SZ) packet),
          V4 (slice IPV4_SRC_IP_OFF (IPV4_SRC_IP_OFF + IPV4_IP_SZ) packet))
  else if (version =? 6) && (IPV6_MIN_HEADER_SIZE <=? length packet)%nat then
    Some (from_be_bytes (slice IPV6_LEN_OFF (IPV6_LEN_OFF + IP_LEN_SZ) packet)
            + Z.of_nat IPV6_MIN_HEADER_SIZE,
          V6 (slice IPV6_SRC_IP_OFF (IPV6_SRC_IP_OFF + IPV6_IP_SZ) packet))
  else None.

(** Truncate an IP packet to the length of its header and find its source. *)
Definition validate_decapsulated_packet (packet : bytes) : TM TunnResult :=
  match ip_version packet with
  | None => mret TDone
  | Some version =>
    match ip_header version packet with
    | None => mret (TErr InvalidPacket)
    | Some (computed_len, src_ip_address) =>
      if Z.of_nat (length packet) <? computed_len then mret (TErr InvalidPacket)
      else
        _ ← t_tick TimeLastDataPacketReceived;
        _ ← t_modify (λ t, with_rx_bytes (wrap 64 (t.(rx_bytes) + computed_len)) t);
        mret
          (match src_ip_address with
           | V4 addr => WriteToTunnelV4 (take (Z.to_nat computed_len) packet) addr
           | V6 addr => WriteToTunnelV6 (take (Z.to_nat computed_len) packet) addr
           end)
    end
  end.

Definition is_connection_expired (t : Tunn) : bool := is_expired t.(handshake).

Section Operations.
Context `{Crypto}.

(** A new limiter at a location that is not in use. *)
Definition new_limiter {E} (public_key : bytes) : M E world nat := λ w,
  match @RateLimiter_new _ E public_key PEER_HANDSHAKE_RATE_LIMIT w.(w_env) with
  | Ret (Ok rl, e') =>
    let l := fresh (dom w.(w_limiters)) in
    Ret (Ok l, MkWorld e' (<[l := rl]> w.(w_limiters)))
  | Ret (Err x, e') => Ret (Err x, with_w_env e' w)
  | Panic => Panic
  end.

Definition Tunn_new {E} (static_private peer_static_public : bytes) (preshared_key : option bytes)
    (persistent_keepalive : option Z) (index : Z) (rate_limiter : option nat) : M E world Tunn :=
  let static_public := x25519_public static_private in
  h ← zoom w_env with_w_env
    (Handshake_new static_private static_public peer_static_public (wrap 32 (Z.shiftl index 8))
       preshared_key);
  x ← zoom w_env with_w_env
    (Timers_new persistent_keepalive (match rate_limiter with None => true | Some _ => false end));
  l ← match rate_limiter with
      | Some l => mret l
      | None => new_limiter static_public
      end;
  mret {|
    handshake := h;
    sessions := replicate N_SESSIONS None;
    current := 0;
    tx_bytes := 0;
    rx_bytes := 0;
    packet_queue := [];
    t_timers := x;
    rate_limiter := l;
  |}.

Definition tunn_set_static_private (static_private static_public : bytes)
    (rate_limiter : option nat) : TM () :=
  _ ← t_modify (λ t, with_t_timers (with_should_reset_rr
        (match rate_limiter with None => true | Some _ => false end) t.(t_timers)) t);
  l ← match rate_limiter with
      | Some l => mret l
      | None => zoom snd (λ w s, (s.1, w)) (new_limiter static_public)
      end;
  _ ← t_modify (with_rate_limiter l);
  _ ← zoom (λ s, s.1.(handshake)) (λ h s, (with_handshake h s.1, s.2))
        (set_static_private static_private static_public);
  t_modify (λ t, with_sessions ((λ _, None) <$> t.(sessions)) t).

Definition tunn_format_handshake_initiation (dst : bytes) (force_resend : bool) : TM TunnResult :=
  h ← t_gets handshake;
  if is_in_progress h && negb force_resend then mret TDone
  else
    _ ← when (is_expired h) timers_clear;
    let starting_new_handshake := negb (is_in_progress h) in
    r ← attempt (on_handshake (format_handshake_initiation dst));
    match r with
    | Ok packet =>
      _ ← when starting_new_handshake (t_tick TimeLastHandshakeStarted);
      _ ← t_tick TimeLastPacketSent;
      mret (WriteToNetwork packet)
    | Err e => mret (TErr e)
    end.

Definition encapsulate (src dst : bytes) : TM TunnResult :=
  current ← t_gets current;
  session ← t_gets (session_at (slot current));
  match session with
  | Some _ =>
    packet ← on_session (slot current) (format_packet_data src dst);
    _ ← t_tick TimeLastPacketSent;
    _ ← when (negb (bool_decide (src = []))) (t_tick TimeLastDataPacketSent);
    _ ← t_modify (λ t, with_tx_bytes (wrap 64 (t.(tx_bytes) + Z.of_nat (length src))) t);
    mret (WriteToNetwork packet)
  | None =>
    _ ← t_modify (queue_packet src);
    tunn_format_handshake_initiation dst false
  end.

Definition send_queued_packet (dst : bytes) : TM TunnResult :=
  queued ← dequeue_packet;
  match queued with
  | None => mret TDone
  | Some packet =>
    r ← encapsulate packet dst;
    match r with
    | TErr _ => _ ← t_modify (requeue_packet packet); mret TDone
    | r => mret r
    end
  end.

Definition handle_handshake_init (p : HandshakeInit) (dst : bytes) : TM TunnResult :=
  res ← on_handshake (receive_handshake_initialization p dst);
  let '(packet, session) := res in
  let index := local_index session in
  _ ← t_modify (λ t, with_sessions (<[slot index := Some session]> t.(sessions)) t);
  _ ← t_tick TimeLastPacketReceived;
  _ ← t_tick TimeLastPacketSent;
  _ ← t_modify (λ t, with_t_timers (timer_tick_session_established false index t.(t_timers)) t);
  mret (WriteToNetwork packet).

Definition handle_handshake_response (p : HandshakeResponse) (dst : bytes) : TM TunnResult :=
  session ← on_handshake (receive_handshake_response p);
  res ← on_local session (format_packet_data [] dst);
  let '(keepalive_packet, session) := res in
  let l_idx := local_index session in
  let index := l_idx mod Z.of_nat N_SESSIONS in
  _ ← t_modify (λ t, with_sessions (<[Z.to_nat index := Some session]> t.(sessions)) t);
  _ ← t_tick TimeLastPacketReceived;
  _ ← t_modify (λ t, with_t_timers (timer_tick_session_established true index t.(t_timers)) t);
  _ ← t_modify (set_current_session l_idx);
  mret (WriteToNetwork keepalive_packet).

Definition handle_cookie_reply (p : PacketCookieReply) : TM TunnResult :=
  _ ← on_handshake (receive_cookie_reply p);
  _ ← t_tick TimeLastPacketReceived;
  _ ← t_tick TimeCookieReceived;
  mret TDone.

Definition handle_data (packet : PacketData) (dst : bytes) : TM TunnResult :=
  let r_idx := packet.(pd_receiver_idx) in
  let idx := slot r_idx in
  session ← t_gets (session_at idx);
  match session with
  | None => throw NoCurrentSession
  | Some _ =>
    decapsulated_packet ← on_session idx (receive_packet_data packet dst);
    _ ← t_modify (set_current_session r_idx);
    _ ← t_tick TimeLastPacketReceived;
    validate_decapsulated_packet decapsulated_packet
  end.

Definition handle_verified_packet (packet : Packet) (dst : bytes) : TM TunnResult :=
  r ← attempt
    (match packet with
     | PHandshakeInit p => handle_handshake_init p dst
     | PHandshakeResponse p => handle_handshake_response p dst
     | PCookieReply p => handle_cookie_reply p
     | PData p => handle_data p dst
     end);
  mret (match r with Ok res => res | Err e => TErr e end).

Definition decapsulate (src_addr : option IpAddr) (datagram dst : bytes) : TM TunnResult :=
  if bool_decide (datagram = []) then send_queued_packet dst
  else
    l ← t_gets rate_limiter;
    r ← attempt (on_limiter l (verify_packet src_addr datagram (zeros COOKIE_REPLY_SZ)));
    match r with
    | Ok packet => handle_verified_packet packet dst
    | Err (WriteToNetwork cookie) =>
      _ ← assert_ (length cookie <=? length dst)%nat;
      mret (WriteToNetwork (take (length cookie) (copy_at 0 cookie dst)))
    | Err (TErr e) => mret (TErr e)
    | Err _ => panic
    end.

(** ** Timers of the tunnel (noise/timers.rs, lines 115-340) *)

Definition clear_all : TM () :=
  _ ← t_modify (λ t, with_sessions ((λ _, None) <$> t.(sessions)) t);
  _ ← t_modify (with_packet_queue []);
  timers_clear.

(** [time_now.checked_sub(t).unwrap()] *)
Definition since (time_now t : Duration) : TM Duration := unwrap (checked_sub time_now t).

Definition update_session_timers (time_now : Duration) : TM () :=
  for_each (seq 0 N_SESSIONS) (λ i,
    t ← t_gets (λ t, match t.(t_timers).(session_timers) !! i with Some d => d | None => 0 end);
    age ← since time_now t;
    when (REJECT_AFTER_TIME <? age)
      (t_modify (λ t,
         with_t_timers (with_session_timers (<[i := time_now]> t.(t_timers).(session_timers)) t.(t_timers))
           (with_sessions (<[i := None]> t.(sessions)) t)))).

(** [mem::replace(&mut self.timers.want_handshake, false)] and the like. *)
Definition take_want_handshake : TM bool :=
  b ← t_gets (λ t, t.(t_timers).(want_handshake));
  _ ← t_modify (λ t, with_t_timers (with_want t.(t_timers).(want_keepalive) false t.(t_timers)) t);
  mret b.
Definition take_want_keepalive : TM bool :=
  b ← t_gets (λ t, t.(t_timers).(want_keepalive));
  _ ← t_modify (λ t, with_t_timers (with_want false t.(t_timers).(want_handshake) t.(t_timers)) t);
  mret b.

(** [a && b] where [b] has effects. *)
Definition and_then (a : bool) (b : TM bool) : TM bool := if a then b else mret false.

(** What [update_timers] finds to be required: to send a handshake
    initiation, to send a keepalive. *)
Definition required_with_timer (now : Duration) (time_init_sent : Instant) :
    TM (result () (bool * bool)) :=
  handshake_started ← t_gets (λ t, timer_get TimeLastHandshakeStarted t.(t_timers));
  age ← since now handshake_started;
  if REKEY_ATTEMPT_TIME <=? age then
    _ ← t_modify (λ t, with_handshake (set_expired t.(handshake)) t);
    _ ← clear_all;
    mret (Err ())
  else
    waited ← t_io (elapsed time_init_sent);
    mret (Ok (REKEY_TIMEOUT <=? waited, false)).

Definition required_without_timer (now : Duration) : TM (bool * bool) :=
  x ← t_gets t_timers;
  let session_established := timer_get TimeSessionEstablished x in
  let aut_packet_received := timer_get TimeLastPacketReceived x in
  let aut_packet_sent := timer_get TimeLastPacketSent x in
  let data_packet_received := timer_get TimeLastDataPacketReceived x in
  let data_packet_sent := timer_get TimeLastDataPacketSent x in
  let persistent_keepalive := x.(persistent_keepalive_secs) in
  rekey_on_send ← and_then (x.(is_initiator) && (session_established <? data_packet_sent))
    (age ← since now session_established; mret (REKEY_AFTER_TIME <=? age));
  rekey_on_receive ← and_then (x.(is_initiator) && (session_established <? data_packet_received))
    (age ← since now session_established;
     bound ← unwrap (checked_sub REJECT_AFTER_TIME KEEPALIVE_TIMEOUT);
     mret (bound - REKEY_TIMEOUT <=? age));
  silent ← and_then (aut_packet_received <? data_packet_sent)
    (age ← since now aut_packet_received;
     and_then (KEEPALIVE_TIMEOUT + REKEY_TIMEOUT <=? age) take_want_handshake);
  let handshake_required := rekey_on_send || rekey_on_receive || silent in
  if handshake_required then mret (true, false)
  else
    passive ← and_then (aut_packet_sent <? data_packet_received)
      (age ← since now aut_packet_sent;
       and_then (KEEPALIVE_TIMEOUT <=? age) take_want_keepalive);
    persistent ← and_then (0 <? persistent_keepalive)
      (last ← t_gets (λ t, timer_get TimePersistentKeepalive t.(t_timers));
       age ← since now last;
       if from_secs persistent_keepalive <=? age
       then _ ← t_tick TimePersistentKeepalive; mret true
       else mret false);
    mret (false, passive || persistent).

(** [update_timers] after the timers are up to date (lines 189-316). *)
Definition act_on_timers (now : Duration) (dst : bytes) : TM TunnResult :=
  session_established ← t_gets (λ t, timer_get TimeSessionEstablished t.(t_timers));
  h ← t_gets handshake;
  if is_expired h then mret (TErr ConnectionExpired)
  else
    cookie_expired ← and_then (has_cookie h)
      (received ← t_gets (λ t, timer_get TimeCookieReceived t.(t_timers));
       age ← since now received;
       mret (COOKIE_EXPIRATION_TIME <=? age));
    _ ← when cookie_expired (t_modify (λ t, with_handshake (clear_cookie t.(handshake)) t));
    age ← since now session_established;
    if REJECT_AFTER_TIME * 3 <=? age then
      _ ← t_modify (λ t, with_handshake (set_expired t.(handshake)) t);
      _ ← clear_all;
      mret (TErr ConnectionExpired)
    else
      init_timer ← t_gets (λ t, timer t.(handshake));
      required ←
        match init_timer with
        | Some time_init_sent => required_with_timer now time_init_sent
        | None => r ← required_without_timer now; mret (Ok r)
        end;
      match required with
      | Err () => mret (TErr ConnectionExpired)
      | Ok (handshake_required, keepalive_required) =>
        if handshake_required : bool then tunn_format_handshake_initiation dst true
        else if keepalive_required : bool then encapsulate [] dst
        else mret TDone
      end.

Definition update_timers (dst : bytes) : TM TunnResult :=
  time ← t_io Instant_now;
  reset_rr ← t_gets (λ t, t.(t_timers).(should_reset_rr));
  l ← t_gets rate_limiter;
  _ ← when reset_rr (on_limiter l reset_count);
  started ← t_gets (λ t, t.(t_timers).(time_started));
  let now := duration_since time started in
  _ ← t_modify (λ t, with_t_timers (timer_set TimeCurrent now t.(t_timers)) t);
  _ ← update_session_timers now;
  act_on_timers now dst.

Definition time_since_last_handshake : TM (option Duration) :=
  session ← t_gets (λ t, session_at (slot t.(current)) t);
  match session with
  | None => mret None
  | Some _ =>
    now ← t_io Instant_now;
    x ← t_gets t_timers;
    d ← since (duration_since now x.(time_started)) (timer_get TimeSessionEstablished x);
    mret (Some d)
  end.

Definition persistent_keepalive (t : Tunn) : option Z :=
  let keepalive := t.(t_timers).(persistent_keepalive_secs) in
  if 0 <? keepalive then Some keepalive else None.

Definition last_handshake_time : TM (option Duration) :=
  now ← t_io SystemTime_since_epoch;
  match now with
  | None => mret None
  | Some now =>
    since_handshake ← time_since_last_handshake;
    mret (match since_handshake with Some d => checked_sub now d | None => None end)
  end.

(** The weighted average of the losses of the sessions, the latest first. *)
Definition estimate_loss (t : Tunn) : f32 :=
  let '(_, cur_avg, total_weight) :=
    fold_left (λ '(weight, cur_avg, total_weight) i,
        match session_at (slot (wrap 64 (t.(current) - Z.of_nat i))) t with
        | Some session =>
          let '(expected, received) := current_packet_cnt session in
          let loss := if expected =? 0 then f32_of 0
                      else f32_sub (f32_of 1) (f32_div (f32_of received) (f32_of expected)) in
          (f32_div weight (f32_of 3), f32_add cur_avg (f32_mul loss weight), f32_add total_weight weight)
        | None => (weight, cur_avg, total_weight)
        end)
      (seq 0 N_SESSIONS) (f32_of 9, f32_of 0, f32_of 0) in
  if f32_eqb total_weight (f32_of 0) then f32_of 0 else f32_div cur_avg total_weight.

Definition stats : TM (option Duration * Z * Z * f32 * option Z) :=
  time ← time_since_last_handshake;
  tx ← t_gets tx_bytes;
  rx ← t_gets rx_bytes;
  loss ← t_gets estimate_loss;
  rtt ← t_gets (λ t, t.(handshake).(last_rtt));
  mret (time, tx, rx, loss, rtt).
End Operations.

(** ** Invariant *)

(** The time since the tunnel started that the next reading will give. *)
Definition now_of (e : env) (x : Timers) : Duration :=
  duration_since (e.(e_clock) e.(e_tick)) x.(time_started).

(** No timer is ahead of the clock. *)
Record timers_ok (e : env) (x : Timers) : Prop := {
  tk_started : timespec_ok x.(time_started);
  tk_len : length x.(timers) = timer_index Top;
  tk_slen : length x.(session_timers) = N_SESSIONS;
  tk_timers : Forall (λ d, 0 ≤ d ≤ now_of e x) x.(timers);
  tk_sessions : Forall (λ d, 0 ≤ d ≤ now_of e x) x.(session_timers);
}.

(** A session sits in the slot of its index, which is one of the peer's. *)
Definition ring_ok (g : Z) (l : list (option Session)) : Prop :=
  length l = N_SESSIONS ∧
  ∀ i s, l !! i = Some (Some s) →
    session_wf s ∧ slot s.(receiving_index) = i ∧ s.(receiving_index) / 256 = g.

Section Invariant.
Context `{CryptoLaws} (buf : nat).

(** The invariant of a tunnel of the peer with index [g], whose packets fit
    into buffers of [buf] bytes. *)
Record tunn_inv (g : Z) (s : Tunn * world) : Prop := {
  ti_handshake : handshake_inv g s.1.(handshake);
  ti_clock : clock_ok s.2.(w_env);
  ti_stamper : stamper_ok s.1.(handshake).(stamper) s.2.(w_env);
  ti_ring : ring_ok g s.1.(sessions);
  ti_queue : (length s.1.(packet_queue) ≤ MAX_QUEUE_DEPTH)%nat;
  ti_fits : Forall (λ p, length p + DATA_OVERHEAD_SZ ≤ buf)%nat s.1.(packet_queue);
  ti_timers : timers_ok s.2.(w_env) s.1.(t_timers);
  ti_limiter : is_Some (s.2.(w_limiters) !! s.1.(rate_limiter));
}.

Lemma now_of_le e e' x :
  clock_ok e → env_le e e' → timespec_ok x.(time_started) → now_of e x ≤ now_of e' x.
Proof.
  intros Hc [Hclk _ _ Ht _] Hs. unfold now_of. rewrite Hclk.
  rewrite !duration_since_ns by (done || apply Hc). pose proof (clock_mono _ Hc _ _ Ht). lia.
Qed.

Lemma now_of_nonneg e x : clock_ok e → timespec_ok x.(time_started) → 0 ≤ now_of e x.
Proof. intros [Hc _] Hs. unfold now_of. rewrite duration_since_ns by done. lia. Qed.

Lemma timers_ok_le e e' x : clock_ok e → env_le e e' → timers_ok e x → timers_ok e' x.
Proof.
  intros Hc Hle [Hs Hl Hsl Ht Hst]. pose proof (now_of_le e e' x Hc Hle Hs).
  split; [done..| |]; (eapply Forall_impl; [eassumption|]); cbn; intros; lia.
Qed.

Lemma timer_get_ok e x name : clock_ok e → timers_ok e x → 0 ≤ timer_get name x ≤ now_of e x.
Proof.
  intros Hc [Hs _ _ Ht _]. unfold timer_get. destruct (_ !! _) as [d|] eqn:Hd.
  - by eapply Forall_lookup in Ht.
  - pose proof (now_of_nonneg e x Hc Hs). lia.
Qed.

Lemma timer_set_ok e x name d : timers_ok e x → 0 ≤ d ≤ now_of e x → timers_ok e (timer_set name d x).
Proof.
  intros [Hs Hl Hsl Ht Hst] Hd. split; [done|by rewrite <-Hl; apply length_insert|done| |done].
  by apply Forall_insert.
Qed.

Lemma timer_tick_ok e x name : clock_ok e → timers_ok e x → timers_ok e (timer_tick name x).
Proof.
  intros Hc Hx. unfold timer_tick. set (x' := match name with TimeLastPacketReceived => _ | _ => _ end).
  assert (Hx' : timers_ok e x') by (by destruct Hx, name).
  apply timer_set_ok; [done|]. by apply timer_get_ok.
Qed.

Lemma established_ok e x b idx :
  clock_ok e → timers_ok e x → timers_ok e (timer_tick_session_established b idx x).
Proof.
  intros Hc Hx. pose proof (timer_tick_ok e x TimeSessionEstablished Hc Hx) as Ht.
  pose proof (timer_get_ok e _ TimeCurrent Hc Ht) as Hg. destruct Ht as [Hs Hl Hsl Ht Hst].
  split; [done|done|by rewrite <-Hsl; apply length_insert|done|]. by apply Forall_insert.
Qed.

Lemma slot_lt idx : (slot idx < N_SESSIONS)%nat.
Proof. unfold slot, N_SESSIONS. dlia. Qed.

Lemma ring_set g l s :
  ring_ok g l → session_wf s → s.(receiving_index) / 256 = g →
  ring_ok g (<[slot s.(receiving_index) := Some s]> l).
Proof.
  intros [Hl Hr] Hwf Hg. split; [by rewrite length_insert|]. intros i s'.
  rewrite list_lookup_insert_Some. intros [(<- & [= <-] & _)|[_ ?]]; [done|by apply Hr].
Qed.

Lemma ring_clear g l : ring_ok g l → ring_ok g ((λ _, None) <$> l).
Proof.
  intros [Hl _]. split; [by rewrite length_fmap|]. intros i s.
  rewrite list_lookup_fmap. by destruct (l !! i).
Qed.

Lemma ring_drop g l i : ring_ok g l → ring_ok g (<[i := None]> l).
Proof.
  intros [Hl Hr]. split; [by rewrite length_insert|]. intros j s.
  rewrite list_lookup_insert_Some. intros [(_ & ? & _)|[_ ?]]; [done|by apply Hr].
Qed.

Lemma session_at_ok g t w i s :
  tunn_inv g (t, w) → session_at i t = Some s →
  t.(sessions) !! i = Some (Some s) ∧ session_wf s ∧ slot s.(receiving_index) = i ∧
  s.(receiving_index) / 256 = g.
Proof.
  intros [_ _ _ [_ Hr] _ _ _ _] Hs. unfold session_at in Hs.
  destruct (_ !! i) as [o|] eqn:Ho; [|done]. subst o. split; [done|]. by apply Hr.
Qed.

Lemma inv_timers g t w x :
  tunn_inv g (t, w) → timers_ok w.(w_env) x → tunn_inv g (with_t_timers x t, w).
Proof. intros [] ?. by split. Qed.

Lemma inv_ring g t w l : tunn_inv g (t, w) → ring_ok g l → tunn_inv g (with_sessions l t, w).
Proof. intros [] ?. by split. Qed.

Lemma inv_queue g t w q :
  tunn_inv g (t, w) → (length q ≤ MAX_QUEUE_DEPTH)%nat →
  Forall (λ p, length p + DATA_OVERHEAD_SZ ≤ buf)%nat q → tunn_inv g (with_packet_queue q t, w).
Proof. intros [] ? ?. by split. Qed.

Lemma inv_env g t w e' :
  tunn_inv g (t, w) → env_le w.(w_env) e' → tunn_inv g (t, with_w_env e' w).
Proof.
  intros [Hh Hc Hs Hr Hq Hf Ht Hl] Hle. split; cbn in *; try done.
  - by eapply clock_ok_le.
  - by eapply stamper_ok_le.
  - by eapply timers_ok_le.
Qed.

Lemma inv_handshake g t w h' e' :
  tunn_inv g (t, w) → keeps g (t.(handshake), w.(w_env)) (h', e') →
  tunn_inv g (with_handshake h' t, with_w_env e' w).
Proof.
  intros Hinv (Hh & Hev & Hle). apply (inv_env g t w e') in Hinv as [_ Hc Hs Hr Hq Hf Ht Hl]; [|done].
  split; cbn in *; try done. by rewrite (ev_stamper _ _ Hev).
Qed.

Lemma inv_limiter g t w l rl e' :
  tunn_inv g (t, w) → env_le w.(w_env) e' → tunn_inv g (t, MkWorld e' (<[l := rl]> w.(w_limiters))).
Proof.
  intros Hinv Hle. apply (inv_env g t w e') in Hinv as [Hh Hc Hs Hr Hq Hf Ht Hl]; [|done].
  split; cbn in *; try done. destruct (decide (l = t.(rate_limiter))) as [->|].
  - rewrite lookup_insert_eq. eauto.
  - by rewrite lookup_insert_ne.
Qed.

Lemma wp_t_modify g f (Q : result WireGuardError () → Tunn * world → Prop) t w :
  tunn_inv g (f t, w) → (tunn_inv g (f t, w) → Q (Ok ()) (f t, w)) → wp (t_modify f) Q (t, w).
Proof. intros Hf HQ. unfold wp, t_modify, modify. cbn. auto. Qed.

Lemma wp_t_tick g name (Q : result WireGuardError () → Tunn * world → Prop) t w :
  tunn_inv g (t, w) →
  (∀ t', tunn_inv g (t', w) → t' = with_t_timers (timer_tick name t.(t_timers)) t → Q (Ok ()) (t', w)) →
  wp (t_tick name) Q (t, w).
Proof.
  intros Hinv HQ. unfold wp, t_tick, t_modify, modify. cbn. apply HQ; [|done].
  apply inv_timers; [done|]. destruct Hinv. by apply timer_tick_ok.
Qed.

Lemma wp_on_handshake {A} g (m : HM A) (P : result WireGuardError A → Handshake → Prop) Q t w :
  tunn_inv g (t, w) →
  wp m (λ r s', keeps g (t.(handshake), w.(w_env)) s' ∧ P r s'.1) (t.(handshake), w.(w_env)) →
  (∀ r h' e', P r h' → tunn_inv g (with_handshake h' t, with_w_env e' w) →
     Q r (with_handshake h' t, with_w_env e' w)) →
  wp (on_handshake m) Q (t, w).
Proof.
  intros Hinv Hm HQ. unfold on_handshake. apply wp_zoom. eapply wp_mono; [exact Hm|].
  intros r [h' e'] [Hk HP]. cbn. apply HQ; [done|]. by apply inv_handshake.
Qed.

(** A method of a session that keeps its ends. *)
Lemma wp_on_session {A} g i (m : M WireGuardError Session A) (P : result WireGuardError A → Session → Prop) Q t w s :
  tunn_inv g (t, w) → session_at i t = Some s →
  wp m (λ r s', same_ends s s' ∧ P r s') s →
  (∀ r s', P r s' → same_ends s s' → let t' := with_sessions (<[i := Some s']> t.(sessions)) t in
     tunn_inv g (t', w) → Q r (t', w)) →
  wp (on_session i m) Q (t, w).
Proof.
  intros Hinv Hs Hm HQ. destruct (session_at_ok _ _ _ _ _ Hinv Hs) as (_ & Hwf & Hslot & Hg).
  unfold wp, on_session. cbn [fst snd]. rewrite Hs. unfold wp in Hm.
  destruct (m s) as [[r s']|]; [|done]. destruct Hm as [Hends HP]. apply HQ; [done|done|].
  destruct Hends as (Hwf' & Hidx & _). apply inv_ring; [done|].
  rewrite <-Hslot, <-Hidx. apply ring_set; [apply Hinv|done|by rewrite Hidx].
Qed.

Lemma wp_timers_clear g (Q : result WireGuardError () → Tunn * world → Prop) t w :
  tunn_inv g (t, w) →
  (∀ x' e', tunn_inv g (with_t_timers x' t, with_w_env e' w) → Q (Ok ()) (with_t_timers x' t, with_w_env e' w)) →
  wp timers_clear Q (t, w).
Proof.
  intros Hinv HQ. unfold timers_clear. apply wp_bind, wp_zoom, wp_Instant_now. intros e' Hle Htick.
  cbn in Hle. apply wp_modify. cbn [fst snd]. apply HQ.
  pose proof (inv_env _ _ _ _ Hinv Hle) as Hinv'. apply inv_timers; [done|].
  destruct Hinv as [_ Hc _ _ _ _ Ht _]. cbn in Hc, Ht.
  pose proof (now_of_le _ _ t.(t_timers) Hc Hle (tk_started _ _ Ht)) as Hnow.
  pose proof (now_of_nonneg _ t.(t_timers) Hc (tk_started _ _ Ht)) as Hpos.
  destruct Hinv' as [_ _ _ _ _ _ [Hs Hl Hsl Ht' Hst] _]. split; cbn in *; [done| |done| |done].
  - by rewrite length_fmap.
  - apply Forall_fmap, Forall_true. intros d. cbn. unfold now_of in *. cbn in *. lia.
Qed.

Lemma inv_current g t w i : tunn_inv g (t, w) → tunn_inv g (with_current i t, w).
Proof. intros []. by split. Qed.

Lemma inv_set_current g t w i : tunn_inv g (t, w) → tunn_inv g (set_current_session i t, w).
Proof.
  intros Hinv. unfold set_current_session. destruct (_ =? _); [done|]. cbn zeta.
  destruct (_ || _); [by apply inv_current|done].
Qed.

Lemma inv_tx g t w n : tunn_inv g (t, w) → tunn_inv g (with_tx_bytes n t, w).
Proof. intros []. by split. Qed.

Lemma inv_rx g t w n : tunn_inv g (t, w) → tunn_inv g (with_rx_bytes n t, w).
Proof. intros []. by split. Qed.

Lemma inv_queue_packet g t w p :
  tunn_inv g (t, w) → (length p + DATA_OVERHEAD_SZ ≤ buf)%nat → tunn_inv g (queue_packet p t, w).
Proof.
  intros Hinv Hp. unfold queue_packet. destruct (Nat.ltb_spec (length t.(packet_queue)) MAX_QUEUE_DEPTH); [|done].
  apply inv_queue; [done|rewrite length_app; cbn; lia|].
  apply Forall_app. split; [apply Hinv|by apply Forall_singleton].
Qed.

Lemma inv_requeue_packet g t w p :
  tunn_inv g (t, w) → (length p + DATA_OVERHEAD_SZ ≤ buf)%nat → tunn_inv g (requeue_packet p t, w).
Proof.
  intros Hinv Hp. unfold requeue_packet. destruct (Nat.ltb_spec (length t.(packet_queue)) MAX_QUEUE_DEPTH); [|done].
  apply inv_queue; [done|cbn; lia|]. apply Forall_cons. split; [done|apply Hinv].
Qed.

(** A method that returns normally and keeps the invariant. *)
Abbreviation safe g m s := (wp m (λ r s', tunn_inv g s' ∧ ∃ res, r = Ok res) s) (only parsing).

Lemma initiation_safe g dst b t w :
  tunn_inv g (t, w) →
  safe g (r ← attempt (on_handshake (format_handshake_initiation dst));
    match r with
    | Ok packet =>
      _ ← when b (t_tick TimeLastHandshakeStarted);
      _ ← t_tick TimeLastPacketSent;
      mret (WriteToNetwork packet)
    | Err e => mret (TErr e)
    end) (t, w).
Proof.
  intros Hinv. apply wp_bind, wp_attempt.
  apply (wp_on_handshake g _ (λ _ _, True)); [done| |].
  { eapply wp_mono; [apply initiate_keeps; apply Hinv|]. by intros r s' [Hk _]. }
  intros [packet|e] h' e' _ Hinv'; [|split; [done|eauto]].
  apply wp_bind, wp_when; intros _.
  - apply (wp_t_tick g); [done|]. intros t1 Hinv1 _. apply wp_bind.
    apply (wp_t_tick g); [done|]. intros t2 Hinv2 _. split; [done|eauto].
  - apply wp_bind. apply (wp_t_tick g); [done|]. intros t2 Hinv2 _. split; [done|eauto].
Qed.

(** With a big enough buffer the initiation is sent, and awaited. *)
Lemma format_initiation_sends g dst t w :
  tunn_inv g (t, w) → is_expired t.(handshake) = false → (HANDSHAKE_INIT_SZ ≤ length dst)%nat →
  ∃ p st t' w', tunn_format_handshake_initiation dst true (t, w) =
      Ret (Ok (WriteToNetwork (sealed t.(handshake) (PHandshakeInit p))), (t', w')) ∧
    packet_wf (PHandshakeInit p) ∧
    t'.(handshake).(state) = InitSent st ∧ st.(his_local_index) = p.(hi_sender_idx).
Proof.
  intros Hinv Hexp Hdst. unfold tunn_format_handshake_initiation. run_ok. cbn [fst].
  rewrite andb_false_r, Hexp. cbn [when]. run_ok. destruct Hinv as [[Hp Hw _ _ _] Hc Hs _ _ _ _ _]. cbn in *.
  eexists _, _. erewrite bind_ok; [|apply attempt_run, zoom_run; apply format_handshake_initiation_eq;
    [done|by apply params_public_length|done|done]].
  cbn beta iota.
  assert (Hpw : ∀ eph ts, length ts = 12%nat → packet_wf (PHandshakeInit (initiation t.(handshake).(params)
    (incremented t.(handshake).(next_index)) eph ts).1)).
  { intros. apply initiation_wf; [done|by apply incremented_width|done]. }
  unfold when. destruct (negb _); run_ok; run_ok; eexists _, _;
    (split; [reflexivity|split; [exact (Hpw _ _ (length_ext_stamp _))|split; [reflexivity|]]];
     by rewrite init_sent_index, initiation_idx).
Qed.

Lemma format_initiation_safe g dst force t w :
  tunn_inv g (t, w) → safe g (tunn_format_handshake_initiation dst force) (t, w).
Proof.
  intros Hinv. unfold tunn_format_handshake_initiation. apply wp_bind, wp_gets. cbn [fst].
  destruct (_ && _); [split; [done|eauto]|]. apply wp_bind, wp_when; intros _.
  - apply (wp_timers_clear g); [done|]. intros x' e' Hinv'. by apply initiation_safe.
  - by apply initiation_safe.
Qed.

Lemma encapsulate_safe g src dst t w :
  tunn_inv g (t, w) → (length src + DATA_OVERHEAD_SZ ≤ length dst)%nat →
  (length src + DATA_OVERHEAD_SZ ≤ buf)%nat →
  safe g (encapsulate src dst) (t, w).
Proof.
  intros Hinv Hlen Hbuf. unfold encapsulate. apply wp_bind, wp_gets, wp_bind, wp_gets. cbn [fst].
  destruct (session_at _ t) as [s|] eqn:Hs.
  - apply wp_bind. destruct (session_at_ok _ _ _ _ _ Hinv Hs) as (_ & Hwf & _).
    eapply (wp_on_session g _ _ (λ r _, r = Ok (encode (data_packet s src) []))); [done|exact Hs| |].
    { eapply wp_mono; [by apply format_packet_data_wp|]. by intros r s' [-> ?]. }
    intros r s' -> Hends t' Hinv'. apply wp_bind. apply (wp_t_tick g); [done|]. intros t1 Hinv1 _.
    apply wp_bind, wp_when; intros _.
    + apply (wp_t_tick g); [done|]. intros t2 Hinv2 _. apply wp_bind.
      apply (wp_t_modify g); [by apply inv_tx|]. intros Hinv3. split; [done|eauto].
    + apply wp_bind. apply (wp_t_modify g); [by apply inv_tx|]. intros Hinv3. split; [done|eauto].
  - apply wp_bind. apply (wp_t_modify g); [by apply inv_queue_packet|]. intros Hinv'.
    by apply format_initiation_safe.
Qed.

Lemma send_queued_safe g dst t w :
  tunn_inv g (t, w) → (buf ≤ length dst)%nat → safe g (send_queued_packet dst) (t, w).
Proof.
  intros Hinv Hbuf. unfold send_queued_packet, dequeue_packet.
  apply wp_bind, wp_bind, wp_gets. cbn [fst]. pose proof (ti_fits _ _ Hinv) as Hf.
  pose proof (ti_queue _ _ Hinv) as Hq. cbn in Hf, Hq.
  destruct t.(packet_queue) as [|p q] eqn:Hpq; [split; [done|eauto]|].
  apply Forall_cons in Hf as [Hp Hf]. apply wp_bind.
  apply (wp_t_modify g); [apply inv_queue; [done|cbn in Hq; lia|done]|]. intros Hinv1.
  apply wp_ret, wp_bind. eapply wp_mono; [apply (encapsulate_safe g); [done|lia|done]|].
  intros r [t2 w2] [Hinv2 [res ->]]. destruct res; try (split; [done|eauto]).
  apply wp_bind. apply (wp_t_modify g); [by apply inv_requeue_packet|]. intros Hinv3. split; [done|eauto].
Qed.

(** ** Handlers *)

Lemma inv_new_session g t w s :
  tunn_inv g (t, w) → session_wf s → s.(receiving_index) / 256 = g →
  tunn_inv g (with_sessions (<[slot s.(receiving_index) := Some s]> t.(sessions)) t, w).
Proof. intros Hinv Hwf Hg. apply inv_ring; [done|]. apply ring_set; [apply Hinv|done|done]. Qed.

Lemma inv_established g t w b idx :
  tunn_inv g (t, w) → tunn_inv g (with_t_timers (timer_tick_session_established b idx t.(t_timers)) t, w).
Proof. intros Hinv. apply inv_timers; [done|]. apply established_ok; apply Hinv. Qed.

Lemma handle_init_keeps g p dst t w :
  tunn_inv g (t, w) → in_width 32 p.(hi_sender_idx) →
  wp (handle_handshake_init p dst) (λ _ s', tunn_inv g s') (t, w).
Proof.
  intros Hinv Hp. unfold handle_handshake_init. apply wp_bind.
  apply (wp_on_handshake g _ (λ r h', match r with
    | Ok (_, s) => ∃ rk sk, s = Session_new h'.(next_index) p.(hi_sender_idx) rk sk
    | Err _ => True end)); [done| |].
  { eapply wp_mono; [apply initialization_keeps, Hinv|].
    intros [[msg s]|err] s' [Hk Hr]; split; [done| |done|done]. by destruct Hr as (_ & _ & ?). }
  intros [[msg s]|err] h' e' Hr Hinv'; [|done]. destruct Hr as (rk & sk & ->).
  pose proof (ti_handshake _ _ Hinv') as [_ Hw Hg _ _]. cbn in Hw, Hg.
  apply wp_bind. apply (wp_t_modify g).
  { apply (inv_new_session g _ _ (Session_new (next_index h') (hi_sender_idx p) rk sk)); [done|by apply session_new_wf|done]. }
  intros Hinv1. apply wp_bind, (wp_t_tick g); [done|]. intros t2 Hinv2 _.
  apply wp_bind, (wp_t_tick g); [done|]. intros t3 Hinv3 _.
  apply wp_bind, (wp_t_modify g); [by apply inv_established|]. intros Hinv4. by apply wp_ret.
Qed.

Lemma handle_response_keeps g p dst t w :
  tunn_inv g (t, w) → in_width 32 p.(hr_sender_idx) → (DATA_OVERHEAD_SZ ≤ length dst)%nat →
  wp (handle_handshake_response p dst) (λ _ s', tunn_inv g s') (t, w).
Proof.
  intros Hinv Hp Hdst. unfold handle_handshake_response. apply wp_bind.
  apply (wp_on_handshake g _ (λ r h', match r with
    | Ok s => session_wf s ∧ s.(receiving_index) / 256 = g
    | Err _ => True end)); [done| |].
  { eapply wp_mono; [apply response_keeps, Hinv|].
    intros [s|err] s' [Hk Hr]; split; [done| |done|done].
    destruct Hr as ((rk & sk & ->) & ? & ? & _). split; [by apply session_new_wf|done]. }
  intros [s|err] h' e' Hr Hinv'; [|done]. destruct Hr as [Hwf Hg]. apply wp_bind.
  eapply wp_intro; [unfold on_local; by rewrite format_packet_data_eq|]. cbn beta iota.
  pose proof (format_packet_data_wp [] dst s Hwf Hdst) as Hw. unfold wp in Hw.
  rewrite format_packet_data_eq in Hw by done. destruct Hw as [_ (Hwf' & Hidx & _)].
  apply wp_bind, (wp_t_modify g).
  { apply (inv_new_session g); [done|done|by rewrite Hidx]. }
  intros Hinv1. apply wp_bind, (wp_t_tick g); [done|]. intros t2 Hinv2 _.
  apply wp_bind, (wp_t_modify g); [by apply inv_established|]. intros Hinv3.
  apply wp_bind, (wp_t_modify g); [by apply inv_set_current|]. intros Hinv4. by apply wp_ret.
Qed.

Lemma handle_cookie_keeps g p t w :
  tunn_inv g (t, w) → wp (handle_cookie_reply p) (λ _ s', tunn_inv g s') (t, w).
Proof.
  intros Hinv. unfold handle_cookie_reply. apply wp_bind.
  apply (wp_on_handshake g _ (λ _ _, True)); [done| |].
  { eapply wp_mono; [apply cookie_reply_keeps, Hinv|]. by intros r s' [? _]. }
  intros [[]|err] h' e' _ Hinv'; [|done]. apply wp_bind, (wp_t_tick g); [done|]. intros t2 Hinv2 _.
  apply wp_bind, (wp_t_tick g); [done|]. intros t3 Hinv3 _. by apply wp_ret.
Qed.

Lemma validate_safe g packet t w : tunn_inv g (t, w) → safe g (validate_decapsulated_packet packet) (t, w).
Proof.
  intros Hinv. unfold validate_decapsulated_packet.
  destruct (ip_version packet) as [v|]; [|split; [done|eauto]].
  destruct (ip_header v packet) as [[len addr]|]; [|split; [done|eauto]].
  destruct (_ <? len); [split; [done|eauto]|]. apply wp_bind, (wp_t_tick g); [done|]. intros t2 Hinv2 _.
  apply wp_bind, (wp_t_modify g); [by apply inv_rx|]. intros Hinv3. split; [done|eauto].
Qed.

Lemma handle_data_keeps g p dst t w :
  tunn_inv g (t, w) → (length p.(pd_encrypted_encapsulated_packet) ≤ length dst)%nat →
  wp (handle_data p dst) (λ _ s', tunn_inv g s') (t, w).
Proof.
  intros Hinv Hlen. unfold handle_data. apply wp_bind, wp_gets. cbn [fst].
  destruct (session_at _ t) as [s|] eqn:Hs; [|done]. apply wp_bind.
  destruct (session_at_ok _ _ _ _ _ Hinv Hs) as (_ & Hwf & _).
  eapply (wp_on_session g _ _ (λ _ _, True)); [done|exact Hs| |].
  { eapply wp_mono; [by apply receive_packet_data_wp|]. by intros r s' [? _]. }
  intros [pt|err] s' _ _ t' Hinv'; [|done].
  apply wp_bind, (wp_t_modify g); [by apply inv_set_current|]. intros Hinv1.
  apply wp_bind, (wp_t_tick g); [done|]. intros t2 Hinv2 _.
  eapply wp_mono; [by apply (validate_safe g)|]. by intros r s'' [? _].
Qed.

Lemma handle_verified_safe g p dst t w :
  tunn_inv g (t, w) → packet_wf p → (DATA_OVERHEAD_SZ ≤ length dst)%nat →
  match p with PData d => (length d.(pd_encrypted_encapsulated_packet) ≤ length dst)%nat | _ => True end →
  safe g (handle_verified_packet p dst) (t, w).
Proof.
  intros Hinv Hwf Hdst Hlen. unfold handle_verified_packet. apply wp_bind, wp_attempt.
  eapply (wp_mono _ (λ (_ : result WireGuardError TunnResult) s', tunn_inv g s')); [|by intros r s' ?; split; [|eauto]].
  destruct p as [p|p|p|p]; cbn in Hwf; destruct_and!.
  - by apply handle_init_keeps.
  - by apply handle_response_keeps.
  - by apply handle_cookie_keeps.
  - by apply handle_data_keeps.
Qed.

Lemma decapsulate_safe g addr datagram dst t w :
  tunn_inv g (t, w) → (buf ≤ length dst)%nat → (length datagram ≤ length dst)%nat →
  (COOKIE_REPLY_SZ ≤ length dst)%nat →
  safe g (decapsulate addr datagram dst) (t, w).
Proof.
  intros Hinv Hbuf Hlen Hck. unfold decapsulate. case_bool_decide; [by apply send_queued_safe|].
  apply wp_bind, wp_gets, wp_bind, wp_attempt. cbn [fst].
  destruct (ti_limiter _ _ Hinv) as [rl Hrl]. cbn in Hrl.
  unfold wp at 1. unfold on_limiter. cbn [fst snd]. rewrite Hrl.
  pose proof (verify_packet_wp addr datagram (zeros COOKIE_REPLY_SZ) rl w.(w_env) ltac:(done)) as Hv.
  unfold wp in Hv. destruct (verify_packet _ _ _ _) as [[r [rl' e']]|]; [|done].
  destruct Hv as (_ & Hle & Hr). cbn in Hle.
  pose proof (inv_limiter g t w t.(rate_limiter) rl' e' Hinv Hle) as Hinv'.
  destruct r as [p|[|err|reply| |]]; try done.
  - destruct (parse_sound _ _ Hr) as (Hwf & macs & Hm & ->).
    apply handle_verified_safe; [done|done|unfold COOKIE_REPLY_SZ, DATA_OVERHEAD_SZ in *; lia|].
    rewrite length_encode in Hlen by done. destruct p; try done. lia.
  - split; [done|eauto].
  - apply wp_bind, wp_assert; [apply Nat.leb_le; lia|]. split; [done|eauto].
Qed.

(** ** Timers *)

(** No timer is after [now]. *)
Definition timers_le (now : Duration) (x : Timers) : Prop :=
  Forall (λ d, d ≤ now) x.(timers) ∧ Forall (λ d, d ≤ now) x.(session_timers) ∧ 0 ≤ now.

Lemma timer_get_le now x name : timers_le now x → timer_get name x ≤ now.
Proof.
  intros (Ht & _ & Hn). unfold timer_get. destruct (_ !! _) eqn:Hd; [|done]. by eapply Forall_lookup in Ht.
Qed.

Lemma timers_le_set now x name d : timers_le now x → d ≤ now → timers_le now (timer_set name d x).
Proof. intros (Ht & Hs & Hn) Hd. split_and!; [by apply Forall_insert|done|done]. Qed.

Lemma wp_since now d (Q : result WireGuardError Duration → Tunn * world → Prop) s :
  d ≤ now → Q (Ok (now - d)) s → wp (since now d) Q s.
Proof.
  intros Hd HQ. unfold since. eapply wp_unwrap; [|exact HQ].
  unfold checked_sub. by rewrite (proj2 (Z.leb_le _ _) Hd).
Qed.

Lemma clear_all_keeps g (Q : result WireGuardError () → Tunn * world → Prop) t w :
  tunn_inv g (t, w) →
  (∀ t' w', tunn_inv g (t', w') → t'.(handshake) = t.(handshake) → t'.(packet_queue) = [] →
     t'.(sessions) = (λ _, None) <$> t.(sessions) → Q (Ok ()) (t', w')) →
  wp clear_all Q (t, w).
Proof.
  intros Hinv HQ. unfold clear_all. apply wp_bind, (wp_t_modify g).
  { apply inv_ring; [done|]. apply ring_clear, Hinv. }
  intros Hinv1. apply wp_bind, (wp_t_modify g).
  { apply inv_queue; [done|cbn; lia|constructor]. }
  intros Hinv2. apply (wp_timers_clear g); [done|]. intros x' e' Hinv3. by apply HQ.
Qed.

Lemma inv_expire g t w : tunn_inv g (t, w) → tunn_inv g (with_handshake (set_expired t.(handshake)) t, w).
Proof. intros [[] ? ? ? ? ? ? ?]. by split. Qed.

Lemma inv_clear_cookie g t w : tunn_inv g (t, w) → tunn_inv g (with_handshake (clear_cookie t.(handshake)) t, w).
Proof. intros [[] ? ? ? ? ? ? ?]. by split. Qed.

Lemma inv_want g t w a b : tunn_inv g (t, w) → tunn_inv g (with_t_timers (with_want a b t.(t_timers)) t, w).
Proof. intros Hinv. apply inv_timers; [done|]. by destruct (ti_timers _ _ Hinv). Qed.

(** One turn of [update_session_timers]. *)
Definition aged (now : Duration) (i : nat) (t : Tunn) : Tunn :=
  let d := match t.(t_timers).(session_timers) !! i with Some d => d | None => 0 end in
  if REJECT_AFTER_TIME <? now - d
  then with_t_timers (with_session_timers (<[i := now]> t.(t_timers).(session_timers)) t.(t_timers))
         (with_sessions (<[i := None]> t.(sessions)) t)
  else t.

Lemma session_timer_le now t i :
  timers_le now t.(t_timers) →
  match t.(t_timers).(session_timers) !! i with Some d => d | None => 0 end ≤ now.
Proof. intros (_ & Hs & Hn). destruct (_ !! i) eqn:Hi; [|done]. by eapply Forall_lookup in Hs. Qed.

Lemma aged_ok g now i t w :
  tunn_inv g (t, w) → timers_le now t.(t_timers) → now ≤ now_of w.(w_env) t.(t_timers) →
  tunn_inv g (aged now i t, w) ∧ timers_le now (aged now i t).(t_timers) ∧
  now ≤ now_of w.(w_env) (aged now i t).(t_timers).
Proof.
  intros Hinv Hle Hnow. unfold aged. destruct (_ <? _); [|done].
  assert (0 ≤ now) by apply Hle.
  split_and!; [|destruct Hle as (? & ? & ?); split_and!; [done|by apply Forall_insert|done]|done].
  apply inv_timers.
  - apply inv_ring; [done|]. apply ring_drop, Hinv.
  - destruct (ti_timers _ _ Hinv) as [? ? ? ? ?]. split; cbn in *; [done|done|by rewrite length_insert|done|].
    apply Forall_insert; [done|]. unfold now_of in *. cbn. lia.
Qed.

Lemma update_session_timers_eq now t w :
  timers_le now t.(t_timers) →
  update_session_timers now (t, w) = Ret (Ok (), (foldl (λ t i, aged now i t) t (seq 0 N_SESSIONS), w)).
Proof.
  unfold update_session_timers. generalize (seq 0 N_SESSIONS). intros slots. revert t.
  induction slots as [|i slots IH]; intros t Hle; cbn [for_each foldl]; [done|].
  assert (Hstep : (t0 ← t_gets (λ t, match t.(t_timers).(session_timers) !! i with Some d => d | None => 0 end);
    age ← since now t0;
    when (REJECT_AFTER_TIME <? age)
      (t_modify (λ t,
         with_t_timers (with_session_timers (<[i := now]> t.(t_timers).(session_timers)) t.(t_timers))
           (with_sessions (<[i := None]> t.(sessions)) t)))) (t, w) = Ret (Ok (), (aged now i t, w))).
  { run_ok. cbn [fst]. pose proof (session_timer_le now t i Hle) as Hd.
    erewrite bind_ok by (unfold since, checked_sub; by rewrite (proj2 (Z.leb_le _ _) Hd)).
    unfold aged. destruct (_ <? _); done. }
  erewrite bind_ok by exact Hstep. apply IH. unfold aged. destruct (_ <? _); [|done].
  destruct Hle as (? & ? & ?). split_and!; [done|by apply Forall_insert|done].
Qed.

Definition aged_all (now : Duration) (t : Tunn) : Tunn :=
  foldl (λ t i, aged now i t) t (seq 0 N_SESSIONS).

Lemma aged_all_ok g now t w :
  tunn_inv g (t, w) → timers_le now t.(t_timers) → now ≤ now_of w.(w_env) t.(t_timers) →
  tunn_inv g (aged_all now t, w) ∧ timers_le now (aged_all now t).(t_timers).
Proof.
  unfold aged_all. generalize (seq 0 N_SESSIONS). intros slots. revert t.
  induction slots as [|i slots IH]; intros t Hinv Hle Hnow; cbn [foldl]; [done|].
  destruct (aged_ok g now i t w Hinv Hle Hnow) as (? & ? & ?). by apply IH.
Qed.

Lemma required_with_timer_keeps g now sent t w :
  tunn_inv g (t, w) → timers_le now t.(t_timers) →
  wp (required_with_timer now sent) (λ r s', tunn_inv g s' ∧ ∃ res, r = Ok res) (t, w).
Proof.
  intros Hinv Hle. unfold required_with_timer. apply wp_bind, wp_gets, wp_bind, wp_since.
  { by apply timer_get_le. }
  destruct (_ <=? _).
  - apply wp_bind, (wp_t_modify g); [by apply inv_expire|]. intros Hinv1. apply wp_bind.
    apply (clear_all_keeps g); [done|]. intros t' w' Hinv2 _ _ _. split; [done|eauto].
  - apply wp_bind. unfold t_io. apply wp_zoom, wp_bind, wp_Instant_now. intros e' Hle' _.
    apply wp_ret. cbn. split; [|eauto]. by apply inv_env.
Qed.

(** A condition that keeps the invariant and the times. *)
Definition test_keeps (g : Z) (m : TM bool) (s : Tunn * world) : Prop :=
  wp m (λ r s', tunn_inv g s' ∧ s'.1.(t_timers).(timers) = s.1.(t_timers).(timers) ∧
    s'.1.(handshake) = s.1.(handshake) ∧ ∃ b : bool, r = Ok b) s.

Lemma ret_keeps g b s : tunn_inv g s → test_keeps g (mret b) s.
Proof. intros Hs. split_and!; [done..|eauto]. Qed.

Lemma and_then_keeps g a m s : tunn_inv g s → (a = true → test_keeps g m s) → test_keeps g (and_then a m) s.
Proof. intros Hs Hm. destruct a; [by apply Hm|by apply ret_keeps]. Qed.

Lemma take_handshake_keeps g s : tunn_inv g s → test_keeps g take_want_handshake s.
Proof. destruct s as [t w]. intros Hinv. split_and!; [by apply inv_want|done|done|]. cbn. eauto. Qed.

Lemma take_keepalive_keeps g s : tunn_inv g s → test_keeps g take_want_keepalive s.
Proof. destruct s as [t w]. intros Hinv. split_and!; [by apply inv_want|done|done|]. cbn. eauto. Qed.

Lemma age_test_keeps g now d (f : Duration → TM bool) s :
  d ≤ now → (∀ age, test_keeps g (f age) s) → test_keeps g (age ← since now d; f age) s.
Proof. intros Hd Hf. apply wp_bind, wp_since; [done|]. apply Hf. Qed.

(** Go on after a test. *)
Lemma wp_test g m (k : bool → TM (bool * bool)) Q s :
  test_keeps g m s →
  (∀ b s', tunn_inv g s' → s'.1.(t_timers).(timers) = s.1.(t_timers).(timers) →
     s'.1.(handshake) = s.1.(handshake) → wp (k b) Q s') →
  wp (m ≫= k) Q s.
Proof.
  intros Hm Hk. apply wp_bind. eapply wp_mono; [exact Hm|].
  intros r s' (Hinv & Ht & Hh & b & ->). by apply Hk.
Qed.

#[local] Hint Resolve ret_keeps and_then_keeps take_handshake_keeps take_keepalive_keeps
  age_test_keeps timer_get_le : core.

Lemma persistent_keeps g now t w k :
  tunn_inv g (t, w) → timer_get TimePersistentKeepalive t.(t_timers) ≤ now →
  wp (last ← t_gets (λ t, timer_get TimePersistentKeepalive t.(t_timers));
      age ← since now last;
      if from_secs k <=? age then _ ← t_tick TimePersistentKeepalive; mret true else mret false)
    (λ r s', tunn_inv g s' ∧ ∃ b : bool, r = Ok b) (t, w).
Proof.
  intros Hinv Hle. apply wp_bind, wp_gets, wp_bind, wp_since; [done|].
  destruct (_ <=? _); [|split; [done|eauto]].
  apply wp_bind, (wp_t_tick g); [done|]. intros t' Hinv' _. split; [done|eauto].
Qed.

Lemma required_without_timer_keeps g now t w :
  tunn_inv g (t, w) → timers_le now t.(t_timers) →
  wp (required_without_timer now) (λ r s', tunn_inv g s' ∧ ∃ res, r = Ok res) (t, w).
Proof.
  intros Hinv Hle. unfold required_without_timer. apply wp_bind, wp_gets. cbn [fst]. cbn zeta.
  apply (wp_test g); [by auto|]. intros b1 s1 Hinv1 Ht1 _.
  apply (wp_test g); [apply and_then_keeps; [done|]; intros _; apply age_test_keeps; [by auto|]; intros age;
    by apply ret_keeps|]. intros b2 s2 Hinv2 Ht2 _.
  apply (wp_test g); [by auto 10|]. intros b3 s3 Hinv3 Ht3 _.
  destruct (_ || _); [split; [done|eauto]|].
  apply (wp_test g); [by auto 10|]. intros b4 [t4 w4] Hinv4 Ht4 _. cbn in Ht4. apply wp_bind. unfold and_then.
  destruct (0 <? _); [|split; [done|eauto]].
  eapply wp_mono; [apply (persistent_keeps g); [done|]|].
  - unfold timer_get. rewrite Ht4, Ht3, Ht2, Ht1. by apply timer_get_le.
  - intros r s' [Hinv' [b ->]]. split; [done|eauto].
Qed.

(** The test for the age of the cookie changes nothing. *)
Definition cookie_is_old (now : Duration) (t : Tunn) : bool :=
  has_cookie t.(handshake) &&
  (COOKIE_EXPIRATION_TIME <=? now - timer_get TimeCookieReceived t.(t_timers)).

Lemma cookie_test_eq now t w :
  timers_le now t.(t_timers) →
  and_then (has_cookie t.(handshake))
    (received ← t_gets (λ t, timer_get TimeCookieReceived t.(t_timers));
     age ← since now received; mret (COOKIE_EXPIRATION_TIME <=? age)) (t, w) =
    Ret (Ok (cookie_is_old now t), (t, w)).
Proof.
  intros Hle. unfold and_then, cookie_is_old. destruct (has_cookie _); [|done].
  run_ok. cbn [fst]. pose proof (timer_get_le now _ TimeCookieReceived Hle) as Hd.
  unfold since, checked_sub. by rewrite (proj2 (Z.leb_le _ _) Hd).
Qed.

(** The tunnel after an old cookie was dropped. *)
Definition without_old_cookie (now : Duration) (t : Tunn) : Tunn :=
  if cookie_is_old now t then with_handshake (clear_cookie t.(handshake)) t else t.

Lemma without_old_cookie_ok g now t w :
  tunn_inv g (t, w) →
  tunn_inv g (without_old_cookie now t, w) ∧ (without_old_cookie now t).(t_timers) = t.(t_timers).
Proof. intros Hinv. unfold without_old_cookie. destruct (cookie_is_old _ _); [|done]. split; [by apply inv_clear_cookie|done]. Qed.

(** What [update_timers] does after the checks for expiry. *)
Definition renew (now : Duration) (dst : bytes) : TM TunnResult :=
  init_timer ← t_gets (λ t, timer t.(handshake));
  required ←
    match init_timer with
    | Some time_init_sent => required_with_timer now time_init_sent
    | None => r ← required_without_timer now; mret (Ok r)
    end;
  match required with
  | Err () => mret (TErr ConnectionExpired)
  | Ok (handshake_required, keepalive_required) =>
    if handshake_required : bool then tunn_format_handshake_initiation dst true
    else if keepalive_required : bool then encapsulate [] dst
    else mret TDone
  end.

(** [act_on_timers] without the plumbing. *)
Lemma act_on_timers_eq now dst t w :
  timers_le now t.(t_timers) →
  act_on_timers now dst (t, w) =
    if is_expired t.(handshake) then Ret (Ok (TErr ConnectionExpired), (t, w))
    else
      let t1 := without_old_cookie now t in
      if REJECT_AFTER_TIME * 3 <=? now - timer_get TimeSessionEstablished t.(t_timers) then
        (_ ← clear_all; mret (TErr ConnectionExpired))
          (with_handshake (set_expired t1.(handshake)) t1, w)
      else renew now dst (t1, w).
Proof.
  intros Hle. unfold act_on_timers. run_ok. run_ok. cbn [fst].
  destruct (is_expired _); [done|]. erewrite bind_ok by (by apply cookie_test_eq).
  erewrite bind_ok by (unfold when; instantiate (2 := ()); instantiate (1 := (without_old_cookie now t, w));
    unfold without_old_cookie; by destruct (cookie_is_old now t)).
  pose proof (timer_get_le now _ TimeSessionEstablished Hle) as Hd.
  erewrite bind_ok by (unfold since, checked_sub; by rewrite (proj2 (Z.leb_le _ _) Hd)).
  cbn zeta. destruct (_ <=? _); done.
Qed.

Lemma renew_safe g now dst t w :
  tunn_inv g (t, w) → timers_le now t.(t_timers) →
  (DATA_OVERHEAD_SZ ≤ length dst)%nat → (DATA_OVERHEAD_SZ ≤ buf)%nat →
  safe g (renew now dst) (t, w).
Proof.
  intros Hinv Hle Hdst Hbuf. unfold renew. apply wp_bind, wp_gets, wp_bind. cbn [fst].
  eapply (wp_mono _ (λ r s', tunn_inv g s' ∧ ∃ res, r = Ok res)).
  - destruct (timer _); [by apply required_with_timer_keeps|].
    apply wp_bind. eapply wp_mono; [by apply required_without_timer_keeps|].
    intros r s' [Hinv' [res ->]]. split; [done|eauto].
  - intros r [t' w'] [Hinv' [res ->]]. destruct res as [[hs ka]|[]]; [|split; [done|eauto]].
    destruct hs; [by apply format_initiation_safe|].
    destruct ka; [|split; [done|eauto]]. by apply encapsulate_safe.
Qed.

Lemma act_on_timers_safe g now dst t w :
  tunn_inv g (t, w) → timers_le now t.(t_timers) →
  (DATA_OVERHEAD_SZ ≤ length dst)%nat → (DATA_OVERHEAD_SZ ≤ buf)%nat →
  safe g (act_on_timers now dst) (t, w).
Proof.
  intros Hinv Hle Hdst Hbuf. unfold wp. rewrite act_on_timers_eq by done.
  destruct (is_expired _); [split; [done|eauto]|]. cbn zeta.
  destruct (without_old_cookie_ok g now t w Hinv) as [Hinv1 Ht1].
  destruct (_ <=? _).
  - apply wp_bind, (clear_all_keeps g); [by apply inv_expire|].
    intros t' w' Hinv' _ _ _. split; [done|eauto].
  - apply renew_safe; [done|by rewrite Ht1|done|done].
Qed.

(** The tunnel once [update_timers] has brought the times up to date. *)
Definition updated (now : Duration) (t : Tunn) : Tunn :=
  aged_all now (with_t_timers (timer_set TimeCurrent now t.(t_timers)) t).

Lemma timers_le_now g t w : tunn_inv g (t, w) → timers_le (now_of w.(w_env) t.(t_timers)) t.(t_timers).
Proof.
  intros [_ Hc _ _ _ _ [Hs _ _ Ht Hst] _]. cbn in *.
  split_and!; [| |by apply now_of_nonneg]; (eapply Forall_impl; [eassumption|]); cbn; intros; lia.
Qed.

Lemma reset_step g b t w :
  tunn_inv g (t, w) →
  ∃ w', (when b (on_limiter t.(rate_limiter) reset_count) : TM ()) (t, w) = Ret (Ok (), (t, w')) ∧
    env_le w.(w_env) w'.(w_env) ∧ tunn_inv g (t, w').
Proof.
  intros Hinv. destruct b; [|by exists w]. unfold when, on_limiter. cbn [fst snd].
  destruct (ti_limiter _ _ Hinv) as [rl Hrl]. cbn in Hrl. rewrite Hrl.
  pose proof (@reset_count_wp WireGuardError rl w.(w_env)) as Hr. unfold wp in Hr.
  destruct (reset_count _) as [[r [rl' e']]|]; [|done]. destruct Hr as (-> & _ & Hle).
  eexists. split_and!; [done|done|]. by apply inv_limiter.
Qed.

Lemma update_timers_eq g dst t w :
  tunn_inv g (t, w) →
  let now := now_of w.(w_env) t.(t_timers) in
  ∃ w', update_timers dst (t, w) = act_on_timers now dst (updated now t, w') ∧
    tunn_inv g (updated now t, w') ∧ timers_le now (updated now t).(t_timers) ∧
    env_le w.(w_env) w'.(w_env).
Proof.
  intros Hinv now. pose proof (timers_le_now _ _ _ Hinv) as Hle. fold now in Hle.
  unfold update_timers. run_ok. run_ok. run_ok. cbn [fst snd].
  set (w1 := with_w_env _ w).
  assert (Hle1 : env_le w.(w_env) w1.(w_env)) by (split; cbn; auto).
  pose proof (inv_env g t w _ Hinv Hle1) as Hinv1.
  destruct (reset_step g t.(t_timers).(should_reset_rr) t w1 Hinv1) as (w' & Hr & Hle2 & Hinv2).
  exists w'. erewrite bind_ok by exact Hr. run_ok. cbn [fst]. fold (now_of w.(w_env) t.(t_timers)).
  fold now. run_ok. cbn [fst snd].
  assert (Hle' : env_le w.(w_env) w'.(w_env)) by (by etrans).
  assert (Hnow : now ≤ now_of w'.(w_env) t.(t_timers)).
  { apply now_of_le; [apply Hinv|done|]. by destruct (ti_timers _ _ Hinv). }
  assert (0 ≤ now) by apply Hle.
  assert (Hinv3 : tunn_inv g (with_t_timers (timer_set TimeCurrent now t.(t_timers)) t, w')).
  { apply inv_timers; [done|]. apply timer_set_ok; [apply Hinv2|lia]. }
  assert (Hle3 : timers_le now (timer_set TimeCurrent now t.(t_timers))) by (by apply timers_le_set).
  erewrite bind_ok by (by apply update_session_timers_eq).
  destruct (aged_all_ok g now _ w' Hinv3 Hle3 Hnow) as [Hinv4 Hle4]. by split_and!.
Qed.

(** A session of the initiator that was used and is old enough is renewed,
    whatever the other timers say. *)
Lemma required_rekey g now t w :
  tunn_inv g (t, w) → timers_le now t.(t_timers) → t.(t_timers).(is_initiator) = true →
  timer_get TimeSessionEstablished t.(t_timers) < timer_get TimeLastDataPacketSent t.(t_timers) →
  REKEY_AFTER_TIME ≤ now - timer_get TimeSessionEstablished t.(t_timers) →
  wp (required_without_timer now) (λ r s', r = Ok (true, false) ∧ tunn_inv g s' ∧
    s'.1.(handshake) = t.(handshake)) (t, w).
Proof.
  intros Hinv Hle Hini Hsent Hage. unfold required_without_timer. apply wp_bind, wp_gets. cbn [fst]. cbn zeta.
  apply wp_bind. rewrite Hini, (proj2 (Z.ltb_lt _ _) Hsent). cbn [andb and_then].
  apply wp_bind, wp_since; [by auto|]. apply wp_ret. rewrite (proj2 (Z.leb_le _ _) Hage).
  apply (wp_test g); [apply and_then_keeps; [done|]; intros _; apply age_test_keeps; [by auto|]; intros age;
    by apply ret_keeps|]. intros b2 s2 Hinv2 Ht2 Hh2.
  apply (wp_test g); [by auto 10|]. intros b3 s3 Hinv3 Ht3 Hh3. cbn [orb].
  apply wp_ret. split_and!; [done|done|by rewrite Hh3, Hh2].
Qed.

(** Reading the clocks keeps the invariant, and the age of the last handshake
    is not negative. *)
Lemma last_handshake_safe g t w :
  tunn_inv g (t, w) → wp time_since_last_handshake (λ r s', tunn_inv g s' ∧ ∃ o, r = Ok o) (t, w).
Proof.
  intros Hinv. unfold time_since_last_handshake. apply wp_bind, wp_gets. cbn [fst].
  destruct (session_at _ t); [|split; [done|eauto]].
  apply wp_bind, wp_zoom, wp_Instant_now. intros e' Hle _. cbn in Hle. apply wp_bind, wp_gets. cbn [fst].
  apply wp_bind, wp_since.
  - apply (timer_get_ok w.(w_env)); apply Hinv.
  - apply wp_ret. split; [by apply inv_env|eauto].
Qed.

Lemma handshake_time_safe g t w :
  tunn_inv g (t, w) → wp last_handshake_time (λ r s', tunn_inv g s' ∧ ∃ o, r = Ok o) (t, w).
Proof.
  intros Hinv. unfold last_handshake_time. apply wp_bind, wp_zoom. cbn. set (e' := Env _ _ _ _ _).
  assert (Hinv' : tunn_inv g (t, with_w_env e' w)) by (apply inv_env; [done|]; split; cbn; auto).
  destruct (e_system _ _); [|split; [done|eauto]]. apply wp_bind.
  eapply wp_mono; [by apply last_handshake_safe|]. intros r s' [? [o ->]]. split; [done|eauto].
Qed.

Lemma stats_safe g t w : tunn_inv g (t, w) → wp stats (λ r s', tunn_inv g s' ∧ ∃ x, r = Ok x) (t, w).
Proof.
  intros Hinv. unfold stats. apply wp_bind. eapply wp_mono; [by apply last_handshake_safe|].
  intros r [t' w'] [Hinv' [o ->]]. do 4 apply wp_bind, wp_gets. split; [done|eauto].
Qed.

Lemma update_timers_safe g dst t w :
  tunn_inv g (t, w) → (DATA_OVERHEAD_SZ ≤ length dst)%nat → (DATA_OVERHEAD_SZ ≤ buf)%nat →
  safe g (update_timers dst) (t, w).
Proof.
  intros Hinv Hdst Hbuf. destruct (update_timers_eq g dst t w Hinv) as (w' & Heq & Hinv' & Hle & _).
  unfold wp. rewrite Heq. by apply act_on_timers_safe.
Qed.
End Invariant.

(** ** Runs of a tunnel *)

Section Runs.
Context `{CryptoLaws}.

(** What the owner of a tunnel does with it. *)
Inductive tunn_event : Type :=
| TvEncapsulate (src : bytes)
| TvDecapsulate (addr : option IpAddr) (datagram : bytes)
| TvTimers
| TvInitiate (force_resend : bool).

Definition tunn_handle (dst : bytes) (ev : tunn_event) : TM TunnResult :=
  match ev with
  | TvEncapsulate src => encapsulate src dst
  | TvDecapsulate addr datagram => decapsulate addr datagram dst
  | TvTimers => update_timers dst
  | TvInitiate force => tunn_format_handshake_initiation dst force
  end.

Fixpoint tunn_handle_all (dst : bytes) (evs : list tunn_event) : TM (list TunnResult) :=
  match evs with
  | [] => mret []
  | ev :: evs' =>
    r ← tunn_handle dst ev;
    rs ← tunn_handle_all dst evs';
    mret (r :: rs)
  end.

(** The event is about packets that fit the buffer, as the documentation of
    [encapsulate] and [decapsulate] asks. *)
Definition event_fits (dst : bytes) (ev : tunn_event) : Prop :=
  match ev with
  | TvEncapsulate src => (length src + DATA_OVERHEAD_SZ ≤ length dst)%nat
  | TvDecapsulate _ datagram => (length datagram ≤ length dst)%nat
  | _ => True
  end.

Lemma tunn_handle_safe g dst ev t w :
  tunn_inv (length dst) g (t, w) → (HANDSHAKE_INIT_SZ ≤ length dst)%nat → event_fits dst ev →
  wp (tunn_handle dst ev) (λ r s', tunn_inv (length dst) g s' ∧ ∃ res, r = Ok res) (t, w).
Proof.
  intros Hinv Hdst Hev. unfold HANDSHAKE_INIT_SZ in Hdst.
  destruct ev as [src|addr datagram| |force]; cbn in Hev |- *.
  - by apply encapsulate_safe.
  - apply decapsulate_safe; [done|lia|done|unfold COOKIE_REPLY_SZ; lia].
  - apply update_timers_safe; [done|unfold DATA_OVERHEAD_SZ; lia..].
  - by apply format_initiation_safe.
Qed.

Lemma tunn_handle_all_safe g dst evs t w :
  tunn_inv (length dst) g (t, w) → (HANDSHAKE_INIT_SZ ≤ length dst)%nat → Forall (event_fits dst) evs →
  wp (tunn_handle_all dst evs) (λ r s', tunn_inv (length dst) g s' ∧ ∃ res, r = Ok res) (t, w).
Proof.
  intros Hinv Hdst Hevs. revert t w Hinv. induction Hevs as [|ev evs Hev Hevs IH]; intros t w Hinv; cbn.
  { split; [done|eauto]. }
  apply wp_bind. eapply wp_mono; [by apply (tunn_handle_safe g)|].
  intros r [t1 w1] [Hinv1 [res ->]]. apply wp_bind. eapply wp_mono; [by apply IH|].
  intros r [t2 w2] [Hinv2 [rs ->]]. split; [done|eauto].
Qed.
End Runs.
