(* ===== verification/Tunnel.v ===== *)
(** * Theorems about the tunnel (noise/mod.rs, noise/timers.rs)

    What the operations of [Tunn] guarantee to their caller: they do not
    panic, keys do not outlive their time, packets are delivered. *)

From S2P Require Import Prelude Errors ReplayWindow Time Crypto Packet Session Tai64N Handshake RateLimiter Tunn.
From coqutil Require Import Byte.

Section Creation.
Context `{CryptoLaws}.

(** The limiter a tunnel is created with is in the store. *)
Definition limiter_given (rl : option nat) (w : world) : Prop :=
  match rl with Some l => is_Some (w.(w_limiters) !! l) | None => True end.

Lemma shifted_index index : 0 ≤ index < 2 ^ 24 →
  wrap 32 (Z.shiftl index 8) = index * 256 ∧ wrap 32 (Z.shiftl index 8) / 256 = index.
Proof.
  intros Hi. rewrite Z.shiftl_mul_pow2 by lia. change (2 ^ 8) with 256.
  rewrite wrap_small by (unfold in_width; lia). split; [done|]. by apply Z.div_mul.
Qed.

Lemma tunn_new_inv {E} buf sk peer psk ka index rl w d :
  can_start w.(w_env) d → 0 ≤ index < 2 ^ 24 → limiter_given rl w →
  ∃ t w', @Tunn_new _ E sk peer psk ka index rl w = Ret (Ok t, w') ∧ tunn_inv buf index (t, w') ∧
    t.(handshake).(params) = NoiseParams_new sk (x25519_public sk) peer psk ∧
    t.(handshake).(last_handshake_timestamp) = Tai64N_zero ∧
    t.(handshake).(next_index) = index * 256 ∧
    t.(handshake).(state) = HNone ∧ t.(handshake).(previous) = HNone ∧
    t.(sessions) = replicate N_SESSIONS None ∧ t.(packet_queue) = [].
Proof.
  intros Hcs Hi Hrl. destruct (shifted_index index Hi) as [Hsh Hg].
  assert (Hw : in_width 32 (wrap 32 (Z.shiftl index 8))) by (by apply wrap_in_width).
  destruct (new_inv sk peer _ psk w.(w_env) d _ Hw eq_refl Hcs) as (Hinv & Hc & Hst).
  rewrite Hg, Hsh in Hinv. destruct Hcs as [Hclk Hsys Hpos Hbound].
  unfold Tunn_new. erewrite bind_ok by (apply zoom_run; by apply handshake_new_eq).
  erewrite bind_ok by (by apply zoom_run). cbn beta.
  set (w1 := with_w_env _ (with_w_env _ w)).
  assert (Hle : env_le (later 2 w.(w_env)) w1.(w_env)) by (split; cbn; auto).
  assert (Hlim : ∃ l w2, (match rl with Some l => mret l | None => new_limiter (x25519_public sk) end : M E world nat)
    w1 = Ret (Ok l, w2) ∧ env_le w1.(w_env) w2.(w_env) ∧ is_Some (w2.(w_limiters) !! l)).
  { destruct rl as [l|]; [by eexists l, w1|]. unfold new_limiter.
    eexists _, _. split; [reflexivity|]. cbn. rewrite lookup_insert_eq. split; [|by eauto].
    split; cbn; auto; lia. }
  destruct Hlim as (l & w2 & Hl & Hle2 & Hsome). erewrite bind_ok by exact Hl.
  eexists _, w2. split; [reflexivity|]. rewrite Hsh. split_and!; try done.
  assert (Hle3 : env_le (later 2 w.(w_env)) w2.(w_env)) by (by etrans).
  split; cbn [fst snd handshake sessions packet_queue t_timers rate_limiter]; [|..]; try done.
  - by eapply clock_ok_le.
  - by eapply stamper_ok_le.
  - split; [done|]. intros i s Hs. apply lookup_replicate in Hs as [Hs _]. done.
  - unfold MAX_QUEUE_DEPTH. cbn. lia.
  - assert (Hnn : ∀ x, timespec_ok x.(time_started) → 0 ≤ now_of w2.(w_env) x).
    { intros x. apply now_of_nonneg. by eapply clock_ok_le. }
    split; cbn [time_started timers session_timers]; [apply Hclk|done|done| |];
      apply Forall_replicate; split; [lia|apply Hnn, Hclk|lia|apply Hnn, Hclk].
Qed.

(** C15.  A tunnel never panics: created for a peer index below [2^24] on a
    sane clock, it handles every sequence of packets to send, datagrams from
    anywhere (forged, replayed, truncated), timer ticks and requests to
    initiate without panicking, provided the buffer has at least 148 bytes and
    room for each packet.  The invariant holds throughout: every session sits
    in the slot of its index, the queue stays within its bound, no timer is
    ahead of the clock. *)
Theorem tunnel_never_panics sk peer psk ka index rl w d dst evs :
  can_start w.(w_env) d → 0 ≤ index < 2 ^ 24 → limiter_given rl w →
  (HANDSHAKE_INIT_SZ ≤ length dst)%nat → Forall (event_fits dst) evs →
  ∃ t w0 rs t' w',
    @Tunn_new _ WireGuardError sk peer psk ka index rl w = Ret (Ok t, w0) ∧
    tunn_handle_all dst evs (t, w0) = Ret (Ok rs, (t', w')) ∧
    tunn_inv (length dst) index (t', w').
Proof.
  intros Hcs Hi Hrl Hdst Hevs.
  destruct (@tunn_new_inv WireGuardError (length dst) sk peer psk ka index rl w d Hcs Hi Hrl)
    as (t & w0 & Hnew & Hinv & _).
  destruct (wp_elim _ _ _ (tunn_handle_all_safe index dst evs t w0 Hinv Hdst Hevs))
    as (r & [t' w'] & Hrun & Hinv' & rs & ->).
  by exists t, w0, rs, t', w'.
Qed.
End Creation.

(** ** One packet, from end to end *)

Section Delivery.
Context `{CryptoLaws}.

(** A tunnel without a session queues the packet and starts a handshake. *)
Lemma encapsulate_starts src dst t w msg h1 e1 :
  session_at (slot t.(current)) t = None → t.(handshake).(state) = HNone →
  format_handshake_initiation dst (t.(handshake), w.(w_env)) = Ret (Ok msg, (h1, e1)) →
  ∃ x, encapsulate src dst (t, w) =
    Ret (Ok (WriteToNetwork msg),
         (with_t_timers x (with_handshake h1 (queue_packet src t)), with_w_env e1 w)).
Proof.
  intros Hs Hst Hf. unfold encapsulate. run_ok. run_ok. cbn [fst snd]. rewrite Hs. run_ok.
  unfold tunn_format_handshake_initiation. run_ok. cbn [fst snd].
  assert (Hq : (queue_packet src t).(handshake) = t.(handshake)) by (unfold queue_packet; by case_match).
  rewrite Hq. unfold is_in_progress, is_expired. rewrite Hst. cbn [andb negb when]. run_ok.
  erewrite bind_ok; [|unfold attempt, on_handshake; erewrite zoom_run; [reflexivity|]; cbn; rewrite Hq; exact Hf].
  cbn beta iota. eexists. reflexivity.
Qed.

(** An unloaded limiter lets a message for its owner pass. *)
Lemma verified addr h p idx dst t w rl :
  w.(w_limiters) !! t.(rate_limiter) = Some rl → rl.(count) < rl.(limit) →
  params_wf h.(params) → limiter_of h.(params).(peer_static_public) rl →
  packet_wf p → handshake_sender p = Some idx →
  ∃ rl', decapsulate addr (sealed h p) dst (t, w) =
    handle_verified_packet p dst
      (t, MkWorld w.(w_env) (<[t.(rate_limiter) := rl']> w.(w_limiters))).
Proof.
  intros Hrl Hload Hp Hlo Hwf Hs. unfold decapsulate.
  rewrite bool_decide_eq_false_2.
  2:{ intros Hnil. assert (Hl : length (sealed h p) = 0%nat) by (by rewrite Hnil).
      unfold sealed in Hl. rewrite encode_macs, !length_app, length_mac1_of in Hl. lia. }
  run_ok. cbn [fst]. eexists.
  erewrite bind_ok; [|unfold attempt, on_limiter; cbn [snd]; rewrite Hrl, (verify_sealed h p idx) by done;
    cbn zeta; rewrite (proj2 (Z.leb_gt _ _)) by done; reflexivity].
  reflexivity.
Qed.

(** The answer to an initiation, with the new session in its slot. *)
Lemma handle_init_eq p dst t w msg s h1 e1 :
  receive_handshake_initialization p dst (t.(handshake), w.(w_env)) = Ret (Ok (msg, s), (h1, e1)) →
  ∃ x, handle_verified_packet (PHandshakeInit p) dst (t, w) =
    Ret (Ok (WriteToNetwork msg),
         (with_t_timers x (with_sessions (<[slot s.(receiving_index) := Some s]> t.(sessions))
            (with_handshake h1 t)), with_w_env e1 w)).
Proof.
  intros Hr. unfold handle_verified_packet. eexists.
  erewrite bind_ok; [|apply attempt_run; unfold handle_handshake_init; erewrite bind_ok;
    [|apply zoom_run; exact Hr]; cbn beta iota; run_oks; reflexivity].
  reflexivity.
Qed.

(** When the current slot is empty, or is the slot of the new session, the new
    session becomes the current one. *)
Lemma set_current_sets idx t :
  session_at (slot t.(current)) t = None ∨ slot t.(current) = slot idx →
  set_current_session idx t = with_current idx t.
Proof.
  intros Hcur. unfold set_current_session.
  destruct (Z.eqb_spec t.(current) idx) as [<-|Hne]; [by destruct t|]. cbn zeta.
  destruct Hcur as [->| ->]; [done|]. by rewrite Z.leb_refl, orb_true_r.
Qed.

(** The end of a handshake for the initiator: a keepalive under the new
    session, which becomes the current one. *)
Lemma handle_response_eq p dst t w s h1 e1 :
  session_at (slot t.(current)) t = None → (DATA_OVERHEAD_SZ ≤ length dst)%nat →
  receive_handshake_response p (t.(handshake), w.(w_env)) = Ret (Ok s, (h1, e1)) →
  ∃ x, handle_verified_packet (PHandshakeResponse p) dst (t, w) =
    Ret (Ok (WriteToNetwork (encode (data_packet s []) [])),
         (with_current s.(receiving_index) (with_t_timers x (with_sessions
            (<[slot s.(receiving_index) := Some (with_sending_key_counter (wrap 64 (s.(sending_key_counter) + 1)) s)]>
               t.(sessions)) (with_handshake h1 t))), with_w_env e1 w)).
Proof.
  intros Hcur Hdst Hr. unfold handle_verified_packet. eexists.
  erewrite bind_ok; [|apply attempt_run; unfold handle_handshake_response; erewrite bind_ok;
    [|apply zoom_run; exact Hr]].
  2:{ cbn beta. erewrite bind_ok by (unfold on_local; by rewrite format_packet_data_eq). cbn beta iota.
      run_ok. run_ok. run_ok. run_ok. rewrite set_current_sets; [reflexivity|].
      unfold session_at in *. cbn [fst current with_t_timers with_sessions with_handshake sessions
        local_index receiving_index with_sending_key_counter].
      fold (slot s.(receiving_index)).
      destruct (decide (slot t.(current) = slot s.(receiving_index))) as [|Hne]; [by right|left].
      by rewrite list_lookup_insert_ne. }
  reflexivity.
Qed.

(** Sending under the current session. *)
Lemma encapsulate_session src dst t w s :
  session_at (slot t.(current)) t = Some s → (length src + DATA_OVERHEAD_SZ ≤ length dst)%nat →
  ∃ x n, encapsulate src dst (t, w) =
    Ret (Ok (WriteToNetwork (encode (data_packet s src) [])),
         (with_tx_bytes n (with_t_timers x (with_sessions
            (<[slot t.(current) := Some (with_sending_key_counter (wrap 64 (s.(sending_key_counter) + 1)) s)]>
               t.(sessions)) t)), w)).
Proof.
  intros Hs Hlen. unfold encapsulate. run_ok. run_ok. cbn [fst]. rewrite Hs.
  erewrite bind_ok; [|unfold on_session; cbn [fst snd]; rewrite Hs, format_packet_data_eq by done; reflexivity].
  run_ok. unfold when. destruct (negb _); run_ok; run_ok; by eexists _, _.
Qed.

(** Data from the queue goes out under the current session. *)
Lemma flush_queue addr dst t w s packet rest :
  t.(packet_queue) = packet :: rest → session_at (slot t.(current)) t = Some s →
  (length packet + DATA_OVERHEAD_SZ ≤ length dst)%nat →
  ∃ t', decapsulate addr [] dst (t, w) =
    Ret (Ok (WriteToNetwork (encode (data_packet s packet) [])), (t', w)) ∧ t'.(packet_queue) = rest ∧
    t'.(handshake) = t.(handshake).
Proof.
  intros Hq Hs Hlen. unfold decapsulate. rewrite bool_decide_eq_true_2 by done.
  unfold send_queued_packet.
  erewrite bind_ok by (unfold dequeue_packet; run_ok; cbn [fst]; rewrite Hq; reflexivity). cbn beta iota.
  destruct (encapsulate_session packet dst (with_packet_queue rest t) w s Hs Hlen) as (x & n & He).
  eexists. erewrite bind_ok by exact He. by split.
Qed.

(** A data packet for session [s], with the content [pt] under counter [c]. *)
Definition data_for (s : Session) (c : Z) (pt : bytes) : PacketData :=
  MkPacketData s.(receiving_index) c (aead_chacha20_seal s.(receiver) c pt []).

Lemma data_for_wf s c pt : in_width 32 s.(receiving_index) → Validator.small_counter c → packet_wf (PData (data_for s c pt)).
Proof.
  intros Hidx Hc. split_and!; [done|unfold Validator.small_counter in Hc; unfold in_width; cbn; unfold N_BITS, WORD_SIZE, N_WORDS in Hc; lia|].
  cbn. rewrite length_aead_seal. lia.
Qed.

(** Data for a session of the ring is decrypted and validated. *)
Lemma verified_data dst t w s win c pt :
  session_at (slot s.(receiving_index)) t = Some s →
  (length pt + DATA_OVERHEAD_SZ ≤ length dst)%nat → Validator.small_counter c →
  Validator.implements s.(receiving_key_counter) win → Validator.w_accepts c win = true →
  ∃ s' t', Validator.implements s'.(receiving_key_counter) (Validator.w_mark c win).2 ∧
    s' = with_receiving_key_counter s'.(receiving_key_counter) s ∧
    session_at (slot s.(receiving_index)) t' = Some s' ∧ t'.(rate_limiter) = t.(rate_limiter) ∧
    handle_verified_packet (PData (data_for s c pt)) dst (t, w) =
      (r ← attempt (validate_decapsulated_packet pt);
       mret (match r with Ok res => res | Err e => TErr e end)) (t', w).
Proof.
  intros Hs Hlen Hc Him Ha. unfold handle_verified_packet.
  destruct (receive_fresh s win c pt dst) as (s' & Hr & Him' & Hs');
    [unfold DATA_OVERHEAD_SZ, AEAD_SIZE in *; lia|done|done|done|]. fold (data_for s c pt) in Hr.
  set (t1 := with_sessions (<[slot s.(receiving_index) := Some s']> t.(sessions)) t).
  set (t2 := set_current_session s.(receiving_index) t1).
  assert (Hd : handle_data (data_for s c pt) dst (t, w) =
    validate_decapsulated_packet pt (with_t_timers (timer_tick TimeLastPacketReceived t2.(t_timers)) t2, w)).
  { unfold handle_data. run_ok. cbn [fst pd_receiver_idx data_for]. rewrite Hs.
    erewrite bind_ok by (unfold on_session; cbn [fst snd]; by rewrite Hs, Hr). run_ok. run_ok. done. }
  exists s', (with_t_timers (timer_tick TimeLastPacketReceived t2.(t_timers)) t2).
  assert (Hst : t2.(sessions) = t1.(sessions) ∧ t2.(rate_limiter) = t.(rate_limiter)).
  { unfold t2, set_current_session. destruct (_ =? _); [done|]. cbn zeta. by destruct (_ || _). }
  destruct Hst as [Hst2 Hrl2]. split_and!; [done|done| |done|].
  - unfold session_at. cbn [sessions with_t_timers]. rewrite Hst2. cbn.
    rewrite list_lookup_insert_eq; [done|]. unfold session_at in Hs.
    destruct (t.(sessions) !! _) eqn:Hl; [|done]. by eapply lookup_lt_Some.
  - unfold mbind, M_bind, attempt. by rewrite Hd.
Qed.

(** The limiter lets data pass. *)
Lemma verify_data addr p dst rl e :
  packet_wf (PData p) → verify_packet addr (encode (PData p) []) dst (rl, e) = Ret (Ok (PData p), (rl, e)).
Proof. intros Hp. unfold verify_packet. erewrite bind_ok by (unfold map_err, lift_result; by rewrite parse_encode). done. Qed.

Lemma decapsulate_data addr dst t w s win c pt rl :
  w.(w_limiters) !! t.(rate_limiter) = Some rl →
  session_at (slot s.(receiving_index)) t = Some s → in_width 32 s.(receiving_index) →
  (length pt + DATA_OVERHEAD_SZ ≤ length dst)%nat → Validator.small_counter c →
  Validator.implements s.(receiving_key_counter) win → Validator.w_accepts c win = true →
  ∃ s' t', Validator.implements s'.(receiving_key_counter) (Validator.w_mark c win).2 ∧
    s' = with_receiving_key_counter s'.(receiving_key_counter) s ∧
    session_at (slot s.(receiving_index)) t' = Some s' ∧ t'.(rate_limiter) = t.(rate_limiter) ∧
    decapsulate addr (encode (PData (data_for s c pt)) []) dst (t, w) =
      (r ← attempt (validate_decapsulated_packet pt);
       mret (match r with Ok res => res | Err e => TErr e end)) (t', MkWorld w.(w_env) (<[t.(rate_limiter) := rl]> w.(w_limiters))).
Proof.
  intros Hrl Hs Hidx Hlen Hc Him Ha.
  destruct (verified_data dst t (MkWorld w.(w_env) (<[t.(rate_limiter) := rl]> w.(w_limiters))) s win c pt Hs Hlen Hc Him Ha)
    as (s' & t' & Hi & He & Hs' & Hl & Hv). exists s', t'. split_and!; [done..|]. rewrite <- Hv. unfold decapsulate.
  rewrite bool_decide_eq_false_2 by (intros Hnil; by apply (f_equal length) in Hnil). run_ok. cbn [fst].
  erewrite bind_ok; [|apply attempt_run; unfold on_limiter; cbn [snd]; rewrite Hrl, verify_data by (by apply data_for_wf); reflexivity].
  done.
Qed.

(** What the owner of the tunnel writes to its interface. *)
Definition to_tunnel (packet : bytes) (src : IpAddr) : TunnResult :=
  match src with V4 a => WriteToTunnelV4 packet a | V6 a => WriteToTunnelV6 packet a end.

Lemma validate_whole packet v src t w :
  ip_version packet = Some v → ip_header v packet = Some (Z.of_nat (length packet), src) →
  ∃ t', validate_decapsulated_packet packet (t, w) = Ret (Ok (to_tunnel packet src), (t', w)) ∧
    t'.(sessions) = t.(sessions) ∧ t'.(handshake) = t.(handshake).
Proof.
  intros Hv Hh. unfold validate_decapsulated_packet. rewrite Hv, Hh, Z.ltb_irrefl. run_ok. run_ok.
  rewrite Nat2Z.id, firstn_all. eexists. split; [by destruct src|by split].
Qed.

(** A tunnel whose limiter is not loaded. *)
Definition unloaded (public : bytes) (t : Tunn) (w : world) : Prop :=
  ∃ rl, w.(w_limiters) !! t.(rate_limiter) = Some rl ∧ limiter_of public rl ∧ rl.(count) < rl.(limit).

(** The tunnel of the initiator before the first packet. *)
Record idle (t : Tunn) : Prop := {
  id_session : session_at (slot t.(current)) t = None;
  id_state : t.(handshake).(state) = HNone;
  id_queue : t.(packet_queue) = [];
}.

(** The responder's side of the exchange: it answers the initiation, takes the
    keepalive, and delivers the packet. *)
Lemma responder_side g addr dst t w h pi pr ri ii k1 k2 h1 e1 packet v src :
  tunn_inv (length dst) g (t, w) → unloaded h.(params).(peer_static_public) t w →
  params_wf h.(params) → packet_wf (PHandshakeInit pi) → in_width 32 ri →
  (HANDSHAKE_INIT_SZ ≤ length dst)%nat → (length packet + DATA_OVERHEAD_SZ ≤ length dst)%nat →
  ip_version packet = Some v → ip_header v packet = Some (Z.of_nat (length packet), src) →
  receive_handshake_initialization pi dst (t.(handshake), w.(w_env)) =
    Ret (Ok (sealed t.(handshake) (PHandshakeResponse pr), Session_new ri ii k1 k2), (h1, e1)) →
  let data c pt := encode (PData (MkPacketData ri c (aead_chacha20_seal k1 c pt []))) [] in
  ∃ t1 w1 t2 w2 t3 w3,
    decapsulate addr (sealed h (PHandshakeInit pi)) dst (t, w) =
      Ret (Ok (WriteToNetwork (sealed t.(handshake) (PHandshakeResponse pr))), (t1, w1)) ∧
    decapsulate addr (data 0 []) dst (t1, w1) = Ret (Ok TDone, (t2, w2)) ∧
    decapsulate addr (data 1 packet) dst (t2, w2) = Ret (Ok (to_tunnel packet src), (t3, w3)).
Proof.
  intros Hinv (rl & Hrl & Hlo & Hload) Hp Hpi Hri Hdst Hlen Hv Hh Hr data.
  destruct (verified addr h (PHandshakeInit pi) pi.(hi_sender_idx) dst t w rl Hrl Hload Hp Hlo Hpi eq_refl) as [rl1 H1].
  set (w0 := MkWorld _ _) in H1.
  destruct (handle_init_eq pi dst t w0 _ _ _ _ Hr) as [x Hx]. rewrite Hx in H1. clear Hx.
  set (s := Session_new ri ii k1 k2) in *. set (t1 := with_t_timers x _) in H1.
  set (w1 := with_w_env e1 w0) in H1.
  assert (Hs1 : session_at (slot ri) t1 = Some s).
  { unfold session_at. cbn [sessions t1 with_t_timers with_sessions]. cbn. rewrite list_lookup_insert_eq; [done|].
    destruct (ti_ring _ _ _ Hinv) as [Hl _]. cbn in Hl. rewrite Hl. apply slot_lt. }
  assert (Hrl1 : w1.(w_limiters) !! t1.(rate_limiter) = Some rl1) by (cbn; apply lookup_insert_eq).
  destruct (decapsulate_data addr dst t1 w1 s Validator.w_empty 0 [] rl1 Hrl1 Hs1 Hri
    ltac:(unfold HANDSHAKE_INIT_SZ, DATA_OVERHEAD_SZ in *; cbn; lia) ltac:(done)
    Validator.default_implements ltac:(by apply bool_decide_eq_true_2)) as (s2 & t2 & Him2 & Hs2' & Hs2 & Hr2 & H2).
  set (w2 := MkWorld _ _) in H2. cbn in H2.
  assert (Hrl2 : w2.(w_limiters) !! t2.(rate_limiter) = Some rl1) by (cbn; rewrite Hr2; apply lookup_insert_eq).
  assert (Hidx2 : s2.(receiving_index) = ri ∧ s2.(receiver) = k1) by (by rewrite Hs2'). destruct Hidx2 as [Hidx2 Hkey2].
  destruct (decapsulate_data addr dst t2 w2 s2 _ 1 packet rl1 Hrl2 ltac:(by rewrite Hidx2) ltac:(by rewrite Hidx2)
    Hlen ltac:(done) Him2 ltac:(by vm_compute)) as (s3 & t3 & _ & _ & _ & _ & H3).
  destruct (validate_whole packet v src t3 (MkWorld w2.(w_env) (<[t2.(rate_limiter) := rl1]> w2.(w_limiters))) Hv Hh) as (t3' & Hval & _).
  unfold data_for in H3. rewrite Hidx2, Hkey2 in H3. eexists t1, w1, t2, w2, t3', _. split_and!; [exact H1|exact H2|].
  unfold data. rewrite H3. unfold mbind, M_bind, attempt. by rewrite Hval.
Qed.

(** The initiator's side: the packet starts a handshake, the response brings a
    keepalive, and the next call sends the packet that waited. *)
Lemma initiator_side g addr dst t w h packet msg pr s h1 e1 h2 e2 :
  tunn_inv (length dst) g (t, w) → idle t → unloaded h.(params).(peer_static_public) t w →
  params_wf h.(params) → packet_wf (PHandshakeResponse pr) → session_wf s →
  (HANDSHAKE_INIT_SZ ≤ length dst)%nat → (length packet + DATA_OVERHEAD_SZ ≤ length dst)%nat →
  format_handshake_initiation dst (t.(handshake), w.(w_env)) = Ret (Ok msg, (h1, e1)) →
  receive_handshake_response pr (h1, e1) = Ret (Ok s, (h2, e2)) →
  let s' := with_sending_key_counter (wrap 64 (s.(sending_key_counter) + 1)) s in
  ∃ t1 w1 t2 w2 t3 w3,
    encapsulate packet dst (t, w) = Ret (Ok (WriteToNetwork msg), (t1, w1)) ∧
    decapsulate addr (sealed h (PHandshakeResponse pr)) dst (t1, w1) =
      Ret (Ok (WriteToNetwork (encode (data_packet s []) [])), (t2, w2)) ∧
    decapsulate None [] dst (t2, w2) = Ret (Ok (WriteToNetwork (encode (data_packet s' packet) [])), (t3, w3)).
Proof.
  intros Hinv [Hid Hst Hq] (rl & Hrl & Hlo & Hload) Hp Hpr Hwf Hdst Hlen Hf Hr s'.
  destruct (encapsulate_starts packet dst t w msg h1 e1 Hid Hst Hf) as [x H1].
  set (t1 := with_t_timers x _) in H1. set (w1 := with_w_env e1 w) in H1.
  assert (Ht1 : t1.(rate_limiter) = t.(rate_limiter) ∧ t1.(handshake) = h1 ∧ t1.(packet_queue) = [packet] ∧
    t1.(sessions) = t.(sessions) ∧ t1.(current) = t.(current)).
  { unfold t1, queue_packet. rewrite Hq. done. }
  destruct Ht1 as (Hl1 & Hh1 & Hq1 & Hs1 & Hc1).
  destruct (verified addr h (PHandshakeResponse pr) pr.(hr_sender_idx) dst t1 w1 rl
    ltac:(by rewrite Hl1) Hload Hp Hlo Hpr eq_refl) as [rl1 H2].
  set (w1' := MkWorld _ _) in H2.
  assert (Hid1 : session_at (slot t1.(current)) t1 = None) by (unfold session_at in *; by rewrite Hs1, Hc1).
  destruct (handle_response_eq pr dst t1 w1' s h2 e2 Hid1
    ltac:(unfold HANDSHAKE_INIT_SZ, DATA_OVERHEAD_SZ in *; lia) ltac:(by rewrite Hh1)) as [x2 Hx2].
  rewrite Hx2 in H2. clear Hx2. set (t2 := with_current _ _) in H2. set (w2 := with_w_env e2 w1') in H2.
  assert (Hs2 : session_at (slot t2.(current)) t2 = Some s').
  { unfold session_at. cbn [t2 with_current current sessions with_t_timers with_sessions].
    cbn. rewrite list_lookup_insert_eq; [done|]. destruct (ti_ring _ _ _ Hinv) as [Hl _]. cbn in Hl.
    change (sessions t1) with (sessions (queue_packet packet t)) in Hs1.
    fold (slot s.(receiving_index)). rewrite Hs1, Hl. apply slot_lt. }
  destruct (flush_queue None dst t2 w2 s' packet [] Hq1 Hs2 Hlen) as (t3 & H3 & _).
  eexists t1, w1, t2, w2, t3, w2. split_and!; [exact H1|exact H2|exact H3].
Qed.

(** A packet gets through: when a tunnel without a session is given an IP
    packet, and the datagrams that the two ends then produce are carried to
    each other, the handshake completes and the other end delivers that very
    packet, with its source address, to its interface.  The two ends are each
    other's peers, neither is loaded, and the clock of the first is ahead of
    the last handshake the second has seen. *)
Theorem packet_delivery gA tA wA gB tB wB dst addrA addrB packet v src :
  tunn_inv (length dst) gA (tA, wA) → tunn_inv (length dst) gB (tB, wB) →
  paired tA.(handshake).(params) tB.(handshake).(params) → idle tA →
  unloaded tA.(handshake).(params).(static_public) tA wA →
  unloaded tB.(handshake).(params).(static_public) tB wB →
  after (Tai64N_parse (ext_stamp (stamp_time tA.(handshake).(stamper)
      (wA.(w_env).(e_clock) wA.(w_env).(e_tick))))) tB.(handshake).(last_handshake_timestamp) = true →
  (HANDSHAKE_INIT_SZ ≤ length dst)%nat → (length packet + DATA_OVERHEAD_SZ ≤ length dst)%nat →
  ip_version packet = Some v → ip_header v packet = Some (Z.of_nat (length packet), src) →
  ∃ init sA1 resp sB1 keepalive sA2 data sA3 sB2 sB3,
    encapsulate packet dst (tA, wA) = Ret (Ok (WriteToNetwork init), sA1) ∧
    decapsulate addrA init dst (tB, wB) = Ret (Ok (WriteToNetwork resp), sB1) ∧
    decapsulate addrB resp dst sA1 = Ret (Ok (WriteToNetwork keepalive), sA2) ∧
    decapsulate None [] dst sA2 = Ret (Ok (WriteToNetwork data), sA3) ∧
    decapsulate addrA keepalive dst sB1 = Ret (Ok TDone, sB2) ∧
    decapsulate addrA data dst sB2 = Ret (Ok (to_tunnel packet src), sB3).
Proof.
  intros HA HB Hp Hid HlA HlB Haft Hdst Hlen Hv Hh.
  pose proof (hi_width _ _ (ti_handshake _ _ _ HA)) as HiA. pose proof (hi_width _ _ (ti_handshake _ _ _ HB)) as HiB.
  destruct (agreement_run tA.(handshake) wA.(w_env) dst tB.(handshake) wB.(w_env) dst)
    as (pi & h1 & e1 & pr & hR1 & eR1 & k1 & k2 & Hf & Hpi & Hri & Hpr & _ & Hrr);
    [done|done|done|apply HA|apply HA|done|done|unfold HANDSHAKE_INIT_SZ, HANDSHAKE_RESP_SZ in *; lia|].
  set (ii := incremented tA.(handshake).(next_index)) in *. set (ri := incremented tB.(handshake).(next_index)) in *.
  assert (Hii : in_width 32 ii) by (by apply incremented_width).
  assert (Hriw : in_width 32 ri) by (by apply incremented_width).
  destruct (Hrr e1) as (h2 & e2 & Hr).
  destruct (initiator_side gA addrB dst tA wA tB.(handshake) packet (sealed tA.(handshake) (PHandshakeInit pi)) pr (Session_new ii ri k2 k1) h1 e1 h2 e2 HA Hid)
    as (tA1 & wA1 & tA2 & wA2 & tA3 & wA3 & H1 & H3 & H4);
    [by rewrite (pd_ri _ _ Hp)|apply Hp|done|by apply session_new_wf|done|done|exact Hf|exact Hr|].
  destruct (responder_side gB addrA dst tB wB tA.(handshake) pi pr ri ii k1 k2 hR1 eR1 packet v src HB)
    as (tB1 & wB1 & tB2 & wB2 & tB3 & wB3 & H2 & H5 & H6);
    [by rewrite (pd_ir _ _ Hp)|apply Hp|done|done|done|done|done|done|exact Hri|].
  eexists _, _, _, _, _, _, _, _, _, _. split_and!; [exact H1|exact H2|exact H3|exact H4|exact H5|exact H6].
Qed.
End Delivery.

(** ** What reaches the interface *)

Definition is_tunnel (r : TunnResult) : bool :=
  match r with WriteToTunnelV4 _ _ | WriteToTunnelV6 _ _ => true | _ => false end.

(** A method that asks for nothing to be written to the interface. *)
Definition never_tunnel (m : TM TunnResult) : Prop :=
  ∀ s res s', m s = Ret (Ok res, s') → is_tunnel res = false.

Lemma never_ret r : is_tunnel r = false → never_tunnel (mret r).
Proof. by intros Hr s res s' [= <- _]. Qed.

Lemma never_throw e : never_tunnel (throw e).
Proof. by intros s res s'. Qed.

Lemma never_bind {A} (m : TM A) k : (∀ a, never_tunnel (k a)) → never_tunnel (m ≫= k).
Proof.
  intros Hk s res s'. unfold mbind, M_bind. destruct (m s) as [[[a|] s1]|]; [|done..]. apply Hk.
Qed.

Ltac never := repeat first [progress intros | apply never_bind | apply never_throw | by apply never_ret | case_match].

Section Authentic.
Context `{CryptoLaws}.

Lemma never_encapsulate src dst : never_tunnel (encapsulate src dst).
Proof. unfold encapsulate. never. Qed.

Lemma never_queued dst : never_tunnel (send_queued_packet dst).
Proof.
  unfold send_queued_packet. apply never_bind. intros [packet|]; [|by apply never_ret].
  intros s res s' (r & s1 & He & Hk)%bind_inv.
  pose proof (never_encapsulate packet dst _ _ _ He) as Hr. destruct r; try done.
  - by injection Hk as <- _.
  - apply bind_inv in Hk as (? & ? & _ & [= <- _]). done.
  - by injection Hk as <- _.
Qed.

Lemma never_init p dst : never_tunnel (handle_handshake_init p dst).
Proof. unfold handle_handshake_init. never. Qed.

Lemma never_response p dst : never_tunnel (handle_handshake_response p dst).
Proof. unfold handle_handshake_response. never. Qed.

Lemma never_cookie p : never_tunnel (handle_cookie_reply p).
Proof. unfold handle_cookie_reply. never. Qed.

(** Data for the interface is a front part of what a session decrypted. *)
Lemma validate_prefix packet s res s' :
  validate_decapsulated_packet packet s = Ret (Ok res, s') → is_tunnel res = true →
  ∃ n src v, res = to_tunnel (take n packet) src ∧ (n ≤ length packet)%nat ∧
    ip_version packet = Some v ∧ ip_header v packet = Some (Z.of_nat n, src).
Proof.
  unfold validate_decapsulated_packet. destruct (ip_version packet) as [v|]; [|by intros [= <- _]].
  destruct (ip_header v packet) as [[len src]|] eqn:Hh; [|by intros [= <- _]].
  destruct (Z.ltb_spec (Z.of_nat (length packet)) len); [by intros [= <- _]|].
  run_ok. run_ok. intros [= <- _] _. exists (Z.to_nat len), src, v.
  assert (0 ≤ len).
  { revert Hh. unfold ip_header. repeat case_match; intros [= <- _];
      (match goal with |- 0 ≤ from_be_bytes ?l => pose proof (from_be_bytes_width _ l eq_refl) as [] | |- 0 ≤ from_be_bytes ?l + _ => pose proof (from_be_bytes_width _ l eq_refl) as [] end; lia). }
  split_and!; [by destruct src|lia|done|]. by rewrite Z2Nat.id.
Qed.

(** The packet is the front part, as long as its IP header says, of what the
    session a data packet is addressed to authenticates; [src] is the source
    address in the header. *)
Definition authentic (t : Tunn) (p : PacketData) (packet : bytes) (src : IpAddr) : Prop :=
  ∃ s pt n v, session_at (slot p.(pd_receiver_idx)) t = Some s ∧
    s.(receiving_index) = p.(pd_receiver_idx) ∧
    aead_chacha20_open s.(receiver) p.(pd_counter) p.(pd_encrypted_encapsulated_packet) [] = Ok pt ∧
    packet = take n pt ∧ (n ≤ length pt)%nat ∧
    ip_version pt = Some v ∧ ip_header v pt = Some (Z.of_nat n, src).

Lemma data_authentic p dst t w res s' :
  handle_data p dst (t, w) = Ret (Ok res, s') → is_tunnel res = true →
  ∃ packet src, res = to_tunnel packet src ∧ authentic t p packet src.
Proof.
  unfold handle_data. run_ok. cbn [fst]. destruct (session_at _ t) as [s|] eqn:Hs; [|done].
  intros (pt' & s1 & Hm & Hk)%bind_inv. revert Hm. unfold on_session. cbn [fst snd]. rewrite Hs.
  destruct (Nat.le_gt_cases (length p.(pd_encrypted_encapsulated_packet)) (length dst)) as [Hl|Hl].
  2:{ unfold receive_packet_data, mbind, M_bind, assert_. by rewrite (proj2 (Nat.leb_gt _ _)). }
  rewrite receive_packet_data_eq by done.
  destruct (Z.eqb_spec p.(pd_receiver_idx) s.(receiving_index)) as [Hidx|]; cbn [negb]; [|done].
  destruct (Validator.will_accept _ _); [|done].
  destruct (aead_chacha20_open _ _ _ _) as [pt|] eqn:Ho; [|done].
  destruct (receiving_counter_mark _ _) as [[[[]|] s2]|]; [|done..]. intros [= <- <-].
  revert Hk. run_ok. run_ok. intros Hv Ht. destruct (validate_prefix _ _ _ _ Hv Ht) as (n & src & v & ? & ? & ? & ?).
  exists (take n pt), src. split; [done|]. by exists s, pt, n, v.
Qed.

Lemma verified_authentic packet dst t w res s' :
  handle_verified_packet packet dst (t, w) = Ret (Ok res, s') → is_tunnel res = true →
  ∃ p ip src, packet = PData p ∧ res = to_tunnel ip src ∧ authentic t p ip src.
Proof.
  unfold handle_verified_packet. intros (hr & s2 & Hh & Hk)%bind_inv. revert Hk. intros [= <- _] Ht.
  revert Hh. unfold attempt. destruct hr as [hres|]; [|done]. destruct packet as [p|p|p|p].
  - destruct (handle_handshake_init p dst _) as [[]|] eqn:Hh; [|done]. intros [= -> _].
    by rewrite (never_init _ _ _ _ _ Hh) in Ht.
  - destruct (handle_handshake_response p dst _) as [[]|] eqn:Hh; [|done]. intros [= -> _].
    by rewrite (never_response _ _ _ _ _ Hh) in Ht.
  - destruct (handle_cookie_reply p _) as [[]|] eqn:Hh; [|done]. intros [= -> _].
    by rewrite (never_cookie _ _ _ _ Hh) in Ht.
  - destruct (handle_data p dst _) as [[]|] eqn:Hh; [|done]. intros [= -> _].
    destruct (data_authentic _ _ _ _ _ _ Hh Ht) as (ip & src & Hd). by exists p, ip, src.
Qed.

Lemma decapsulate_authentic addr datagram dst t w res s' :
  decapsulate addr datagram dst (t, w) = Ret (Ok res, s') → is_tunnel res = true →
  ∃ p ip src, parse_incoming_packet datagram = Ok (PData p) ∧ res = to_tunnel ip src ∧ authentic t p ip src.
Proof.
  unfold decapsulate. case_bool_decide; [intros Hr Ht; by rewrite (never_queued _ _ _ _ Hr) in Ht|].
  run_ok. cbn [fst]. intros (r0 & s1 & Hm & Hk)%bind_inv. revert Hm. unfold attempt, on_limiter. cbn [fst snd].
  destruct (w.(w_limiters) !! _) as [rl|]; [|done].
  pose proof (verify_packet_wp addr datagram (zeros COOKIE_REPLY_SZ) rl w.(w_env) ltac:(done)) as Hv.
  unfold wp in Hv. destruct (verify_packet _ _ _ _) as [[r [rl' e']]|]; [|done].
  destruct Hv as (_ & _ & Hp). intros [= <- <-]. destruct r as [packet|[|e|reply| |]]; try done.
  - intros Ht. destruct (verified_authentic _ _ _ _ _ _ Hk Ht) as (p & ip & src & -> & Hd). by exists p, ip, src.
  - by injection Hk as <- _.
  - apply bind_inv in Hk as (? & ? & _ & [= <- _]). done.
Qed.

(** C19.  Only authentic data reaches the interface: whenever [decapsulate]
    asks to write a packet to the tunnel interface, the datagram was a data
    packet for a session of this tunnel, addressed to that session's index,
    whose content the session's key authenticates; the packet is the front
    part of that content which its IP header announces, and the source address
    is the one in the header. *)
Theorem delivered_is_authentic addr datagram dst t w res s' :
  decapsulate addr datagram dst (t, w) = Ret (Ok res, s') → is_tunnel res = true →
  ∃ p ip src, parse_incoming_packet datagram = Ok (PData p) ∧ res = to_tunnel ip src ∧ authentic t p ip src.
Proof. apply decapsulate_authentic. Qed.
End Authentic.

Section Queue.
Context `{CryptoLaws}.

(** A packet whose sending fails is queued twice: when there is no
    session and the buffer is too small for a handshake initiation, the packet
    taken from the queue is put at its end by [encapsulate], and again at its
    front by the error path of [send_queued_packet]. *)
Lemma failed_send_queues_twice addr dst t w packet rest :
  session_at (slot t.(current)) t = None → t.(handshake).(state) = HNone →
  t.(packet_queue) = packet :: rest → (length rest + 1 < MAX_QUEUE_DEPTH)%nat →
  (length dst < HANDSHAKE_INIT_SZ)%nat →
  ∃ t' w', decapsulate addr [] dst (t, w) = Ret (Ok TDone, (t', w')) ∧
    t'.(packet_queue) = packet :: rest ++ [packet].
Proof.
  intros Hs Hst Hq Hlen Hdst. unfold decapsulate. rewrite bool_decide_eq_true_2 by done.
  unfold send_queued_packet.
  erewrite bind_ok by (unfold dequeue_packet; run_ok; cbn [fst]; rewrite Hq; reflexivity). cbn beta iota.
  set (t1 := queue_packet packet (with_packet_queue rest t)).
  assert (Ht1 : t1 = with_packet_queue (rest ++ [packet]) (with_packet_queue rest t)).
  { unfold t1, queue_packet. cbn [packet_queue with_packet_queue].
    by rewrite (proj2 (Nat.ltb_lt _ _)) by lia. }
  assert (He : encapsulate packet dst (with_packet_queue rest t, w) = Ret (Ok (TErr DestinationBufferTooSmall), (t1, w))).
  { unfold encapsulate. run_ok. run_ok. unfold session_at in *. cbn [fst current sessions with_packet_queue].
    rewrite Hs. run_ok. cbn [fst snd]. fold t1.
    unfold tunn_format_handshake_initiation. run_ok. cbn [fst].
    assert (state (handshake t1) = HNone) as Hst1 by (rewrite Ht1; exact Hst).
    unfold is_in_progress, is_expired. rewrite Hst1. cbn [andb negb when].
    run_ok. erewrite bind_ok.
    2:{ apply attempt_run, zoom_run. unfold format_handshake_initiation.
        by rewrite (proj2 (Nat.ltb_lt _ _) Hdst). }
    cbn beta iota. by destruct t1, w. }
  erewrite bind_ok by exact He. cbn beta iota. run_ok. eexists _, w. split; [reflexivity|].
  cbn [fst]. unfold requeue_packet. rewrite Ht1. cbn [packet_queue with_packet_queue].
  rewrite (proj2 (Nat.ltb_lt _ _)); [done|]. rewrite length_app. cbn. lia.
Qed.
End Queue.

(** ** Witnesses *)

Section TunnelWitnesses.
#[local] Existing Instance toy_crypto.
#[local] Existing Instance toy_laws.

Definition fresh_timers : Timers := {|
  is_initiator := false;
  time_started := test_clock 0;
  timers := replicate 9 0;
  session_timers := replicate N_SESSIONS 0;
  want_keepalive := false;
  want_handshake := false;
  persistent_keepalive_secs := 0;
  should_reset_rr := false;
|}.
Definition fresh_tunn (h : Handshake) (queue : list bytes) : Tunn := {|
  handshake := h;
  sessions := replicate N_SESSIONS None;
  current := 0;
  packet_queue := queue;
  t_timers := fresh_timers;
  tx_bytes := 0;
  rx_bytes := 0;
  rate_limiter := 0;
|}.
Definition limiter_for (public : bytes) : RateLimiter := {|
  nonce_key := k1;
  secret_key := zeros 16;
  start_time := test_clock 0;
  nonce_ctr := 0;
  mac1_key := b2s_hash LABEL_MAC1 public;
  rl_cookie_key := b2s_hash LABEL_COOKIE public;
  limit := 10;
  count := 0;
  last_reset := test_clock 0;
|}.
Definition world_of (public : bytes) : world := MkWorld test_env {[ 0%nat := limiter_for public ]}.

Lemma fresh_tunn_inv buf g h public :
  handshake_inv g h → h.(stamper) = test_stamper → tunn_inv buf g (fresh_tunn h [], world_of public).
Proof.
  intros Hh Hst. split; [done|apply test_clock_ok|cbn; rewrite Hst; apply test_stamper_ok|..].
  - split; [done|]. intros i s Hi. by apply lookup_replicate in Hi as [? _].
  - cbn. unfold MAX_QUEUE_DEPTH. lia.
  - constructor.
  - pose proof (now_of_nonneg test_env fresh_timers test_clock_ok (clock_norm _ test_clock_ok 0%nat)).
    split; [apply (clock_norm _ test_clock_ok 0%nat)|done|done|..]; apply Forall_replicate; cbn; lia.
  - cbn. eauto.
Qed.

(** An IPv4 header from 10.0.0.1 to 10.0.0.2 without payload. *)
Definition ip_packet : bytes :=
  byte.of_Z <$> [69; 0; 0; 20; 0; 0; 0; 0; 64; 17; 0; 0; 10; 0; 0; 1; 10; 0; 0; 2].
Definition ip_source : bytes := byte.of_Z <$> [10; 0; 0; 1].

Lemma tunnel_never_panics_witness :
  ∃ t w0 rs t' w',
    @Tunn_new _ WireGuardError k1 (x25519_public k2) None None 1 None (MkWorld test_env ∅) = Ret (Ok t, w0) ∧
    tunn_handle_all (zeros 148) [TvEncapsulate ip_packet; TvTimers; TvDecapsulate None (zeros 40);
      TvInitiate true; TvDecapsulate None []] (t, w0) = Ret (Ok rs, (t', w')) ∧
    tunn_inv 148 1 (t', w').
Proof.
  apply (tunnel_never_panics k1 (x25519_public k2) None None 1 None (MkWorld test_env ∅)
    (from_secs 1700000000) (zeros 148) [TvEncapsulate ip_packet; TvTimers; TvDecapsulate None (zeros 40);
      TvInitiate true; TvDecapsulate None []]);
    [exact test_can_start|done|done|vm_compute; lia|repeat constructor; vm_compute; lia].
Defined.

Lemma packet_delivery_witness :
  ∃ init sA1 resp sB1 keepalive sA2 data sA3 sB2 sB3,
    encapsulate ip_packet (zeros 148) (fresh_tunn initiator [], world_of (x25519_public k1)) =
      Ret (Ok (WriteToNetwork init), sA1) ∧
    decapsulate None init (zeros 148) (fresh_tunn responder [], world_of (x25519_public k2)) =
      Ret (Ok (WriteToNetwork resp), sB1) ∧
    decapsulate None resp (zeros 148) sA1 = Ret (Ok (WriteToNetwork keepalive), sA2) ∧
    decapsulate None [] (zeros 148) sA2 = Ret (Ok (WriteToNetwork data), sA3) ∧
    decapsulate None keepalive (zeros 148) sB1 = Ret (Ok TDone, sB2) ∧
    decapsulate None data (zeros 148) sB2 = Ret (Ok (WriteToTunnelV4 ip_packet ip_source), sB3).
Proof.
  apply (packet_delivery 1 (fresh_tunn initiator []) (world_of (x25519_public k1))
    2 (fresh_tunn responder []) (world_of (x25519_public k2)) (zeros 148) None None ip_packet 4 (V4 ip_source)).
  - apply (fresh_tunn_inv 148); [exact initiator_inv|done].
  - apply (fresh_tunn_inv 148); [exact responder_inv|done].
  - exact test_paired.
  - by split.
  - eexists. split; [apply lookup_insert_eq|]. by split.
  - eexists. split; [apply lookup_insert_eq|]. by split.
  - by vm_compute.
  - vm_compute. lia.
  - vm_compute. lia.
  - by vm_compute.
  - by vm_compute.
Defined.

(** The responder with one session, and a packet for that session. *)
Definition bob_tunn : Tunn :=
  with_sessions (<[1%nat := Some bob]> (replicate N_SESSIONS None)) (fresh_tunn responder []).
Definition bob_datagram : bytes :=
  encode (PData (MkPacketData 513 0 (aead_chacha20_seal k1 0 ip_packet []))) [].

Lemma delivered_is_authentic_witness :
  ∃ res s', decapsulate None bob_datagram (zeros 148) (bob_tunn, world_of (x25519_public k2)) = Ret (Ok res, s') ∧
    ∃ p ip src, parse_incoming_packet bob_datagram = Ok (PData p) ∧ res = to_tunnel ip src ∧
      authentic bob_tunn p ip src.
Proof.
  destruct (decapsulate_data None (zeros 148) bob_tunn (world_of (x25519_public k2)) bob Validator.w_empty 0
    ip_packet (limiter_for (x25519_public k2))) as (s' & t' & _ & _ & _ & _ & Hd).
  - apply lookup_insert_eq.
  - done.
  - done.
  - vm_compute. lia.
  - done.
  - exact Validator.default_implements.
  - unfold Validator.w_accepts. by rewrite bool_decide_eq_true_2.
  - destruct (validate_whole ip_packet 4 (V4 ip_source) t' (MkWorld test_env
      (<[0%nat := limiter_for (x25519_public k2)]> (world_of (x25519_public k2)).(w_limiters))))
      as (t2 & Hv & _); [by vm_compute|by vm_compute|].
    assert (Hr : decapsulate None bob_datagram (zeros 148) (bob_tunn, world_of (x25519_public k2)) =
      Ret (Ok (to_tunnel ip_packet (V4 ip_source)), (t2, MkWorld test_env
        (<[0%nat := limiter_for (x25519_public k2)]> (world_of (x25519_public k2)).(w_limiters))))).
    { etransitivity; [exact Hd|]. by erewrite bind_ok by (apply attempt_run; exact Hv). }
    eexists _, _. split; [exact Hr|].
    exact (delivered_is_authentic None bob_datagram (zeros 148) bob_tunn _ _ _ Hr eq_refl).
Defined.

Lemma failed_send_queues_twice_witness :
  ∃ t' w', decapsulate None [] (zeros 10) (fresh_tunn initiator [hello], world_of (x25519_public k1)) =
      Ret (Ok TDone, (t', w')) ∧ t'.(packet_queue) = [hello; hello].
Proof.
  apply (failed_send_queues_twice None (zeros 10) (fresh_tunn initiator [hello]) (world_of (x25519_public k1))
    hello []); [done|done|done|vm_compute; lia|vm_compute; lia].
Defined.
End TunnelWitnesses.
