(* ===== verification/TunnTimers.v ===== *)
(** * Theorems about the timers of the tunnel (noise/timers.rs)

    Keys do not outlive their time: sessions are dropped after
    [REJECT_AFTER_TIME], everything after three times that, and a session in
    use is renewed after [REKEY_AFTER_TIME]. *)

From S2P Require Import Prelude Errors ReplayWindow Time Crypto Packet Session Tai64N Handshake RateLimiter Tunn.
From coqutil Require Import Byte.

Create HintDb ring.

(** ** Operations that bring no session into the ring *)

Definition no_new_session (t t' : Tunn) : Prop :=
  ∀ i, session_at i t = None → session_at i t' = None.

#[export] Instance no_new_session_preorder : PreOrder no_new_session.
Proof. split; [by intros t i|]. intros t1 t2 t3 H12 H23 i Hi. by apply H23, H12. Qed.

Definition adds_nothing {A} (m : TM A) : Prop :=
  ∀ s r s', m s = Ret (r, s') → no_new_session s.1 s'.1.

Section AddsNothing.
Context `{Crypto}.

Lemma adds_ret {A} (a : A) : adds_nothing (mret a).
Proof. intros s r s' [= _ <-]. done. Qed.

Lemma adds_bind {A B} (m : TM A) (k : A → TM B) :
  adds_nothing m → (∀ a, adds_nothing (k a)) → adds_nothing (m ≫= k).
Proof.
  intros Hm Hk s r s'. unfold mbind, M_bind. destruct (m s) as [[[a|e] s1]|] eqn:Hs; [..|done].
  - intros Hr. etrans; [by eapply Hm|by eapply Hk].
  - intros [= _ <-]. by eapply Hm.
Qed.

Lemma adds_gets {A} (f : Tunn → A) : adds_nothing (t_gets f).
Proof. intros s r s' [= _ <-]. done. Qed.

(** A change of something else than the ring. *)
Lemma adds_modify f : (∀ t, (f t).(sessions) = t.(sessions)) → adds_nothing (t_modify f).
Proof. intros Hf s r s' [= _ <-] i. unfold session_at. cbn. by rewrite Hf. Qed.

Lemma adds_tick name : adds_nothing (t_tick name).
Proof. by apply adds_modify. Qed.

Lemma adds_io {A} (m : M WireGuardError env A) : adds_nothing (t_io m).
Proof.
  intros s r s'. unfold t_io, zoom. destruct (m _) as [[]|]; [|done]. intros [= _ <-]. cbn. reflexivity.
Qed.

Lemma adds_handshake {A} (m : HM A) : adds_nothing (on_handshake m).
Proof.
  intros s r s'. unfold on_handshake, zoom. destruct (m _) as [[? []]|]; [|done].
  intros [= _ <-] i. done.
Qed.

Lemma adds_session {A} i (m : M WireGuardError Session A) : adds_nothing (on_session i m).
Proof.
  intros s r s'. unfold on_session. destruct (session_at i s.1) eqn:Hs; [|done].
  destruct (m _) as [[]|]; [|done]. intros [= _ <-] j Hj. unfold session_at in *. cbn.
  destruct (decide (i = j)) as [->|]; [congruence|]. by rewrite list_lookup_insert_ne.
Qed.

Lemma adds_unwrap {A} (o : option A) : adds_nothing (unwrap o).
Proof. destruct o; [apply adds_ret|by intros s r s']. Qed.

Lemma adds_when b (m : TM ()) : adds_nothing m → adds_nothing (when b m).
Proof. intros Hm. destruct b; [done|apply adds_ret]. Qed.

Lemma adds_and_then b (m : TM bool) : adds_nothing m → adds_nothing (and_then b m).
Proof. intros Hm. destruct b; [done|apply adds_ret]. Qed.

Lemma adds_attempt {A} (m : TM A) : adds_nothing m → adds_nothing (attempt (E' := WireGuardError) m).
Proof.
  intros Hm s r s'. unfold attempt. destruct (m s) as [[r1 s1]|] eqn:Hs; [|done].
  intros [= _ <-]. by eapply Hm.
Qed.
End AddsNothing.

#[export] Hint Resolve @adds_ret @adds_gets adds_tick @adds_io @adds_handshake @adds_session
  @adds_unwrap : ring.

Ltac adds :=
  repeat first
    [ progress intros
    | solve [auto with ring]
    | apply adds_bind | apply adds_when | apply adds_and_then | apply adds_attempt
    | case_match | solve [apply adds_modify; intros; by repeat case_match] ].

Section Ring.
Context `{Crypto}.

Lemma adds_clear : adds_nothing timers_clear.
Proof. unfold timers_clear. adds. Qed.

Lemma adds_clear_all : adds_nothing clear_all.
Proof.
  unfold clear_all. apply adds_bind; [|adds; apply adds_clear].
  intros s r s' [= _ <-] i _. unfold session_at. cbn. rewrite list_lookup_fmap.
  by destruct (sessions _ !! i).
Qed.
#[local] Hint Resolve adds_clear adds_clear_all : ring.

Lemma adds_initiation dst b : adds_nothing (tunn_format_handshake_initiation dst b).
Proof. unfold tunn_format_handshake_initiation. adds. Qed.
#[local] Hint Resolve adds_initiation : ring.

Lemma adds_encapsulate src dst : adds_nothing (encapsulate src dst).
Proof. unfold encapsulate, queue_packet. adds. Qed.
#[local] Hint Resolve adds_encapsulate : ring.

Lemma adds_renew now dst : adds_nothing (renew now dst).
Proof.
  unfold renew, required_with_timer, required_without_timer, since, take_want_handshake, take_want_keepalive.
  adds.
Qed.
End Ring.

(** ** Aging *)

(** The time a session was established, by its slot. *)
Definition session_timer (i : nat) (t : Tunn) : Duration :=
  match t.(t_timers).(session_timers) !! i with Some d => d | None => 0 end.

Lemma aged_timers now i t : (aged now i t).(t_timers).(timers) = t.(t_timers).(timers).
Proof. unfold aged. by case_match. Qed.

Lemma aged_handshake now i t : (aged now i t).(handshake) = t.(handshake).
Proof. unfold aged. by case_match. Qed.

Lemma aged_initiator now i t : (aged now i t).(t_timers).(is_initiator) = t.(t_timers).(is_initiator).
Proof. unfold aged. by case_match. Qed.

Lemma aged_other now i j t :
  i ≠ j → session_at j (aged now i t) = session_at j t ∧ session_timer j (aged now i t) = session_timer j t.
Proof.
  intros Hne. unfold aged. cbn zeta. destruct (_ <? _); [|done].
  unfold session_at, session_timer. cbn. by rewrite !list_lookup_insert_ne.
Qed.

Lemma dropped_slot i t : session_at i (with_sessions (<[i := None]> t.(sessions)) t) = None.
Proof.
  unfold session_at. cbn. destruct (decide (i < length t.(sessions))%nat).
  - by rewrite list_lookup_insert_eq.
  - rewrite list_insert_ge by lia. by rewrite lookup_ge_None_2 by lia.
Qed.

Lemma aged_same now i t :
  REJECT_AFTER_TIME < now - session_timer i t → session_at i (aged now i t) = None.
Proof.
  intros Hold. unfold aged. fold (session_timer i t). rewrite (proj2 (Z.ltb_lt _ _) Hold).
  apply dropped_slot.
Qed.

(** Whatever the other slots are, an old session is dropped. *)
Lemma aged_all_drops now i t :
  (i < N_SESSIONS)%nat → REJECT_AFTER_TIME < now - session_timer i t →
  session_at i (aged_all now t) = None.
Proof.
  intros Hi. unfold aged_all. assert (Hin : i ∈ seq 0 N_SESSIONS) by (apply elem_of_seq; lia).
  revert Hin. generalize (seq 0 N_SESSIONS). intros slots. revert t.
  induction slots as [|j slots IH]; intros t Hin Hold; [by apply not_elem_of_nil in Hin|]. cbn [foldl].
  destruct (decide (j = i)) as [->|Hne].
  - assert (Hnone : ∀ t, session_at i t = None → session_at i (foldl (λ t i, aged now i t) t slots) = None).
    { clear. induction slots as [|k slots IH]; intros t Ht; cbn; [done|]. apply IH.
      destruct (decide (k = i)) as [->|Hk]; [|by rewrite (proj1 (aged_other now k i t Hk))].
      unfold aged. cbn zeta. destruct (_ <? _); [apply dropped_slot|done]. }
    apply Hnone. by apply aged_same.
  - destruct (aged_other now j i t Hne) as [_ Ht]. apply IH; [|by rewrite Ht].
    apply elem_of_cons in Hin as [->|]; done.
Qed.

Lemma updated_parts now t :
  (∀ name, name ≠ TimeCurrent → timer_get name (updated now t).(t_timers) = timer_get name t.(t_timers)) ∧
  (updated now t).(handshake) = t.(handshake) ∧
  (updated now t).(t_timers).(is_initiator) = t.(t_timers).(is_initiator).
Proof.
  unfold updated, aged_all. set (t0 := with_t_timers _ t).
  assert (Hf : ∀ slots t, (foldl (λ t i, aged now i t) t slots).(t_timers).(timers) = t.(t_timers).(timers) ∧
    (foldl (λ t i, aged now i t) t slots).(handshake) = t.(handshake) ∧
    (foldl (λ t i, aged now i t) t slots).(t_timers).(is_initiator) = t.(t_timers).(is_initiator)).
  { induction slots as [|i slots IH]; intros u; [done|]. cbn [foldl].
    by rewrite !(proj1 (IH _)), (proj1 (proj2 (IH _))), (proj2 (proj2 (IH _))), aged_timers, aged_handshake, aged_initiator. }
  destruct (Hf (seq 0 N_SESSIONS) t0) as (Ht & Hh & Hi). split_and!; [|by rewrite Hh|by rewrite Hi].
  intros name Hname. unfold timer_get. rewrite Ht. unfold t0, timer_set. cbn [t_timers with_t_timers timers with_timers].
  rewrite list_lookup_insert_ne; [done|]. by destruct name.
Qed.

Section Theorems.
Context `{CryptoLaws}.

(** C16.  Old keys are dropped: after [update_timers] no slot of the ring holds
    a session that was established more than [REJECT_AFTER_TIME] (three
    minutes) before. *)
Theorem old_sessions_dropped buf g dst t w :
  tunn_inv buf g (t, w) → (DATA_OVERHEAD_SZ ≤ length dst)%nat → (DATA_OVERHEAD_SZ ≤ buf)%nat →
  ∃ res t' w', update_timers dst (t, w) = Ret (Ok res, (t', w')) ∧
    ∀ i, (i < N_SESSIONS)%nat →
      REJECT_AFTER_TIME < now_of w.(w_env) t.(t_timers) - session_timer i t → session_at i t' = None.
Proof.
  intros Hinv Hdst Hbuf.
  destruct (wp_elim _ _ _ (update_timers_safe buf g dst t w Hinv Hdst Hbuf)) as (r & [t' w'] & Hrun & _ & res & ->).
  exists res, t', w'. split; [done|]. intros i Hi Hold.
  destruct (update_timers_eq buf g dst t w Hinv) as (w1 & Heq & _ & Hle & _). rewrite Heq in Hrun.
  set (now := now_of _ _) in *.
  assert (Hnone : session_at i (updated now t) = None).
  { unfold updated. by apply aged_all_drops. }
  rewrite act_on_timers_eq in Hrun by done. destruct (is_expired _); [by injection Hrun as _ <- _|].
  cbn zeta in Hrun. assert (Hck : session_at i (without_old_cookie now (updated now t)) = None).
  { unfold without_old_cookie. by destruct (cookie_is_old _ _). }
  destruct (_ <=? _).
  - assert (Had : adds_nothing (_ ← clear_all; mret (TErr ConnectionExpired)))
      by (apply adds_bind; [apply adds_clear_all|intros; apply adds_ret]).
    by apply (Had _ _ _ Hrun i).
  - by apply (adds_renew now dst _ _ _ Hrun i).
Qed.

(** C17.  A dead connection leaves no keys: when no session was established
    for three times [REJECT_AFTER_TIME], [update_timers] reports
    [ConnectionExpired], and afterwards there is no session, no pending
    handshake, no previous handshake and no queued packet left. *)
Theorem connection_expires buf g dst t w :
  tunn_inv buf g (t, w) → is_expired t.(handshake) = false →
  REJECT_AFTER_TIME * 3 ≤ now_of w.(w_env) t.(t_timers) - timer_get TimeSessionEstablished t.(t_timers) →
  ∃ t' w', update_timers dst (t, w) = Ret (Ok (TErr ConnectionExpired), (t', w')) ∧
    (∀ i, session_at i t' = None) ∧ t'.(handshake).(state) = Expired ∧
    t'.(handshake).(previous) = Expired ∧ t'.(packet_queue) = [].
Proof.
  intros Hinv Hexp Hold. destruct (update_timers_eq buf g dst t w Hinv) as (w1 & Heq & Hinv1 & Hle & _).
  set (now := now_of _ _) in *. destruct (updated_parts now t) as (Hget & Hh & _).
  rewrite act_on_timers_eq, Hh, Hexp, (Hget TimeSessionEstablished), (proj2 (Z.leb_le _ _) Hold) in Heq by done.
  cbn zeta in Heq. destruct (without_old_cookie_ok buf g now _ w1 Hinv1) as [Hinv2 _].
  apply inv_expire in Hinv2. set (t1 := with_handshake _ _) in Heq, Hinv2.
  destruct (wp_elim _ _ _ (clear_all_keeps buf g (λ r s', r = Ok () ∧ s'.1.(handshake) = t1.(handshake) ∧
    s'.1.(packet_queue) = [] ∧ s'.1.(sessions) = (λ _, None) <$> t1.(sessions)) t1 w1 Hinv2 ltac:(done)))
    as (r & [t' w'] & Hrun & -> & Hh' & Hq & Hs). cbn in Hh', Hq, Hs.
  rewrite (bind_ok _ _ _ _ _ Hrun) in Heq. exists t', w'. split_and!; [exact Heq| |by rewrite Hh'|by rewrite Hh'|done].
  intros i. unfold session_at. rewrite Hs, list_lookup_fmap. by destruct (_ !! i).
Qed.

(** C18.  A session in use is renewed: when the initiator of a session has sent
    data since it was established, the session is [REKEY_AFTER_TIME] (two
    minutes) old and no handshake is under way, [update_timers] sends a new
    handshake initiation and awaits the response under the index it announces. *)
Theorem session_renewed buf g dst t w :
  tunn_inv buf g (t, w) → t.(handshake).(state) = HNone → t.(t_timers).(is_initiator) = true →
  let established := timer_get TimeSessionEstablished t.(t_timers) in
  let now := now_of w.(w_env) t.(t_timers) in
  established < timer_get TimeLastDataPacketSent t.(t_timers) →
  REKEY_AFTER_TIME ≤ now - established < REJECT_AFTER_TIME * 3 →
  (HANDSHAKE_INIT_SZ ≤ length dst)%nat →
  ∃ msg p st t' w', update_timers dst (t, w) = Ret (Ok (WriteToNetwork msg), (t', w')) ∧
    parse_incoming_packet msg = Ok (PHandshakeInit p) ∧
    t'.(handshake).(state) = InitSent st ∧ st.(his_local_index) = p.(hi_sender_idx).
Proof.
  intros Hinv Hst Hini established now Hsent [Hold Hyoung] Hdst.
  destruct (update_timers_eq buf g dst t w Hinv) as (w1 & Heq & Hinv1 & Hle & _). fold now in Heq, Hinv1, Hle.
  destruct (updated_parts now t) as (Hget & Hh & Hi). rewrite act_on_timers_eq in Heq by done.
  assert (Hexp : is_expired t.(handshake) = false) by (unfold is_expired; by rewrite Hst).
  rewrite Hh, Hexp, (Hget TimeSessionEstablished) in Heq by done. fold established in Heq.
  rewrite (proj2 (Z.leb_gt _ _)) in Heq by lia. cbn zeta in Heq.
  destruct (without_old_cookie_ok buf g now _ w1 Hinv1) as [Hinv2 Ht2].
  set (t1 := without_old_cookie _ _) in *.
  assert (Hst1 : t1.(handshake).(state) = HNone).
  { rewrite <-Hst, <-Hh. unfold t1, without_old_cookie. by destruct (cookie_is_old _ _). }
  destruct (wp_elim _ _ _ (required_rekey buf g now t1 w1 Hinv2 ltac:(by rewrite Ht2) ltac:(by rewrite Ht2, Hi)
    ltac:(by rewrite Ht2, !Hget) ltac:(by rewrite Ht2, Hget))) as (r & [t2 w2] & Hreq & -> & Hinv3 & Hh2).
  cbn in Hh2. destruct (format_initiation_sends buf g dst t2 w2 Hinv3) as (p & st & t' & w' & Hf & Hp & Hs & Hl);
    [unfold is_expired; by rewrite Hh2, Hst1|done|].
  eexists _, p, st, t', w'. split_and!; [|by apply parse_sealed|done|done]. rewrite Heq. unfold renew.
  run_ok. cbn [fst]. unfold timer. rewrite Hst1. erewrite bind_ok; [|erewrite bind_ok by exact Hreq; reflexivity].
  exact Hf.
Qed.
End Theorems.

(** ** Witnesses *)

Section TimerWitnesses.
#[local] Existing Instance toy_crypto.
#[local] Existing Instance toy_laws.

(** A clock that ticks once a second. *)
Definition slow_clock (i : nat) : Instant := TimeSpec (1000 + Z.min (Z.of_nat i) 1000000) 0.
Definition slow_env (n : nat) : env := {|
  e_clock := slow_clock;
  e_system := test_env.(e_system);
  e_tick := n;
  e_rng := test_env.(e_rng);
  e_rng_pos := 0;
|}.

Lemma slow_clock_ok n : clock_ok (slow_env n).
Proof.
  split; intros i; [split; cbn; unfold NANOSECOND; lia|].
  intros j ?. unfold instant_ns, from_secs, NANOSECOND. cbn. lia.
Qed.

Lemma slow_stamper_ok n : stamper_ok test_stamper (slow_env n).
Proof.
  split; [apply (clock_norm _ (slow_clock_ok 0) 0)|done|]. intros i. unfold as_secs, instant_ns, from_secs, NANOSECOND.
  cbn [e_clock slow_env slow_clock tv_sec tv_nsec duration_at_start test_stamper].
  unfold from_secs, NANOSECOND. apply Z.div_lt_upper_bound; [done|]. lia.
Qed.

(** A tunnel that has been running for [n] seconds, with one session that was
    established at the start. *)
Definition old_timers (sent : Duration) : Timers := {|
  is_initiator := true;
  time_started := slow_clock 0;
  timers := [0; 0; 0; 0; 0; 0; sent; 0; 0];
  session_timers := replicate N_SESSIONS 0;
  want_keepalive := false;
  want_handshake := false;
  persistent_keepalive_secs := 0;
  should_reset_rr := true;
|}.
Definition old_tunn (sent : Duration) : Tunn := {|
  handshake := initiator;
  sessions := None :: Some (Session_new 257 513 k1 k2) :: replicate 6 None;
  current := 257;
  packet_queue := [hello];
  t_timers := old_timers sent;
  tx_bytes := 0;
  rx_bytes := 0;
  rate_limiter := 0;
|}.
Definition world_at (n : nat) : world :=
  MkWorld (slow_env n) {[ 0%nat := test_limiter 10 ]}.

Lemma test_now n sent :
  Z.of_nat n ≤ 1000000 → now_of (slow_env n) (old_timers sent) = Z.of_nat n * 1000000000.
Proof.
  intros Hn. unfold now_of. rewrite duration_since_ns by (apply (clock_norm _ (slow_clock_ok 0))).
  unfold instant_ns, from_secs, NANOSECOND. cbn [slow_env e_clock e_tick old_timers time_started slow_clock].
  unfold slow_clock. cbn [tv_sec tv_nsec]. rewrite !Z.min_l by lia. lia.
Qed.

Lemma old_tunn_inv n sent :
  Z.of_nat n ≤ 1000000 → 0 ≤ sent ≤ Z.of_nat n * 1000000000 → tunn_inv 148 1 (old_tunn sent, world_at n).
Proof.
  intros Hn Hs. pose proof (test_now n sent Hn) as Hnow. split.
  - exact initiator_inv.
  - apply slow_clock_ok.
  - apply slow_stamper_ok.
  - split; [done|]. intros i s Hi. destruct i as [|[|i]]; [done|injection Hi as <-|].
    + split_and!; [by apply session_new_wf|done|done].
    + change (replicate 6 (@None Session) !! i = Some (Some s)) in Hi.
      by apply lookup_replicate in Hi as [? _].
  - cbn. unfold MAX_QUEUE_DEPTH. lia.
  - repeat constructor.
  - cbn [fst snd]. split; [apply (clock_norm _ (slow_clock_ok 0) 0)|done|done|..];
      cbn [world_at w_env t_timers old_tunn]; rewrite Hnow; repeat constructor; lia.
  - cbn. eauto.
Qed.

(** Two hundred seconds: the session is too old. *)
Lemma old_sessions_dropped_witness :
  ∃ res t' w', update_timers (zeros 148) (old_tunn 0, world_at 200) = Ret (Ok res, (t', w')) ∧
    session_at 1 t' = None.
Proof.
  destruct (old_sessions_dropped 148 1 (zeros 148) (old_tunn 0) (world_at 200)) as (res & t' & w' & Hr & Hd);
    [by apply old_tunn_inv|vm_compute; lia|vm_compute; lia|].
  exists res, t', w'. split; [exact Hr|]. apply Hd; [unfold N_SESSIONS; lia|].
  cbn [world_at w_env t_timers old_tunn]. by rewrite test_now.
Defined.

(** Six hundred seconds: the connection is dead. *)
Lemma connection_expires_witness :
  ∃ t' w', update_timers (zeros 148) (old_tunn 0, world_at 600) =
      Ret (Ok (TErr ConnectionExpired), (t', w')) ∧
    (∀ i, session_at i t' = None) ∧ t'.(handshake).(state) = Expired ∧
    t'.(handshake).(previous) = Expired ∧ t'.(packet_queue) = [].
Proof.
  apply (connection_expires 148 1 (zeros 148) (old_tunn 0) (world_at 600)); [by apply old_tunn_inv|done|].
  cbn [world_at w_env t_timers old_tunn]. by rewrite test_now.
Defined.

(** A hundred and thirty seconds, with data sent after one: time to renew. *)
Lemma session_renewed_witness :
  ∃ msg p st t' w', update_timers (zeros 148) (old_tunn 1000000000, world_at 130) =
      Ret (Ok (WriteToNetwork msg), (t', w')) ∧
    parse_incoming_packet msg = Ok (PHandshakeInit p) ∧
    t'.(handshake).(state) = InitSent st ∧ st.(his_local_index) = p.(hi_sender_idx).
Proof.
  apply (session_renewed 148 1 (zeros 148) (old_tunn 1000000000) (world_at 130));
    [by apply old_tunn_inv|done|done|done| |vm_compute; lia].
  cbn [world_at w_env t_timers old_tunn]. by rewrite test_now.
Defined.
End TimerWitnesses.
