(* ===== verification/Frame.v ===== *)
(** * What tunnels do to the world they share

    The tunnels of a device, and those behind the C bindings, share the clock,
    the random generator and the limiters.  A method of one tunnel only moves
    the readings on and keeps the limiters in their places, so the invariant of
    every other tunnel is kept. *)

From S2P Require Import Prelude Errors ReplayWindow Time Crypto Packet Session Tai64N Handshake RateLimiter.
From S2P Require Import Tunn Tunnel.
From coqutil Require Import Byte.

Record world_le (w w' : world) : Prop := {
  wl_env : env_le w.(w_env) w'.(w_env);
  wl_limiters : ∀ l, is_Some (w.(w_limiters) !! l) → is_Some (w'.(w_limiters) !! l);
}.

#[export] Instance world_le_preorder : PreOrder world_le.
Proof.
  split; [by intros w; split|]. intros w1 w2 w3 [He1 Hl1] [He2 Hl2]. split; [by etransitivity|auto].
Qed.

#[export] Instance env_le_preorder : PreOrder env_le.
Proof. split; apply _. Qed.

(** A handshake keeps its parameters, a limiter keeps nothing in particular. *)
Definition env_grows (s s' : RateLimiter * env) : Prop := env_le s.2 s'.2.
Definition hs_frame (s s' : Handshake * env) : Prop :=
  env_le s.2 s'.2 ∧ s'.1.(params) = s.1.(params).
Definition tunn_frame (s s' : Tunn * world) : Prop :=
  world_le s.2 s'.2 ∧ s'.1.(handshake).(params) = s.1.(handshake).(params).

#[export] Instance env_grows_preorder : PreOrder env_grows.
Proof. split; [intros s; unfold env_grows; reflexivity|]. intros s1 s2 s3. apply (transitivity (R := env_le)). Qed.

#[export] Instance hs_frame_preorder : PreOrder hs_frame.
Proof.
  split; [by intros s; split|]. intros s1 s2 s3 [H1 H2] [H3 H4]. split; [by etransitivity|congruence].
Qed.

#[export] Instance tunn_frame_preorder : PreOrder tunn_frame.
Proof.
  split; [by intros s; split|]. intros s1 s2 s3 [H1 H2] [H3 H4]. split; [by etransitivity|congruence].
Qed.

(** ** Clock and random generator *)

Section Clock.
Context {E : Type}.

Lemma now_grows : preserves env_le (@Instant_now E).
Proof. intros e r e' [= _ <-]. split; cbn; auto. Qed.

Lemma system_grows : preserves env_le (@SystemTime_since_epoch E).
Proof. intros e r e' [= _ <-]. split; cbn; auto. Qed.

Lemma fill_grows n : preserves env_le (@fill_bytes E n).
Proof. intros e r e' [= _ <-]. split; cbn; auto; lia. Qed.
End Clock.
#[export] Hint Resolve now_grows system_grows fill_grows : preserves.

Lemma stamp_grows {E} st : preserves env_le (@stamp E st).
Proof. unfold stamp. pres. Qed.

Lemma elapsed_grows {E} t : preserves env_le (@elapsed E t).
Proof. unfold elapsed. pres. Qed.
#[export] Hint Resolve stamp_grows elapsed_grows : preserves.

(** ** Handshakes *)

Lemma io_frame {A} (m : M WireGuardError env A) : preserves env_le m → preserves hs_frame (io m).
Proof. intros Hm. apply (pres_zoom_rel _ env_le); [done|]. by intros s e He. Qed.

Lemma self_gets_frame {A} (f : Handshake → A) : preserves hs_frame (self_gets f).
Proof. apply pres_gets, _. Qed.

Lemma self_modify_frame f : (∀ h, (f h).(params) = h.(params)) → preserves hs_frame (self_modify f).
Proof. intros Hf. apply pres_modify. intros s. by split; cbn. Qed.
#[export] Hint Resolve io_frame self_gets_frame : preserves.
#[export] Hint Extern 1 (preserves hs_frame (self_modify _)) =>
  apply self_modify_frame; intros; repeat case_match; reflexivity : preserves.

Lemma inc_index_frame : preserves hs_frame inc_index.
Proof. unfold inc_index. pres. Qed.
#[export] Hint Resolve inc_index_frame : preserves.

Section Frames.
Context `{Crypto}.

Lemma append_frame idx buf : preserves hs_frame (append_mac1_and_mac2 idx buf).
Proof. unfold append_mac1_and_mac2. pres. Qed.
Hint Resolve append_frame : preserves.

Lemma initiation_frame dst : preserves hs_frame (format_handshake_initiation dst).
Proof. unfold format_handshake_initiation. pres. Qed.

Lemma response_frame dst : preserves hs_frame (format_handshake_response dst).
Proof. unfold format_handshake_response. pres. Qed.
Hint Resolve initiation_frame response_frame : preserves.

Lemma receive_init_frame p dst : preserves hs_frame (receive_handshake_initialization p dst).
Proof. unfold receive_handshake_initialization. pres. Qed.

Lemma receive_response_frame p : preserves hs_frame (receive_handshake_response p).
Proof. unfold receive_handshake_response. pres. Qed.

Lemma receive_cookie_frame p : preserves hs_frame (receive_cookie_reply p).
Proof. unfold receive_cookie_reply. pres. Qed.
Hint Resolve receive_init_frame receive_response_frame receive_cookie_frame : preserves.

(** ** Limiters *)

Lemma rl_io_grows {E A} (m : M E env A) : preserves env_le m → preserves env_grows (rl_io m).
Proof. intros Hm. by apply (pres_zoom_rel _ env_le). Qed.

Lemma rl_gets_grows {E A} (f : RateLimiter → A) : preserves (E := E) env_grows (rl_gets f).
Proof. apply pres_gets, _. Qed.

Lemma rl_modify_grows {E} f : preserves (E := E) env_grows (rl_modify f).
Proof. apply pres_modify. intros s. unfold env_grows. reflexivity. Qed.
Hint Resolve rl_io_grows rl_gets_grows rl_modify_grows : preserves.

Lemma reset_grows {E} : preserves (E := E) env_grows reset_count.
Proof. unfold reset_count, when. pres. Qed.

Lemma cookie_reply_grows idx cookie mac dst : preserves env_grows (format_cookie_reply idx cookie mac dst).
Proof. unfold format_cookie_reply, nonce. pres. Qed.
Hint Resolve reset_grows cookie_reply_grows : preserves.

Lemma verify_grows addr src dst : preserves env_grows (verify_packet addr src dst).
Proof. unfold verify_packet, is_under_load, current_cookie. pres. Qed.
Hint Resolve verify_grows : preserves.

(** ** Tunnels *)

Lemma t_gets_frame {A} (f : Tunn → A) : preserves tunn_frame (t_gets f).
Proof. apply pres_gets, _. Qed.

Lemma t_modify_frame f :
  (∀ t, (f t).(handshake).(params) = t.(handshake).(params)) → preserves tunn_frame (t_modify f).
Proof. intros Hf. apply pres_modify. intros s. by split; cbn. Qed.

Lemma t_tick_frame name : preserves tunn_frame (t_tick name).
Proof. by apply t_modify_frame. Qed.

Lemma env_world e w : env_le w.(w_env) e → world_le w (with_w_env e w).
Proof. by split. Qed.

Lemma t_io_frame {A} (m : M WireGuardError env A) : preserves env_le m → preserves tunn_frame (t_io m).
Proof. intros Hm. apply (pres_zoom_rel _ env_le); [done|]. intros s e He. split; [by apply env_world|done]. Qed.

Lemma on_handshake_frame {A} (m : HM A) : preserves hs_frame m → preserves tunn_frame (on_handshake m).
Proof.
  intros Hm. apply (pres_zoom_rel _ hs_frame); [done|]. intros s [h e] [He Hp]. split; [by apply env_world|done].
Qed.

Lemma on_limiter_frame {E A} l (m : M E (RateLimiter * env) A) :
  preserves env_grows m → preserves tunn_frame (on_limiter l m).
Proof.
  intros Hm [t w] r s'. unfold on_limiter. cbn. destruct (w_limiters w !! l) as [rl|]; [|done].
  destruct (m _) as [[x [rl' e']]|] eqn:He; [|done]. intros [= _ <-]. apply Hm in He. split; [|done]. split; [exact He|].
  intros l' Hl'. cbn. destruct (decide (l' = l)) as [->|]; [rewrite lookup_insert_eq; eauto|].
  by rewrite lookup_insert_ne.
Qed.

Lemma on_session_frame {A} i (m : M WireGuardError Session A) : preserves tunn_frame (on_session i m).
Proof.
  intros [t w] r s'. unfold on_session. cbn. destruct (session_at i t); [|done].
  destruct (m _) as [[x s1]|]; [|done]. by intros [= _ <-].
Qed.

Lemma on_local_frame {T A} (x : T) (m : M WireGuardError T A) : preserves tunn_frame (on_local (S := Tunn * world) x m).
Proof. intros s r s'. unfold on_local. destruct (m x) as [[[a|e] x']|]; [..|done]; by intros [= _ <-]. Qed.
Hint Resolve t_gets_frame t_tick_frame t_io_frame on_handshake_frame on_limiter_frame
  on_session_frame on_local_frame : preserves.
Hint Extern 1 (preserves tunn_frame (t_modify _)) =>
  apply t_modify_frame; intros; unfold queue_packet, requeue_packet, set_current_session;
  repeat case_match; reflexivity : preserves.

Lemma clear_frame : preserves tunn_frame timers_clear.
Proof. unfold timers_clear. pres. Qed.
Hint Resolve clear_frame : preserves.

Lemma start_frame dst force : preserves tunn_frame (tunn_format_handshake_initiation dst force).
Proof. unfold tunn_format_handshake_initiation, when. pres. Qed.
Hint Resolve start_frame : preserves.

Lemma encapsulate_frame src dst : preserves tunn_frame (encapsulate src dst).
Proof. unfold encapsulate, when. pres. Qed.
Hint Resolve encapsulate_frame : preserves.

Lemma verified_frame p dst : preserves tunn_frame (handle_verified_packet p dst).
Proof.
  unfold handle_verified_packet, handle_handshake_init, handle_handshake_response, handle_cookie_reply, handle_data,
    validate_decapsulated_packet. pres.
Qed.
Hint Resolve verified_frame : preserves.

Lemma decapsulate_frame addr datagram dst : preserves tunn_frame (decapsulate addr datagram dst).
Proof. unfold decapsulate, send_queued_packet, dequeue_packet. pres. Qed.

Lemma update_timers_frame dst : preserves tunn_frame (update_timers dst).
Proof.
  unfold update_timers, update_session_timers, act_on_timers, required_with_timer, required_without_timer, clear_all,
    take_want_handshake, take_want_keepalive, and_then, since, when. pres.
Qed.

Lemma stats_frame : preserves tunn_frame stats.
Proof. unfold stats, time_since_last_handshake, since. pres. Qed.

Lemma handshake_time_frame : preserves tunn_frame last_handshake_time.
Proof. unfold last_handshake_time, time_since_last_handshake, since. pres. Qed.
End Frames.
#[export] Hint Resolve verify_grows reset_grows start_frame encapsulate_frame verified_frame decapsulate_frame
  update_timers_frame stats_frame handshake_time_frame : preserves.

(** ** The invariant of the other tunnels *)

Lemma tunn_inv_world `{CryptoLaws} buf g t w w' :
  tunn_inv buf g (t, w) → world_le w w' → tunn_inv buf g (t, w').
Proof.
  intros Hinv [He Hl]. apply (inv_env _ _ _ _ w'.(w_env)) in Hinv as []; [|done]. split; cbn in *; auto.
Qed.

(** ** New tunnels *)

Section New.
Context `{Crypto}.

(** The index is cut to 24 bits by the shift. *)
Lemma tunn_new_mod {E} sk peer psk ka index rl w :
  @Tunn_new _ E sk peer psk ka index rl w = Tunn_new sk peer psk ka (index mod 2 ^ 24) rl w.
Proof.
  unfold Tunn_new. do 3 f_equal. unfold wrap. rewrite !Z.shiftl_mul_pow2 by lia.
  change (2 ^ 32) with (2 ^ 24 * 2 ^ 8). by rewrite !Z.mul_mod_distr_r, Z.mod_mod by done.
Qed.

Lemma tunn_new_frame {E} sk peer psk ka index rl : preserves (E := E) world_le (Tunn_new sk peer psk ka index rl).
Proof.
  assert (Hz : ∀ A (m : M E env A), preserves env_le m → preserves world_le (zoom w_env with_w_env m)).
  { intros A m Hm. apply (pres_zoom_rel _ env_le); [done|]. intros w e He. by apply env_world. }
  assert (Hl : ∀ k, preserves (E := E) world_le (new_limiter k)).
  { intros k w r w'. unfold new_limiter. cbn. intros [= _ <-]. split; cbn; [split; cbn; auto; lia|].
    intros l Hx. rewrite lookup_insert_ne; [done|]. intros <-. apply elem_of_dom in Hx. revert Hx. apply is_fresh. }
  unfold Tunn_new, Handshake_new, Timers_new, TimeStamper_new. pres; try apply Hz; pres; apply Hl.
Qed.
End New.
