(* ===== verification/Lfsr.v ===== *)
(** * The generator of peer indexes ([IndexLfsr] of device/mod.rs)

    A 24-bit shift register.  Every index it gives is new, and it gives
    [2^24 - 2] of them before the assertion that guards against reuse fails. *)

From S2P Require Import Prelude Time.
From Stdlib Require Import Znumtheory Btauto.

Record IndexLfsr := MkIndexLfsr {
  initial : Z;
  lfsr : Z;
  mask : Z;
}.

Definition LFSR_MAX : Z := 0xffffff.
Definition LFSR_POLY : Z := 0xd80000.

(** [OsRng.next_u32()]: four bytes of the stream. *)
Definition next_u32 {E} : M E env Z :=
  bs ← fill_bytes 4; mret (from_le_bytes bs).

(** The loop draws until a value is not zero; [None] stands for a loop that
    has not ended after [fuel] draws. *)
Fixpoint random_index {E} (fuel : nat) : M E env (option Z) :=
  match fuel with
  | O => mret None
  | S fuel =>
    r ← next_u32;
    let i := Z.land r LFSR_MAX in
    if 0 <? i then mret (Some i) else random_index fuel
  end.

(** The register after a call of [next]. *)
Definition advance (x : Z) : Z :=
  Z.lxor (Z.shiftr x 1) (Z.land (wrap 32 (0 - Z.land x 1)) LFSR_POLY).

Definition lfsr_next {E} : M E IndexLfsr Z :=
  self ← get;
  let value := wrap 32 (self.(lfsr) - 1) in
  let x := advance self.(lfsr) in
  _ ← modify (λ s, MkIndexLfsr s.(initial) x s.(mask));
  _ ← assert_ (negb (x =? self.(initial)));
  mret (Z.lxor value self.(mask)).

Definition IndexLfsr_default {E} (fuel : nat) : M E env (option IndexLfsr) :=
  seed ← random_index fuel;
  mask ← random_index fuel;
  mret (match seed, mask with
        | Some seed, Some mask => Some (MkIndexLfsr seed seed mask)
        | _, _ => None
        end).

(** [n] calls in a row. *)
Fixpoint draw {E} (n : nat) : M E IndexLfsr (list Z) :=
  match n with
  | O => mret []
  | S n => i ← lfsr_next; rest ← draw n; mret (i :: rest)
  end.

(** ** One step of the register *)

Definition in24 (x : Z) : Prop := 0 ≤ x < 2 ^ 24.

Lemma advance_alt x : advance x = Z.lxor (Z.div2 x) (if Z.odd x then LFSR_POLY else 0).
Proof.
  unfold advance. rewrite Z.div2_spec. f_equal. change (Z.land x 1) with (Z.land x (Z.ones 1)). rewrite (Z.land_ones x 1) by lia.
  change (2 ^ 1) with 2. rewrite Zmod_odd. by destruct (Z.odd x).
Qed.

Lemma lxor_in24 x y : in24 x → in24 y → in24 (Z.lxor x y).
Proof.
  unfold in24. intros Hx Hy. assert (0 ≤ Z.lxor x y) as H0 by (apply Z.lxor_nonneg; lia).
  split; [done|]. destruct (Z.eq_dec (Z.lxor x y) 0) as [->|]; [done|].
  apply Z.log2_lt_pow2; [lia|]. eapply Z.le_lt_trans; [apply Z.log2_lxor; lia|].
  apply Z.max_lub_lt; [destruct (Z.eq_dec x 0) as [->|]|destruct (Z.eq_dec y 0) as [->|]];
    first [done | apply Z.log2_lt_pow2; lia].
Qed.

Lemma div2_lt x : in24 x → 0 ≤ Z.div2 x < 2 ^ 23.
Proof. unfold in24. rewrite Z.div2_div. intros. split; [apply Z.div_pos; lia|apply Z.div_lt_upper_bound; lia]. Qed.

Lemma advance_in24 x : in24 x → in24 (advance x).
Proof.
  intros Hx. rewrite advance_alt. pose proof (div2_lt x Hx).
  apply lxor_in24; [unfold in24; lia|]. unfold in24, LFSR_POLY. destruct (Z.odd x); lia.
Qed.

(** The inverse of a step. *)
Definition retreat (y : Z) : Z :=
  let b := Z.testbit y 23 in
  2 * Z.lxor y (if b then LFSR_POLY else 0) + Z.b2z b.

Lemma retreat_advance x : in24 x → retreat (advance x) = x.
Proof.
  intros Hx. pose proof (div2_lt x Hx) as Hd. unfold retreat.
  assert (Z.testbit (advance x) 23 = Z.odd x) as ->.
  { rewrite advance_alt, Z.lxor_spec. rewrite (Z.bits_above_log2 (Z.div2 x)); [by destruct (Z.odd x)|lia|].
    destruct (Z.eq_dec (Z.div2 x) 0) as [->|]; [done|]. apply Z.log2_lt_pow2; lia. }
  rewrite advance_alt, Z.lxor_assoc, Z.lxor_nilpotent, Z.lxor_0_r.
  symmetry. apply Z.div2_odd.
Qed.

Lemma advance_inj x y : in24 x → in24 y → advance x = advance y → x = y.
Proof. intros Hx Hy He. rewrite <- (retreat_advance x), <- (retreat_advance y) by done. by rewrite He. Qed.

Lemma advance_lxor x y : advance (Z.lxor x y) = Z.lxor (advance x) (advance y).
Proof.
  rewrite !advance_alt, !Z.div2_spec, Z.shiftr_lxor.
  assert (Z.odd (Z.lxor x y) = xorb (Z.odd x) (Z.odd y)) as ->.
  { rewrite <- !Z.bit0_odd. apply Z.lxor_spec. }
  apply Z.bits_inj'. intros n _. rewrite !Z.lxor_spec.
  destruct (Z.odd x), (Z.odd y); cbn [xorb]; rewrite ?Z.bits_0; btauto.
Qed.

(** The register after [n] steps. *)
Definition steps (n : nat) (x : Z) : Z := Nat.iter n advance x.
Arguments steps : simpl never.

Lemma steps_add n m x : steps (n + m) x = steps n (steps m x).
Proof. apply Nat.iter_add. Qed.

Lemma steps_S n x : steps (S n) x = steps n (advance x).
Proof. apply Nat.iter_succ_r. Qed.

Lemma steps_in24 n x : in24 x → in24 (steps n x).
Proof. intros. induction n; [done|]. by apply advance_in24. Qed.

Lemma steps_inj n x y : in24 x → in24 y → steps n x = steps n y → x = y.
Proof.
  intros Hx Hy. induction n as [|n IH]; [done|]. intros He. apply IH, advance_inj; auto using steps_in24.
Qed.

(** ** Every index is new *)

Lemma draw_run {E} n s :
  in24 s.(lfsr) → (∀ k, (k < n)%nat → steps (S k) s.(lfsr) ≠ s.(initial)) →
  @draw E n s = Ret (Ok ((λ k, Z.lxor (wrap 32 (steps k s.(lfsr) - 1)) s.(mask)) <$> seq 0 n),
    MkIndexLfsr s.(initial) (steps n s.(lfsr)) s.(mask)).
Proof.
  revert s. induction n as [|n IH]; intros [i x mk] Hx Hne; [done|]. cbn [draw lfsr initial mask] in *.
  erewrite bind_ok; [|unfold lfsr_next; do 2 run_ok; cbn;
    rewrite (proj2 (Z.eqb_neq (advance x) i) (Hne 0%nat ltac:(lia))); reflexivity].
  cbn beta. erewrite bind_ok by (apply IH; cbn [lfsr initial]; [by apply advance_in24|];
    intros k Hk; rewrite <- steps_S; apply (Hne (S k)); lia).
  cbn [lfsr initial mask]. unfold mret, M_ret. f_equal. f_equal; [f_equal|f_equal].
  - cbn [seq fmap list_fmap]. f_equal. rewrite <- (fmap_S_seq 0 n), <- list_fmap_compose.
    apply list_fmap_ext. intros ? k _. cbn. by rewrite <- steps_S.
  - by rewrite <- steps_S.
Qed.

Lemma draw_inv {E} n s ids s' :
  in24 s.(lfsr) → @draw E n s = Ret (Ok ids, s') → ∀ k, (k < n)%nat → steps (S k) s.(lfsr) ≠ s.(initial).
Proof.
  revert s ids s'. induction n as [|n IH]; intros [i x mk] ids s' Hx Hr k Hk; [lia|]. cbn [draw lfsr initial] in *.
  apply bind_inv in Hr as (v & s1 & Hv & (rest & s2 & Hrest & _)%bind_inv).
  revert Hv. unfold lfsr_next. do 2 (erewrite bind_ok by reflexivity). cbn.
  unfold assert_. destruct (Z.eqb_spec (advance x) i) as [|Hne]; [done|]. intros [= <- <-].
  destruct k as [|k]; [done|]. rewrite steps_S.
  apply (IH (MkIndexLfsr i (advance x) mk) rest s2 (advance_in24 _ Hx) Hrest). lia.
Qed.

Lemma index_of_state x y m :
  in24 x → in24 y → x ≠ 0 → y ≠ 0 →
  Z.lxor (wrap 32 (x - 1)) m = Z.lxor (wrap 32 (y - 1)) m → x = y.
Proof.
  unfold in24. intros Hx Hy ?? He. apply (f_equal (λ z, Z.lxor z m)) in He.
  rewrite !Z.lxor_assoc, !Z.lxor_nilpotent, !Z.lxor_0_r in He. revert He.
  rewrite !wrap_small by (unfold in_width; lia). lia.
Qed.

Lemma steps_nonzero n x : in24 x → x ≠ 0 → steps n x ≠ 0.
Proof.
  intros Hx Hne. assert (steps n 0 = 0) as <- by (induction n; [done|by rewrite steps_S]).
  intros He. by apply steps_inj in He.
Qed.

(** A generator as [Default] makes it. *)
Record lfsr_new (s : IndexLfsr) : Prop := {
  new_seed : 0 < s.(initial) < 2 ^ 24;
  new_start : s.(lfsr) = s.(initial);
  new_mask : 0 < s.(mask) < 2 ^ 24;
}.

(** The indexes of successful calls are different 24-bit numbers. *)
Lemma draw_distinct {E} s n ids s' :
  lfsr_new s → @draw E n s = Ret (Ok ids, s') → length ids = n ∧ NoDup ids ∧ Forall in24 ids.
Proof.
  intros [Hi Hl Hm] Hr. assert (Hx : in24 (lfsr s)) by (rewrite Hl; unfold in24; lia).
  pose proof (draw_inv n s ids s' Hx Hr) as Hne. rewrite (draw_run n s Hx Hne) in Hr. injection Hr as <- _.
  assert (Hst : ∀ k, in24 (steps k (lfsr s)) ∧ steps k (lfsr s) ≠ 0).
  { intros k. split; [by apply steps_in24|]. apply steps_nonzero; [done|]. rewrite Hl. lia. }
  split; [by rewrite length_fmap, length_seq|]. split.
  - apply NoDup_fmap_2_strong; [|apply NoDup_seq]. intros j k [_ Hj]%elem_of_seq [_ Hk]%elem_of_seq He.
    apply index_of_state in He; try apply Hst. destruct (Nat.lt_trichotomy j k) as [Hlt|[|Hlt]]; [|done|]; exfalso.
    + replace k with (j + S (k - j - 1))%nat in He by lia. rewrite steps_add in He.
      apply steps_inj in He; [|done|apply Hst]. apply (Hne (k - j - 1)%nat); [lia|]. by rewrite <- He.
    + replace j with (k + S (j - k - 1))%nat in He by lia. rewrite steps_add in He.
      apply steps_inj in He; [|apply Hst|done]. apply (Hne (j - k - 1)%nat); [lia|]. by rewrite He.
  - apply Forall_fmap, Forall_forall. intros k _. cbn. destruct (Hst k) as [Hk ?].
    apply lxor_in24; [|unfold in24; lia]. unfold in24 in *. rewrite wrap_small by (unfold in_width; lia). lia.
Qed.

(** ** The period

    [advance] is linear over bits, so a table of the images of the 24 single
    bits determines it, and tables are composed by squaring.  [2^24 - 1] steps
    are the identity, and no shorter run has a fixed point but zero. *)

(** The linear map with the images of the bits 0, 1, ... given by a table. *)
Fixpoint apply_table (l : list Z) (x : Z) : Z :=
  match l with
  | [] => 0
  | c :: l => Z.lxor (if Z.odd x then c else 0) (apply_table l (Z.div2 x))
  end.

Definition compose (a b : list Z) : list Z := apply_table a <$> b.

Fixpoint power (l : list Z) (n : positive) : list Z :=
  match n with
  | xH => l
  | xO n => let r := power l n in compose r r
  | xI n => let r := power l n in compose l (compose r r)
  end.

Definition id_table : list Z := (λ i, 2 ^ i) <$> seqZ 0 24.
Definition advance_table : list Z := advance <$> id_table.

(** The map that adds its argument to the image. *)
Definition plus_id (l : list Z) : list Z := zip_with Z.lxor l id_table.

Definition PERIOD : positive := 16777215.

Lemma odd_lxor x y : Z.odd (Z.lxor x y) = xorb (Z.odd x) (Z.odd y).
Proof. rewrite <- !Z.bit0_odd. apply Z.lxor_spec. Qed.

Lemma div2_lxor x y : Z.div2 (Z.lxor x y) = Z.lxor (Z.div2 x) (Z.div2 y).
Proof. rewrite !Z.div2_spec. apply Z.shiftr_lxor. Qed.

Lemma apply_table_lxor l x y : apply_table l (Z.lxor x y) = Z.lxor (apply_table l x) (apply_table l y).
Proof.
  revert x y. induction l as [|c l IH]; intros x y; [done|]. cbn [apply_table].
  rewrite odd_lxor, div2_lxor, IH. apply Z.bits_inj'. intros n _. rewrite !Z.lxor_spec.
  destruct (Z.odd x), (Z.odd y); cbn [xorb]; rewrite ?Z.bits_0; btauto.
Qed.

Lemma apply_table_0 l : apply_table l 0 = 0.
Proof. induction l as [|c l IH]; [done|]. cbn. by rewrite IH. Qed.

Lemma apply_compose a b x : apply_table (compose a b) x = apply_table a (apply_table b x).
Proof.
  revert x. induction b as [|c b IH]; intros x; cbn; [by rewrite apply_table_0|].
  rewrite apply_table_lxor, IH. by destruct (Z.odd x); rewrite ?apply_table_0.
Qed.

Lemma apply_power l n x : apply_table (power l n) x = Nat.iter (Pos.to_nat n) (apply_table l) x.
Proof.
  revert x. induction n as [n IH|n IH|]; intros x; [| |done]; cbn [power]; rewrite !apply_compose, !IH.
  - replace (Pos.to_nat n~1) with (S (Pos.to_nat n + Pos.to_nat n)) by lia.
    by rewrite Nat.iter_succ, Nat.iter_add.
  - replace (Pos.to_nat n~0) with (Pos.to_nat n + Pos.to_nat n)%nat by lia. by rewrite Nat.iter_add.
Qed.

(** A linear function is the one its table gives. *)
Lemma apply_images f n x :
  f 0 = 0 → (∀ x y, f (Z.lxor x y) = Z.lxor (f x) (f y)) → 0 ≤ x < 2 ^ Z.of_nat n →
  apply_table ((λ i, f (2 ^ i)) <$> seqZ 0 (Z.of_nat n)) x = f x.
Proof.
  revert f x. induction n as [|n IH]; intros f x H0 Hf Hx.
  - replace x with 0 by (cbn in Hx; lia). by rewrite apply_table_0.
  - rewrite seqZ_cons by lia. cbn [fmap list_fmap apply_table].
    replace (Z.pred (Z.of_nat (S n))) with (Z.of_nat n) by lia.
    rewrite <- (fmap_add_seqZ 1 0), <- list_fmap_compose.
    rewrite (list_fmap_ext _ (λ i, (λ y, f (2 * y)) (2 ^ i)) (seqZ 0 (Z.of_nat n))).
    2:{ intros ? i Hi. apply lookup_seqZ in Hi. cbn. f_equal. rewrite Z.pow_add_r by lia. done. }
    rewrite Nat2Z.inj_succ, Z.pow_succ_r in Hx by lia.
    rewrite (IH (λ y, f (2 * y))); [|done| |rewrite Z.div2_div; split; [apply Z.div_pos|apply Z.div_lt_upper_bound]; lia].
    + rewrite (Z.div2_odd x) at 3. rewrite <- Z.add_comm.
      replace (Z.b2z (Z.odd x) + 2 * Z.div2 x) with (Z.lxor (Z.b2z (Z.odd x)) (2 * Z.div2 x)).
      2:{ pose proof (Z.div2_nonneg x). destruct (Z.odd x), (Z.div2 x); first [done | lia]. }
      rewrite Hf. f_equal. destruct (Z.odd x); [done|]. by cbn.
    + intros a b. rewrite <- Hf. f_equal. rewrite !(Z.mul_comm 2), <- !(Z.shiftl_mul_pow2 _ 1) by lia.
      apply Z.shiftl_lxor.
Qed.

Lemma apply_id x : in24 x → apply_table id_table x = x.
Proof. intros Hx. by apply (apply_images id 24). Qed.

Lemma apply_advance x : in24 x → apply_table advance_table x = advance x.
Proof.
  intros Hx. unfold advance_table, id_table. rewrite <- list_fmap_compose.
  by apply (apply_images advance 24); [|exact advance_lxor|].
Qed.

Lemma apply_steps n x : in24 x → apply_table (power advance_table n) x = steps (Pos.to_nat n) x.
Proof.
  intros Hx. rewrite apply_power. unfold steps. induction (Pos.to_nat n) as [|k IH]; [done|].
  rewrite !Nat.iter_succ, IH. apply apply_advance. by apply (steps_in24 k).
Qed.

Lemma apply_zip a b x :
  length a = length b → apply_table (zip_with Z.lxor a b) x = Z.lxor (apply_table a x) (apply_table b x).
Proof.
  revert b x. induction a as [|c a IH]; intros [|d b] x Hl; try done. cbn in *. rewrite IH by lia.
  apply Z.bits_inj'. intros n _. rewrite !Z.lxor_spec.
  destruct (Z.odd x); rewrite ?Z.lxor_spec, ?Z.bits_0; btauto.
Qed.

Lemma length_power l n : length (power l n) = length l.
Proof. induction n as [n IH|n IH|]; cbn; unfold compose; rewrite ?length_fmap; auto. Qed.

Lemma full_cycle x : in24 x → steps (Pos.to_nat PERIOD) x = x.
Proof.
  intros Hx. rewrite <- apply_steps by done.
  replace (power advance_table PERIOD) with id_table by (vm_compute; reflexivity). by apply apply_id.
Qed.

(** A map whose sum with the identity is invertible fixes only zero. *)
Lemma no_fixed_point n x :
  power (plus_id (power advance_table n)) PERIOD = id_table →
  in24 x → steps (Pos.to_nat n) x = x → x = 0.
Proof.
  intros Hinv Hx Hfix. rewrite <- (apply_id x), <- Hinv, apply_power by done.
  assert (H0 : apply_table (plus_id (power advance_table n)) x = 0).
  { unfold plus_id. rewrite apply_zip by (rewrite length_power; by vm_compute).
    by rewrite apply_steps, apply_id, Hfix, Z.lxor_nilpotent. }
  replace (Pos.to_nat PERIOD) with (S (pred (Pos.to_nat PERIOD))) by lia.
  rewrite Nat.iter_succ_r, H0. induction (pred (Pos.to_nat PERIOD)) as [|k IH]; [done|].
  by rewrite Nat.iter_succ, IH, apply_table_0.
Qed.

Lemma steps_mul k n x : steps n x = x → steps (k * n) x = x.
Proof. intros Hn. induction k as [|k IH]; [done|]. cbn [Nat.mul]. by rewrite steps_add, IH. Qed.

(** The prime factors of the period. *)
Definition FACTORS : list Z := [3; 5; 7; 13; 17; 241].

Lemma prime_below p : 1 < p → forallb (λ n, negb (p mod n =? 0)) (seqZ 2 (p - 2)) = true → Z.prime p.
Proof.
  intros Hp Hall. split; [done|]. intros n Hn Hd.
  rewrite forallb_forall in Hall. specialize (Hall n). rewrite <- list_elem_of_In, elem_of_seqZ in Hall.
  specialize (Hall ltac:(lia)). apply Z.mod_divide in Hd; [|lia]. by rewrite Hd in Hall.
Qed.

Lemma factors_prime : Forall Z.prime FACTORS.
Proof.
  repeat (apply Forall_cons_2; [apply prime_below; [lia|vm_compute; reflexivity]|]). apply Forall_nil_2.
Qed.

(** A divisor of the period other than one is a multiple of one of the primes. *)
Lemma has_factor m : (m | Zpos PERIOD) → 1 < m → Exists (λ p, m mod p = 0) FACTORS.
Proof.
  intros Hm Hgt. destruct (decide (Exists (λ p, m mod p = 0) FACTORS)) as [|Hno]; [done|exfalso].
  apply not_Exists_Forall in Hno; [|apply _].
  assert (Hr : ∀ p, p ∈ FACTORS → Z.coprime m p).
  { intros p Hp. pose proof (proj1 (Forall_forall _ _) factors_prime p Hp) as Hpr.
    symmetry. apply Z.coprime_prime_l; [done|]. destruct Hpr. rewrite <- Z.mod_divide by lia.
    exact (proj1 (Forall_forall _ _) Hno p Hp). }
  assert (Z.coprime m (Zpos PERIOD)) as Hrel.
  { change (Zpos PERIOD) with (3 * (3 * (5 * (7 * (13 * (17 * 241)))))).
    repeat (apply Z.coprime_mul_r; [apply Hr; by repeat constructor|]). apply Hr. by repeat constructor. }
  unfold Z.coprime in Hrel. rewrite (Z.divide_gcd_iff m) in Hm by lia. lia.
Qed.

(** The maps of [PERIOD / p] steps, for the primes [p]. *)
Definition SHORT : list positive := [5592405; 3355443; 2396745; 1290555; 986895; 69615]%positive.

Lemma short_no_fixed_point n x : n ∈ SHORT → in24 x → steps (Pos.to_nat n) x = x → x = 0.
Proof.
  intros Hn. apply no_fixed_point. revert n Hn. apply Forall_forall.
  repeat (apply Forall_cons_2; [vm_compute; reflexivity|]). apply Forall_nil_2.
Qed.

Lemma steps_gcd k x :
  (0 < k)%nat → in24 x → steps k x = x → steps (Nat.gcd k (Pos.to_nat PERIOD)) x = x.
Proof.
  intros Hk Hx Hfix. destruct (Nat.gcd_bezout_pos k (Pos.to_nat PERIOD) Hk) as (u & v & Huv).
  rewrite <- (steps_mul u k x Hfix) at 2. rewrite Huv, steps_add, steps_mul; [done|]. by apply full_cycle.
Qed.

(** A nonzero register does not come back before the full period. *)
Lemma no_early_return k x :
  (0 < k < Pos.to_nat PERIOD)%nat → in24 x → x ≠ 0 → steps k x ≠ x.
Proof.
  intros Hk Hx Hne Hfix. apply steps_gcd in Hfix; [|lia|done].
  set (g := Nat.gcd k (Pos.to_nat PERIOD)) in *.
  assert (Hg : (g ≤ k)%nat) by (apply Nat.divide_pos_le; [lia|apply Nat.gcd_divide_l]).
  destruct (Nat.gcd_divide_r k (Pos.to_nat PERIOD)) as [m Hm]. fold g in Hm.
  assert (Hz : Zpos PERIOD = Z.of_nat m * Z.of_nat g) by lia.
  assert (Hgt : 1 < Z.of_nat m) by nia.
  destruct (proj1 (Exists_exists _ _) (has_factor (Z.of_nat m) (ex_intro _ (Z.of_nat g) (eq_trans Hz (Z.mul_comm _ _))) Hgt))
    as (p & Hp & Hmod).
  apply Hne, (short_no_fixed_point (Z.to_pos (Zpos PERIOD / p))); [|done|].
  - clear Hmod. revert p Hp. apply Forall_forall. apply (bool_decide_unpack _). vm_compute. exact I.
  - assert (0 < p) by (destruct (proj1 (Forall_forall _ _) factors_prime p Hp); lia).
    apply Z.div_exact in Hmod; [|lia]. set (q := Z.of_nat m / p) in *.
    replace (Pos.to_nat (Z.to_pos (Zpos PERIOD / p))) with (Z.to_nat q * g)%nat; [by apply steps_mul|].
    replace (Zpos PERIOD / p) with (q * Z.of_nat g) by (rewrite Hz, Hmod, <- Z.mul_assoc, (Z.mul_comm p), Z.div_mul; lia).
    apply Nat2Z.inj. rewrite positive_nat_Z, Z2Pos.id by nia. rewrite Nat2Z.inj_mul, Z2Nat.id by nia. done.
Qed.

Lemma draw_reuse {E} n s k : (k < n)%nat → steps (S k) s.(lfsr) = s.(initial) → @draw E n s = Panic.
Proof.
  revert s k. induction n as [|n IH]; intros [i x mk] k Hk Heq; [lia|]. cbn [draw lfsr initial] in *.
  unfold lfsr_next, mbind, M_bind. cbn. unfold assert_.
  destruct (Z.eqb_spec (advance x) i) as [|Hne]; [done|]. cbn.
  destruct k as [|k]; [done|]. rewrite steps_S in Heq.
  by rewrite (IH (MkIndexLfsr i (advance x) mk) k ltac:(lia) Heq).
Qed.

(** C20.  The generator gives exactly [2^24 - 2] indexes, and none of them
    twice: whatever the seed and the mask, that many calls succeed with pairwise
    different 24-bit numbers, and the next one panics ("Too many peers
    created"). *)
Theorem index_capacity {E} s n :
  lfsr_new s →
  if Z.of_nat n <=? 2 ^ 24 - 2
  then ∃ ids s', @draw E n s = Ret (Ok ids, s') ∧ length ids = n ∧ NoDup ids ∧ Forall in24 ids
  else @draw E n s = Panic.
Proof.
  intros Hnew. destruct (Hnew) as [Hi Hl Hm]. assert (Hx : in24 (lfsr s)) by (rewrite Hl; unfold in24; lia).
  destruct (Z.leb_spec (Z.of_nat n) (2 ^ 24 - 2)).
  - eassert (Hr : @draw E n s = _).
    { apply draw_run; [done|]. intros k Hk. rewrite <- Hl.
      apply no_early_return; [unfold PERIOD; lia|done|rewrite Hl; lia]. }
    eexists _, _. split; [exact Hr|]. by eapply draw_distinct.
  - apply (draw_reuse n s (pred (Pos.to_nat PERIOD))); [unfold PERIOD; lia|].
    rewrite Nat.succ_pred by lia. rewrite <- Hl. by apply full_cycle.
Qed.

Lemma index_capacity_witness : @draw () (Z.to_nat (2 ^ 24 - 1)) (MkIndexLfsr 1 1 77) = Panic.
Proof.
  pose proof (@index_capacity () (MkIndexLfsr 1 1 77) (Z.to_nat (2 ^ 24 - 1)) ltac:(by split)) as H.
  rewrite Z2Nat.id in H by lia. exact H.
Defined.

(** The seed drawn from the operating system is a nonzero 24-bit number. *)
Lemma random_index_wp {E} fuel (e : env) :
  wp (E := E) (random_index fuel) (λ r e', env_le e e' ∧ ∃ o, r = Ok o ∧
    match o with Some i => 0 < i < 2 ^ 24 | None => True end) e.
Proof.
  revert e. induction fuel as [|fuel IH]; intros e; cbn [random_index].
  - split; [done|]. by eexists.
  - apply wp_bind. unfold next_u32. apply wp_bind, wp_fill_bytes. intros bs e' Hlen He _. apply wp_ret.
    cbv zeta. destruct (Z.ltb_spec 0 (Z.land (from_le_bytes bs) LFSR_MAX)) as [Hpos|].
    + apply wp_ret. split; [done|]. eexists. split; [done|]. split; [done|].
      change LFSR_MAX with (Z.ones 24). rewrite Z.land_ones by lia. apply Z.mod_pos_bound. lia.
    + eapply wp_mono; [apply IH|]. intros r e2 [He2 Ho]. split; [by etransitivity|done].
Qed.

(** The [k]-th draw of [next_u32] from now. *)
Definition kth_draw (e : env) (k : nat) : Z := from_le_bytes (e.(e_rng) <$> seq (e.(e_rng_pos) + 4 * k) 4).

(** The loop ends with the first draw whose low 24 bits are not all zero. *)
Lemma random_index_ends {E} k fuel (e : env) :
  Z.land (kth_draw e k) LFSR_MAX ≠ 0 → (k < fuel)%nat →
  ∃ i e', @random_index E fuel e = Ret (Ok (Some i), e').
Proof.
  revert k e. induction fuel as [|fuel IH]; intros k e Hk Hlt; [lia|]. cbn [random_index].
  erewrite bind_ok by reflexivity. cbv beta zeta. case_match eqn:Hz; [by eexists _, _|].
  destruct k as [|k].
  - exfalso. apply Hk. unfold kth_draw. rewrite Nat.mul_0_r, Nat.add_0_r. apply Z.ltb_ge in Hz.
    apply Z.le_antisymm; [exact Hz|]. apply Z.land_nonneg. right. done.
  - apply (IH k); [|lia]. unfold kth_draw in *. cbn [e_rng e_rng_pos].
    by replace (e_rng_pos e + 4 + 4 * k)%nat with (e_rng_pos e + 4 * S k)%nat by lia.
Qed.

Lemma default_is_new {E} fuel (e : env) :
  wp (E := E) (IndexLfsr_default fuel) (λ r e', ∀ s, r = Ok (Some s) → lfsr_new s) e.
Proof.
  unfold IndexLfsr_default. apply wp_bind. eapply wp_mono; [apply random_index_wp|].
  intros ? e1 (_ & seed & -> & Hs). apply wp_bind. eapply wp_mono; [apply random_index_wp|].
  intros ? e2 (_ & msk & -> & Hm). apply wp_ret. destruct seed, msk; intros s [= <-]; by split.
Qed.

(** ** A generator in use *)

(** The index of the [k]-th call. *)
Definition index_at (l : IndexLfsr) (k : nat) : Z := Z.lxor (wrap 32 (steps k l.(initial) - 1)) l.(mask).

(** The generator after [n] calls that succeeded. *)
Record lfsr_at (n : nat) (l : IndexLfsr) : Prop := {
  at_seed : 0 < l.(initial) < 2 ^ 24;
  at_mask : 0 < l.(mask) < 2 ^ 24;
  at_state : l.(lfsr) = steps n l.(initial);
  at_calls : ∀ k, (k < n)%nat → steps (S k) l.(initial) ≠ l.(initial);
}.

Lemma lfsr_at_new l : lfsr_new l → lfsr_at 0 l.
Proof. intros [Hi Hl Hm]. split; [done|done|done|lia]. Qed.

Lemma state_range l k : 0 < l.(initial) < 2 ^ 24 → in24 (steps k l.(initial)) ∧ steps k l.(initial) ≠ 0.
Proof.
  intros Hi. assert (in24 (initial l)) by (unfold in24; lia).
  split; [by apply steps_in24|apply steps_nonzero; [done|lia]].
Qed.

Lemma index_at_range n l k : lfsr_at n l → in24 (index_at l k).
Proof.
  intros [Hi Hm _ _]. destruct (state_range l k Hi) as [Hk ?]. unfold index_at.
  apply lxor_in24; [|unfold in24; lia]. unfold in24 in *. rewrite wrap_small by (unfold in_width; lia). lia.
Qed.

(** A call gives an index no earlier call gave. *)
Lemma lfsr_next_fresh {E} n l r l' :
  lfsr_at n l → @lfsr_next E l = Ret (r, l') →
  r = Ok (index_at l n) ∧ lfsr_at (S n) l' ∧ (∀ k, index_at l' k = index_at l k) ∧
  ∀ k, (k < n)%nat → index_at l k ≠ index_at l n.
Proof.
  intros [Hi Hm Hs Hc]. unfold lfsr_next. do 2 (erewrite bind_ok by reflexivity). cbn. unfold assert_.
  destruct (Z.eqb_spec (advance (lfsr l)) (initial l)) as [|Hne]; [done|]. intros [= <- <-].
  assert (Hnext : advance (lfsr l) = steps (S n) (initial l)) by by rewrite Hs.
  split; [unfold index_at; by rewrite Hs|]. split; [|split; [done|]].
  - split; cbn; [done|done|done|]. intros k Hk. destruct (decide (k = n)) as [->|]; [by rewrite <- Hnext|apply Hc; lia].
  - intros k Hk He. apply index_of_state in He; try by apply state_range.
    replace n with (k + (n - k))%nat in He by lia. rewrite steps_add in He.
    apply steps_inj in He; [|unfold in24; lia|by apply state_range].
    apply (Hc (n - k - 1)%nat); [lia|]. replace (S (n - k - 1)) with (n - k)%nat by lia. done.
Qed.
