(* ===== verification/Text.v ===== *)
(** * Text: the string operations the configuration code uses

    A [&str] is the list of its UTF-8 bytes.  Slicing is checked against
    character boundaries, numbers and addresses are parsed as the standard
    library parses them ([core::num], [core::net]). *)

From Stdlib Require Import Strings.String.
From S2P Require Import Prelude Crypto Packet.
From coqutil Require Import Byte.

Definition str (s : string) : bytes := list_byte_of_string s.
Arguments str s%_string_scope.

Definition code (b : byte) : Z := byte.unsigned b.

(** [s.is_char_boundary(i)]: the ends, and the bytes that are not
    continuation bytes. *)
Definition is_char_boundary (i : nat) (s : bytes) : bool :=
  if decide (i = 0%nat) then true
  else match s !! i with
       | Some b => negb ((128 <=? code b) && (code b <? 192))
       | None => bool_decide (i = length s)
       end.

(** [&s[a..b]] panics off a boundary. *)
Definition str_slice {E S} (a b : nat) (s : bytes) : M E S bytes :=
  _ ← assert_ (bool_decide (a ≤ b)%nat && is_char_boundary a s && is_char_boundary b s);
  mret (slice a b s).

(** [s.starts_with(p)] *)
Definition starts_with (p s : bytes) : bool := bool_decide (take (length p) s = p).

(** ** UTF-8: the check of [core::str::from_utf8] *)

Definition is_continuation (b : byte) : bool := (128 <=? code b) && (code b <=? 191).

(** The second byte that may follow a first byte of three or four. *)
Definition second_ok (first second : byte) : bool :=
  let lo := if code first =? 224 then 160 else if code first =? 240 then 144 else 128 in
  let hi := if code first =? 237 then 159 else if code first =? 244 then 143 else 191 in
  (lo <=? code second) && (code second <=? hi).

Fixpoint is_utf8 (s : bytes) : bool :=
  match s with
  | [] => true
  | b :: s =>
    if code b <? 128 then is_utf8 s
    else if (194 <=? code b) && (code b <=? 223) then
      match s with c1 :: s => is_continuation c1 && is_utf8 s | _ => false end
    else if (224 <=? code b) && (code b <=? 239) then
      match s with c1 :: c2 :: s => second_ok b c1 && is_continuation c2 && is_utf8 s | _ => false end
    else if (240 <=? code b) && (code b <=? 244) then
      match s with
      | c1 :: c2 :: c3 :: s => second_ok b c1 && is_continuation c2 && is_continuation c3 && is_utf8 s
      | _ => false
      end
    else false
  end.

(** [String::from_utf8_lossy]: U+FFFD for the longest starts of a character
    that do not go on as one. *)
Definition replacement : bytes := [byte.of_Z 239; byte.of_Z 191; byte.of_Z 189].

Fixpoint from_utf8_lossy (s : bytes) : bytes :=
  match s with
  | [] => []
  | b :: s =>
    if code b <? 128 then b :: from_utf8_lossy s
    else if (194 <=? code b) && (code b <=? 223) then
      match s with
      | c1 :: s1 => if is_continuation c1 then b :: c1 :: from_utf8_lossy s1 else replacement ++ from_utf8_lossy s
      | [] => replacement
      end
    else if (224 <=? code b) && (code b <=? 239) then
      match s with
      | c1 :: s1 =>
        if second_ok b c1 then
          match s1 with
          | c2 :: s2 => if is_continuation c2 then b :: c1 :: c2 :: from_utf8_lossy s2 else replacement ++ from_utf8_lossy s1
          | [] => replacement
          end
        else replacement ++ from_utf8_lossy s
      | [] => replacement
      end
    else if (240 <=? code b) && (code b <=? 244) then
      match s with
      | c1 :: s1 =>
        if second_ok b c1 then
          match s1 with
          | c2 :: s2 =>
            if is_continuation c2 then
              match s2 with
              | c3 :: s3 => if is_continuation c3 then b :: c1 :: c2 :: c3 :: from_utf8_lossy s3 else replacement ++ from_utf8_lossy s2
              | [] => replacement
              end
            else replacement ++ from_utf8_lossy s1
          | [] => replacement
          end
        else replacement ++ from_utf8_lossy s
      | [] => replacement
      end
    else replacement ++ from_utf8_lossy s
  end.

(** [CString::new(s).unwrap()]: a zero byte inside panics. *)
Definition CString_new {E S} (s : bytes) : M E S bytes :=
  _ ← assert_ (forallb (λ b, negb (code b =? 0)) s); mret s.

(** [CStr::from_ptr]: the bytes before the first zero. *)
Fixpoint c_str (s : bytes) : bytes :=
  match s with
  | [] => []
  | b :: s => if code b =? 0 then [] else b :: c_str s
  end.

(** [s.split(c)], for an ASCII [c]. *)
Fixpoint split_on (c : byte) (s : bytes) : list bytes :=
  match s with
  | [] => [[]]
  | b :: s =>
    if decide (b = c) then [] :: split_on c s
    else match split_on c s with
         | w :: ws => (b :: w) :: ws
         | [] => [[b]]
         end
  end.

(** [s.splitn(2, c)] *)
Fixpoint splitn_2 (c : byte) (s : bytes) : list bytes :=
  match s with
  | [] => [[]]
  | b :: s =>
    if decide (b = c) then [[]; s]
    else match splitn_2 c s with
         | w :: ws => (b :: w) :: ws
         | [] => [[b]]
         end
  end.

(** ** Numbers *)

(** [char::to_digit] on the character of one byte. *)
Definition to_digit (radix : Z) (b : byte) : option Z :=
  let c := code b in
  let d := if (48 <=? c) && (c <=? 57) then c - 48
           else if (97 <=? c) && (c <=? 122) then c - 97 + 10
           else if (65 <=? c) && (c <=? 90) then c - 65 + 10
           else radix in
  if d <? radix then Some d else None.

(** The digits of a [w]-bit number, on top of those read so far. *)
Fixpoint parse_digits (w radix acc : Z) (s : bytes) : option Z :=
  match s with
  | [] => Some acc
  | b :: s =>
    match to_digit radix b with
    | Some d => if acc * radix + d <? 2 ^ w then parse_digits w radix (acc * radix + d) s else None
    | None => None
    end
  end.

Definition plus : byte := byte.of_Z 43.
Definition minus : byte := byte.of_Z 45.

(** [uN::from_str_radix], and [str::parse] at radix ten: a leading plus is
    allowed, a sign alone is not. *)
Definition from_str_radix (w radix : Z) (s : bytes) : option Z :=
  match s with
  | [] => None
  | [b] => if decide (b = plus ∨ b = minus) then None else parse_digits w radix 0 [b]
  | b :: rest => if decide (b = plus) then parse_digits w radix 0 rest else parse_digits w radix 0 s
  end.

Definition parse_uint (w : Z) (s : bytes) : option Z := from_str_radix w 10 s.

Definition parse_bool (s : bytes) : option bool :=
  if decide (s = str "true") then Some true
  else if decide (s = str "false") then Some false
  else None.

(** ** Addresses

    The parser of [core::net]: a reader takes the rest of the text and gives
    a value with what it todo, or fails without effect. *)

Definition reader (A : Type) : Type := bytes → option (A * bytes).

Definition read_given_char (c : byte) : reader () := λ s,
  match s with
  | b :: s => if decide (b = c) then Some ((), s) else None
  | [] => None
  end.

(** [read_separator(sep, index, inner)] *)
Definition read_separator {A} (sep : byte) (index : nat) (inner : reader A) : reader A := λ s,
  match index with
  | O => inner s
  | S _ => '(_, s) ← read_given_char sep s; inner s
  end.

(** The digits of a number of at most [max_digits] digits ([None] if there
    are more), or of a number below [2^w]. *)
Fixpoint read_digits (w radix : Z) (max_digits : option nat) (acc : Z) (count : nat) (s : bytes) :
    option (Z * nat * bytes) :=
  match s with
  | [] => Some (acc, count, s)
  | b :: rest =>
    match to_digit radix b with
    | None => Some (acc, count, s)
    | Some d =>
      let ok := match max_digits with
                | Some m => bool_decide (S count ≤ m)%nat
                | None => acc * radix + d <? 2 ^ w
                end in
      if ok then read_digits w radix max_digits (acc * radix + d) (S count) rest else None
    end
  end.

Definition zero_digit : byte := byte.of_Z 48.

Definition read_number (w radix : Z) (max_digits : option nat) (allow_zero_prefix : bool) : reader Z := λ s,
  let has_leading_zero := bool_decide (head s = Some zero_digit) in
  '(result, digit_count, rest) ← read_digits w radix max_digits 0 0 s;
  if bool_decide (digit_count = 0%nat) then None
  else if negb allow_zero_prefix && has_leading_zero && bool_decide (1 < digit_count)%nat then None
  else if result <? 2 ^ w then Some (result, rest) else None.

Definition dot : byte := byte.of_Z 46.
Definition colon : byte := byte.of_Z 58.

(** The octets from number [i] on. *)
Fixpoint read_octets (todo i : nat) (s : bytes) : option (bytes * bytes) :=
  match todo with
  | O => Some ([], s)
  | S todo =>
    '(octet, s) ← read_separator dot i (read_number 8 10 (Some 3%nat) false) s;
    '(octets, s) ← read_octets todo (S i) s;
    Some (byte.of_Z octet :: octets, s)
  end.

Definition read_ipv4_addr : reader bytes := read_octets 4 0.

(** [read_groups]: the bytes of the groups read from number [i] on, whether
    the last two were an embedded IPv4 address, and the rest of the text. *)
Fixpoint read_groups (todo i limit : nat) (s : bytes) : bytes * bool * bytes :=
  match todo with
  | O => ([], false, s)
  | S todo =>
    let ipv4 := if bool_decide (i < limit - 1)%nat then read_separator colon i read_ipv4_addr s else None in
    match ipv4 with
    | Some (v4, s) => (v4, true, s)
    | None =>
      match read_separator colon i (read_number 16 16 (Some 4%nat) true) s with
      | Some (group, s) =>
        let '(groups, v4, s) := read_groups todo (S i) limit s in
        (to_be_bytes 2 group ++ groups, v4, s)
      | None => ([], false, s)
      end
    end
  end.

Definition read_ipv6_addr : reader bytes := λ s,
  let '(head, head_ipv4, s) := read_groups 8 0 8 s in
  let head_size := (length head / 2)%nat in
  if bool_decide (head_size = 8%nat) then Some (head, s)
  else if head_ipv4 then None
  else
    '(_, s) ← read_given_char colon s;
    '(_, s) ← read_given_char colon s;
    let limit := (8 - (head_size + 1))%nat in
    let '(tail, _, s) := read_groups limit 0 limit s in
    Some (head ++ zeros (16 - length head - length tail) ++ tail, s).

Definition read_ip_addr : reader IpAddr := λ s,
  match read_ipv4_addr s with
  | Some (a, s) => Some (V4 a, s)
  | None => '(a, s) ← read_ipv6_addr s; Some (V6 a, s)
  end.

(** [parse_with]: the whole text is read. *)
Definition parse_with {A} (r : reader A) (s : bytes) : option A :=
  match r s with
  | Some (a, []) => Some a
  | _ => None
  end.

(** [str::parse::<IpAddr>()] *)
Definition parse_ip : bytes → option IpAddr := parse_with read_ip_addr.

Inductive SocketAddr : Type :=
| SockV4 (ip : bytes) (port : Z)
| SockV6 (ip : bytes) (port scope_id : Z).

#[global] Instance SocketAddr_eq_dec : EqDecision SocketAddr.
Proof. solve_decision. Defined.

Definition sock_ip (a : SocketAddr) : IpAddr :=
  match a with SockV4 ip _ => V4 ip | SockV6 ip _ _ => V6 ip end.

Definition read_port : reader Z := λ s,
  '(_, s) ← read_given_char colon s; read_number 16 10 None true s.

Definition read_scope_id : reader Z := λ s,
  '(_, s) ← read_given_char (byte.of_Z 37) s; read_number 32 10 None true s.

Definition read_socket_addr_v4 : reader SocketAddr := λ s,
  '(ip, s) ← read_ipv4_addr s;
  '(port, s) ← read_port s;
  Some (SockV4 ip port, s).

Definition read_socket_addr_v6 : reader SocketAddr := λ s,
  '(_, s) ← read_given_char (byte.of_Z 91) s;
  '(ip, s) ← read_ipv6_addr s;
  let '(scope_id, s) := match read_scope_id s with Some r => r | None => (0, s) end in
  '(_, s) ← read_given_char (byte.of_Z 93) s;
  '(port, s) ← read_port s;
  Some (SockV6 ip port scope_id, s).

(** [str::parse::<SocketAddr>()] *)
Definition parse_socket_addr : bytes → option SocketAddr := parse_with (λ s,
  match read_socket_addr_v4 s with
  | Some r => Some r
  | None => read_socket_addr_v6 s
  end).

(** ** What the parsers give *)

(** What is UTF-8 is taken as it is. *)
Lemma lossy_utf8 s : is_utf8 s = true → from_utf8_lossy s = s.
Proof.
  induction s as [s IH] using (induction_ltof1 _ length). unfold ltof in IH. destruct s as [|b s]; [done|]. cbn.
  destruct (code b <? 128); [intros Hs; f_equal; apply IH; [cbn; lia|done]|].
  destruct ((194 <=? code b) && (code b <=? 223)).
  { destruct s as [|c1 s]; [done|]. intros [-> Hs]%andb_true_iff. do 2 f_equal. apply IH; [cbn; lia|done]. }
  destruct ((224 <=? code b) && (code b <=? 239)).
  { destruct s as [|c1 [|c2 s]]; [done..|]. intros [[-> ->]%andb_true_iff Hs]%andb_true_iff. do 3 f_equal. apply IH; [cbn; lia|done]. }
  destruct ((240 <=? code b) && (code b <=? 244)); [|done].
  destruct s as [|c1 [|c2 [|c3 s]]]; [done..|]. intros [[[-> ->]%andb_true_iff ->]%andb_true_iff Hs]%andb_true_iff.
  do 4 f_equal. apply IH; [cbn; lia|done].
Qed.

Lemma splitn_2_app c a b : Forall (λ x, x ≠ c) a → splitn_2 c (a ++ c :: b) = [a; b].
Proof.
  induction 1 as [|x a Hx _ IH]; cbn; [by rewrite decide_True|]. by rewrite decide_False, IH.
Qed.

Lemma split_on_none c s : Forall (λ x, x ≠ c) s → split_on c s = [s].
Proof. induction 1 as [|x s Hx _ IH]; [done|]. cbn. by rewrite decide_False, IH. Qed.

Lemma split_on_app c a b : Forall (λ x, x ≠ c) a → split_on c (a ++ c :: b) = a :: split_on c b.
Proof. induction 1 as [|x a Hx _ IH]; cbn; [by rewrite decide_True|]. by rewrite decide_False, IH. Qed.

Lemma to_digit_range radix b d : 0 < radix → to_digit radix b = Some d → 0 ≤ d < radix.
Proof.
  intros Hr. unfold to_digit. destruct (_ <? _) eqn:Hlt; [|done]. apply Z.ltb_lt in Hlt. intros [= <-].
  split; [|exact Hlt]. clear Hlt.
  repeat match goal with |- context [if ?b then _ else _] => destruct b eqn:? end;
    rewrite ?andb_true_iff, ?Z.leb_le in *; lia.
Qed.

Lemma parse_digits_range w radix acc s n :
  0 < radix → 0 ≤ acc < 2 ^ w → parse_digits w radix acc s = Some n → 0 ≤ n < 2 ^ w.
Proof.
  intros Hr. revert acc. induction s as [|b s IH]; intros acc Hacc; cbn [parse_digits]; [by intros [= <-]|].
  destruct (to_digit radix b) as [d|] eqn:Hd; [|done]. apply to_digit_range in Hd; [|done].
  destruct (Z.ltb_spec (acc * radix + d) (2 ^ w)); [|done]. apply IH. nia.
Qed.

Lemma from_str_radix_range w radix s n :
  0 < radix → 0 ≤ w → from_str_radix w radix s = Some n → 0 ≤ n < 2 ^ w.
Proof.
  intros Hr Hw. assert (H0 : 0 ≤ 0 < 2 ^ w) by (split; [done|by apply Z.pow_pos_nonneg]).
  unfold from_str_radix. destruct s as [|b [|c s]]; [done|case_decide; [done|]|case_decide];
    by apply parse_digits_range.
Qed.

Lemma read_octets_length todo i s a rest : read_octets todo i s = Some (a, rest) → length a = todo.
Proof.
  revert i s a. induction todo as [|todo IH]; intros i s a; cbn [read_octets]; [by intros [= <- <-]|].
  destruct (read_separator _ _ _ _) as [[o s1]|]; [|done]. cbn.
  destruct (read_octets todo (S i) s1) as [[os s2]|] eqn:Ho; [|done]. cbn. intros [= <- <-]. cbn. f_equal. by eapply IH.
Qed.

Lemma read_groups_length todo i limit s a v rest :
  (i + todo = limit)%nat → read_groups todo i limit s = (a, v, rest) →
  (length a ≤ 2 * todo)%nat ∧ (length a mod 2 = 0)%nat.
Proof.
  revert i s a v. induction todo as [|todo IH]; intros i s a v Hl; cbn [read_groups]; [by intros [= <- <- <-]|].
  case_match eqn:H4.
  - case_bool_decide; [|done]. destruct p as [v4 s4]. intros [= <- <- <-].
    assert (length v4 = 4%nat) as ->; [|split; [lia|done]].
    revert H4. unfold read_separator, read_ipv4_addr. destruct i; [apply read_octets_length|].
    destruct (read_given_char _ _) as [[[] s5]|]; [|done]. exact (read_octets_length 4 0 s5 v4 s4).
  - destruct (read_separator colon i (read_number 16 16 (Some 4%nat) true) s) as [[g s5]|]; [|intros Heq; simplify_eq; cbn; split; [lia|done]].
    destruct (read_groups todo (S i) limit s5) as [[gs v'] s6] eqn:Hg. intros Heq. simplify_eq.
    destruct (IH (S i) s5 gs _ ltac:(lia) Hg) as [H1 H2]. rewrite length_app, length_to_be_bytes.
    split; [lia|]. rewrite Nat.Div0.add_mod, H2. done.
Qed.

Lemma read_ipv6_length s a rest : read_ipv6_addr s = Some (a, rest) → length a = 16%nat.
Proof.
  unfold read_ipv6_addr. destruct (read_groups 8 0 8 s) as [[hd v] s1] eqn:Hh.
  apply read_groups_length in Hh as [Hh1 Hh2]; [|done].
  pose proof (Nat.div_mod (length hd) 2 ltac:(lia)) as Hdiv. remember (length hd / 2)%nat as q eqn:Heqq. clear Heqq.
  case_bool_decide as Hq; [intros [= <- <-]; lia|]. destruct v; [done|].
  destruct (read_given_char colon _) as [[[] s2]|]; [|done]. cbn [mbind option_bind].
  destruct (read_given_char colon _) as [[[] s3]|]; [|done]. cbn [mbind option_bind].
  destruct (read_groups (8 - (q + 1)) 0 (8 - (q + 1)) s3) as [[tl vt] s4] eqn:Ht.
  apply read_groups_length in Ht as [Ht1 Ht2]; [|done]. intros Heq. simplify_eq.
  unfold zeros. rewrite !length_app, length_replicate. lia.
Qed.

Lemma parse_ip_length s a :
  parse_ip s = Some a → match a with V4 b => length b = 4%nat | V6 b => length b = 16%nat end.
Proof.
  unfold parse_ip, parse_with, read_ip_addr. destruct (read_ipv4_addr s) as [[b r]|] eqn:H4.
  - destruct r; [|done]. intros [= <-]. by eapply read_octets_length.
  - destruct (read_ipv6_addr s) as [[b r]|] eqn:H6; [|done]. cbn. destruct r; [|done]. intros [= <-].
    by eapply read_ipv6_length.
Qed.
