(* ===== verification/Serialization.v ===== *)
(** * Keys as text ([KeyBytes] of serialization.rs)

    A [KeyBytes] is its list of 32 bytes. *)

From Stdlib Require Import Strings.String.
From S2P Require Import Prelude Time Crypto Packet Text.
From coqutil Require Import Byte.

Definition KEY_SIZE : nat := 32.

Inductive KeyBytesError : Type :=
| IllegalCharacter
| IllegalSize.

(** [Display] *)
Definition show_key_error (e : KeyBytesError) : bytes :=
  str (match e with
       | IllegalCharacter => "Illegal character in key"
       | IllegalSize => "Illegal key size"
       end).

(** [BASE64_STANDARD] of the [base64] crate. *)
Class Base64 := { base64_encode : bytes → bytes; base64_decode : bytes → option bytes }.

(** The text has four characters for every three bytes, with padding, all of
    the alphabet, and decodes to the bytes that it encodes. *)
Class Base64Laws `{Base64} : Prop := {
  base64_length s k : base64_decode s = Some k → length s = (4 * ((length k + 2) / 3))%nat;
  base64_alphabet k : Forall (λ b, 43 ≤ code b ≤ 122) (base64_encode k);
  base64_roundtrip k : base64_decode (base64_encode k) = Some k;
}.

(** The loop over the pairs of digits, from byte number [i] of the key on. *)
Fixpoint parse_hex {S} (todo i : nat) (s : bytes) : M KeyBytesError S bytes :=
  match todo with
  | O => mret []
  | S todo =>
    pair ← str_slice (i * 2) (i * 2 + 2) s;
    b ← lift_result (match from_str_radix 8 16 pair with
                     | Some b => Ok b
                     | None => Err IllegalCharacter
                     end);
    rest ← parse_hex todo (i + 1) s;
    mret (byte.of_Z b :: rest)
  end.

Definition key_from_str `{Base64} {S} (s : bytes) : M KeyBytesError S bytes :=
  let internal := zeros KEY_SIZE in
  if decide (length s = 64%nat) then parse_hex KEY_SIZE 0 s
  else if decide (length s = 43%nat ∨ length s = 44%nat) then
    match base64_decode s with
    | Some decoded_key =>
      if decide (length decoded_key = length internal) then mret decoded_key
      else throw IllegalCharacter
    | None => mret internal
    end
  else throw IllegalSize.

(** [StaticSecret::random_from_rng(OsRng)]: 32 random bytes. *)
Definition secret {E} : M E env bytes := fill_bytes KEY_SIZE.

Definition raw_bytes (k : bytes) : bytes := k.

Definition from_string `{Base64} {S} (s : bytes) : M KeyBytesError S bytes := key_from_str s.

Definition from_bytes {S} (k : bytes) : M KeyBytesError S bytes :=
  if decide (length k = KEY_SIZE) then mret k else throw IllegalSize.

Definition to_base64 `{Base64} (k : bytes) : bytes := base64_encode k.

Definition to_char (nibble : Z) : byte :=
  byte.of_Z (if nibble <=? 9 then 48 + nibble else nibble + 97 - 10).

(** Two lower-case digits per byte. *)
Definition to_lower_hex (k : bytes) : bytes :=
  k ≫= λ b, [to_char (Z.shiftr (code b) 4); to_char (Z.land (code b) 15)].

(** [hex::encode] of the [hex] crate, which writes two lower-case digits for
    every byte. *)
Class Hex := { encode_hex : bytes → bytes }.
Class HexLaws `{Hex} : Prop := { encode_hex_lower k : encode_hex k = to_lower_hex k }.

(** ** Specification *)

Definition ascii (s : bytes) : Prop := Forall (λ b, code b < 128) s.

Lemma code_of_Z z : 0 ≤ z < 256 → code (byte.of_Z z) = z.
Proof. intros. unfold code. rewrite byte.unsigned_of_Z. by apply Z.mod_small. Qed.

Lemma code_range b : 0 ≤ code b < 256.
Proof. apply byte.unsigned_range. Qed.

(** The two digits of a byte. *)
Lemma nibbles b : 0 ≤ Z.shiftr (code b) 4 < 16 ∧ 0 ≤ Z.land (code b) 15 < 16 ∧
  code b = Z.shiftr (code b) 4 * 16 + Z.land (code b) 15.
Proof.
  pose proof (code_range b). rewrite Z.shiftr_div_pow2 by lia. change 15 with (Z.ones 4).
  rewrite Z.land_ones by lia. change (2 ^ 4) with 16. pose proof (Z.div_mod (code b) 16 ltac:(lia)).
  pose proof (Z.mod_pos_bound (code b) 16 ltac:(lia)).
  split; [split; [apply Z.div_pos|apply Z.div_lt_upper_bound]; lia|lia].
Qed.

Lemma to_char_code d : 0 ≤ d < 16 → code (to_char d) = if d <? 10 then 48 + d else 97 + (d - 10).
Proof.
  intros. unfold to_char. destruct (Z.leb_spec d 9), (Z.ltb_spec d 10); try lia;
    rewrite code_of_Z by lia; lia.
Qed.

Lemma to_digit_hex d : 0 ≤ d < 16 → to_digit 16 (to_char d) = Some d.
Proof.
  intros Hd. unfold to_digit. rewrite to_char_code by done. destruct (Z.ltb_spec d 10).
  - rewrite (proj2 (Z.leb_le 48 _)), (proj2 (Z.leb_le _ 57)) by lia. cbn [andb].
    rewrite (proj2 (Z.ltb_lt _ _)) by lia. f_equal. lia.
  - rewrite (proj2 (Z.leb_le 48 _)), (proj2 (Z.leb_gt _ 57)) by lia. cbn [andb].
    rewrite (proj2 (Z.leb_le 97 _)), (proj2 (Z.leb_le _ 122)) by lia. cbn [andb].
    rewrite (proj2 (Z.ltb_lt _ _)) by lia. f_equal. lia.
Qed.

(** The two digits of a byte read back. *)
Lemma hex_pair b : from_str_radix 8 16 [to_char (Z.shiftr (code b) 4); to_char (Z.land (code b) 15)] = Some (code b).
Proof.
  pose proof (code_range b). destruct (nibbles b) as (Hh & Hl & Hb).
  unfold from_str_radix. rewrite decide_False.
  - cbn [parse_digits]. rewrite !to_digit_hex by done.
    rewrite (proj2 (Z.ltb_lt _ _)) by lia. rewrite (proj2 (Z.ltb_lt _ _)) by lia. f_equal. lia.
  - intros Hp%(f_equal code). rewrite to_char_code in Hp by done. revert Hp.
    change (code plus) with 43. case_match eqn:Hc; [apply Z.ltb_lt in Hc|apply Z.ltb_ge in Hc]; lia.
Qed.

Lemma ascii_boundary i s : ascii s → (i ≤ length s)%nat → is_char_boundary i s = true.
Proof.
  intros Ha Hi. unfold is_char_boundary. case_decide; [done|].
  destruct (s !! i) as [b|] eqn:Hb.
  - pose proof (proj1 (Forall_lookup _ _) Ha i b Hb) as Hlt. cbn beta in Hlt.
    rewrite (proj2 (Z.leb_gt 128 _)) by lia. done.
  - apply lookup_ge_None in Hb. rewrite bool_decide_eq_true. lia.
Qed.

Lemma str_slice_ascii {E S} a b s (st : S) :
  ascii s → (a ≤ b ≤ length s)%nat → @str_slice E S a b s st = Ret (Ok (slice a b s), st).
Proof.
  intros Ha Hb. unfold str_slice. rewrite !ascii_boundary by (done || lia).
  by rewrite bool_decide_eq_true_2 by lia.
Qed.

Lemma ascii_utf8 s : ascii s → is_utf8 s = true.
Proof. induction 1 as [|b s Hb _ IH]; [done|]. cbn. by rewrite (proj2 (Z.ltb_lt _ _) Hb). Qed.

Lemma hex_ascii k : ascii (to_lower_hex k).
Proof.
  induction k as [|b k IH]; [constructor|]. destruct (nibbles b) as (Hh & Hl & _).
  assert (∀ d, 0 ≤ d < 16 → code (to_char d) < 128) as Hd.
  { intros d Hd. rewrite to_char_code by done. destruct (Z.ltb_spec d 10); lia. }
  change (ascii (to_char (Z.shiftr (code b) 4) :: to_char (Z.land (code b) 15) :: to_lower_hex k)).
  by repeat apply Forall_cons_2; [apply Hd..|].
Qed.

Lemma length_hex k : length (to_lower_hex k) = (2 * length k)%nat.
Proof.
  induction k as [|b k IH]; [done|].
  change (S (S (length (to_lower_hex k))) = (2 * S (length k))%nat). lia.
Qed.

Lemma parse_hex_app {S} pre k i (st : S) :
  ascii pre → length pre = (i * 2)%nat →
  parse_hex (length k) i (pre ++ to_lower_hex k) st = Ret (Ok k, st).
Proof.
  revert pre i. induction k as [|b k IH]; intros pre i Ha Hl; [done|]. cbn [length parse_hex].
  assert (Hall : ascii (pre ++ to_lower_hex (b :: k))) by (apply Forall_app_2; [done|apply hex_ascii]).
  erewrite bind_ok by (apply str_slice_ascii; [done|]; rewrite length_app, length_hex; cbn [length]; lia).
  cbv beta. rewrite slice_app_skip by lia.
  replace (i * 2 - length pre)%nat with 0%nat by lia. replace (i * 2 + 2 - length pre)%nat with 2%nat by lia.
  change (slice 0 2 (to_lower_hex (b :: k))) with [to_char (Z.shiftr (code b) 4); to_char (Z.land (code b) 15)].
  rewrite hex_pair. erewrite bind_ok by reflexivity. cbv beta.
  replace (pre ++ to_lower_hex (b :: k)) with ((pre ++ [to_char (Z.shiftr (code b) 4); to_char (Z.land (code b) 15)]) ++ to_lower_hex k)
    by (rewrite <- app_assoc; done).
  erewrite bind_ok; [|apply IH].
  - cbv beta. unfold mret, M_ret, code. by rewrite byte.of_Z_unsigned.
  - apply Forall_app in Hall as [_ Hh]. apply Forall_app_2; [done|].
    inversion Hh as [|?? H1 H2]; subst. inversion H2; subst. by repeat apply Forall_cons_2.
  - rewrite length_app. cbn. lia.
Qed.

Section Keys.
Context `{Base64}.

Lemma key_from_hex {S} (k : bytes) (st : S) : length k = KEY_SIZE → key_from_str (to_lower_hex k) st = Ret (Ok k, st).
Proof.
  intros Hk. unfold key_from_str. rewrite decide_True by (rewrite length_hex, Hk; done).
  rewrite <- Hk. exact (parse_hex_app [] k 0 st (Forall_nil_2 _) eq_refl).
Qed.

Lemma key_from_base64 `{!Base64Laws} {S} (k : bytes) (st : S) :
  length k = KEY_SIZE → key_from_str (to_base64 k) st = Ret (Ok k, st).
Proof.
  intros Hk. unfold key_from_str, to_base64. pose proof (base64_roundtrip k) as Hd. pose proof (base64_length _ _ Hd) as Hl.
  rewrite Hk in Hl. change (length (base64_encode k) = 44%nat) in Hl.
  rewrite decide_False, decide_True by lia. by rewrite Hd, decide_True.
Qed.

(** A new secret key has the size of a key, and what any of the three forms
    writes, the one for the same form reads back. *)
Lemma secret_reads_back `{!Base64Laws} {S} (e : env) (st : S) :
  ∃ k e', secret (E := KeyBytesError) e = Ret (Ok k, e') ∧ length k = KEY_SIZE ∧
    from_bytes (raw_bytes k) st = Ret (Ok k, st) ∧
    from_string (to_lower_hex k) st = Ret (Ok k, st) ∧ from_string (to_base64 k) st = Ret (Ok k, st).
Proof.
  assert (Hw : wp (E := KeyBytesError) secret (λ r _, ∃ k, r = Ok k ∧ length k = KEY_SIZE) e)
    by (apply wp_fill_bytes; eauto).
  destruct (wp_elim _ _ _ Hw) as (r & e' & Hr & k & -> & Hk).
  exists k, e'. unfold from_bytes, raw_bytes. rewrite decide_True by done.
  eauto 8 using key_from_hex, key_from_base64.
Qed.

Lemma parse_hex_total {S} todo i s (st : S) :
  ascii s → ((i + todo) * 2 ≤ length s)%nat →
  ∃ r, parse_hex todo i s st = Ret (r, st) ∧ match r with Ok k => length k = todo | Err e => e = IllegalCharacter end.
Proof.
  revert i. induction todo as [|todo IH]; intros i Ha Hl; cbn [parse_hex]; [by exists (Ok [])|].
  erewrite bind_ok by (apply str_slice_ascii; [done|lia]). cbv beta.
  destruct (from_str_radix 8 16 _) as [b|].
  - erewrite bind_ok by reflexivity. cbv beta. destruct (IH (i + 1)%nat Ha ltac:(lia)) as ([k|e] & Hr & Hk).
    + erewrite bind_ok by exact Hr. eexists. split; [reflexivity|]. cbn. lia.
    + exists (Err e). split; [|done]. unfold mbind, M_bind. by rewrite Hr.
  - by eexists (Err _).
Qed.

(** On ASCII text reading a key never panics, a key it gives has 32
    bytes, and text of another length than 43, 44 and 64 is refused for its
    size. *)
Lemma ascii_key_safe {S} (s : bytes) (st : S) :
  ascii s → ∃ r, key_from_str s st = Ret (r, st) ∧
    match r with
    | Ok k => length k = KEY_SIZE
    | Err IllegalCharacter => length s = 64%nat ∨ length s = 43%nat ∨ length s = 44%nat
    | Err IllegalSize => length s ≠ 64%nat ∧ length s ≠ 43%nat ∧ length s ≠ 44%nat
    end.
Proof.
  intros Ha. unfold key_from_str. case_decide as H64.
  - destruct (parse_hex_total KEY_SIZE 0 s st Ha) as (r & Hr & Hok); [rewrite H64; cbn; lia|].
    exists r. split; [done|]. destruct r as [k|e]; [done|]. subst e. by left.
  - case_decide as H44; [|exists (Err IllegalSize); split; [done|lia]].
    destruct (base64_decode s) as [k|]; [|by exists (Ok (zeros KEY_SIZE))].
    case_decide; [by exists (Ok k)|]. exists (Err IllegalCharacter). split; [done|]. by right.
Qed.

(** The slice of the first two bytes is not on a character boundary. *)
Lemma split_character_panics {E S} (s : bytes) b (st : S) :
  length s = 64%nat → s !! 2%nat = Some b → 128 ≤ code b < 192 → @key_from_str E S s st = Panic.
Proof.
  intros Hl Hb Hc. unfold key_from_str. rewrite decide_True by done. cbn [KEY_SIZE parse_hex].
  unfold mbind, M_bind, str_slice, assert_. cbn [Nat.mul Nat.add].
  assert (is_char_boundary 2 s = false) as ->; [|by rewrite andb_false_r].
  unfold is_char_boundary. rewrite decide_False by done. rewrite Hb.
  by rewrite (proj2 (Z.leb_le _ _)), (proj2 (Z.ltb_lt _ _)) by lia.
Qed.

(** C21.  Two faults of reading keys: text of 43 or 44 bytes that is not base64
    is not refused but reads as the key of 32 zero bytes, and text of 64 bytes
    whose third byte continues a character panics, because the slice of the
    first two bytes is not on a character boundary. *)
Theorem key_text_faults (s : bytes) :
  (length s = 43%nat ∨ length s = 44%nat → base64_decode s = None →
   @key_from_str _ () s () = Ret (Ok (zeros KEY_SIZE), ())) ∧
  (∀ b, length s = 64%nat → s !! 2%nat = Some b → 128 ≤ code b < 192 → @key_from_str _ () s () = Panic).
Proof.
  split.
  - intros Hl Hn. unfold key_from_str. rewrite decide_False by lia. rewrite decide_True by done. by rewrite Hn.
  - intros b. by apply split_character_panics.
Qed.
End Keys.

(** ** Witnesses *)

Section KeyWitnesses.

(** A decoder that refuses everything. *)
#[local] Instance no_base64 : Base64 := {| base64_encode _ := []; base64_decode _ := None |}.

#[local] Instance lower_hex : Hex := {| encode_hex := to_lower_hex |}.

#[local] Instance lower_hex_laws : HexLaws.
Proof. by split. Qed.

Definition key_text (s : bytes) (n : nat) : bytes := s ++ replicate n (byte.of_Z 97).

(** Forty-four letters; and the letter a, an e with an acute accent (two
    bytes), and more letters. *)
Lemma key_text_faults_witness :
  @key_from_str _ () (key_text (str "not base64") 34) () = Ret (Ok (zeros KEY_SIZE), ()) ∧
  @key_from_str _ () (key_text (byte.of_Z <$> [97; 195; 169]) 61) () = Panic.
Proof.
  split.
  - apply (key_text_faults (key_text (str "not base64") 34)); [by right|done].
  - apply (key_text_faults (key_text (byte.of_Z <$> [97; 195; 169]) 61)) with (byte.of_Z 169); by vm_compute.
Defined.
End KeyWitnesses.
