(* ===== verification/Base64Text.v ===== *)
(** * Standard base64

    An instance of [Base64] with its laws: the alphabet of letters, digits, [+]
    and [/], with padding, as [BASE64_STANDARD] of the base64 crate documents
    it.  The witnesses of the theorems that have these laws as a hypothesis use
    it. *)

From S2P Require Import Prelude Crypto Packet Text Serialization.
From coqutil Require Import Byte.

(** ** Digits *)

Definition digit64 (n : Z) : byte :=
  byte.of_Z (if n <? 26 then 65 + n else if n <? 52 then 71 + n else if n <? 62 then n - 4 else if n =? 62 then 43 else 47).

Definition value64 (b : byte) : option Z :=
  let c := code b in
  if (65 <=? c) && (c <=? 90) then Some (c - 65)
  else if (97 <=? c) && (c <=? 122) then Some (c - 71)
  else if (48 <=? c) && (c <=? 57) then Some (c + 4)
  else if c =? 43 then Some 62
  else if c =? 47 then Some 63
  else None.

Definition pad64 : byte := byte.of_Z 61.

(** ** Groups of three bytes *)

Fixpoint encode64 (l : bytes) : bytes :=
  match l with
  | [] => []
  | [a] => [digit64 (code a / 4); digit64 (code a mod 4 * 16); pad64; pad64]
  | [a; b] =>
    [digit64 (code a / 4); digit64 (code a mod 4 * 16 + code b / 16); digit64 (code b mod 16 * 4); pad64]
  | a :: b :: c :: l =>
    digit64 (code a / 4) :: digit64 (code a mod 4 * 16 + code b / 16) :: digit64 (code b mod 16 * 4 + code c / 64) ::
    digit64 (code c mod 64) :: encode64 l
  end.

(** The bits of the last digit that belong to no byte have to be zero. *)
Fixpoint decode64 (s : bytes) : option bytes :=
  match s with
  | [] => Some []
  | a :: b :: c :: d :: s =>
    match value64 a, value64 b with
    | Some x, Some y =>
      if decide (d = pad64) then
        match s with
        | [] =>
          if decide (c = pad64) then if y mod 16 =? 0 then Some [byte.of_Z (x * 4 + y / 16)] else None
          else
            match value64 c with
            | Some z => if z mod 4 =? 0 then Some [byte.of_Z (x * 4 + y / 16); byte.of_Z (y mod 16 * 16 + z / 4)] else None
            | None => None
            end
        | _ => None
        end
      else
        match value64 c, value64 d, decode64 s with
        | Some z, Some w, Some l =>
          Some (byte.of_Z (x * 4 + y / 16) :: byte.of_Z (y mod 16 * 16 + z / 4) :: byte.of_Z (z mod 4 * 64 + w) :: l)
        | _, _, _ => None
        end
    | _, _ => None
    end
  | _ => None
  end.

(** ** Laws *)

Lemma digits64_ok : forallb (λ n, bool_decide (value64 (digit64 n) = Some n) && (43 <=? code (digit64 n)) &&
  (code (digit64 n) <=? 122) && bool_decide (digit64 n ≠ pad64)) (seqZ 0 64) = true.
Proof. vm_compute. reflexivity. Qed.

Lemma digit64_spec n : 0 ≤ n < 64 → value64 (digit64 n) = Some n ∧ 43 ≤ code (digit64 n) ≤ 122 ∧ digit64 n ≠ pad64.
Proof.
  intros Hn. pose proof (proj1 (forallb_forall _ _) digits64_ok n) as Hd. rewrite <- list_elem_of_In, elem_of_seqZ in Hd.
  specialize (Hd ltac:(lia)). rewrite !andb_true_iff, !bool_decide_eq_true, !Z.leb_le in Hd. naive_solver.
Qed.

Lemma of_code b z : z = code b → byte.of_Z z = b.
Proof. intros ->. apply byte.of_Z_unsigned. Qed.

(** The lists by groups of three. *)
Lemma groups_ind (P : bytes → Prop) :
  P [] → (∀ a, P [a]) → (∀ a b, P [a; b]) → (∀ a b c l, P l → P (a :: b :: c :: l)) → ∀ l, P l.
Proof.
  intros H0 H1 H2 H3. fix IH 1. intros [|a [|b [|c l]]]; [exact H0|apply H1|apply H2|]. apply H3, IH.
Qed.

Ltac digits64 :=
  repeat match goal with
  | |- context [value64 (digit64 ?n)] => rewrite (proj1 (digit64_spec n ltac:(dlia)))
  end.

Lemma decode_encode64 l : decode64 (encode64 l) = Some l.
Proof.
  induction l as [|a|a b|a b c l IH] using groups_ind; [done|..]; cbn [encode64 decode64].
  - pose proof (code_range a). digits64. rewrite !decide_True by done. rewrite (proj2 (Z.eqb_eq _ _)) by dlia.
    f_equal. f_equal. apply of_code. dlia.
  - pose proof (code_range a). pose proof (code_range b). digits64. rewrite decide_True by done.
    rewrite decide_False by (apply digit64_spec; dlia). rewrite (proj2 (Z.eqb_eq _ _)) by dlia.
    f_equal. f_equal; [|f_equal]; apply of_code; dlia.
  - pose proof (code_range a). pose proof (code_range b). pose proof (code_range c). digits64.
    rewrite decide_False by (apply digit64_spec; dlia). rewrite IH.
    f_equal. f_equal; [|f_equal; [|f_equal]]; apply of_code; dlia.
Qed.

Lemma encode64_alphabet l : Forall (λ b, 43 ≤ code b ≤ 122) (encode64 l).
Proof.
  assert (Hd : ∀ n, 0 ≤ n < 64 → 43 ≤ code (digit64 n) ≤ 122) by (intros n Hn; by apply digit64_spec).
  assert (Hp : 43 ≤ code pad64 ≤ 122) by (vm_compute; split; discriminate).
  induction l as [|a|a b|a b c l IH] using groups_ind; cbn [encode64]; [constructor|..].
  - pose proof (code_range a). repeat (apply Forall_cons_2; [first [exact Hp|apply Hd; dlia]|]). constructor.
  - pose proof (code_range a). pose proof (code_range b).
    repeat (apply Forall_cons_2; [first [exact Hp|apply Hd; dlia]|]). constructor.
  - pose proof (code_range a). pose proof (code_range b). pose proof (code_range c).
    do 4 (apply Forall_cons_2; [apply Hd; dlia|]). exact IH.
Qed.

Lemma decode64_length s k : decode64 s = Some k → length s = (4 * ((length k + 2) / 3))%nat.
Proof.
  revert s k. fix IH 1. intros [|a [|b [|c [|d s]]]] k; cbn [decode64]; intros Hk; simplify_eq; [done|].
  repeat case_match; simplify_eq; try done. cbn [length].
  match goal with H : decode64 s = Some ?l |- _ =>
    rewrite (IH s l H); replace (S (S (S (length l))) + 2)%nat with (length l + 2 + 1 * 3)%nat by lia end.
  rewrite Nat.div_add by done. lia.
Qed.

#[local] Instance standard_base64 : Base64 := {| base64_encode := encode64; base64_decode := decode64 |}.

#[local] Instance standard_base64_laws : Base64Laws.
Proof. split; [exact decode64_length|exact encode64_alphabet|exact decode_encode64]. Qed.
