(* ===== verification/Show.v ===== *)
(** * Text: how numbers and addresses are written ([core::fmt], [core::net])

    The [Display] of the standard library for what the [get] command prints,
    and the proof that the parsers of Text.v read it back. *)

From Stdlib Require Import Strings.String.
From S2P Require Import Prelude Crypto Packet Text Serialization.
From coqutil Require Import Byte.

(** ** Numbers *)

(** The digits of [n], in front of [acc]. *)
Fixpoint digits (fuel : nat) (radix n : Z) (acc : list Z) : list Z :=
  match fuel with
  | O => acc
  | S fuel =>
    if n <? radix then n :: acc else digits fuel radix (n / radix) (n mod radix :: acc)
  end.

Definition digits_of (radix n : Z) : list Z := digits (S (Z.to_nat (Z.log2 n))) radix n [].

(** [{}] at radix ten, [{:x}] at sixteen. *)
Definition show_uint (radix n : Z) : bytes := to_char <$> digits_of radix n.

(** ** Addresses *)

(** The texts with [sep] between them; before the first as well if that is
    not number zero. *)
Fixpoint join_from (sep : byte) (i : nat) (l : list bytes) : bytes :=
  match l with
  | [] => []
  | x :: l => match i with O => x | S _ => sep :: x end ++ join_from sep (S i) l
  end.

(** [Ipv4Addr] *)
Definition show_ipv4 (octets : bytes) : bytes := join_from dot 0 (show_uint 10 ∘ code <$> octets).

(** [Ipv6Addr::segments] *)
Fixpoint segments (octets : bytes) : list Z :=
  match octets with
  | h :: l :: octets => from_be_bytes [h; l] :: segments octets
  | _ => []
  end.

(** [fmt_subslice] *)
Definition show_segments (l : list Z) : bytes := join_from colon 0 (show_uint 16 <$> l).

(** The first of the longest runs of zeros, from segment number [i] on: its
    start and its length. *)
Fixpoint longest_zeros (i : nat) (current longest : nat * nat) (l : list Z) : nat * nat :=
  match l with
  | [] => longest
  | segment :: l =>
    if segment =? 0 then
      let current := ((if decide (current.2 = 0%nat) then i else current.1), S current.2) in
      longest_zeros (S i) current (if decide (longest.2 < current.2)%nat then current else longest) l
    else longest_zeros (S i) (0%nat, 0%nat) longest l
  end.

(** [to_ipv4_mapped] *)
Definition to_ipv4_mapped (octets : bytes) : option bytes :=
  if decide (take 12 octets = zeros 10 ++ [byte.of_Z 255; byte.of_Z 255]) then Some (drop 12 octets) else None.

(** [Ipv6Addr] *)
Definition show_ipv6 (octets : bytes) : bytes :=
  match to_ipv4_mapped octets with
  | Some ipv4 => str "::ffff:" ++ show_ipv4 ipv4
  | None =>
    let segments := segments octets in
    let zeroes := longest_zeros 0 (0%nat, 0%nat) (0%nat, 0%nat) segments in
    if decide (1 < zeroes.2)%nat then
      show_segments (take zeroes.1 segments) ++ str "::" ++ show_segments (drop (zeroes.1 + zeroes.2) segments)
    else show_segments segments
  end.

(** [IpAddr] *)
Definition show_ip (a : IpAddr) : bytes := match a with V4 b => show_ipv4 b | V6 b => show_ipv6 b end.

(** [SocketAddr] *)
Definition show_socket_addr (a : SocketAddr) : bytes :=
  match a with
  | SockV4 ip port => show_ipv4 ip ++ str ":" ++ show_uint 10 port
  | SockV6 ip port scope_id =>
    str "[" ++ show_ipv6 ip ++ (if scope_id =? 0 then [] else str "%" ++ show_uint 10 scope_id) ++
      str "]:" ++ show_uint 10 port
  end.

(** The addresses of the type: four or sixteen octets, a 16-bit port, a 32-bit
    scope. *)
Definition socket_addr_wf (a : SocketAddr) : Prop :=
  match a with
  | SockV4 ip port => length ip = 4%nat ∧ in_width 16 port
  | SockV6 ip port scope_id => length ip = 16%nat ∧ in_width 16 port ∧ in_width 32 scope_id
  end.

(** ** Numbers read back *)

(** The number that digits stand for, on top of those read so far. *)
Definition value (radix acc : Z) (l : list Z) : Z := foldl (λ a d, a * radix + d) acc l.

Section Numbers.
Context (radix : Z) (radix_ok : 2 ≤ radix ≤ 16).

Lemma digits_spec fuel n acc :
  0 ≤ n < 2 ^ Z.of_nat fuel → Forall (λ d, 0 ≤ d < radix) acc → (0 < fuel)%nat →
  ∃ d l, digits fuel radix n acc = d :: l ++ acc ∧ Forall (λ d, 0 ≤ d < radix) (d :: l) ∧
    value radix 0 (d :: l) = n ∧ (d = 0 → l = [] ∧ n = 0) ∧
    ∀ k, n < radix ^ Z.of_nat (S k) → (length l ≤ k)%nat.
Proof.
  revert n acc. induction fuel as [|fuel IH]; intros n acc Hn Ha Hf; [lia|]. cbn [digits].
  destruct (Z.ltb_spec n radix) as [Hlt|Hge].
  { exists n, []. split_and!; [done|repeat constructor; lia|cbn; lia|auto|cbn; lia]. }
  pose proof (Z.mod_pos_bound n radix ltac:(lia)) as Hm. pose proof (Z.div_mod n radix ltac:(lia)) as Hdm.
  rewrite Nat2Z.inj_succ, Z.pow_succ_r in Hn by lia.
  assert (Hq : 1 ≤ n / radix < 2 ^ Z.of_nat fuel).
  { split; [apply Z.div_le_lower_bound; lia|apply Z.div_lt_upper_bound; [lia|nia]]. }
  destruct (IH (n / radix) (n mod radix :: acc)) as (d & l & He & Hr & Hv & Hz & Hk); [lia|by constructor|destruct fuel; [cbn in Hq; lia|lia]|].
  exists d, (l ++ [n mod radix]). rewrite He. split_and!.
  - by rewrite <- app_assoc.
  - apply Forall_cons in Hr as [Hd Hl]. constructor; [done|]. apply Forall_app_2; [done|by apply Forall_singleton].
  - unfold value in *. cbn in *. rewrite foldl_app, Hv. cbn. lia.
  - intros E. destruct (Hz E). lia.
  - intros k Hlt. rewrite length_app. cbn. destruct k as [|k].
    + change (radix ^ Z.of_nat 1) with (radix ^ 1) in Hlt. rewrite Z.pow_1_r in Hlt. lia.
    + assert (length l ≤ k)%nat; [|lia]. apply Hk. apply Z.div_lt_upper_bound; [lia|].
      rewrite <- Z.pow_succ_r by lia. by rewrite <- Nat2Z.inj_succ.
Qed.

(** Digits, no zero in front of others, and no more than the width. *)
Lemma digits_of_spec n : 0 ≤ n →
  ∃ d l, digits_of radix n = d :: l ∧ Forall (λ d, 0 ≤ d < radix) (d :: l) ∧ value radix 0 (d :: l) = n ∧
    (d = 0 → l = []) ∧ ∀ k, n < radix ^ Z.of_nat (S k) → (length l ≤ k)%nat.
Proof.
  intros Hn. destruct (digits_spec (S (Z.to_nat (Z.log2 n))) n []) as (d & l & He & Hr & Hv & Hz & Hk);
    [|constructor|lia|].
  - split; [done|]. rewrite Nat2Z.inj_succ, Z2Nat.id by apply Z.log2_nonneg.
    destruct (Z.eq_dec n 0) as [->|]; [done|]. apply Z.log2_spec. lia.
  - exists d, l. unfold digits_of. rewrite He, app_nil_r. split_and!; [done..| |done]. intros E. by destruct (Hz E).
Qed.

Lemma value_ge acc l : 0 ≤ acc → Forall (λ d, 0 ≤ d < radix) l → acc ≤ value radix acc l.
Proof.
  intros Hacc Hl. revert acc Hacc. induction Hl as [|d l Hd _ IH]; intros acc Hacc; [done|].
  cbn. specialize (IH (acc * radix + d) ltac:(nia)). unfold value in IH. nia.
Qed.
End Numbers.

Lemma to_digit_to_char radix d : 2 ≤ radix ≤ 16 → 0 ≤ d < radix → to_digit radix (to_char d) = Some d.
Proof.
  intros Hr Hd. pose proof (to_digit_hex d ltac:(lia)) as Hh. unfold to_digit in *.
  rewrite to_char_code in * by lia. destruct (Z.ltb_spec d 10).
  - rewrite (proj2 (Z.leb_le 48 _)), (proj2 (Z.leb_le _ 57)) by lia. cbn [andb].
    rewrite (proj2 (Z.ltb_lt _ _)) by lia. f_equal. lia.
  - rewrite (proj2 (Z.leb_le 48 _)), (proj2 (Z.leb_gt _ 57)) by lia. cbn [andb].
    rewrite (proj2 (Z.leb_le 97 _)), (proj2 (Z.leb_le _ 122)) by lia. cbn [andb].
    rewrite (proj2 (Z.ltb_lt _ _)) by lia. f_equal. lia.
Qed.

(** The text goes on with something that is not a digit. *)
Definition no_digit (radix : Z) (s : bytes) : Prop := match s with [] => True | b :: _ => to_digit radix b = None end.

Section Reading.
Context (w radix : Z) (radix_ok : 2 ≤ radix ≤ 16).

Lemma read_digits_show md acc count l rest :
  0 ≤ acc → Forall (λ d, 0 ≤ d < radix) l → no_digit radix rest →
  match md with Some m => (count + length l ≤ m)%nat | None => value radix acc l < 2 ^ w end →
  read_digits w radix md acc count ((to_char <$> l) ++ rest) = Some (value radix acc l, (count + length l)%nat, rest).
Proof.
  intros Hacc Hl Hrest. revert acc count Hacc. induction Hl as [|d l Hd Hl IH]; intros acc count Hacc Hm.
  - cbn. rewrite Nat.add_0_r. destruct rest as [|b rest]; [done|]. cbn in *. by rewrite Hrest.
  - change ((to_char <$> d :: l) ++ rest) with (to_char d :: ((to_char <$> l) ++ rest)). cbn [read_digits].
    rewrite to_digit_to_char by done. cbn [length] in *.
    pose proof (value_ge radix radix_ok (acc * radix + d) l ltac:(nia) Hl) as Hge.
    assert ((match md with Some m => bool_decide (S count ≤ m)%nat | None => acc * radix + d <? 2 ^ w end) = true) as ->.
    { destruct md; [rewrite bool_decide_eq_true; lia|]. apply Z.ltb_lt. cbn in Hm. unfold value in *. lia. }
    rewrite IH; [|nia|destruct md; [lia|exact Hm]]. by rewrite Nat.add_succ_r.
Qed.

Lemma parse_digits_show acc l :
  0 ≤ acc → Forall (λ d, 0 ≤ d < radix) l → value radix acc l < 2 ^ w →
  parse_digits w radix acc (to_char <$> l) = Some (value radix acc l).
Proof.
  intros Hacc Hl. revert acc Hacc. induction Hl as [|d l Hd Hl IH]; intros acc Hacc Hm; [done|].
  cbn [fmap list_fmap parse_digits]. rewrite to_digit_to_char by done.
  pose proof (value_ge radix radix_ok (acc * radix + d) l ltac:(nia) Hl) as Hge.
  rewrite (proj2 (Z.ltb_lt _ _)) by (cbn in Hm; unfold value in *; lia). rewrite IH; [done|nia|exact Hm].
Qed.

(** A number that is written reads back, with or without a limit on the digits. *)
Lemma read_number_show md azp n rest :
  0 ≤ n < 2 ^ w → no_digit radix rest →
  match md with Some m => n < radix ^ Z.of_nat m ∧ (0 < m)%nat | None => True end →
  read_number w radix md azp (show_uint radix n ++ rest) = Some (n, rest).
Proof.
  intros Hn Hrest Hm. destruct (digits_of_spec radix radix_ok n ltac:(lia)) as (d & l & He & Hr & Hv & Hz & Hk).
  unfold read_number, show_uint. rewrite He. rewrite (read_digits_show md 0 0 (d :: l) rest); [|lia|done|done|].
  2:{ destruct md as [[|m]|]; [lia| |by rewrite Hv; lia]. cbn. destruct Hm as [Hm _]. specialize (Hk m Hm). lia. }
  cbn [mbind option_bind]. rewrite Hv. rewrite bool_decide_eq_false_2 by (cbn; lia).
  rewrite (proj2 (Z.ltb_lt n _)) by lia. destruct (_ && _) eqn:E; [exfalso|done].
  rewrite !andb_true_iff, !bool_decide_eq_true in E. destruct E as [[_ E] Hlen]. cbn in E, Hlen.
  injection E as E%(f_equal (to_digit radix)). rewrite to_digit_to_char in E by (apply Forall_cons in Hr as [Hd _]; done).
  assert (d = 0) as ->. { revert E. change zero_digit with (to_char 0). rewrite to_digit_to_char by lia. by intros [= ->]. }
  rewrite Hz in Hlen by done. cbn in Hlen. lia.
Qed.

Lemma from_str_radix_show n : 0 ≤ n < 2 ^ w → from_str_radix w radix (show_uint radix n) = Some n.
Proof.
  intros Hn. destruct (digits_of_spec radix radix_ok n ltac:(lia)) as (d & l & He & Hr & Hv & _).
  assert (Hsign : to_char d ≠ plus ∧ to_char d ≠ minus).
  { apply Forall_cons in Hr as [Hd _]. split; intros E%(f_equal code); rewrite to_char_code in E by lia; revert E;
      [change (code plus) with 43|change (code minus) with 45]; case_match eqn:C;
      [apply Z.ltb_lt in C|apply Z.ltb_ge in C|apply Z.ltb_lt in C|apply Z.ltb_ge in C]; lia. }
  pose proof (parse_digits_show 0 (d :: l) ltac:(lia) Hr ltac:(lia)) as Hp. rewrite Hv in Hp.
  unfold from_str_radix, show_uint. rewrite He. cbn [fmap list_fmap] in *.
  destruct Hsign. destruct (to_char <$> l); (rewrite decide_False by naive_solver); done.
Qed.
End Reading.

(** ** Addresses read back *)

Lemma join_no_digit radix sep i l rest :
  to_digit radix sep = None → no_digit radix rest → no_digit radix (join_from sep (S i) l ++ rest).
Proof. intros. by destruct l. Qed.

Lemma read_octets_show l i rest :
  no_digit 10 rest →
  read_octets (length l) i (join_from dot i (show_uint 10 ∘ code <$> l) ++ rest) = Some (l, rest).
Proof.
  intros Hrest. revert i. induction l as [|b l IH]; intros i; [done|].
  cbn [length read_octets fmap list_fmap join_from]. pose proof (code_range b).
  assert (Hnum : read_number 8 10 (Some 3%nat) false
    (show_uint 10 (code b) ++ (join_from dot (S i) (show_uint 10 ∘ code <$> l) ++ rest)) =
    Some (code b, join_from dot (S i) (show_uint 10 ∘ code <$> l) ++ rest)).
  { apply read_number_show; [lia|lia|by apply join_no_digit|lia]. }
  rewrite <- app_assoc.
  assert (Hsep : read_separator dot i (read_number 8 10 (Some 3%nat) false)
    (match i with O => show_uint 10 (code b) | S _ => dot :: show_uint 10 (code b) end ++
      (join_from dot (S i) (show_uint 10 ∘ code <$> l) ++ rest)) =
    Some (code b, join_from dot (S i) (show_uint 10 ∘ code <$> l) ++ rest)).
  { destruct i; cbn [read_separator]; [exact Hnum|]. cbn. exact Hnum. }
  change ((show_uint 10 ∘ code) b) with (show_uint 10 (code b)). rewrite Hsep. cbn [mbind option_bind]. rewrite IH. cbn.
  unfold code. by rewrite byte.of_Z_unsigned.
Qed.

(** What can follow an address. *)
Definition stops (s : bytes) : Prop :=
  match s with [] => True | b :: _ => to_digit 16 b = None ∧ b ≠ dot ∧ b ≠ colon end.

Lemma no_digit_16_10 b : to_digit 16 b = None → to_digit 10 b = None.
Proof.
  unfold to_digit. intros H. repeat match goal with |- context [if ?c then _ else _] => destruct c eqn:? end; try done;
    exfalso; revert H; repeat match goal with |- context [if ?c then _ else _] => destruct c eqn:? end; try done;
    intros _; rewrite ?Z.ltb_lt, ?Z.ltb_ge, ?andb_true_iff, ?Z.leb_le in *; try lia.
Qed.

(** The text goes on with neither a digit of a group nor a dot. *)
Definition group_ends (s : bytes) : Prop := match s with [] => True | b :: _ => to_digit 16 b = None ∧ b ≠ dot end.

Lemma stops_group_ends s : stops s → group_ends s.
Proof. destruct s; [done|]. by intros (? & ? & _). Qed.

Lemma group_ends_no_digit s : group_ends s → no_digit 16 s.
Proof. destruct s; [done|]. by intros [? _]. Qed.

Lemma to_char_not_dot d : 0 ≤ d < 16 → to_char d ≠ dot.
Proof.
  intros Hd E%(f_equal code). rewrite to_char_code in E by done. change (code dot) with 46 in E.
  destruct (Z.ltb_spec d 10); lia.
Qed.

Lemma read_digits_no_dot w md l rest acc count v k s' :
  Forall (λ d, 0 ≤ d < 16) l → group_ends rest →
  read_digits w 10 md acc count ((to_char <$> l) ++ rest) = Some (v, k, s') → head s' ≠ Some dot.
Proof.
  intros Hl Hrest. revert acc count. induction Hl as [|d l Hd _ IH]; intros acc count.
  - destruct rest as [|b rest]; cbn; [by intros [= _ _ <-]|]. destruct Hrest as [Hb%no_digit_16_10 Hn]. rewrite Hb.
    intros [= _ _ <-]. by intros [= ->].
  - cbn [fmap list_fmap app read_digits]. destruct (to_digit 10 (to_char d)).
    + case_match; [apply IH|done].
    + intros [= _ _ <-]. intros [= E]. by eapply to_char_not_dot.
Qed.

(** A group is not the start of an IPv4 address. *)
Lemma group_not_ipv4 l rest :
  Forall (λ d, 0 ≤ d < 16) l → group_ends rest → read_ipv4_addr ((to_char <$> l) ++ rest) = None.
Proof.
  intros Hl Hrest. unfold read_ipv4_addr. cbn [read_octets].
  destruct (read_separator dot 0 _ _) as [[v s']|] eqn:Hn; [|done]. cbn [mbind option_bind].
  assert (Hd : head s' ≠ Some dot).
  { unfold read_separator, read_number in Hn. destruct (read_digits 8 10 _ 0 0 _) as [[[u k] s1]|] eqn:Hd; [|done].
    apply read_digits_no_dot in Hd; [|done..]. cbn in Hn. repeat (case_match; try done). by simplify_eq. }
  destruct s' as [|b s']; [done|]. unfold read_separator, read_given_char.
  rewrite decide_False; [done|]. intros ->. by apply Hd.
Qed.

(** Neither an IPv4 address nor a group can be read as number [i]. *)
Definition blocked (i : nat) (s : bytes) : Prop :=
  read_separator colon i read_ipv4_addr s = None ∧
  read_separator colon i (read_number 16 16 (Some 4%nat) true) s = None.

Lemma read_number_none w radix md azp s : no_digit radix s → read_number w radix md azp s = None.
Proof. intros Hs. unfold read_number. destruct s as [|b s]; [done|]. cbn in Hs. cbn [read_digits]. by rewrite Hs. Qed.

Lemma read_ipv4_none s : no_digit 16 s → read_ipv4_addr s = None.
Proof.
  intros Hs. unfold read_ipv4_addr. cbn [read_octets]. unfold read_separator.
  rewrite read_number_none; [done|]. destruct s; [done|]. by apply no_digit_16_10.
Qed.

Lemma blocked_stops i s : stops s → blocked i s.
Proof.
  intros Hs. destruct i; split; cbn [read_separator].
  1: by apply read_ipv4_none, group_ends_no_digit, stops_group_ends.
  1: by apply read_number_none, group_ends_no_digit, stops_group_ends.
  all: destruct s as [|b s]; [done|]; destruct Hs as (_ & _ & Hb); cbn; by rewrite decide_False.
Qed.

Lemma blocked_colons i s : blocked i (colon :: colon :: s).
Proof. destruct i; split; cbn [read_separator]; cbn [read_given_char]; rewrite ?decide_True by done; by cbn. Qed.

Definition segment_bytes (l : list Z) : bytes := l ≫= to_be_bytes 2.

(** Groups that are written read back. *)
Lemma read_groups_show l todo i limit rest :
  Forall (in_width 16) l → (length l ≤ todo)%nat → group_ends rest →
  ((length l < todo)%nat → blocked (i + length l) rest) →
  read_groups todo i limit (join_from colon i (show_uint 16 <$> l) ++ rest) = (segment_bytes l, false, rest).
Proof.
  intros Hl. revert todo i. induction Hl as [|g l Hg Hl IH]; intros todo i Hlen Hrest Hb.
  - destruct todo as [|todo]; [done|]. cbn [length] in *. rewrite Nat.add_0_r in Hb.
    destruct (Hb ltac:(lia)) as [H4 H6]. cbn [fmap list_fmap join_from app read_groups]. rewrite H4, H6.
    by case_bool_decide.
  - destruct todo as [|todo]; [cbn in Hlen; lia|]. cbn [length] in *.
    cbn [fmap list_fmap join_from read_groups]. rewrite <- app_assoc.
    set (more := join_from colon (S i) (show_uint 16 <$> l) ++ rest).
    assert (Hmore : group_ends more) by (unfold more; by destruct l).
    assert (H4 : read_separator colon i read_ipv4_addr
      (match i with O => show_uint 16 g | S _ => colon :: show_uint 16 g end ++ more) = None).
    { destruct (digits_of_spec 16 ltac:(lia) g ltac:(apply Hg)) as (d & ds & He & Hr & _).
      assert (read_ipv4_addr (show_uint 16 g ++ more) = None) by (unfold show_uint; rewrite He; by apply group_not_ipv4).
      by destruct i. }
    assert (H6 : read_separator colon i (read_number 16 16 (Some 4%nat) true)
      (match i with O => show_uint 16 g | S _ => colon :: show_uint 16 g end ++ more) = Some (g, more)).
    { assert (read_number 16 16 (Some 4%nat) true (show_uint 16 g ++ more) = Some (g, more)).
      { apply read_number_show; [lia|exact Hg|by apply group_ends_no_digit|split; [apply Hg|lia]]. }
      by destruct i. }
    rewrite H4, H6. unfold more. rewrite IH; [by case_bool_decide|lia|done|].
    intros Hlt. replace (S i + length l)%nat with (i + S (length l))%nat by lia. apply Hb. lia.
Qed.

(** *** IPv6 *)

Lemma segment_bytes_app k l : segment_bytes (k ++ l) = segment_bytes k ++ segment_bytes l.
Proof. apply bind_app. Qed.

Lemma length_segment_bytes l : length (segment_bytes l) = (2 * length l)%nat.
Proof.
  induction l as [|g l IH]; [done|]. change (segment_bytes (g :: l)) with (to_be_bytes 2 g ++ segment_bytes l).
  rewrite length_app, length_to_be_bytes, IH. cbn. lia.
Qed.

Lemma segment_bytes_zeros n : segment_bytes (replicate n 0) = zeros (2 * n).
Proof.
  induction n as [|n IH]; [done|]. cbn [replicate].
  change (segment_bytes (0 :: replicate n 0)) with (to_be_bytes 2 0 ++ segment_bytes (replicate n 0)).
  rewrite IH. replace (2 * S n)%nat with (2 + 2 * n)%nat by lia. done.
Qed.

Lemma segments_spec n b : length b = (2 * n)%nat →
  segment_bytes (segments b) = b ∧ length (segments b) = n ∧ Forall (in_width 16) (segments b).
Proof.
  revert b. induction n as [|n IH]; intros b Hb.
  - by apply nil_length_inv in Hb as ->.
  - destruct b as [|h [|l b]]; [cbn in Hb; lia..|]. destruct (IH b ltac:(cbn in Hb; lia)) as (H1 & H2 & H3). cbn [segments].
    split_and!; [|cbn; lia|constructor; [by apply (from_be_bytes_width 2)|done]].
    change (to_be_bytes 2 (from_be_bytes [h; l]) ++ segment_bytes (segments b) = h :: l :: b).
    by rewrite to_from_be_bytes, H1.
Qed.

Definition zero_run (l : list Z) (span : nat * nat) : Prop :=
  ∀ j, (span.1 ≤ j < span.1 + span.2)%nat → l !! j = Some 0.

Lemma longest_zeros_run pre l current longest :
  zero_run (pre ++ l) current → (current.2 ≠ 0%nat → current.1 + current.2 = length pre)%nat →
  zero_run (pre ++ l) longest → zero_run (pre ++ l) (longest_zeros (length pre) current longest l).
Proof.
  revert pre current longest. induction l as [|g l IH]; intros pre cur lon Hc He Hl; [done|].
  cbn [longest_zeros]. specialize (IH (pre ++ [g])). rewrite length_app, <- app_assoc in IH. cbn in IH.
  rewrite Nat.add_1_r in IH. destruct (Z.eqb_spec g 0) as [->|].
  - apply IH; [|cbn; case_decide; lia|case_decide; [|done]].
    all: intros j Hj; cbn in Hj; destruct (decide (j = length pre)) as [->|];
      [by rewrite lookup_app_r, Nat.sub_diag|apply Hc; case_decide; lia].
  - apply IH; [intros j; cbn; lia|done|done].
Qed.

Lemma zero_run_split l a n : zero_run l (a, n) → n ≠ 0%nat → l = take a l ++ replicate n 0 ++ drop (a + n) l.
Proof.
  intros Hz Hn. rewrite <- (take_drop a l) at 1. f_equal. rewrite <- (take_drop n (drop a l)) at 1.
  rewrite drop_drop. f_equal. apply list_eq. intros j. destruct (decide (j < n)%nat) as [Hj|].
  - rewrite lookup_take_lt, lookup_drop, lookup_replicate_2 by lia. apply Hz. cbn. lia.
  - rewrite lookup_take_ge by lia. symmetry. apply lookup_replicate_None. lia.
Qed.

Lemma zero_run_fits l a n : zero_run l (a, n) → n ≠ 0%nat → (a + n ≤ length l)%nat.
Proof.
  intros Hz Hn. specialize (Hz (a + n - 1)%nat ltac:(cbn; lia)). apply lookup_lt_Some in Hz. lia.
Qed.

(** The groups before the colons, the colons, and what the groups after give. *)
Lemma read_compressed l s tl v4 rest :
  Forall (in_width 16) l → (length l < 8)%nat →
  read_groups (7 - length l) 0 (7 - length l) s = (tl, v4, rest) →
  read_ipv6_addr (show_segments l ++ str "::" ++ s) =
    Some (segment_bytes l ++ zeros (16 - 2 * length l - length tl) ++ tl, rest).
Proof.
  intros Hl Hlen Ht. unfold read_ipv6_addr, show_segments. change (str "::" ++ s) with (colon :: colon :: s).
  rewrite read_groups_show; [|done|lia|done|intros _; apply blocked_colons].
  rewrite length_segment_bytes, (Nat.mul_comm 2), Nat.div_mul by lia. rewrite bool_decide_eq_false_2 by lia.
  cbn [read_given_char]. rewrite !decide_True by done. cbn [mbind option_bind read_given_char].
  rewrite decide_True by done. cbn [mbind option_bind].
  replace (8 - (length l + 1))%nat with (7 - length l)%nat by lia. rewrite Ht. by rewrite (Nat.mul_comm (length l)).
Qed.

Lemma ipv4_mapped_split b ipv4 : length b = 16%nat → to_ipv4_mapped b = Some ipv4 →
  b = zeros 10 ++ [byte.of_Z 255; byte.of_Z 255] ++ ipv4 ∧ length ipv4 = 4%nat.
Proof.
  intros Hb. unfold to_ipv4_mapped. case_decide as Ht; [|done]. intros [= <-].
  rewrite app_assoc, <- Ht, take_drop, length_drop. split; [done|lia].
Qed.

(** The tail of a mapped address. *)
Lemma read_mapped ipv4 rest : length ipv4 = 4%nat → no_digit 10 rest →
  read_groups 7 0 7 (str "ffff:" ++ show_ipv4 ipv4 ++ rest) = ([byte.of_Z 255; byte.of_Z 255] ++ ipv4, true, rest).
Proof.
  intros Hlen Hrest. pose proof (read_octets_show ipv4 0 rest Hrest) as H4. rewrite Hlen in H4.
  change (str "ffff:") with (show_uint 16 65535 ++ [colon]). rewrite <- app_assoc.
  change ([colon] ++ show_ipv4 ipv4 ++ rest) with (colon :: (show_ipv4 ipv4 ++ rest)).
  set (s := show_ipv4 ipv4 ++ rest) in *.
  assert (Hf : read_ipv4_addr (show_uint 16 65535 ++ colon :: s) = None).
  { apply (group_not_ipv4 [15; 15; 15; 15]); [repeat constructor; lia|done]. }
  assert (Hn : read_number 16 16 (Some 4%nat) true (show_uint 16 65535 ++ colon :: s) = Some (65535, colon :: s)).
  { apply read_number_show; [lia|done|done|split; [done|lia]]. }
  cbn [read_groups]. unfold read_separator. rewrite Hf, Hn. cbn [Nat.sub bool_decide decide_rel].
  cbn [read_given_char]. rewrite decide_True by done. cbn [mbind option_bind].
  rewrite bool_decide_eq_true_2 by lia. unfold read_ipv4_addr. unfold s, show_ipv4. by rewrite H4.
Qed.

(** An IPv6 address that is written reads back. *)
Lemma read_ipv6_show b rest : length b = 16%nat → stops rest → read_ipv6_addr (show_ipv6 b ++ rest) = Some (b, rest).
Proof.
  intros Hb Hrest. unfold show_ipv6. destruct (to_ipv4_mapped b) as [ipv4|] eqn:Hm.
  - destruct (ipv4_mapped_split b ipv4 Hb Hm) as [-> Hlen].
    pose proof (read_compressed [] (str "ffff:" ++ show_ipv4 ipv4 ++ rest) _ _ rest (Forall_nil_2 _) ltac:(cbn; lia)
      (read_mapped ipv4 rest Hlen ltac:(destruct rest; [done|by apply no_digit_16_10, Hrest]))) as Hr.
    rewrite length_app, Hlen in Hr. exact Hr.
  - destruct (segments_spec 8 b Hb) as (Hs & Hlen & Hw). pose proof (stops_group_ends _ Hrest) as Hge.
    pose proof (longest_zeros_run [] (segments b) (0%nat, 0%nat) (0%nat, 0%nat)
      ltac:(intros ?; cbn; lia) ltac:(done) ltac:(intros ?; cbn; lia)) as Hz. cbn [app length] in Hz.
    destruct (longest_zeros 0 (0%nat, 0%nat) (0%nat, 0%nat) (segments b)) as [a n]. cbn [fst snd]. case_decide as Hn.
    + pose proof (zero_run_fits _ _ _ Hz ltac:(lia)) as Hfit. pose proof (zero_run_split _ _ _ Hz ltac:(lia)) as Hl.
      set (hd := take a (segments b)) in *. set (tl := drop (a + n) (segments b)) in *.
      assert (length hd = a) as Hhd by (unfold hd; rewrite length_take; lia).
      assert (length tl = 8 - (a + n))%nat as Htl by (unfold tl; rewrite length_drop; lia).
      rewrite <- !app_assoc. erewrite read_compressed.
      * f_equal. f_equal. rewrite <- Hs, Hl, !segment_bytes_app, segment_bytes_zeros, length_segment_bytes.
        do 3 f_equal. lia.
      * unfold hd. by apply Forall_take.
      * lia.
      * apply (read_groups_show tl); [by apply Forall_drop|lia|done|]. intros _. by apply blocked_stops.
    + unfold read_ipv6_addr, show_segments. rewrite read_groups_show; [|done|lia|done|lia].
      by rewrite length_segment_bytes, Hlen, Hs.
Qed.

(** An IPv6 address does not start like an IPv4 address. *)
Lemma ipv6_not_ipv4 b rest : length b = 16%nat → stops rest → read_ipv4_addr (show_ipv6 b ++ rest) = None.
Proof.
  intros Hb Hrest. unfold show_ipv6. destruct (to_ipv4_mapped b) as [ipv4|]; [by apply read_ipv4_none|].
  destruct (segments_spec 8 b Hb) as (_ & Hlen & Hw).
  assert (Hg : ∀ l k s, segments b = l ++ k → l ≠ [] → group_ends s → read_ipv4_addr (show_segments l ++ s) = None).
  { intros l k s Hl Hne Hs. destruct l as [|g l]; [done|]. rewrite Hl in Hw. apply Forall_cons in Hw as [Hg _].
    destruct (digits_of_spec 16 ltac:(lia) g ltac:(apply Hg)) as (d & ds & He & Hr & _).
    unfold show_segments. cbn [fmap list_fmap join_from]. rewrite <- app_assoc. unfold show_uint at 1. rewrite He.
    apply group_not_ipv4; [done|]. by destruct l. }
  case_decide.
  - destruct (take _ (segments b)) as [|g l] eqn:Ht; [by apply read_ipv4_none|].
    rewrite <- app_assoc. eapply (Hg (g :: l)); [|done|done]. rewrite <- Ht. symmetry. apply take_drop.
  - eapply (Hg _ []); [by rewrite app_nil_r|by destruct (segments b)|by apply stops_group_ends].
Qed.

Lemma parse_uint_show w n : in_width w n → parse_uint w (show_uint 10 n) = Some n.
Proof. intros. by apply from_str_radix_show. Qed.

Definition ip_addr_wf (a : IpAddr) : Prop :=
  match a with V4 b => length b = 4%nat | V6 b => length b = 16%nat end.

Lemma parse_ip_show a : ip_addr_wf a → parse_ip (show_ip a) = Some a.
Proof.
  unfold parse_ip, parse_with, read_ip_addr. rewrite <- (app_nil_r (show_ip a)). destruct a as [b|b]; cbn [show_ip ip_addr_wf]; intros Hb.
  - unfold read_ipv4_addr, show_ipv4. pose proof (read_octets_show b 0 [] I) as H4. rewrite Hb in H4. by rewrite H4.
  - by rewrite ipv6_not_ipv4, read_ipv6_show.
Qed.

Lemma read_port_show port : in_width 16 port → read_port (str ":" ++ show_uint 10 port) = Some (port, []).
Proof.
  intros Hp. unfold read_port. change (str ":" ++ show_uint 10 port) with (colon :: show_uint 10 port).
  cbn [read_given_char]. rewrite decide_True by done. cbn [mbind option_bind]. rewrite <- (app_nil_r (show_uint 10 port)).
  by apply read_number_show.
Qed.

(** An address with a port that is written reads back. *)
Lemma parse_socket_addr_show a : socket_addr_wf a → parse_socket_addr (show_socket_addr a) = Some a.
Proof.
  unfold parse_socket_addr, parse_with. destruct a as [ip port|ip port scope]; cbn [socket_addr_wf show_socket_addr].
  - intros [Hip Hp]. unfold read_socket_addr_v4, read_ipv4_addr, show_ipv4.
    pose proof (read_octets_show ip 0 (str ":" ++ show_uint 10 port) eq_refl) as H4. rewrite Hip in H4. rewrite H4.
    cbn [mbind option_bind]. by rewrite read_port_show.
  - intros (Hip & Hp & Hs). set (tl := str "]:" ++ show_uint 10 port).
    assert (Htl : read_given_char (byte.of_Z 93) tl = Some ((), str ":" ++ show_uint 10 port)) by done.
    change (str "[" ++ ?s) with (byte.of_Z 91 :: s).
    unfold read_socket_addr_v4. rewrite read_ipv4_none by done. cbn [mbind option_bind].
    unfold read_socket_addr_v6. cbn [read_given_char]. rewrite decide_True by done. cbn [mbind option_bind].
    destruct (Z.eqb_spec scope 0) as [->|].
    + rewrite app_nil_l, read_ipv6_show by done. cbn [mbind option_bind].
      change (read_scope_id tl) with (@None (Z * bytes)). cbv iota beta. rewrite Htl. cbn [mbind option_bind]. by rewrite read_port_show.
    + rewrite <- app_assoc, read_ipv6_show by done. cbn [mbind option_bind].
      assert (read_scope_id (str "%" ++ show_uint 10 scope ++ tl) = Some (scope, tl)) as ->.
      { unfold read_scope_id. change (str "%" ++ ?s) with (byte.of_Z 37 :: s). cbn [read_given_char].
        rewrite decide_True by done. cbn [mbind option_bind]. by apply read_number_show. }
      cbv iota beta. rewrite Htl. cbn [mbind option_bind]. by rewrite read_port_show.
Qed.

(** ** The characters that are used *)

Definition plain (b : byte) : Prop := code b = 46 ∨ 48 ≤ code b ≤ 58 ∨ 97 ≤ code b ≤ 102.

Lemma plain_not c s : ¬ plain c → Forall plain s → Forall (λ b, b ≠ c) s.
Proof. intros Hc Hs. eapply Forall_impl; [exact Hs|]. by intros b Hb ->. Qed.

Lemma to_char_plain d : 0 ≤ d < 16 → plain (to_char d).
Proof. intros Hd. unfold plain. rewrite to_char_code by done. destruct (Z.ltb_spec d 10); lia. Qed.

Lemma show_uint_plain radix n : 2 ≤ radix ≤ 16 → 0 ≤ n → Forall plain (show_uint radix n).
Proof.
  intros Hr Hn. destruct (digits_of_spec radix Hr n Hn) as (d & l & He & Hd & _). unfold show_uint. rewrite He.
  apply Forall_fmap. eapply Forall_impl; [exact Hd|]. intros x Hx. cbn beta in Hx. apply to_char_plain. lia.
Qed.

Lemma hex_plain k : Forall plain (to_lower_hex k).
Proof.
  induction k as [|b k IH]; [constructor|]. destruct (nibbles b) as (Hh & Hl & _).
  change (Forall plain (to_char (Z.shiftr (code b) 4) :: to_char (Z.land (code b) 15) :: to_lower_hex k)).
  repeat apply Forall_cons_2; [by apply to_char_plain..|done].
Qed.

Lemma join_plain sep i l : plain sep → Forall (Forall plain) l → Forall plain (join_from sep i l).
Proof.
  intros Hsep Hl. revert i. induction Hl as [|x l Hx _ IH]; intros i; [constructor|]. cbn [join_from].
  apply Forall_app_2; [|apply IH]. destruct i; [done|by constructor].
Qed.

Lemma show_ipv4_plain b : Forall plain (show_ipv4 b).
Proof.
  apply join_plain; [by left|]. apply Forall_fmap, Forall_true. intros x. pose proof (code_range x).
  apply show_uint_plain; lia.
Qed.

Lemma show_segments_plain l : Forall (in_width 16) l → Forall plain (show_segments l).
Proof.
  intros Hl. apply join_plain; [by right; left|]. apply Forall_fmap. eapply Forall_impl; [exact Hl|].
  intros g Hg. apply show_uint_plain; [lia|apply Hg].
Qed.

Lemma show_ip_plain a : ip_addr_wf a → Forall plain (show_ip a).
Proof.
  destruct a as [b|b]; cbn [show_ip ip_addr_wf]; intros Hb; [apply show_ipv4_plain|]. unfold show_ipv6.
  assert (Hc : plain colon) by (by right; left).
  destruct (to_ipv4_mapped b).
  - apply Forall_app_2; [|apply show_ipv4_plain]. by repeat (apply Forall_cons_2; [first [by right; left|by right; right]|]).
  - destruct (segments_spec 8 b Hb) as (_ & _ & Hw). case_decide; [|by apply show_segments_plain].
    apply Forall_app_2; [by apply show_segments_plain, Forall_take|].
    apply Forall_app_2; [by repeat (apply Forall_cons_2; [exact Hc|])|by apply show_segments_plain, Forall_drop].
Qed.
