(* ===== verification/Export.v ===== *)
(** * The tunnel as an exported object (export.rs)

    [Tunnel] wraps a [Tunn] into a [std::sync::Mutex] for foreign callers.  A
    panic while the lock is held poisons the lock: from then on [lock] fails.
    Each method makes its own buffer.  [None] is the answer of a call that
    panicked; the tunnel behind a poisoned lock is not looked at again. *)

From Stdlib Require Import Strings.String.
From S2P Require Import Prelude Errors ReplayWindow Time Crypto Packet Session Tai64N Handshake.
From S2P Require Import RateLimiter Tunn Tunnel Frame Text Serialization.
From coqutil Require Import Byte.

Definition MIN_BUFFER_SIZE : nat := 148.

Record Tunnel := MkTunnel {
  x_tunn : Tunn;
  x_poisoned : bool;
}.

Record TunnelStats := MkTunnelStats {
  ts_tx_bytes : Z;
  ts_rx_bytes : Z;
  ts_last_handshake : Z;
}.

Inductive TunnelResult : Type :=
| XDone
| XErr (e : WireGuardError)
| XWriteToNetwork (b : bytes)
| XWriteToTunnelV4 (b : bytes)
| XWriteToTunnelV6 (b : bytes).

Definition tunnel_result (r : TunnResult) : TunnelResult :=
  match r with
  | TDone => XDone
  | TErr e => XErr e
  | WriteToNetwork b => XWriteToNetwork b
  | WriteToTunnelV4 b _ => XWriteToTunnelV4 b
  | WriteToTunnelV6 b _ => XWriteToTunnelV6 b
  end.

(** Run a method of the tunnel under the lock. *)
Definition with_lock {A} (failed : A) (m : TM A) (convert : result WireGuardError A → A)
    (s : Tunnel * world) : option A * (Tunnel * world) :=
  if s.1.(x_poisoned) then (Some failed, s)
  else
    match m (s.1.(x_tunn), s.2) with
    | Ret (r, (t, w)) => (Some (convert r), (MkTunnel t false, w))
    | Panic => (None, (MkTunnel s.1.(x_tunn) true, s.2))
    end.

Definition call_locked (m : TM TunnResult) (s : Tunnel * world) : option TunnelResult * (Tunnel * world) :=
  let '(r, s') := with_lock (TErr LockFailed) m tunn_result s in (tunnel_result <$> r, s').

Section Exported.
Context `{Crypto, Base64}.

Definition Tunnel_new (private_key server_public_key : bytes) (preshared_key : option bytes)
    (keep_alive : option Z) (index : Z) : M KeyBytesError world Tunnel :=
  private_key ← from_string private_key;
  server_public_key ← from_string server_public_key;
  preshared_key ←
    match preshared_key with
    | Some key => key ← from_string key; mret (Some key)
    | None => mret None
    end;
  tunn ← Tunn_new private_key server_public_key preshared_key keep_alive index None;
  mret (MkTunnel tunn false).

Definition tick : Tunnel * world → option TunnelResult * (Tunnel * world) :=
  call_locked (update_timers (zeros MIN_BUFFER_SIZE)).

Definition force_handshake : Tunnel * world → option TunnelResult * (Tunnel * world) :=
  call_locked (tunn_format_handshake_initiation (zeros MIN_BUFFER_SIZE) true).

Definition read (src : bytes) : Tunnel * world → option TunnelResult * (Tunnel * world) :=
  let dst_len := Nat.max (length src + 32) MIN_BUFFER_SIZE in
  call_locked (decapsulate None src (zeros dst_len)).

Definition write (src : bytes) : Tunnel * world → option TunnelResult * (Tunnel * world) :=
  let dst_len := Nat.max (length src + 32) MIN_BUFFER_SIZE in
  call_locked (encapsulate src (zeros dst_len)).

Definition tunnel_stats : Tunnel * world → option TunnelStats * (Tunnel * world) :=
  with_lock (MkTunnelStats 0 0 0)
    (st ← stats;
     let '(_, tx, rx, _, _) := st in
     time ← last_handshake_time;
     mret (MkTunnelStats tx rx (match time with Some d => as_secs d | None => 0 end)))
    (λ r, match r with Ok st => st | Err _ => MkTunnelStats 0 0 0 end).

(** ** Sequences of calls *)

Inductive call : Type := CTick | CForceHandshake | CRead (src : bytes) | CWrite (src : bytes) | CStats.
Inductive answer : Type := AResult (r : TunnelResult) | AStats (s : TunnelStats).

Definition run_call (c : call) (s : Tunnel * world) : option answer * (Tunnel * world) :=
  match c with
  | CTick => let '(r, s') := tick s in (AResult <$> r, s')
  | CForceHandshake => let '(r, s') := force_handshake s in (AResult <$> r, s')
  | CRead src => let '(r, s') := read src s in (AResult <$> r, s')
  | CWrite src => let '(r, s') := write src s in (AResult <$> r, s')
  | CStats => let '(r, s') := tunnel_stats s in (AStats <$> r, s')
  end.

Fixpoint run_calls (cs : list call) (s : Tunnel * world) : list (option answer) * (Tunnel * world) :=
  match cs with
  | [] => ([], s)
  | c :: cs => let '(r, s1) := run_call c s in let '(rs, s2) := run_calls cs s1 in (r :: rs, s2)
  end.
End Exported.

(** The answer of a call that does not get the lock. *)
Definition refused (c : call) : answer :=
  match c with CStats => AStats (MkTunnelStats 0 0 0) | _ => AResult (XErr LockFailed) end.

(** The packet of a call fits the buffer that later calls have for it. *)
Definition call_fits (c : call) : Prop :=
  match c with CWrite src => (length src + DATA_OVERHEAD_SZ ≤ MIN_BUFFER_SIZE)%nat | _ => True end.

(** Arithmetic on the sizes of buffers. *)
Ltac sizes :=
  unfold zeros; rewrite ?length_replicate; unfold MIN_BUFFER_SIZE, DATA_OVERHEAD_SZ, COOKIE_REPLY_SZ in *; lia.

Section Safety.
Context `{CryptoLaws, Base64}.

Definition exported_inv (g : Z) (s : Tunnel * world) : Prop :=
  s.1.(x_poisoned) = false ∧ tunn_inv MIN_BUFFER_SIZE g (s.1.(x_tunn), s.2).

Lemma with_lock_safe {A} g (failed : A) (m : TM A) convert s :
  exported_inv g s →
  wp m (λ r s', tunn_inv MIN_BUFFER_SIZE g s' ∧ ∃ x, r = Ok x) (s.1.(x_tunn), s.2) →
  ∃ r s', with_lock failed m convert s = (Some r, s') ∧ exported_inv g s'.
Proof.
  intros [Hp Hinv] Hm. unfold with_lock. rewrite Hp. unfold wp in Hm.
  destruct (m _) as [[r [t w]]|]; [|done]. destruct Hm as [Hinv' _]. eexists _, _. split; [reflexivity|by split].
Qed.

Lemma stats_call_safe g s : exported_inv g s → ∃ r s', tunnel_stats s = (Some r, s') ∧ exported_inv g s'.
Proof.
  intros Hinv. apply with_lock_safe; [done|]. apply wp_bind.
  eapply wp_mono; [apply (stats_safe MIN_BUFFER_SIZE g), Hinv|]. intros r [t w] [Hinv' [[[[[x1 x2] x3] x4] x5] ->]].
  apply wp_bind. eapply wp_mono; [by apply handshake_time_safe|]. intros r s' [Hinv2 [o ->]]. split; [done|eauto].
Qed.

Lemma run_call_safe g c s :
  exported_inv g s → call_fits c → ∃ r s', run_call c s = (Some r, s') ∧ exported_inv g s'.
Proof.
  intros Hinv Hc.
  assert (Hcall : ∀ m, wp m (λ r s', tunn_inv MIN_BUFFER_SIZE g s' ∧ ∃ x, r = Ok x) (s.1.(x_tunn), s.2) →
    ∃ r s', (let '(r, s') := call_locked m s in (AResult <$> r, s')) = (Some r, s') ∧ exported_inv g s').
  { intros m Hm. unfold call_locked. destruct (with_lock_safe g (TErr LockFailed) m tunn_result s Hinv Hm)
      as (r & s' & -> & Hinv'). eexists _, _. split; [reflexivity|done]. }
  destruct Hinv as [Hp Hi]. destruct c as [| |src|src|]; cbn [run_call call_fits] in *.
  - apply Hcall, update_timers_safe; [done|sizes..].
  - by apply Hcall, format_initiation_safe.
  - apply Hcall, decapsulate_safe; [done|sizes..].
  - apply Hcall, encapsulate_safe; [done|sizes|done].
  - destruct (stats_call_safe g s) as (r & s' & -> & Hinv'); [by split|]. eexists _, _. split; [reflexivity|done].
Qed.

Lemma run_calls_safe g cs s :
  exported_inv g s → Forall call_fits cs →
  ∃ rs s', run_calls cs s = (rs, s') ∧ Forall is_Some rs ∧ exported_inv g s'.
Proof.
  intros Hinv Hcs. revert s Hinv. induction Hcs as [|c cs Hc Hcs IH]; intros s Hinv; cbn [run_calls].
  { by exists [], s. }
  destruct (run_call_safe g c s Hinv Hc) as (r & s1 & -> & Hinv1).
  destruct (IH s1 Hinv1) as (rs & s2 & -> & Hrs & Hinv2). eexists _, _. split; [reflexivity|].
  split; [by constructor|done].
Qed.

(** C38.  An exported tunnel never panics on short packets: made from the text
    of two keys, it answers every sequence of calls (ticks, forced handshakes,
    datagrams of any content and size, packets of at most 116 bytes, requests
    for statistics) without a panic, so its lock is never poisoned. *)
Theorem exported_calls_safe sk peer psk ka index w d cs :
  length sk = KEY_SIZE → length peer = KEY_SIZE → (∀ k, psk = Some k → length k = KEY_SIZE) →
  can_start w.(w_env) d → Forall call_fits cs →
  ∃ t w0 rs s', Tunnel_new (to_lower_hex sk) (to_lower_hex peer) (to_lower_hex <$> psk) ka index w = Ret (Ok t, w0) ∧
    run_calls cs (t, w0) = (rs, s') ∧ Forall is_Some rs ∧ s'.1.(x_poisoned) = false.
Proof.
  intros Hsk Hpeer Hpsk Hcs Hfit. unfold Tunnel_new.
  erewrite bind_ok by (by apply key_from_hex). erewrite bind_ok by (by apply key_from_hex).
  erewrite (bind_ok _ _ _ psk w).
  2:{ destruct psk as [k|]; [|done]. cbn. by erewrite bind_ok by (apply key_from_hex; auto). }
  cbv beta. destruct (@tunn_new_inv _ KeyBytesError MIN_BUFFER_SIZE sk peer psk ka (index mod 2 ^ 24) None w d)
    as (t & w0 & Ht & Hinv & _); [done|by apply Z.mod_pos_bound|done|].
  rewrite <- tunn_new_mod in Ht. erewrite bind_ok by exact Ht.
  destruct (run_calls_safe (index mod 2 ^ 24) cs (MkTunnel t false, w0)) as (rs & s' & Hr & Hrs & Hp & _);
    [by split|done|]. by eexists _, _, _, _.
Qed.

Lemma poisoned_refuses cs s :
  s.1.(x_poisoned) = true → run_calls cs s = (Some ∘ refused <$> cs, s).
Proof.
  intros Hp. induction cs as [|c cs IH]; [done|].
  assert (run_call c s = (Some (refused c), s)) as Hc.
  { destruct c; cbn [run_call]; unfold tick, force_handshake, read, write, tunnel_stats, call_locked, with_lock;
      by rewrite Hp. }
  cbn [run_calls]. by rewrite Hc, IH.
Qed.

(** Flushing a long packet panics: when a session is there and the first
    packet of the queue has more than 116 bytes, the call [read] without
    data, which is how the queue is flushed, has a buffer of 148 bytes only;
    it panics, and every later call fails to get the lock. *)
Lemma flush_of_long_packet_panics t w p cs :
  t.(x_poisoned) = false → is_Some (session_at (slot t.(x_tunn).(current)) t.(x_tunn)) →
  head t.(x_tunn).(packet_queue) = Some p → (MIN_BUFFER_SIZE < length p + DATA_OVERHEAD_SZ)%nat →
  run_calls (CRead [] :: cs) (t, w) = (None :: (Some ∘ refused <$> cs), (MkTunnel t.(x_tunn) true, w)).
Proof.
  intros Hp [s Hs] Hq Hlen. cbn [run_calls run_call].
  assert (read [] (t, w) = (None, (MkTunnel t.(x_tunn) true, w))) as ->; [|by rewrite poisoned_refuses].
  unfold read, call_locked, with_lock. cbn [fst snd length Nat.add]. rewrite Hp.
  set (dst := zeros _). assert (length dst = MIN_BUFFER_SIZE) as Hdst by apply length_replicate. clearbody dst.
  assert (decapsulate None [] dst (x_tunn t, w) = Panic) as ->; [|done].
  unfold decapsulate. rewrite bool_decide_eq_true_2 by done. unfold send_queued_packet.
  destruct (packet_queue (x_tunn t)) as [|p' rest] eqn:Hpq; [done|]. injection Hq as ->.
  erewrite (bind_ok _ _ _ (Some p)); [|unfold dequeue_packet; erewrite bind_ok by reflexivity; cbn [fst];
    rewrite Hpq; by erewrite bind_ok by reflexivity].
  cbv beta iota. assert (∀ t' w', t' = with_packet_queue rest (x_tunn t) → encapsulate p dst (t', w') = Panic) as He.
  { intros t' w' ->. unfold encapsulate. do 2 (erewrite bind_ok by reflexivity). cbn [fst].
    change (session_at _ (with_packet_queue rest (x_tunn t))) with (session_at (slot (x_tunn t).(current)) (x_tunn t)).
    rewrite Hs. unfold mbind at 1, M_bind, on_session. cbn [fst].
    change (session_at _ (with_packet_queue rest (x_tunn t))) with (session_at (slot (x_tunn t).(current)) (x_tunn t)).
    rewrite Hs. unfold format_packet_data, mbind at 1, M_bind, assert_. by rewrite (proj2 (Nat.leb_gt _ _)) by lia. }
  unfold mbind, M_bind. cbn [fst snd]. by rewrite He.
Qed.
End Safety.

(** ** Witnesses *)

Section ExportWitnesses.
#[local] Existing Instance toy_crypto.
#[local] Existing Instance toy_laws.
#[local] Existing Instance no_base64.

Lemma exported_calls_safe_witness :
  ∃ t w0 rs s', Tunnel_new (to_lower_hex k1) (to_lower_hex (x25519_public k2)) (to_lower_hex <$> Some (zeros 32))
      (Some 25) 7 (MkWorld test_env ∅) = Ret (Ok t, w0) ∧
    run_calls [CWrite ip_packet; CTick; CRead (zeros 40); CForceHandshake; CRead []; CStats] (t, w0) = (rs, s') ∧
    Forall is_Some rs ∧ s'.1.(x_poisoned) = false.
Proof.
  apply (exported_calls_safe k1 (x25519_public k2) (Some (zeros 32)) (Some 25) 7 (MkWorld test_env ∅)
    (from_secs 1700000000)); [done|done|by intros k [= <-]|exact test_can_start|].
  repeat constructor; vm_compute; lia.
Defined.

(** A tunnel that is given a packet of 200 bytes, starts a handshake with it
    and completes the handshake. *)
Definition alice : Tunnel * world :=
  match Tunnel_new (to_lower_hex k1) (to_lower_hex (x25519_public k2)) None None 1 (MkWorld test_env ∅) with
  | Ret (Ok t, w) => (t, w)
  | _ => (MkTunnel (fresh_tunn initiator []) true, MkWorld test_env ∅)
  end.
Definition alice_writing : option answer * (Tunnel * world) := run_call (CWrite (zeros 200)) alice.
Definition initiation_sent : bytes :=
  match alice_writing.1 with Some (AResult (XWriteToNetwork b)) => b | _ => [] end.
Definition response_sent : bytes :=
  match decapsulate None initiation_sent (zeros 148) (fresh_tunn responder [], world_of (x25519_public k2)) with
  | Ret (Ok (WriteToNetwork b), _) => b
  | _ => []
  end.
Definition alice_connected : Tunnel * world := (run_call (CRead response_sent) alice_writing.2).2.

Lemma flush_of_long_packet_panics_witness :
  (run_calls [CRead []; CTick; CRead []; CWrite ip_packet] alice_connected).1 =
    [None; Some (AResult (XErr LockFailed)); Some (AResult (XErr LockFailed)); Some (AResult (XErr LockFailed))].
Proof.
  assert (Hs : bool_decide (is_Some (session_at (slot alice_connected.1.(x_tunn).(current)) alice_connected.1.(x_tunn))) = true)
    by (vm_compute; reflexivity).
  destruct alice_connected as [t w] eqn:He.
  rewrite (flush_of_long_packet_panics t w (zeros 200) [CTick; CRead []; CWrite ip_packet]); [done|..].
  - change t with (t, w).1. rewrite <- He. by vm_compute.
  - by apply bool_decide_eq_true in Hs.
  - change t with (t, w).1. rewrite <- He. by vm_compute.
  - vm_compute. lia.
Defined.
End ExportWitnesses.
