(* ===== verification/Ffi.v ===== *)
(** * The C bindings (ffi/mod.rs)

    A handle is a pointer to a boxed [Mutex<Tunn>]: the tunnels that were
    handed out live in a store, a handle is a location of it, and [None] is the
    null pointer.  A C string is the list of its bytes before the terminating
    zero; a pointer with a size is the list of the bytes there, and a function
    that writes to a buffer returns the buffer after it. *)

From Stdlib Require Import Strings.String.
From S2P Require Import Prelude Errors ReplayWindow Time Crypto Packet Session Tai64N Handshake.
From S2P Require Import RateLimiter Tunn Tunnel Frame Text Serialization Base64Text Show.
From coqutil Require Import Byte.

(** [result_type]; the discriminants are those of the C header. *)
Inductive result_type : Type :=
| WIREGUARD_DONE
| WRITE_TO_NETWORK
| WIREGUARD_ERROR
| WRITE_TO_TUNNEL_IPV4
| WRITE_TO_TUNNEL_IPV6.

Record wireguard_result := MkResult {
  op : result_type;
  size : Z;
}.

(** [e as usize] *)
Definition error_code (e : WireGuardError) : Z :=
  match e with
  | DestinationBufferTooSmall => 0
  | IncorrectPacketLength => 1
  | UnexpectedPacket => 2
  | WrongPacketType => 3
  | WrongIndex => 4
  | WrongKey => 5
  | WrongTai64nTimestamp => 6
  | InvalidMac => 7
  | InvalidAeadTag => 8
  | InvalidCounter => 9
  | DuplicateCounter => 10
  | InvalidPacket => 11
  | NoCurrentSession => 12
  | LockFailed => 13
  | ConnectionExpired => 14
  | UnderLoad => 15
  end.

Definition wireguard_result_from (res : TunnResult) : wireguard_result :=
  match res with
  | TDone => MkResult WIREGUARD_DONE 0
  | TErr e => MkResult WIREGUARD_ERROR (error_code e)
  | WriteToNetwork b => MkResult WRITE_TO_NETWORK (Z.of_nat (length b))
  | WriteToTunnelV4 b _ => MkResult WRITE_TO_TUNNEL_IPV4 (Z.of_nat (length b))
  | WriteToTunnelV6 b _ => MkResult WRITE_TO_TUNNEL_IPV6 (Z.of_nat (length b))
  end.

(** The packet of a result. *)
Definition packet_of (res : TunnResult) : bytes :=
  match res with
  | WriteToNetwork b | WriteToTunnelV4 b _ | WriteToTunnelV6 b _ => b
  | _ => []
  end.

Record ffi_stats := MkFfiStats {
  fs_time_since_last_handshake : Z;
  fs_tx_bytes : Z;
  fs_rx_bytes : Z;
  fs_estimated_loss : f32;
  fs_estimated_rtt : Z;
}.

Record ffi_state := MkFfi {
  ffi_tunnels : gmap nat Tunn;
  ffi_strings : gmap nat bytes;
  ffi_world : world;
}.

Definition with_tunnels (ts : gmap nat Tunn) (s : ffi_state) : ffi_state := MkFfi ts s.(ffi_strings) s.(ffi_world).
Definition with_strings (xs : gmap nat bytes) (s : ffi_state) : ffi_state := MkFfi s.(ffi_tunnels) xs s.(ffi_world).
Definition with_world (w : world) (s : ffi_state) : ffi_state := MkFfi s.(ffi_tunnels) s.(ffi_strings) w.

(** The C functions return no error. *)
Abbreviation FM := (M () ffi_state).

(** [c_str.to_str()] *)
Definition to_str (s : bytes) : option bytes := if is_utf8 s then Some s else None.

(** [x as i64] and [x as i32] of an unsigned number. *)
Definition to_signed (bits x : Z) : Z :=
  let y := wrap bits x in if y <? 2 ^ (bits - 1) then y else y - 2 ^ bits.

Section Ffi.
Context `{Crypto, Base64, Hex}.

(** [StaticSecret::random_from_rng(OsRng)]: 32 random bytes. *)
Definition x25519_secret_key : FM bytes :=
  zoom (λ s, s.(ffi_world).(w_env)) (λ e s, with_world (with_w_env e s.(ffi_world)) s) (fill_bytes 32).

Definition x25519_public_key (private_key : bytes) : bytes := x25519_public private_key.

(** [CString::into_raw] *)
Definition into_raw (c_string : bytes) : FM nat :=
  p ← gets (λ s, fresh (dom s.(ffi_strings)));
  _ ← modify (λ s, with_strings (<[p := c_string]> s.(ffi_strings)) s);
  mret p.

Definition x25519_key_to_base64 (key : bytes) : FM nat :=
  c_string ← CString_new (base64_encode key);
  into_raw c_string.

Definition x25519_key_to_hex (key : bytes) : FM nat :=
  c_string ← CString_new (encode_hex key);
  into_raw c_string.

(** [CString::from_raw] of a string that is there; freeing one twice is no
    result. *)
Definition x25519_key_to_str_free (stringified_key : nat) : FM () :=
  c_string ← gets (λ s, s.(ffi_strings) !! stringified_key);
  match c_string with
  | Some _ => modify (λ s, with_strings (delete stringified_key s.(ffi_strings)) s)
  | None => panic
  end.

Definition ffi_parse_key (s : bytes) : FM (option bytes) :=
  r ← attempt (key_from_str s);
  mret (match r with Ok key => Some key | Err _ => None end).

Definition check_base64_encoded_x25519_key (key : bytes) : Z :=
  match to_str key with
  | None => 0
  | Some utf8_key =>
    match base64_decode utf8_key with
    | Some key =>
      let len := length key in
      let zero := fold_left (λ z b, Z.lor z (code b)) key 0 in
      if bool_decide (len = 32%nat) && negb (zero =? 0) then 1 else 0
    | None => 0
    end
  end.

(** A box for a new tunnel. *)
Definition box_tunnel (t : Tunn) : FM nat :=
  p ← gets (λ s, fresh (dom s.(ffi_tunnels)));
  _ ← modify (λ s, with_tunnels (<[p := t]> s.(ffi_tunnels)) s);
  mret p.

Definition new_tunnel (static_private server_static_public : bytes) (preshared_key : option bytes)
    (keep_alive index : Z) : FM (option nat) :=
  match to_str static_private with
  | None => mret None
  | Some static_private =>
    match to_str server_static_public with
    | None => mret None
    | Some server_static_public =>
      preshared_key ←
        match preshared_key with
        | None => mret (Some None)
        | Some c_str =>
          match to_str c_str with
          | Some string => k ← ffi_parse_key string; mret (match k with Some key => Some (Some key) | None => None end)
          | None => mret None
          end
        end;
      match preshared_key with
      | None => mret None
      | Some preshared_key =>
        private_key ← ffi_parse_key static_private;
        match private_key with
        | None => mret None
        | Some private_key =>
          public_key ← ffi_parse_key server_static_public;
          match public_key with
          | None => mret None
          | Some public_key =>
            let keep_alive := if keep_alive =? 0 then None else Some keep_alive in
            tunnel ← zoom ffi_world with_world
              (Tunn_new private_key public_key preshared_key keep_alive index None);
            p ← box_tunnel tunnel;
            mret (Some p)
          end
        end
      end
    end
  end.

Definition tunnel_free (tunnel : nat) : FM () :=
  t ← gets (λ s, s.(ffi_tunnels) !! tunnel);
  match t with
  | Some _ => modify (λ s, with_tunnels (delete tunnel s.(ffi_tunnels)) s)
  | None => panic
  end.

(** A method of the tunnel behind a handle.  The null pointer panics; a handle
    that was freed is no result either. *)
Definition on_handle {A} (tunnel : option nat) (m : TM A) : FM (result WireGuardError A) := λ s,
  match tunnel with
  | None => Panic
  | Some p =>
    match s.(ffi_tunnels) !! p with
    | None => Panic
    | Some t =>
      match m (t, s.(ffi_world)) with
      | Ret (r, (t', w')) => Ret (Ok r, MkFfi (<[p := t']> s.(ffi_tunnels)) s.(ffi_strings) w')
      | Panic => Panic
      end
    end
  end.

(** The packet of a result is in the front of the buffer.  What is in a buffer
    that holds no packet is of no use to the caller, and is left as it was. *)
Definition call_handle (tunnel : option nat) (dst : bytes) (m : TM TunnResult) : FM (wireguard_result * bytes) :=
  r ← on_handle tunnel m;
  let res := tunn_result r in
  mret (wireguard_result_from res, copy_at 0 (packet_of res) dst).

Definition wireguard_write (tunnel : option nat) (src dst : bytes) : FM (wireguard_result * bytes) :=
  call_handle tunnel dst (encapsulate src dst).

Definition wireguard_read (tunnel : option nat) (src dst : bytes) : FM (wireguard_result * bytes) :=
  call_handle tunnel dst (decapsulate None src dst).

Definition wireguard_tick (tunnel : option nat) (dst : bytes) : FM (wireguard_result * bytes) :=
  call_handle tunnel dst (update_timers dst).

Definition wireguard_force_handshake (tunnel : option nat) (dst : bytes) : FM (wireguard_result * bytes) :=
  call_handle tunnel dst (tunn_format_handshake_initiation dst true).

Definition wireguard_stats (tunnel : option nat) : FM ffi_stats :=
  r ← on_handle tunnel stats;
  match r with
  | Ok (time, tx, rx, loss, rtt) =>
    mret {|
      fs_time_since_last_handshake := match time with Some t => to_signed 64 (as_secs t) | None => -1 end;
      fs_tx_bytes := tx;
      fs_rx_bytes := rx;
      fs_estimated_loss := loss;
      fs_estimated_rtt := match rtt with Some r => to_signed 32 r | None => -1 end;
    |}
  | Err _ => panic
  end.
End Ffi.

(** ** The size of a result *)

(** What is to be written lies within a buffer of [n] bytes. *)
Definition res_fits (n : nat) (r : TunnResult) : Prop :=
  match r with
  | WriteToNetwork b | WriteToTunnelV4 b _ | WriteToTunnelV6 b _ => (length b ≤ n)%nat
  | _ => True
  end.

Section Sizes.
Context `{CryptoLaws}.

Lemma copy_at_ge {A} off (src buf : list A) : (length buf ≤ length (copy_at off src buf))%nat.
Proof. unfold copy_at. rewrite !length_app, length_take, length_drop. lia. Qed.

Lemma append_size idx buf :
  (32 ≤ length buf)%nat → yields (λ b, length b = length buf) (append_mac1_and_mac2 idx buf).
Proof.
  intros Hb. unfold append_mac1_and_mac2. apply yields_then. intros self. apply yields_then. intros _.
  apply yields_ret. assert (Hm : ∀ k d, length (b2s_keyed_mac_16 k d) = 16%nat) by (intros; apply length_blake2s_mac128).
  rewrite !length_copy_at; rewrite ?Hm; [done|lia|]. rewrite length_copy_at by (rewrite Hm; lia).
  case_match; [rewrite Hm; lia|]. unfold zeros. rewrite length_replicate. lia.
Qed.

Ltac skip := repeat match goal with |- yields _ (_ ≫= _) => apply yields_then; intros ? end.

(** The message of [n] bytes in the front of the buffer. *)
Lemma message_size n idx (dst buf : bytes) :
  (n ≤ length dst)%nat → (32 ≤ n)%nat → (length dst ≤ length buf)%nat →
  yields (λ b, length b ≤ length dst)%nat (append_mac1_and_mac2 idx (take n buf)).
Proof.
  intros Hn Hm Hb. assert (length (take n buf) = n) by (rewrite length_take; lia).
  eapply yields_mono; [apply append_size; lia|]. cbn. lia.
Qed.

Ltac grown := repeat (etransitivity; [|apply copy_at_ge]); done.

Lemma initiation_size dst : yields (λ b, length b ≤ length dst)%nat (format_handshake_initiation dst).
Proof.
  unfold format_handshake_initiation. destruct (Nat.ltb_spec (length dst) HANDSHAKE_INIT_SZ); [apply yields_throw|].
  skip. destruct (b2s_kdf2 _ _). destruct (b2s_kdf2 _ _). skip.
  apply message_size; [done|unfold HANDSHAKE_INIT_SZ; lia|grown].
Qed.

Lemma response_size dst : yields (λ x, length x.1 ≤ length dst)%nat (format_handshake_response dst).
Proof.
  unfold format_handshake_response. destruct (Nat.ltb_spec (length dst) HANDSHAKE_RESP_SZ); [apply yields_throw|].
  apply yields_then. intros st. apply yields_then. intros _. destruct st; try apply yields_panic. skip.
  destruct (b2s_kdf3 _ _) as [[? ?] ?]. destruct (b2s_kdf2 _ _).
  eapply yields_bind; [apply (message_size HANDSHAKE_RESP_SZ _ dst); [done|unfold HANDSHAKE_RESP_SZ; lia|grown]|].
  intros b Hb. by apply yields_ret.
Qed.

Lemma receive_init_size p dst : yields (λ x, length x.1 ≤ length dst)%nat (receive_handshake_initialization p dst).
Proof.
  unfold receive_handshake_initialization. skip. destruct (b2s_kdf2 _ _). skip. case_match; [apply yields_throw|].
  destruct (b2s_kdf2 _ _). skip. case_match; [apply yields_throw|]. skip. apply response_size.
Qed.

Lemma data_size src dst : yields (λ b, length b ≤ length dst)%nat (format_packet_data src dst).
Proof.
  unfold format_packet_data. apply yields_assert. intros Hd%Nat.leb_le. skip.
  destruct (chacha20poly1305_seal _ _ _ _). apply yields_ret. rewrite length_take.
  unfold DATA_OVERHEAD_SZ, DATA_OFFSET, AEAD_SIZE in *. lia.
Qed.

Lemma plaintext_size p dst : yields (λ b, length b ≤ length dst)%nat (receive_packet_data p dst).
Proof.
  unfold receive_packet_data. apply yields_assert. intros Hd%Nat.leb_le. apply yields_then. intros idx.
  case_match; [apply yields_throw|]. do 3 (apply yields_then; intros ?).
  eapply (yields_bind (λ b, length b ≤ length dst)%nat).
  - intros s b s' [= Ho _]. destruct (chacha20poly1305_open _ _ _ _) as [pt|] eqn:Hpt; [|done].
    injection Ho as <-. apply open_length in Hpt. rewrite length_take in Hpt. lia.
  - intros pt Hpt. apply yields_then. intros _. by apply yields_ret.
Qed.

(** ** The methods of the tunnel *)

Lemma on_handshake_yields {A} (P : A → Prop) (m : HM A) : yields P m → yields P (on_handshake m).
Proof. apply yields_zoom. Qed.

Lemma on_session_yields {A} (P : A → Prop) i (m : M WireGuardError Session A) :
  yields P m → yields P (on_session i m).
Proof.
  intros Hm s a s'. unfold on_session. destruct (session_at i s.1); [|done].
  destruct (m _) as [[r s1]|] eqn:He; [|done]. intros [= -> <-]. by eapply Hm.
Qed.

Lemma start_size dst force : yields (res_fits (length dst)) (tunn_format_handshake_initiation dst force).
Proof.
  unfold tunn_format_handshake_initiation. apply yields_then. intros h. case_match; [by apply yields_ret|].
  apply yields_then. intros _. eapply yields_bind; [apply yields_attempt, on_handshake_yields, initiation_size|].
  intros [b|e] Hb; [|by apply yields_ret]. skip. by apply yields_ret.
Qed.

Lemma encapsulate_size src dst : yields (res_fits (length dst)) (encapsulate src dst).
Proof.
  unfold encapsulate. do 2 (apply yields_then; intros ?). case_match.
  - eapply yields_bind; [apply on_session_yields, data_size|]. intros b Hb. skip. by apply yields_ret.
  - apply yields_then. intros _. apply start_size.
Qed.

Lemma validate_size packet n : (length packet ≤ n)%nat → yields (res_fits n) (validate_decapsulated_packet packet).
Proof.
  intros Hl. unfold validate_decapsulated_packet. case_match; [|by apply yields_ret].
  destruct (ip_header _ _) as [[len addr]|]; [|by apply yields_ret]. case_match; [by apply yields_ret|].
  skip. apply yields_ret. destruct addr; cbn; rewrite length_take; lia.
Qed.

Lemma verified_size p dst : yields (res_fits (length dst)) (handle_verified_packet p dst).
Proof.
  unfold handle_verified_packet. eapply (yields_bind (λ r, match r with Ok a => res_fits (length dst) a | Err _ => True end)).
  - apply yields_attempt. destruct p as [p|p|p|p].
    + unfold handle_handshake_init. eapply yields_bind; [apply on_handshake_yields, receive_init_size|].
      intros [b s] Hb. skip. by apply yields_ret.
    + unfold handle_handshake_response. apply yields_then. intros s.
      eapply yields_bind; [apply yields_on_local, data_size|]. intros [b s1] Hb. skip. by apply yields_ret.
    + unfold handle_cookie_reply. skip. by apply yields_ret.
    + unfold handle_data. apply yields_then. intros o. case_match; [|apply yields_throw].
      eapply yields_bind; [apply on_session_yields, plaintext_size|]. intros b Hb. do 2 (apply yields_then; intros ?).
      by apply validate_size.
  - intros [r|e] Hr; by apply yields_ret.
Qed.

Lemma decapsulate_size addr datagram dst : yields (res_fits (length dst)) (decapsulate addr datagram dst).
Proof.
  unfold decapsulate. case_bool_decide.
  - unfold send_queued_packet. apply yields_then. intros [packet|]; [|by apply yields_ret].
    eapply yields_bind; [apply encapsulate_size|]. intros r Hr.
    destruct r; try by apply yields_ret. apply yields_then. intros _. by apply yields_ret.
  - do 2 (apply yields_then; intros ?). repeat case_match; try by (apply yields_ret || apply yields_panic).
    + apply verified_size.
    + apply yields_assert. intros Hd%Nat.leb_le. apply yields_ret. cbn. rewrite length_take. lia.
Qed.

Lemma update_timers_size dst : yields (res_fits (length dst)) (update_timers dst).
Proof.
  unfold update_timers. do 7 (apply yields_then; intros ?). unfold act_on_timers. do 2 (apply yields_then; intros ?).
  case_match; [by apply yields_ret|]. do 3 (apply yields_then; intros ?). case_match; [skip; by apply yields_ret|].
  do 2 (apply yields_then; intros ?). repeat case_match; try by apply yields_ret.
  - apply start_size.
  - apply encapsulate_size.
Qed.
End Sizes.

(** ** Calls *)

Inductive ffi_call : Type :=
| FNew (static_private server_static_public : bytes) (preshared_key : option bytes) (keep_alive index : Z)
| FWrite (tunnel : nat) (src : bytes)
| FRead (tunnel : nat) (src : bytes)
| FTick (tunnel : nat)
| FForceHandshake (tunnel : nat)
| FStats (tunnel : nat)
| FFree (tunnel : nat)
| FKeyBase64 (key : bytes)
| FKeyHex (key : bytes)
| FStrFree (string : nat).

Inductive ffi_answer : Type :=
| AHandle (p : option nat)
| AOp (r : wireguard_result) (dst : bytes)
| AFfiStats (s : ffi_stats)
| AText (p : nat)
| ANone.

(** The handle a call is about. *)
Definition handle_of (c : ffi_call) : option nat :=
  match c with
  | FWrite p _ | FRead p _ | FTick p | FForceHandshake p | FStats p | FFree p => Some p
  | _ => None
  end.

Definition string_of (c : ffi_call) : option nat := match c with FStrFree p => Some p | _ => None end.

(** What a call asks of its arguments, for a caller that has settled on a number
    [buf]: keys are ASCII text; a packet has room in the buffer, and in any
    buffer of [buf] bytes, where it may be sent later; a buffer for reading has
    at least [buf] bytes, since packets that waited may be sent from it, and
    room for the datagram; a buffer for a tick has room for an empty packet. *)
Definition ffi_call_fits (buf : nat) (dst : bytes) (c : ffi_call) : Prop :=
  match c with
  | FNew sk pk psk _ _ => ascii sk ∧ ascii pk ∧ ∀ k, psk = Some k → ascii k
  | FWrite _ src => (length src + DATA_OVERHEAD_SZ ≤ length dst ∧ length src + DATA_OVERHEAD_SZ ≤ buf)%nat
  | FRead _ src => (buf ≤ length dst ∧ length src ≤ length dst)%nat
  | FTick _ => (DATA_OVERHEAD_SZ ≤ length dst)%nat
  | _ => True
  end.

(** The buffer keeps its size, what is to be written lies within it, and an
    error is one of sixteen. *)
Definition answer_fits (dst : bytes) (a : ffi_answer) : Prop :=
  match a with
  | AOp (MkResult op size) dst' =>
    length dst' = length dst ∧
    match op with
    | WRITE_TO_NETWORK | WRITE_TO_TUNNEL_IPV4 | WRITE_TO_TUNNEL_IPV6 => 0 ≤ size ≤ Z.of_nat (length dst)
    | WIREGUARD_DONE => size = 0
    | WIREGUARD_ERROR => 0 ≤ size < 16
    end
  | _ => True
  end.

Section Calls.
Context `{CryptoLaws, Base64Laws, HexLaws}.

Definition run_ffi (dst : bytes) (c : ffi_call) : FM ffi_answer :=
  match c with
  | FNew sk pk psk ka index => r ← new_tunnel sk pk psk ka index; mret (AHandle r)
  | FWrite p src => r ← wireguard_write (Some p) src dst; mret (AOp r.1 r.2)
  | FRead p src => r ← wireguard_read (Some p) src dst; mret (AOp r.1 r.2)
  | FTick p => r ← wireguard_tick (Some p) dst; mret (AOp r.1 r.2)
  | FForceHandshake p => r ← wireguard_force_handshake (Some p) dst; mret (AOp r.1 r.2)
  | FStats p => r ← wireguard_stats (Some p); mret (AFfiStats r)
  | FFree p => _ ← tunnel_free p; mret ANone
  | FKeyBase64 k => p ← x25519_key_to_base64 k; mret (AText p)
  | FKeyHex k => p ← x25519_key_to_hex k; mret (AText p)
  | FStrFree p => _ ← x25519_key_to_str_free p; mret ANone
  end.

(** The text that a call hands out. *)
Definition text_of (c : ffi_call) : option bytes :=
  match c with
  | FKeyBase64 k => Some (base64_encode k)
  | FKeyHex k => Some (to_lower_hex k)
  | _ => None
  end.

(** Every tunnel that was handed out is in order. *)
Record ffi_inv (buf : nat) (s : ffi_state) : Prop := {
  fi_env : steady s.(ffi_world).(w_env);
  fi_tunnels : ∀ p t, s.(ffi_tunnels) !! p = Some t → ∃ g, tunn_inv buf g (t, s.(ffi_world));
}.

(** What is handed out and is not what a call is about stays as it is. *)
Definition others_kept (c : ffi_call) (s s' : ffi_state) : Prop :=
  (∀ q t, s.(ffi_tunnels) !! q = Some t → handle_of c ≠ Some q → s'.(ffi_tunnels) !! q = Some t) ∧
  (∀ q x, s.(ffi_strings) !! q = Some x → string_of c ≠ Some q → s'.(ffi_strings) !! q = Some x).

Definition only_at (p : nat) (s s' : ffi_state) : Prop :=
  (∀ q, q ≠ p → s'.(ffi_tunnels) !! q = s.(ffi_tunnels) !! q) ∧ s'.(ffi_strings) = s.(ffi_strings).

Lemma only_at_kept c p s s' : handle_of c = Some p → only_at p s s' → others_kept c s s'.
Proof.
  intros Hp [Hq Hx]. split; [|intros q x; by rewrite Hx]. intros q t Ht Hne. rewrite Hq; [done|]. intros ->. done.
Qed.

Lemma plain_no_zero (x : bytes) : Forall (λ b, 43 ≤ code b ≤ 122) x → forallb (λ b, negb (code b =? 0)) x = true.
Proof.
  intros Hx. apply forallb_forall. intros b Hb. pose proof (proj1 (List.Forall_forall _ _) Hx b Hb) as Hb'. cbn beta in Hb'.
  destruct (Z.eqb_spec (code b) 0); [lia|done].
Qed.

(** A text for a caller. *)
Lemma text_safe buf dst c (text : bytes) s :
  ffi_inv buf s → Forall (λ b, 43 ≤ code b ≤ 122) text →
  run_ffi dst c s = (p ← (c_string ← CString_new text; into_raw c_string); mret (AText p)) s →
  ∃ p s', run_ffi dst c s = Ret (Ok (AText p), s') ∧ ffi_inv buf s' ∧ others_kept c s s' ∧
    s.(ffi_strings) !! p = None ∧ s'.(ffi_strings) !! p = Some text.
Proof.
  intros [He Ht] Htext Hr. set (p := fresh (dom s.(ffi_strings))). pose proof (is_fresh (dom s.(ffi_strings))) as Hp.
  apply not_elem_of_dom in Hp. fold p in Hp. exists p, (with_strings (<[p := text]> s.(ffi_strings)) s). split_and!.
  - rewrite Hr. unfold CString_new. by rewrite (plain_no_zero text Htext).
  - by split.
  - split; [done|]. intros q x Hq _. cbn. rewrite lookup_insert_ne; [done|]. intros <-. by rewrite Hp in Hq.
  - done.
  - apply lookup_insert_eq.
Qed.

Lemma ffi_inv_world buf s w ts xs :
  ffi_inv buf s → world_le s.(ffi_world) w →
  (∀ p t, ts !! p = Some t → s.(ffi_tunnels) !! p = Some t ∨ ∃ g, tunn_inv buf g (t, w)) →
  ffi_inv buf (MkFfi ts xs w).
Proof.
  intros [He Ht] Hw Hts. split; cbn; [eapply steady_le; [apply Hw|done]|].
  intros p t Hp. destruct (Hts p t Hp) as [Hold|]; [|done]. destruct (Ht p t Hold) as [g Hg].
  exists g. by eapply tunn_inv_world.
Qed.

(** A method on the tunnel behind a handle. *)
Lemma on_handle_safe {A} buf (P : A → Prop) p (m : TM A) s :
  ffi_inv buf s → is_Some (s.(ffi_tunnels) !! p) → preserves tunn_frame m → yields P m →
  (∀ t g, tunn_inv buf g (t, s.(ffi_world)) →
     wp m (λ r s', tunn_inv buf g s' ∧ ∃ x, r = Ok x) (t, s.(ffi_world))) →
  ∃ x t' w', on_handle (Some p) m s = Ret (Ok (Ok x), MkFfi (<[p := t']> s.(ffi_tunnels)) s.(ffi_strings) w') ∧ P x ∧
    ffi_inv buf (MkFfi (<[p := t']> s.(ffi_tunnels)) s.(ffi_strings) w').
Proof.
  intros Hinv [t Ht] Hf Hy Hm. destruct (fi_tunnels _ _ Hinv p t Ht) as [g Hg].
  specialize (Hm t g Hg). unfold wp in Hm. unfold on_handle. rewrite Ht.
  destruct (m (t, ffi_world s)) as [[r [t' w']]|] eqn:He; [|done]. destruct Hm as [Hg' [x ->]].
  exists x, t', w'. split; [done|]. split; [by eapply Hy|]. apply Hf in He as [Hw _].
  apply (ffi_inv_world buf s); [done|done|]. intros q u. rewrite lookup_insert_Some.
  intros [[_ <-]|[_ ?]]; [right; by exists g|by left].
Qed.

Lemma result_fits dst r :
  res_fits (length dst) r → answer_fits dst (AOp (wireguard_result_from r) (copy_at 0 (packet_of r) dst)).
Proof.
  intros Hr. assert (Hl : length (copy_at 0 (packet_of r) dst) = length dst).
  { apply length_copy_at. destruct r; cbn in *; lia. }
  destruct r as [|[]| | |]; cbn in Hr |- *; (split; [exact Hl|]); done || lia.
Qed.

Lemma call_handle_safe buf dst p (m : TM TunnResult) s :
  ffi_inv buf s → is_Some (s.(ffi_tunnels) !! p) → preserves tunn_frame m →
  yields (res_fits (length dst)) m →
  (∀ t g, tunn_inv buf g (t, s.(ffi_world)) →
     wp m (λ r s', tunn_inv buf g s' ∧ ∃ x, r = Ok x) (t, s.(ffi_world))) →
  ∃ a s', (r ← call_handle (Some p) dst m; mret (AOp r.1 r.2)) s = Ret (Ok a, s') ∧ ffi_inv buf s' ∧
    answer_fits dst a ∧ only_at p s s'.
Proof.
  intros Hinv Hp Hf Hy Hm. destruct (on_handle_safe _ _ p m s Hinv Hp Hf Hy Hm) as (x & t' & w' & Hr & Hx & Hinv').
  eexists _, _. split; [unfold call_handle; erewrite bind_ok; [reflexivity|]; by erewrite bind_ok by exact Hr|].
  split; [done|]. split; [by apply result_fits|]. split; [|done]. intros q Hq. cbn. by rewrite lookup_insert_ne.
Qed.

Lemma parse_key_safe k s : ascii k → ∃ r, ffi_parse_key k s = Ret (Ok r, s).
Proof.
  intros Hk. destruct (ascii_key_safe k s Hk) as (r & Hr & _). eexists. unfold ffi_parse_key.
  by erewrite bind_ok by (apply attempt_run; exact Hr).
Qed.

(** The index is cut to 24 bits by the shift. *)
Lemma tunn_new_wide {E} buf sk peer psk ka index w :
  steady w.(w_env) → ∃ t w', @Tunn_new _ E sk peer psk ka index None w = Ret (Ok t, w') ∧
    tunn_inv buf (index mod 2 ^ 24) (t, w') ∧ world_le w w'.
Proof.
  intros Hs. destruct (steady_start _ Hs) as [d Hd].
  destruct (@tunn_new_inv _ E buf sk peer psk ka (index mod 2 ^ 24) None w d Hd) as (t & w' & Ht & Hinv & _);
    [by apply Z.mod_pos_bound|done|].
  exists t, w'. rewrite tunn_new_mod. split; [done|]. split; [done|]. by eapply tunn_new_frame.
Qed.

(** A call of [new_tunnel] on text either makes a tunnel or answers null. *)
Lemma new_tunnel_safe buf sk pk psk ka index s :
  ffi_inv buf s → ascii sk → ascii pk → (∀ k, psk = Some k → ascii k) →
  ∃ o s', new_tunnel sk pk psk ka index s = Ret (Ok o, s') ∧ ffi_inv buf s' ∧
    (∀ q t, s.(ffi_tunnels) !! q = Some t → s'.(ffi_tunnels) !! q = Some t) ∧ s'.(ffi_strings) = s.(ffi_strings) ∧
    ∀ p, o = Some p → s.(ffi_tunnels) !! p = None ∧ is_Some (s'.(ffi_tunnels) !! p).
Proof.
  intros Hinv Hsk Hpk Hpsk. unfold new_tunnel, to_str. destruct (is_utf8 sk); [|by eexists _, s].
  destruct (is_utf8 pk); [|by eexists _, s].
  match goal with |- context [mbind ?k (match psk with Some _ => _ | None => _ end)] => set (cont := k) end.
  assert (Hpre : ∃ o, (match psk with
      | Some c_str => match (if is_utf8 c_str then Some c_str else None) with
        | Some string => k ← ffi_parse_key string; mret (match k with Some key => Some (Some key) | None => None end)
        | None => mret None
        end
      | None => mret (Some None) end : FM (option (option bytes))) s = Ret (Ok o, s)).
  { destruct psk as [k|]; [|by eexists]. destruct (is_utf8 k); [|by eexists].
    destruct (parse_key_safe k s (Hpsk k eq_refl)) as [r Hr]. eexists. by erewrite bind_ok by exact Hr. }
  destruct Hpre as [o Ho]. erewrite bind_ok by exact Ho. unfold cont. destruct o as [o|]; [|by eexists _, s].
  destruct (parse_key_safe sk s Hsk) as [[k|] Hk]; (erewrite bind_ok by exact Hk); [|by eexists _, s].
  destruct (parse_key_safe pk s Hpk) as [[k'|] Hk']; (erewrite bind_ok by exact Hk'); [|by eexists _, s].
  destruct (@tunn_new_wide () buf k k' o (if ka =? 0 then None else Some ka) index _ (fi_env _ _ Hinv))
    as (t & w' & Ht & Hg & Hw).
  erewrite bind_ok by (apply zoom_run; exact Ht). erewrite bind_ok by reflexivity.
  eexists _, _. split; [reflexivity|]. split; [|split; [|split; [done|]]].
  - apply (ffi_inv_world buf s); [done|done|]. intros q u. rewrite lookup_insert_Some.
    intros [[_ <-]|[_ ?]]; [right; eauto|by left].
  - intros q u Hq. cbn. rewrite lookup_insert_ne; [done|]. intros <-. apply (is_fresh (dom s.(ffi_tunnels))).
    by eapply elem_of_dom_2.
  - intros p [= <-]. split; [apply not_elem_of_dom, is_fresh|]. cbn. rewrite lookup_insert_eq. by eexists.
Qed.

Lemma stats_answer_safe buf dst p s :
  ffi_inv buf s → is_Some (s.(ffi_tunnels) !! p) →
  ∃ a s', (r ← wireguard_stats (Some p); mret (AFfiStats r)) s = Ret (Ok a, s') ∧ ffi_inv buf s' ∧
    answer_fits dst a ∧ only_at p s s'.
Proof.
  intros Hinv Hp. destruct (on_handle_safe buf (λ _, True) p stats s) as (x & t' & w' & Hr & _ & Hinv');
    [done|done|apply stats_frame|done|intros t g Hg; by apply stats_safe|].
  destruct x as [[[[x1 x2] x3] x4] x5]. eexists _, _.
  split; [unfold wireguard_stats; erewrite bind_ok; [reflexivity|]; by erewrite bind_ok by exact Hr|].
  split; [done|]. split; [done|]. split; [|done]. intros q Hq. cbn. by rewrite lookup_insert_ne.
Qed.

(** What a call hands out is new, a text or a live handle. *)
Definition hands_out (c : ffi_call) (a : ffi_answer) (s s' : ffi_state) : Prop :=
  (∀ x, text_of c = Some x → ∃ p, a = AText p ∧ s.(ffi_strings) !! p = None ∧ s'.(ffi_strings) !! p = Some x) ∧
  (∀ p, a = AHandle (Some p) → s.(ffi_tunnels) !! p = None ∧ is_Some (s'.(ffi_tunnels) !! p)).

Lemma handle_call_safe buf dst c p s :
  ffi_inv buf s → (COOKIE_REPLY_SZ ≤ buf)%nat → ffi_call_fits buf dst c → handle_of c = Some p →
  is_Some (s.(ffi_tunnels) !! p) →
  ∃ a s', run_ffi dst c s = Ret (Ok a, s') ∧ ffi_inv buf s' ∧ answer_fits dst a ∧ (∀ q, a ≠ AHandle q) ∧ only_at p s s'.
Proof.
  intros Hinv Hbuf Hc Hp Hl. unfold COOKIE_REPLY_SZ in Hbuf.
  cut (∃ a s', run_ffi dst c s = Ret (Ok a, s') ∧ ffi_inv buf s' ∧ answer_fits dst a ∧ only_at p s s').
  { intros (a & s' & Hr & Hi & Ha & Ho). exists a, s'. split_and!; [done..| |done]. intros q ->. clear -Hr Hp.
    destruct c; try done; cbn [run_ffi] in Hr; apply bind_inv in Hr as (x & s1 & _ & [= ]). }
  destruct c as [sk pk psk ka index|p' src|p' src|p'|p'|p'|p'|k|k|p']; try done; injection Hp as ->; cbn [run_ffi ffi_call_fits] in *.
  - apply call_handle_safe; [done|done|apply encapsulate_frame|apply encapsulate_size|].
    intros t g Hg. apply encapsulate_safe; [done|apply Hc..].
  - apply call_handle_safe; [done|done|apply decapsulate_frame|apply decapsulate_size|].
    intros t g Hg. apply decapsulate_safe; [done|apply Hc..|unfold COOKIE_REPLY_SZ; lia].
  - apply call_handle_safe; [done|done|apply update_timers_frame|apply update_timers_size|].
    intros t g Hg. apply update_timers_safe; [done|done|unfold DATA_OVERHEAD_SZ; lia].
  - apply call_handle_safe; [done|done|apply start_frame|apply start_size|].
    intros t g Hg. by apply format_initiation_safe.
  - by apply stats_answer_safe.
  - destruct Hl as [t Ht]. eexists _, _. split.
    { unfold tunnel_free. erewrite bind_ok; [reflexivity|]. erewrite bind_ok by reflexivity. cbn beta. by rewrite Ht. }
    split; [|split; [done|split; [intros; by apply lookup_delete_ne|done]]].
    apply (ffi_inv_world _ s); [done|reflexivity|]. intros q u [_ ?]%lookup_delete_Some. by left.
Qed.

(** The contract of a call: arguments that fit, and a handle and a string that
    were handed out and not freed. *)
Definition ffi_contract (buf : nat) (dst : bytes) (c : ffi_call) (s : ffi_state) : Prop :=
  ffi_call_fits buf dst c ∧
  (∀ p, handle_of c = Some p → is_Some (s.(ffi_tunnels) !! p)) ∧
  (∀ p, string_of c = Some p → is_Some (s.(ffi_strings) !! p)).

Lemma ffi_call_safe buf dst c s :
  ffi_inv buf s → (COOKIE_REPLY_SZ ≤ buf)%nat → ffi_contract buf dst c s →
  ∃ a s', run_ffi dst c s = Ret (Ok a, s') ∧ ffi_inv buf s' ∧ answer_fits dst a ∧ hands_out c a s s' ∧
    others_kept c s s'.
Proof.
  intros Hinv Hbuf (Hc & Hl & Hs). destruct (handle_of c) as [p|] eqn:Hp.
  { destruct (handle_call_safe buf dst c p s Hinv Hbuf Hc Hp (Hl p eq_refl)) as (a & s' & Hr & Hi & Ha & Hna & Ho).
    exists a, s'. split_and!; [done..| |by eapply only_at_kept]. split; [by destruct c|]. intros q Hq. by destruct (Hna (Some q)). }
  destruct c as [sk pk psk ka index|p src|p src|p|p|p|p|k|k|p]; try done; cbn [ffi_call_fits string_of] in *.
  - destruct Hc as (Ha & Hb & Hk). destruct (new_tunnel_safe buf sk pk psk ka index s Hinv Ha Hb Hk)
      as (o & s' & Hr & Hi & Hq & Hx & Hnew). eexists _, s'. split; [cbn [run_ffi]; by erewrite bind_ok by exact Hr|].
    split_and!; [done..| |]; [split; [done|]; by intros p [= ->]; apply Hnew|]. split; [eauto|]. intros q x. by rewrite Hx.
  - destruct (text_safe buf dst (FKeyBase64 k) (base64_encode k) s Hinv (base64_alphabet k) eq_refl)
      as (q & s' & Hr & Hi & Ho & Hn & Hq). exists (AText q), s'. split_and!; [done..| |done].
    split; [intros x [= <-]; by exists q|done].
  - destruct (text_safe buf dst (FKeyHex k) (encode_hex k) s Hinv) as (q & s' & Hr & Hi & Ho & Hn & Hq); [|done|].
    { rewrite encode_hex_lower. eapply Forall_impl; [apply hex_plain|]. unfold plain. lia. }
    exists (AText q), s'. split_and!; [done..| |done]. split; [|done]. intros x [= <-]. exists q. by rewrite <- encode_hex_lower.
  - destruct (Hs p eq_refl) as [x Hx]. eexists _, _. split.
    { cbn [run_ffi]. unfold x25519_key_to_str_free. erewrite bind_ok; [reflexivity|]. erewrite bind_ok by reflexivity.
      cbn beta. by rewrite Hx. }
    split_and!; [by destruct Hinv|done|by split|]. split; [done|]. intros q y Hy Hne. cbn. rewrite lookup_delete_ne; [done|intros ->; by apply Hne].
Qed.

(** A session with the bindings, each call with its buffer: every call that
    keeps to its contract is answered, and so on from the state it leaves. *)
Fixpoint ffi_session_safe (buf : nat) (calls : list (bytes * ffi_call)) (s : ffi_state) : Prop :=
  match calls with
  | [] => True
  | (dst, c) :: calls =>
    ffi_contract buf dst c s →
    ∃ a s', run_ffi dst c s = Ret (Ok a, s') ∧ answer_fits dst a ∧ hands_out c a s s' ∧ others_kept c s s' ∧
      ffi_session_safe buf calls s'
  end.

Lemma ffi_session_inv buf calls s : ffi_inv buf s → (COOKIE_REPLY_SZ ≤ buf)%nat → ffi_session_safe buf calls s.
Proof.
  intros Hi Hbuf. revert s Hi. induction calls as [|[dst c] calls IH]; intros s Hi; [done|]. intros Hc.
  destruct (ffi_call_safe buf dst c s Hi Hbuf Hc) as (a & s' & Hr & Hi' & ? & ? & ?). exists a, s'. split_and!; auto.
Qed.

(** C39.  The C bindings are safe for callers that keep to a contract.  The
    caller has settled on a number [buf] of at least 64; keys are ASCII text;
    handles and strings were handed out and are not freed; a packet that is
    written is 32 bytes shorter than its buffer and than [buf]; a buffer for
    reading has at least [buf] bytes and room for the datagram; one for a tick
    has at least 32 bytes.  Then in any sequence of calls, started with no
    handles, no call panics; what a call says is to be written lies within its
    buffer; a text or a handle that is handed out is new; and no other tunnel
    and no other string changes. *)
Theorem ffi_calls_safe buf calls w :
  (COOKIE_REPLY_SZ ≤ buf)%nat → steady w.(w_env) → ffi_session_safe buf calls (MkFfi ∅ ∅ w).
Proof. intros Hbuf Hw. apply ffi_session_inv; [|done]. by split. Qed.
End Calls.

(** ** Keys in base64 *)

(** A key that [check_base64_encoded_x25519_key] accepts is the key that
    [new_tunnel] reads: it has 32 bytes, is not all zeros, and parsing the text
    gives these bytes. *)
Lemma checked_key_is_read `{Base64Laws} (text : bytes) s :
  check_base64_encoded_x25519_key text = 1 →
  ∃ k, base64_decode text = Some k ∧ length k = KEY_SIZE ∧ k ≠ zeros KEY_SIZE ∧
    ffi_parse_key text s = Ret (Ok (Some k), s).
Proof.
  unfold check_base64_encoded_x25519_key, to_str. destruct (is_utf8 text); [|done].
  destruct (base64_decode text) as [k|] eqn:Hd; [|done]. case_bool_decide as Hlen; [|done]. cbn [andb].
  destruct (Z.eqb_spec (fold_left (λ z b, Z.lor z (code b)) k 0) 0) as [|Hnz]; [done|]. intros _.
  exists k. split_and!; [done|done|by intros ->|].
  pose proof (base64_length _ _ Hd) as Hl. rewrite Hlen in Hl. cbn in Hl.
  unfold ffi_parse_key, key_from_str. rewrite Hd, decide_False by lia. rewrite decide_True by lia.
  by rewrite decide_True by done.
Qed.

(** A key in hexadecimal is the key that [new_tunnel] reads. *)
Lemma hex_key_is_read `{Base64} (k : bytes) s :
  length k = KEY_SIZE →
  to_str (to_lower_hex k) = Some (to_lower_hex k) ∧ ffi_parse_key (to_lower_hex k) s = Ret (Ok (Some k), s).
Proof.
  intros Hk. split.
  - unfold to_str. by rewrite ascii_utf8 by apply hex_ascii.
  - unfold ffi_parse_key. by erewrite bind_ok by (apply attempt_run; by apply key_from_hex).
Qed.

(** ** Logging *)

(** The default subscriber of the process, with the function that it calls for
    each text, and the texts that were handed to that function. *)
Record logging := MkLogging {
  subscriber : option nat;
  logged : list (nat * bytes);
}.

(** [write] of [FFIFunctionPointerWriter]: what is not UTF-8 is replaced; a
    text with a zero byte is an error and is not logged. *)
Definition writer_write (log_func : nat) (buf : bytes) : M () logging Z :=
  let out_str := from_utf8_lossy buf in
  c_string ← attempt (if existsb (λ b, code b =? 0) out_str then throw () else mret out_str);
  match c_string with
  | Ok c_string =>
    _ ← modify (λ s, MkLogging s.(subscriber) (s.(logged) ++ [(log_func, c_string)]));
    mret (Z.of_nat (length buf))
  | Err () => throw ()
  end.

Definition writer_flush : M () logging () := mret ().

(** The default subscriber is set once: [try_init] fails from then on. *)
Definition set_logging_function (log_func : nat) : M () logging bool :=
  s ← gets subscriber;
  match s with
  | None => _ ← modify (λ s, MkLogging (Some log_func) s.(logged)); mret true
  | Some _ => mret false
  end.

(** The first function that is set is the one that is used. *)
Lemma logging_function_set_once f g s :
  s.(subscriber) = None →
  (b ← set_logging_function f; b' ← set_logging_function g; mret (b, b')) s =
    Ret (Ok (true, false), MkLogging (Some f) s.(logged)).
Proof. intros Hs. unfold set_logging_function. destruct s. cbn in Hs. by subst. Qed.

(** A text in UTF-8 without zero bytes is logged as it is; a write takes the
    whole of its buffer or nothing. *)
Lemma write_utf8 f buf s :
  is_utf8 buf = true → Forall (λ b, code b ≠ 0) buf →
  writer_write f buf s = Ret (Ok (Z.of_nat (length buf)), MkLogging s.(subscriber) (s.(logged) ++ [(f, buf)])).
Proof.
  intros Hu Hz. unfold writer_write. rewrite lossy_utf8 by done.
  assert (existsb (λ b, code b =? 0) buf = false) as ->; [|done].
  apply not_true_is_false. intros (x & Hx & Hx0%Z.eqb_eq)%existsb_exists. by apply (proj1 (List.Forall_forall _ _) Hz x Hx).
Qed.

(** ** Witnesses *)

Section FfiWitnesses.
#[local] Existing Instance toy_crypto.
#[local] Existing Instance toy_laws.
#[local] Existing Instance standard_base64.
#[local] Existing Instance standard_base64_laws.

#[local] Instance lower_hex : Hex := {| encode_hex := to_lower_hex |}.
#[local] Instance lower_hex_laws : HexLaws.
Proof. by split. Qed.

Definition hex_of (k : bytes) : bytes := to_lower_hex k.

(** A tunnel is made, and a packet written. *)
Definition ffi_session (p : nat) : list (bytes * ffi_call) :=
  [([], FNew (hex_of k1) (hex_of (x25519_public k2)) None 0 7); (zeros 148, FWrite p ip_packet)].

Definition start : ffi_state := MkFfi ∅ ∅ (world_of (x25519_public k1)).

Lemma ascii_bool (x : bytes) : forallb (λ b, code b <? 128) x = true → ascii x.
Proof. intros Hx. apply List.Forall_forall. intros b Hb. by apply Z.ltb_lt, (proj1 (forallb_forall _ _) Hx). Qed.

Lemma new_contract : ffi_contract 148 [] (FNew (hex_of k1) (hex_of (x25519_public k2)) None 0 7) start.
Proof.
  split; [|split; intros q [=]]. split; [|split; [|intros k [=]]]; apply ascii_bool; vm_compute; reflexivity.
Qed.

Lemma write_contract p s : is_Some (s.(ffi_tunnels) !! p) → ffi_contract 148 (zeros 148) (FWrite p ip_packet) s.
Proof. intros Hl. split; [vm_compute; lia|]. split; [by intros q [= <-]|intros q [=]]. Qed.

Lemma ffi_calls_safe_witness :
  ∃ p s1, run_ffi [] (FNew (hex_of k1) (hex_of (x25519_public k2)) None 0 7) start = Ret (Ok (AHandle (Some p)), s1) ∧
    ∃ a s2, run_ffi (zeros 148) (FWrite p ip_packet) s1 = Ret (Ok a, s2) ∧ answer_fits (zeros 148) a.
Proof.
  assert (Hok : match run_ffi [] (FNew (hex_of k1) (hex_of (x25519_public k2)) None 0 7) start with
    | Ret (Ok (AHandle (Some _)), _) => true | _ => false end = true) by (vm_compute; reflexivity).
  destruct (run_ffi _ _ start) as [[[[[p|]| | | |]|] s1]|] eqn:Hr; try discriminate Hok. exists p, s1. split; [reflexivity|].
  pose proof (ffi_calls_safe 148 (ffi_session p) (world_of (x25519_public k1)) ltac:(vm_compute; lia) test_steady) as Hs.
  destruct (Hs new_contract) as (a1 & s1' & Hr1 & _ & [_ Hh] & _ & Hrest). fold start in Hr1, Hh.
  rewrite Hr in Hr1. injection Hr1 as <- <-. destruct (Hh p eq_refl) as [_ Hlive].
  destruct (Hrest (write_contract p s1 Hlive)) as (a & s2 & Hr2 & Hf & _).
  exists a, s2. split; [exact Hr2|exact Hf].
Defined.

End FfiWitnesses.
