(* ===== verification/Jni.v ===== *)
(** * The Java bindings (jni.rs)

    The functions that a Java program calls, on top of the C bindings of Ffi.v.
    The Java machine is a parameter: its objects are behind references, [None]
    is the null reference, and a method of [JNIEnv] answers [None] for an
    error.  A direct buffer has its bytes in native memory, which the bindings
    read and write by pointer; beyond the end of it there is no result.  A byte
    of Java is a byte: only its reading as a number is signed. *)

From S2P Require Import Prelude Errors ReplayWindow Time Crypto Packet Session Tai64N Handshake.
From S2P Require Import RateLimiter Tunn Tunnel Frame Text Serialization Base64Text Show Ffi.
From coqutil Require Import Byte.

(** ** The Java machine *)

(** What is in the heap of the machine: arrays of bytes, strings by their
    modified UTF-8, direct buffers by the pointer to their memory, and how many
    strings are pinned for native code. *)
Record jheap := MkHeap {
  jarrays : gmap nat bytes;
  jstrings : gmap nat bytes;
  jbuffers : gmap nat nat;
  jpins : nat;
}.

Definition with_arrays (a : gmap nat bytes) (h : jheap) : jheap := MkHeap a h.(jstrings) h.(jbuffers) h.(jpins).
Definition with_jstrings (x : gmap nat bytes) (h : jheap) : jheap := MkHeap h.(jarrays) x h.(jbuffers) h.(jpins).
Definition with_pins (n : nat) (h : jheap) : jheap := MkHeap h.(jarrays) h.(jstrings) h.(jbuffers) n.

Class JNIEnv := {
  jvm : Type;
  jheap_of : jvm → jheap;
  byte_array_from_slice : bytes → jvm → option nat * jvm;
  get_byte_array_region : option nat → nat → nat → jvm → option bytes * jvm;   (* from [start], as many as the slice has *)
  convert_byte_array : option nat → jvm → option bytes * jvm;
  new_string : bytes → jvm → option nat * jvm;
  get_string_utf_chars : option nat → jvm → option bytes * jvm;
  get_direct_buffer_address : option nat → jvm → option nat * jvm;
}.

(** What the documentation of the interface says of them. *)
Class JNIEnvLaws `{JNIEnv} : Prop := {
  array_made b j r j' : byte_array_from_slice b j = (Some r, j') →
    (jheap_of j).(jarrays) !! r = None ∧ jheap_of j' = with_arrays (<[r := b]> (jheap_of j).(jarrays)) (jheap_of j);
  array_failed b j j' : byte_array_from_slice b j = (None, j') → jheap_of j' = jheap_of j;
  region_read r b start n j : (jheap_of j).(jarrays) !! r = Some b → (start + n ≤ length b)%nat →
    get_byte_array_region (Some r) start n j = (Some (slice start (start + n) b), j);
  region_failed o start n j j' : get_byte_array_region o start n j = (None, j') → jheap_of j' = jheap_of j;
  region_short r b start n j : (jheap_of j).(jarrays) !! r = Some b → (length b < start + n)%nat →
    (get_byte_array_region (Some r) start n j).1 = None;
  array_read r b j : (jheap_of j).(jarrays) !! r = Some b → convert_byte_array (Some r) j = (Some b, j);
  string_made x j r j' : new_string x j = (Some r, j') →
    (jheap_of j).(jstrings) !! r = None ∧ jheap_of j' = with_jstrings (<[r := x]> (jheap_of j).(jstrings)) (jheap_of j);
  string_failed x j j' : new_string x j = (None, j') → jheap_of j' = jheap_of j;
  chars_read r x j c j' : (jheap_of j).(jstrings) !! r = Some x → get_string_utf_chars (Some r) j = (Some c, j') →
    c = x ∧ jheap_of j' = with_pins (S (jheap_of j).(jpins)) (jheap_of j);
  chars_failed o j j' : get_string_utf_chars o j = (None, j') → jheap_of j' = jheap_of j;
  buffer_address r p j : (jheap_of j).(jbuffers) !! r = Some p → get_direct_buffer_address (Some r) j = (Some p, j);
  buffer_failed o j j' : get_direct_buffer_address o j = (None, j') → jheap_of j' = jheap_of j;
}.

(** The addresses of boxes. *)
Class Boxes := {
  box_addr : nat → Z;
  box_at : Z → option nat;
}.

Definition addressable `{Boxes} (p : nat) : Prop := 0 < box_addr p < 2 ^ 64.

Class BoxesLaws `{Boxes} : Prop := {
  box_at_addr p : addressable p → box_at (box_addr p) = Some p;
}.

Record jni_state `{JNIEnv} := MkJni {
  j_vm : jvm;
  j_memory : gmap nat bytes;   (* the memory of the direct buffers *)
  j_ffi : ffi_state;
}.

(** [x as u8] of a [result_type]. *)
Definition op_code (o : result_type) : Z :=
  match o with
  | WIREGUARD_DONE => 0
  | WRITE_TO_NETWORK => 1
  | WIREGUARD_ERROR => 2
  | WRITE_TO_TUNNEL_IPV4 => 4
  | WRITE_TO_TUNNEL_IPV6 => 6
  end.

Section Jni.
Context `{Crypto, Base64, Hex, JNIEnv, Boxes}.

Definition with_vm (j : jvm) (s : jni_state) : jni_state := MkJni _ j s.(j_memory) s.(j_ffi).
Definition with_memory (m : gmap nat bytes) (s : jni_state) : jni_state := MkJni _ s.(j_vm) m s.(j_ffi).
Definition with_ffi (f : ffi_state) (s : jni_state) : jni_state := MkJni _ s.(j_vm) s.(j_memory) f.

Abbreviation JM := (M () jni_state).

Definition env_call {A} (f : jvm → A * jvm) : JM A := λ s, let '(a, j) := f s.(j_vm) in Ret (Ok a, with_vm j s).
Definition on_ffi {A} (m : FM A) : JM A := zoom j_ffi with_ffi m.

(** [slice::from_raw_parts] of the memory at a pointer, or of a vector. *)
Definition from_raw_parts (memory : bytes) (size : Z) : JM bytes :=
  if size <=? Z.of_nat (length memory) then mret (take (Z.to_nat size) memory) else panic.

Definition memory_at (ptr : nat) : JM bytes :=
  m ← gets (λ s, s.(j_memory) !! ptr);
  unwrap m.

Definition store_at (ptr : nat) (b : bytes) : JM () :=
  m ← memory_at ptr;
  if (length b <=? length m)%nat then modify (λ s, with_memory (<[ptr := copy_at 0 b m]> s.(j_memory)) s) else panic.

(** [tunnel as *const Mutex<Tunn>] *)
Definition handle_at (tunnel : Z) : option nat := box_at (wrap 64 tunnel).

Definition generate_secret_key : JM (option nat) :=
  key ← on_ffi x25519_secret_key;
  env_call (byte_array_from_slice key).

Definition generate_public_key1 (arg_secret_key : option nat) : JM (option nat) :=
  key_inner ← env_call (get_byte_array_region arg_secret_key 0 32);
  match key_inner with
  | None => mret None
  | Some secret_key => env_call (byte_array_from_slice (x25519_public_key secret_key))
  end.

(** [JNIStr::from_ptr(..).to_owned()] *)
Definition JNIStr_from_ptr (p : nat) : JM bytes :=
  c_string ← gets (λ s, s.(j_ffi).(ffi_strings) !! p);
  unwrap c_string.

Definition convert_x25519_key_to_hex (arg_key : option nat) : JM (option nat) :=
  key ← env_call (get_byte_array_region arg_key 0 32);
  match key with
  | None => mret None
  | Some x25519_key =>
    p ← on_ffi (x25519_key_to_hex x25519_key);
    string ← JNIStr_from_ptr p;
    env_call (new_string string)
  end.

Definition convert_x25519_key_to_base64 (arg_key : option nat) : JM (option nat) :=
  key ← env_call (get_byte_array_region arg_key 0 32);
  match key with
  | None => mret None
  | Some x25519_key =>
    p ← on_ffi (x25519_key_to_base64 x25519_key);
    string ← JNIStr_from_ptr p;
    env_call (new_string string)
  end.

(** The null pointer for the null reference. *)
Definition get_preshared_key (arg_preshared_key : option nat) : JM (option (option bytes)) :=
  if decide (arg_preshared_key = None) then mret (Some None)
  else
    k ← env_call (get_string_utf_chars arg_preshared_key);
    mret (match k with Some k => Some (Some k) | None => None end).

Definition create_new_tunnel (arg_secret_key arg_public_key arg_preshared_key : option nat) (keep_alive index : Z) : JM Z :=
  secret_key ← env_call (get_string_utf_chars arg_secret_key);
  match secret_key with
  | None => mret 0
  | Some secret_key =>
    public_key ← env_call (get_string_utf_chars arg_public_key);
    match public_key with
    | None => mret 0
    | Some public_key =>
      preshared_key ← get_preshared_key arg_preshared_key;
      match preshared_key with
      | None => mret 0
      | Some preshared_key =>
        tunnel ← on_ffi (new_tunnel secret_key public_key preshared_key (wrap 16 keep_alive) (wrap 32 index));
        mret (match tunnel with None => 0 | Some p => to_signed 64 (box_addr p) end)
      end
    end
  end.

(** The end of the calls that give a result: [*op_ptr] and the size. *)
Definition report (dst_ptr op_ptr : nat) (output : wireguard_result) (dst : bytes) : JM Z :=
  _ ← store_at dst_ptr dst;
  _ ← store_at op_ptr [byte.of_Z (op_code output.(op))];
  mret (to_signed 32 output.(size)).

(** The addresses of the two buffers, or zero. *)
Definition with_buffers (dst op : option nat) (k : nat → nat → JM Z) : JM Z :=
  dst_ptr ← env_call (get_direct_buffer_address dst);
  match dst_ptr with
  | None => mret 0
  | Some dst_ptr =>
    op_ptr ← env_call (get_direct_buffer_address op);
    match op_ptr with
    | None => mret 0
    | Some op_ptr => k dst_ptr op_ptr
    end
  end.

(** [env.convert_byte_array(src).unwrap().as_mut_ptr()], with its size. *)
Definition src_slice (src : option nat) (src_size : Z) : JM bytes :=
  v ← env_call (convert_byte_array src);
  v ← unwrap v;
  from_raw_parts v (wrap 32 src_size).

Definition dst_slice (dst_ptr : nat) (dst_size : Z) : JM bytes :=
  m ← memory_at dst_ptr;
  from_raw_parts m (wrap 32 dst_size).

Definition encrypt_raw_packet (tunnel : Z) (src : option nat) (src_size : Z) (dst : option nat) (dst_size : Z)
    (op : option nat) : JM Z :=
  with_buffers dst op (λ dst_ptr op_ptr,
    src ← src_slice src src_size;
    dst ← dst_slice dst_ptr dst_size;
    output ← on_ffi (wireguard_write (handle_at tunnel) src dst);
    report dst_ptr op_ptr output.1 output.2).

Definition decrypt_to_raw_packet (tunnel : Z) (src : option nat) (src_size : Z) (dst : option nat) (dst_size : Z)
    (op : option nat) : JM Z :=
  with_buffers dst op (λ dst_ptr op_ptr,
    src ← src_slice src src_size;
    dst ← dst_slice dst_ptr dst_size;
    output ← on_ffi (wireguard_read (handle_at tunnel) src dst);
    report dst_ptr op_ptr output.1 output.2).

Definition run_periodic_task (tunnel : Z) (dst : option nat) (dst_size : Z) (op : option nat) : JM Z :=
  with_buffers dst op (λ dst_ptr op_ptr,
    dst ← dst_slice dst_ptr dst_size;
    output ← on_ffi (wireguard_tick (handle_at tunnel) dst);
    report dst_ptr op_ptr output.1 output.2).
End Jni.

(** ** Calls *)

Inductive jni_call : Type :=
| JSecretKey
| JPublicKey (secret_key : option nat)
| JKeyHex (key : option nat)
| JKeyBase64 (key : option nat)
| JNew (secret_key public_key preshared_key : option nat) (keep_alive index : Z)
| JWrite (tunnel : Z) (src : option nat) (src_size : Z) (dst : option nat) (dst_size : Z) (op : option nat)
| JRead (tunnel : Z) (src : option nat) (src_size : Z) (dst : option nat) (dst_size : Z) (op : option nat)
| JTick (tunnel : Z) (dst : option nat) (dst_size : Z) (op : option nat).

(** A reference, or a number. *)
Inductive jni_answer : Type :=
| JRef (r : option nat)
| JNum (n : Z).

Section Calls.
Context `{CryptoLaws, Base64Laws, HexLaws, JNIEnvLaws, BoxesLaws}.

Abbreviation JM := (M () jni_state).

Definition run_jni (c : jni_call) : JM jni_answer :=
  match c with
  | JSecretKey => r ← generate_secret_key; mret (JRef r)
  | JPublicKey k => r ← generate_public_key1 k; mret (JRef r)
  | JKeyHex k => r ← convert_x25519_key_to_hex k; mret (JRef r)
  | JKeyBase64 k => r ← convert_x25519_key_to_base64 k; mret (JRef r)
  | JNew sk pk psk ka i => n ← create_new_tunnel sk pk psk ka i; mret (JNum n)
  | JWrite t src n dst m op => r ← encrypt_raw_packet t src n dst m op; mret (JNum r)
  | JRead t src n dst m op => r ← decrypt_to_raw_packet t src n dst m op; mret (JNum r)
  | JTick t dst m op => r ← run_periodic_task t dst m op; mret (JNum r)
  end.

(** A buffer of [n] bytes at least. *)
Definition buffer_of (s : jni_state) (o : option nat) (p : nat) (m : bytes) : Prop :=
  ∃ r, o = Some r ∧ (jheap_of s.(j_vm)).(jbuffers) !! r = Some p ∧ s.(j_memory) !! p = Some m.

Definition array_is (s : jni_state) (o : option nat) (b : bytes) : Prop :=
  ∃ r, o = Some r ∧ (jheap_of s.(j_vm)).(jarrays) !! r = Some b.

Definition string_is (s : jni_state) (o : option nat) (x : bytes) : Prop :=
  ∃ r, o = Some r ∧ (jheap_of s.(j_vm)).(jstrings) !! r = Some x.

(** A number that [create_new_tunnel] gave out. *)
Definition live (s : jni_state) (tunnel : Z) (p : nat) : Prop :=
  tunnel = to_signed 64 (box_addr p) ∧ addressable p ∧ is_Some (s.(j_ffi).(ffi_tunnels) !! p).

Lemma env_call_run {A} (f : jvm → A * jvm) s a j : f s.(j_vm) = (a, j) → env_call f s = Ret (Ok a, with_vm j s).
Proof. intros Hf. unfold env_call. by rewrite Hf. Qed.

Lemma on_ffi_run {A} (m : FM A) s a f : m s.(j_ffi) = Ret (Ok a, f) → on_ffi m s = Ret (Ok a, with_ffi f s).
Proof. apply zoom_run. Qed.

Lemma handle_of_live s tunnel p : live s tunnel p → handle_at tunnel = Some p.
Proof.
  intros (-> & Hr & _). unfold handle_at. rewrite <- (box_at_addr p Hr). f_equal. unfold addressable in Hr.
  unfold to_signed, wrap. change (64 - 1) with 63.
  destruct (Z.ltb_spec (box_addr p mod 2 ^ 64) (2 ^ 63)) as [Hs|Hs]; rewrite (Z.mod_small (box_addr p)) by lia.
  - apply Z.mod_small. lia.
  - replace (box_addr p - 2 ^ 64) with (box_addr p + (-1) * 2 ^ 64) by lia. rewrite Z.mod_add by done. apply Z.mod_small. lia.
Qed.

Lemma with_vm_same s : with_vm s.(j_vm) s = s.
Proof. by destruct s. Qed.

Lemma from_raw_parts_run b n s : 0 ≤ n < 2 ^ 31 → n ≤ Z.of_nat (length b) →
  from_raw_parts b (wrap 32 n) s = Ret (Ok (take (Z.to_nat n) b), s).
Proof.
  intros Hn Hb. unfold from_raw_parts, wrap. rewrite Z.mod_small by lia. by rewrite (proj2 (Z.leb_le _ _)) by done.
Qed.

Lemma src_slice_run s src b n : array_is s src b → 0 ≤ n < 2 ^ 31 → n ≤ Z.of_nat (length b) →
  src_slice src n s = Ret (Ok (take (Z.to_nat n) b), s).
Proof.
  intros (r & -> & Hr) Hn Hb. unfold src_slice.
  erewrite bind_ok by (apply env_call_run; by apply array_read). rewrite with_vm_same. run_ok. by apply from_raw_parts_run.
Qed.

Lemma dst_slice_run s p m n : s.(j_memory) !! p = Some m → 0 ≤ n < 2 ^ 31 → n ≤ Z.of_nat (length m) →
  dst_slice p n s = Ret (Ok (take (Z.to_nat n) m), s).
Proof.
  intros Hp Hn Hm. unfold dst_slice, memory_at. erewrite bind_ok; [by apply from_raw_parts_run|].
  erewrite bind_ok by reflexivity. cbn beta. by rewrite Hp.
Qed.

Lemma with_buffers_run s dst op pd md po mo k :
  buffer_of s dst pd md → buffer_of s op po mo → with_buffers dst op k s = k pd po s.
Proof.
  intros (r & -> & Hr & _) (r' & -> & Hr' & _). unfold with_buffers.
  erewrite bind_ok by (apply env_call_run; by apply buffer_address). rewrite with_vm_same.
  erewrite bind_ok by (apply env_call_run; by apply buffer_address). by rewrite with_vm_same.
Qed.

Lemma store_at_run p b m s : s.(j_memory) !! p = Some m → (length b ≤ length m)%nat →
  store_at p b s = Ret (Ok (), with_memory (<[p := copy_at 0 b m]> s.(j_memory)) s).
Proof.
  intros Hp Hb. unfold store_at, memory_at. erewrite bind_ok; [|erewrite bind_ok by reflexivity; cbn beta; by rewrite Hp].
  by rewrite (proj2 (Nat.leb_le _ _)) by done.
Qed.

(** What a call that gives a result leaves in memory: the operation in its
    buffer, and in front of the other one, if it is another one, the bytes [d]. *)
Record reported (pd po : nat) (o : result_type) (d : bytes) (m m' : gmap nat bytes) : Prop := {
  rp_op : ∃ b rest, m' !! po = Some (b :: rest) ∧ b = byte.of_Z (op_code o);
  rp_packet : pd ≠ po → ∃ rest, m' !! pd = Some (d ++ rest);
  rp_sizes : ∀ q, length <$> m' !! q = length <$> m !! q;
  rp_others : ∀ q, q ≠ pd → q ≠ po → m' !! q = m !! q;
}.

Lemma insert_size (m : gmap nat bytes) p b b' q : m !! p = Some b → length b' = length b →
  length <$> (<[p := b']> m) !! q = length <$> m !! q.
Proof.
  intros Hp Hl. destruct (decide (q = p)) as [->|Hq]; [|by rewrite lookup_insert_ne]. rewrite lookup_insert_eq, Hp. cbn. by f_equal.
Qed.

Lemma report_run s pd md po mo output d :
  s.(j_memory) !! pd = Some md → s.(j_memory) !! po = Some mo → (length d ≤ length md)%nat → (1 ≤ length mo)%nat →
  ∃ m, report pd po output d s = Ret (Ok (to_signed 32 output.(size)), with_memory m s) ∧ reported pd po output.(op) d s.(j_memory) m.
Proof.
  intros Hd Ho Hld Hlo. unfold report. erewrite bind_ok by (by apply store_at_run). set (m1 := <[pd := _]> _).
  assert (Hl1 : length (copy_at 0 d md) = length md) by (by apply length_copy_at).
  assert (Hs1 : ∀ q, length <$> m1 !! q = length <$> s.(j_memory) !! q) by (intros q; by eapply insert_size).
  destruct (m1 !! po) as [mo1|] eqn:Hm1; [|specialize (Hs1 po); by rewrite Hm1, Ho in Hs1].
  assert (Hlm : length mo1 = length mo) by (specialize (Hs1 po); rewrite Hm1, Ho in Hs1; by injection Hs1).
  erewrite bind_ok by (apply store_at_run; [exact Hm1|cbn; lia]). eexists. split; [reflexivity|]. split.
  - eexists _, _. split; [apply lookup_insert_eq|done].
  - intros Hne. exists (drop (length d) md). rewrite lookup_insert_ne by done. cbn [j_memory with_memory]. unfold m1. by rewrite lookup_insert_eq.
  - intros q. rewrite <- Hs1. eapply insert_size; [exact Hm1|]. apply length_copy_at. cbn. lia.
  - intros q Hqd Hqo. rewrite lookup_insert_ne by done. cbn [j_memory with_memory]. unfold m1. by rewrite lookup_insert_ne.
Qed.

(** A call of the C bindings that gives a result. *)
Lemma ffi_op_safe buf dst c (m : FM (wireguard_result * bytes)) p s :
  ffi_inv buf s → (COOKIE_REPLY_SZ ≤ buf)%nat → ffi_call_fits buf dst c → handle_of c = Some p →
  is_Some (s.(ffi_tunnels) !! p) → run_ffi dst c = (r ← m; mret (AOp r.1 r.2)) →
  ∃ r d s', m s = Ret (Ok (r, d), s') ∧ ffi_inv buf s' ∧ answer_fits dst (AOp r d) ∧ only_at p s s'.
Proof.
  intros Hi Hd Hc Hp Hl Hm. destruct (handle_call_safe buf dst c p s Hi Hd Hc Hp Hl) as (a & s' & Hr & Hi' & Ha & _ & Ho).
  rewrite Hm in Hr. apply bind_inv in Hr as ([r d] & s1 & Hr & [= <- <-]). by exists r, d, s1.
Qed.

Lemma size_kept dst r d : answer_fits dst (AOp r d) → Z.of_nat (length dst) < 2 ^ 31 → to_signed 32 r.(size) = r.(size).
Proof.
  destruct r as [o n]. intros [_ Hn] Hd. cbn in Hn |- *. assert (0 ≤ n < 2 ^ 31) by (destruct o; lia).
  unfold to_signed, wrap. rewrite Z.mod_small by lia. by rewrite (proj2 (Z.ltb_lt _ _)) by lia.
Qed.

(** What a call that gives a result has to be given: a live tunnel, a buffer
    with room for [size] bytes, and one for a byte. *)
Record call_buffers (s : jni_state) (tunnel : Z) (dst : option nat) (dst_size : Z) (op : option nat) (p pd po : nat) : Prop := {
  cb_live : live s tunnel p;
  cb_dst : ∃ m, buffer_of s dst pd m ∧ dst_size ≤ Z.of_nat (length m);
  cb_op : ∃ m, buffer_of s op po m ∧ (1 ≤ length m)%nat;
  cb_size : 0 ≤ dst_size < 2 ^ 31;
}.

(** The outcome: no panic, a result [r] with the bytes [d] as the C binding
    gives it, reported in memory; no other tunnel has changed. *)
Definition result_given (buf : nat) (s : jni_state) (n : Z) (p pd po : nat) (dst_size : Z) (s' : jni_state) : Prop :=
  ∃ r d, n = r.(size) ∧ answer_fits (zeros (Z.to_nat dst_size)) (AOp r d) ∧
    reported pd po r.(op) d s.(j_memory) s'.(j_memory) ∧
    s'.(j_vm) = s.(j_vm) ∧ only_at p s.(j_ffi) s'.(j_ffi) ∧ ffi_inv buf s'.(j_ffi).

Lemma answer_fits_length dst dst' a : length dst = length dst' → answer_fits dst a → answer_fits dst' a.
Proof. intros Hl. destruct a as [|[o n] d| | |]; cbn; by rewrite ?Hl. Qed.

Lemma result_call buf s tunnel dst dst_size op p pd po src b c (m : option nat → bytes → bytes → FM (wireguard_result * bytes)) :
  ffi_inv buf s.(j_ffi) → (COOKIE_REPLY_SZ ≤ buf)%nat → call_buffers s tunnel dst dst_size op p pd po →
  (∀ d, run_ffi d c = (r ← m (Some p) b d; mret (AOp r.1 r.2))) → handle_of c = Some p →
  (∀ d : bytes, length d = Z.to_nat dst_size → ffi_call_fits buf d c) →
  src s = Ret (Ok b, s) →
  ∃ n s', with_buffers dst op (λ dst_ptr op_ptr,
      src ← src;
      dst ← dst_slice dst_ptr dst_size;
      output ← on_ffi (m (handle_at tunnel) src dst);
      report dst_ptr op_ptr output.1 output.2) s = Ret (Ok n, s') ∧ result_given buf s n p pd po dst_size s'.
Proof.
  intros Hi Hbuf [Hl (md & Hbd & Hmd) (mo & Hbo & Hmo) Hsz] Hc Hh Hf Hsrc.
  rewrite (with_buffers_run s dst op pd md po mo) by done. erewrite bind_ok by exact Hsrc.
  assert (Hpd : s.(j_memory) !! pd = Some md) by (by destruct Hbd as (? & _ & _ & ?)).
  assert (Hpo : s.(j_memory) !! po = Some mo) by (by destruct Hbo as (? & _ & _ & ?)).
  erewrite bind_ok by (apply dst_slice_run; [exact Hpd|lia|done]). set (d := take _ md).
  assert (Hld : length d = Z.to_nat dst_size) by (unfold d; rewrite length_take; lia).
  rewrite (handle_of_live _ _ _ Hl).
  destruct (ffi_op_safe buf d c (m (Some p) b d) p s.(j_ffi)) as (r & d' & f & Hr & Hi' & Ha & Ho);
    [done|done|by apply Hf|done|apply Hl|apply Hc|].
  erewrite bind_ok by (apply on_ffi_run; exact Hr).
  assert (Hd' : length d' = length d) by (destruct r; apply Ha).
  destruct (report_run (with_ffi f s) pd md po mo r d') as (m' & Hrep & Hmem); [done|done|lia|done|].
  eexists _, _. split; [exact Hrep|]. exists r, d'. rewrite (size_kept d r d') by (done || lia).
  split; [done|]. split; [|done].
  eapply answer_fits_length; [|exact Ha]. unfold zeros. by rewrite length_replicate.
Qed.

(** The same, as an answer. *)
Lemma num_answer (m : JM Z) s n s' : m s = Ret (Ok n, s') → (r ← m; mret (JNum r)) s = Ret (Ok (JNum n), s').
Proof. intros Hm. by erewrite bind_ok by exact Hm. Qed.

Lemma ref_answer (m : JM (option nat)) s r s' : m s = Ret (Ok r, s') → (r ← m; mret (JRef r)) s = Ret (Ok (JRef r), s').
Proof. intros Hm. by erewrite bind_ok by exact Hm. Qed.

(** ** Keys *)

(** An array or a null reference. *)
Definition array_given (s : jni_state) (r : option nat) (b : bytes) (s' : jni_state) : Prop :=
  match r with
  | None => jheap_of s'.(j_vm) = jheap_of s.(j_vm)
  | Some r => jheap_of s'.(j_vm) = with_arrays (<[r := b]> (jheap_of s.(j_vm)).(jarrays)) (jheap_of s.(j_vm)) ∧
      (jheap_of s.(j_vm)).(jarrays) !! r = None
  end.

Definition string_given (s : jni_state) (r : option nat) (x : bytes) (s' : jni_state) : Prop :=
  match r with
  | None => jheap_of s'.(j_vm) = jheap_of s.(j_vm)
  | Some r => jheap_of s'.(j_vm) = with_jstrings (<[r := x]> (jheap_of s.(j_vm)).(jstrings)) (jheap_of s.(j_vm)) ∧
      (jheap_of s.(j_vm)).(jstrings) !! r = None
  end.

Lemma make_array b s : ∃ r s', env_call (byte_array_from_slice b) s = Ret (Ok r, s') ∧ array_given s r b s' ∧
  s'.(j_memory) = s.(j_memory) ∧ s'.(j_ffi) = s.(j_ffi).
Proof.
  destruct (byte_array_from_slice b s.(j_vm)) as [r j] eqn:Hr. exists r, (with_vm j s).
  split; [by apply env_call_run|]. split; [|done]. destruct r as [r|]; cbn; [|by eapply array_failed].
  by apply array_made in Hr as [? ->].
Qed.

Lemma make_string x s : ∃ r s', env_call (new_string x) s = Ret (Ok r, s') ∧ string_given s r x s' ∧
  s'.(j_memory) = s.(j_memory) ∧ s'.(j_ffi) = s.(j_ffi).
Proof.
  destruct (new_string x s.(j_vm)) as [r j] eqn:Hr. exists r, (with_vm j s).
  split; [by apply env_call_run|]. split; [|done]. destruct r as [r|]; cbn; [|by eapply string_failed].
  by apply string_made in Hr as [? ->].
Qed.

Lemma key_read s o b : array_is s o b → (32 ≤ length b)%nat →
  env_call (get_byte_array_region o 0 32) s = Ret (Ok (Some (take 32 b)), s).
Proof.
  intros (r & -> & Hr) Hb. erewrite env_call_run by (by apply region_read). by rewrite with_vm_same.
Qed.

(** An array that is too short gives no key. *)
Lemma key_short s o b : array_is s o b → (length b < 32)%nat →
  ∃ s', env_call (get_byte_array_region o 0 32) s = Ret (Ok None, s') ∧ jheap_of s'.(j_vm) = jheap_of s.(j_vm) ∧
    s'.(j_memory) = s.(j_memory) ∧ s'.(j_ffi) = s.(j_ffi).
Proof.
  intros (r & -> & Hr) Hb. pose proof (region_short r b 0 32 _ Hr Hb) as Hn.
  destruct (get_byte_array_region (Some r) 0 32 s.(j_vm)) as [o j] eqn:Hg. cbn in Hn. subst o. exists (with_vm j s).
  split; [by apply env_call_run|]. split; [|done]. by eapply region_failed.
Qed.

(** The text of a key: a string of the machine with it, and one more string of
    the C bindings, which is not freed. *)
Definition text_given (s : jni_state) (r : option nat) (x : bytes) (s' : jni_state) : Prop :=
  string_given s r x s' ∧ s'.(j_memory) = s.(j_memory) ∧
  ∃ p, s.(j_ffi).(ffi_strings) !! p = None ∧
    s'.(j_ffi) = with_strings (<[p := x]> s.(j_ffi).(ffi_strings)) s.(j_ffi).

Lemma text_converted (to_text : bytes → FM nat) key x s :
  Forall (λ b, 43 ≤ code b ≤ 122) x → (to_text key = (c_string ← CString_new x; into_raw c_string)) →
  ∃ r s', (p ← on_ffi (to_text key); string ← JNIStr_from_ptr p; env_call (new_string string)) s = Ret (Ok r, s') ∧
    text_given s r x s'.
Proof.
  intros Hx ->. set (p := fresh (dom s.(j_ffi).(ffi_strings))).
  assert (Hp : s.(j_ffi).(ffi_strings) !! p = None) by (apply not_elem_of_dom, is_fresh).
  set (f := with_strings (<[p := x]> s.(j_ffi).(ffi_strings)) s.(j_ffi)).
  assert (Hr : (c_string ← CString_new x; into_raw c_string) s.(j_ffi) = Ret (Ok p, f)).
  { unfold CString_new. by rewrite (plain_no_zero x Hx). }
  erewrite bind_ok by (apply on_ffi_run; exact Hr).
  assert (Hs : JNIStr_from_ptr p (with_ffi f s) = Ret (Ok x, with_ffi f s)).
  { unfold JNIStr_from_ptr. erewrite bind_ok by reflexivity. cbn. by rewrite lookup_insert_eq. }
  erewrite bind_ok by exact Hs. destruct (make_string x (with_ffi f s)) as (r & s' & Hm & Hg & Hmem & Hf).
  exists r, s'. split; [exact Hm|]. split; [exact Hg|]. split; [exact Hmem|]. by exists p.
Qed.

(** ** A new tunnel *)

(** The machine has pinned [k] more strings. *)
Definition pinned (k : nat) (s s' : jni_state) : Prop :=
  jheap_of s'.(j_vm) = with_pins (k + (jheap_of s.(j_vm)).(jpins)) (jheap_of s.(j_vm)) ∧
  s'.(j_memory) = s.(j_memory) ∧ s'.(j_ffi) = s.(j_ffi).

Lemma pinned_more k l s1 s2 s3 : pinned k s1 s2 → pinned l s2 s3 → pinned (l + k) s1 s3.
Proof.
  intros (Hh & Hm & Hf) (Hh' & Hm' & Hf'). split; [|by split; congruence]. rewrite Hh', Hh. unfold with_pins. cbn.
  by rewrite Nat.add_assoc.
Qed.

Lemma pinned_string k s s' o x : pinned k s s' → string_is s o x → string_is s' o x.
Proof. intros (Hh & _) (r & -> & Hr). exists r. by rewrite Hh. Qed.

Lemma chars_given s o x : string_is s o x →
  ∃ r s', env_call (get_string_utf_chars o) s = Ret (Ok r, s') ∧ (r = Some x ∧ pinned 1 s s' ∨ r = None ∧ pinned 0 s s').
Proof.
  intros (n & -> & Hn). destruct (get_string_utf_chars (Some n) s.(j_vm)) as [r j] eqn:Hr. exists r, (with_vm j s).
  split; [by apply env_call_run|]. destruct r as [c|].
  - destruct (chars_read n x _ c j Hn Hr) as [-> Hh]. left. by split.
  - right. split; [done|]. apply chars_failed in Hr. split; [|done]. cbn. rewrite Hr. by destruct (jheap_of _).
Qed.

(** The strings of a call, and the ones that are pinned by it. *)
Definition strings_given (s : jni_state) (sk pk psk : option nat) : Prop :=
  (∃ x, string_is s sk x ∧ ascii x) ∧ (∃ x, string_is s pk x ∧ ascii x) ∧
  (psk = None ∨ ∃ x, string_is s psk x ∧ ascii x).

(** Zero, or the address of the box of a new tunnel; in that case the strings
    stay pinned. *)
Definition tunnel_given (buf : nat) (s : jni_state) (psk : option nat) (n : Z) (s' : jni_state) : Prop :=
  ∃ k, jheap_of s'.(j_vm) = with_pins (k + (jheap_of s.(j_vm)).(jpins)) (jheap_of s.(j_vm)) ∧ s'.(j_memory) = s.(j_memory) ∧
    ffi_inv buf s'.(j_ffi) ∧ (∀ q t, s.(j_ffi).(ffi_tunnels) !! q = Some t → s'.(j_ffi).(ffi_tunnels) !! q = Some t) ∧
    s'.(j_ffi).(ffi_strings) = s.(j_ffi).(ffi_strings) ∧
    (n ≠ 0 → k = (if decide (psk = None) then 2 else 3)%nat ∧ ∃ p, n = to_signed 64 (box_addr p) ∧
      is_Some (s'.(j_ffi).(ffi_tunnels) !! p) ∧ s.(j_ffi).(ffi_tunnels) !! p = None).

Lemma no_tunnel buf s k psk s' : ffi_inv buf s.(j_ffi) → pinned k s s' → tunnel_given buf s psk 0 s'.
Proof. intros Hi (Hh & Hm & Hf). exists k. rewrite Hf. by split_and!. Qed.

Lemma preshared_given s s2 psk : pinned 2 s s2 → (psk = None ∨ ∃ x, string_is s psk x ∧ ascii x) →
  ∃ o s3, get_preshared_key psk s2 = Ret (Ok o, s3) ∧
    ((∃ z, o = Some z ∧ (∀ k, z = Some k → ascii k) ∧ pinned (if decide (psk = None) then 2 else 3)%nat s s3) ∨
     o = None ∧ pinned 2 s s3).
Proof.
  intros H2' Hpsk. unfold get_preshared_key. case_decide as Hd; [eexists _, s2; split; [reflexivity|]; left; by exists None|].
  destruct Hpsk as [->|(z & Hz & Az)]; [done|].
  destruct (chars_given s2 psk z) as (r3 & s3 & Hr3 & [[-> H3']|[-> H3']]);
    [by eapply pinned_string|(erewrite bind_ok by exact Hr3); eexists _, s3; (split; [reflexivity|])..].
  - left. exists (Some z). split; [done|]. split; [by intros ? [= <-]|exact (pinned_more _ _ _ _ _ H2' H3')].
  - right. split; [done|]. exact (pinned_more _ _ _ _ _ H2' H3').
Qed.

Lemma create_safe buf s sk pk psk ka i : ffi_inv buf s.(j_ffi) → strings_given s sk pk psk →
  ∃ n s', create_new_tunnel sk pk psk ka i s = Ret (Ok n, s') ∧ tunnel_given buf s psk n s'.
Proof.
  intros Hi ((x & Hx & Ax) & (y & Hy & Ay) & Hpsk). unfold create_new_tunnel.
  destruct (chars_given s sk x Hx) as (r1 & s1 & Hr1 & [[-> H1']|[-> H1']]); (erewrite bind_ok by exact Hr1);
    [|eexists _, s1; split; [reflexivity|by eapply no_tunnel]].
  destruct (chars_given s1 pk y) as (r2 & s2 & Hr2 & [[-> H2']|[-> H2']]);
    [by eapply pinned_string|(erewrite bind_ok by exact Hr2)..];
    [|eexists _, s2; split; [reflexivity|by eapply no_tunnel; [|eapply pinned_more]]].
  pose proof (pinned_more _ _ _ _ _ H1' H2') as H12.
  destruct (preshared_given s s2 psk H12 Hpsk) as (o & s3 & Ho & Hcase). erewrite bind_ok by exact Ho.
  destruct Hcase as [(z & -> & Az & H3')|[-> H3']]; [|eexists _, s3; split; [reflexivity|by eapply no_tunnel]].
  destruct H3' as (Hh & Hm & Hf). rewrite <- Hf in Hi.
  destruct (new_tunnel_safe buf x y z (wrap 16 ka) (wrap 32 i) s3.(j_ffi) Hi Ax Ay Az) as (t & f & Ht & Hi' & Hq & Hs & Hp).
  erewrite bind_ok by (apply on_ffi_run; exact Ht). eexists _, _. split; [reflexivity|].
  eexists. split; [exact Hh|]. split; [exact Hm|]. split; [exact Hi'|]. split; [by rewrite <- Hf|]. split; [by rewrite <- Hf|].
  destruct t as [p|]; [|done]. intros _. split; [done|]. exists p. destruct (Hp p eq_refl) as [Hnone Hlive].
  split; [done|]. split; [done|]. by rewrite <- Hf.
Qed.

(** ** What a Java program owes, and what it gets *)

(** References to live objects, keys as ASCII text, a tunnel that was given
    out, and sizes within the arrays and buffers, for a program that has settled
    on a number [buf]: a packet has room in the buffer, and in any buffer of
    [buf] bytes; a buffer for reading has at least [buf] bytes and room for the
    datagram; one for a tick has room for an empty packet. *)
Definition jni_call_fits (buf : nat) (s : jni_state) (c : jni_call) : Prop :=
  match c with
  | JSecretKey => True
  | JPublicKey k | JKeyHex k | JKeyBase64 k => ∃ b, array_is s k b
  | JNew sk pk psk _ _ => strings_given s sk pk psk
  | JWrite t src n dst m op =>
    (∃ b, array_is s src b ∧ 0 ≤ n ≤ Z.of_nat (length b)) ∧ (∃ p pd po, call_buffers s t dst m op p pd po) ∧
    n + Z.of_nat DATA_OVERHEAD_SZ ≤ m ∧ n + Z.of_nat DATA_OVERHEAD_SZ ≤ Z.of_nat buf
  | JRead t src n dst m op =>
    (∃ b, array_is s src b ∧ 0 ≤ n ≤ Z.of_nat (length b)) ∧ (∃ p pd po, call_buffers s t dst m op p pd po) ∧
    n ≤ m ∧ Z.of_nat buf ≤ m
  | JTick t dst m op => (∃ p pd po, call_buffers s t dst m op p pd po) ∧ Z.of_nat DATA_OVERHEAD_SZ ≤ m
  end.

(** The answer for a key: null for an array that is too short. *)
Definition key_answer (s : jni_state) (k r : option nat) (given : bytes → Prop) (s' : jni_state) : Prop :=
  ∃ b, array_is s k b ∧
    if decide (32 ≤ length b)%nat then given (take 32 b) else r = None ∧ jheap_of s'.(j_vm) = jheap_of s.(j_vm).

Definition jni_outcome (buf : nat) (s : jni_state) (c : jni_call) (a : jni_answer) (s' : jni_state) : Prop :=
  match c, a with
  | JSecretKey, JRef r => ∃ key, length key = 32%nat ∧ array_given s r key s'
  | JPublicKey k, JRef r => key_answer s k r (λ key, array_given s r (x25519_public key) s') s'
  | JKeyHex k, JRef r => key_answer s k r (λ key, text_given s r (to_lower_hex key) s') s'
  | JKeyBase64 k, JRef r => key_answer s k r (λ key, text_given s r (base64_encode key) s') s'
  | JNew _ _ psk _ _, JNum n => tunnel_given buf s psk n s'
  | (JWrite t _ _ dst m op | JRead t _ _ dst m op | JTick t dst m op), JNum n =>
    ∃ p pd po, call_buffers s t dst m op p pd po ∧ result_given buf s n p pd po m s'
  | _, _ => False
  end.

Lemma secret_safe buf s : ffi_inv buf s.(j_ffi) →
  ∃ r s', generate_secret_key s = Ret (Ok r, s') ∧ (∃ key, length key = 32%nat ∧ array_given s r key s') ∧ ffi_inv buf s'.(j_ffi).
Proof.
  intros Hi. unfold generate_secret_key, x25519_secret_key.
  assert (Hf : wp (E := ()) (fill_bytes 32) (λ r e, ∃ key, r = Ok key ∧ length key = 32%nat ∧ env_le s.(j_ffi).(ffi_world).(w_env) e)
    s.(j_ffi).(ffi_world).(w_env)) by (apply wp_fill_bytes; eauto).
  apply wp_elim in Hf as (x & e & Hr & key & -> & Hk & He).
  erewrite bind_ok by (apply on_ffi_run, zoom_run; exact Hr).
  destruct (make_array key (with_ffi (with_world (with_w_env e s.(j_ffi).(ffi_world)) s.(j_ffi)) s)) as (r & s' & Hm & Hg & _ & Hf).
  exists r, s'. split; [exact Hm|]. split; [by exists key|]. rewrite Hf. apply (ffi_inv_world buf s.(j_ffi)); [done|by split|by left].
Qed.

Lemma key_call buf s k (m : bytes → JM (option nat)) (given : bytes → option nat → jni_state → Prop) :
  ffi_inv buf s.(j_ffi) → (∃ b, array_is s k b) →
  (∀ key, ∃ r s', m key s = Ret (Ok r, s') ∧ given key r s' ∧ ffi_inv buf s'.(j_ffi)) →
  ∃ r s', (key ← env_call (get_byte_array_region k 0 32); match key with None => mret None | Some key => m key end) s =
      Ret (Ok r, s') ∧ key_answer s k r (λ key, given key r s') s' ∧ ffi_inv buf s'.(j_ffi).
Proof.
  intros Hi [b Hb] Hm. destruct (decide (32 ≤ length b)%nat) as [Hl|Hl].
  - erewrite bind_ok by (by apply key_read). destruct (Hm (take 32 b)) as (r & s' & Hr & Hg & Hi').
    exists r, s'. split; [exact Hr|]. split; [|done]. exists b. by rewrite decide_True.
  - destruct (key_short s k b Hb ltac:(lia)) as (s' & Hr & Hh & _ & Hf). erewrite bind_ok by exact Hr.
    exists None, s'. split; [done|]. split; [|by rewrite Hf]. exists b. by rewrite decide_False.
Qed.

Lemma public_safe buf s k : ffi_inv buf s.(j_ffi) → (∃ b, array_is s k b) →
  ∃ r s', generate_public_key1 k s = Ret (Ok r, s') ∧
    key_answer s k r (λ key, array_given s r (x25519_public key) s') s' ∧ ffi_inv buf s'.(j_ffi).
Proof.
  intros Hi Hk. apply (key_call buf s k _ (λ key r s', array_given s r (x25519_public key) s') Hi Hk). intros key.
  destruct (make_array (x25519_public key) s) as (r & s' & Hr & Hg & _ & Hf). exists r, s'. by rewrite Hf.
Qed.

Lemma text_inv buf s r x s' : ffi_inv buf s.(j_ffi) → text_given s r x s' → ffi_inv buf s'.(j_ffi).
Proof. intros [He Ht] (_ & _ & p & _ & ->). by split. Qed.

Lemma hex_safe buf s k : ffi_inv buf s.(j_ffi) → (∃ b, array_is s k b) →
  ∃ r s', convert_x25519_key_to_hex k s = Ret (Ok r, s') ∧
    key_answer s k r (λ key, text_given s r (to_lower_hex key) s') s' ∧ ffi_inv buf s'.(j_ffi).
Proof.
  intros Hi Hk. apply (key_call buf s k _ (λ key r s', text_given s r (to_lower_hex key) s') Hi Hk). intros key.
  destruct (text_converted x25519_key_to_hex key (to_lower_hex key) s) as (r & s' & Hr & Hg).
  - eapply Forall_impl; [apply hex_plain|]. unfold plain. lia.
  - unfold x25519_key_to_hex. by rewrite encode_hex_lower.
  - exists r, s'. split; [exact Hr|]. split; [exact Hg|by eapply text_inv].
Qed.

Lemma base64_safe buf s k : ffi_inv buf s.(j_ffi) → (∃ b, array_is s k b) →
  ∃ r s', convert_x25519_key_to_base64 k s = Ret (Ok r, s') ∧
    key_answer s k r (λ key, text_given s r (base64_encode key) s') s' ∧ ffi_inv buf s'.(j_ffi).
Proof.
  intros Hi Hk. apply (key_call buf s k _ (λ key r s', text_given s r (base64_encode key) s') Hi Hk). intros key.
  destruct (text_converted x25519_key_to_base64 key (base64_encode key) s (base64_alphabet key) eq_refl) as (r & s' & Hr & Hg).
  exists r, s'. split; [exact Hr|]. split; [exact Hg|by eapply text_inv].
Qed.

Lemma result_inv buf s n p pd po m s' : result_given buf s n p pd po m s' → ffi_inv buf s'.(j_ffi).
Proof. by intros (r & d & _ & _ & _ & _ & _ & Hi). Qed.

Lemma packet_call_safe buf s c : ffi_inv buf s.(j_ffi) → (COOKIE_REPLY_SZ ≤ buf)%nat → jni_call_fits buf s c →
  match c with JWrite _ _ _ _ _ _ | JRead _ _ _ _ _ _ | JTick _ _ _ _ => True | _ => False end →
  ∃ a s', run_jni c s = Ret (Ok a, s') ∧ jni_outcome buf s c a s' ∧ ffi_inv buf s'.(j_ffi).
Proof.
  intros Hi Hbuf Hc Hk.
  destruct c as [|k|k|k|sk pk psk ka i|t src n dst m op|t src n dst m op|t dst m op]; try done; clear Hk; cbn [jni_call_fits run_jni] in *.
  - destruct Hc as ((b & Hb & Hn) & (p & pd & po & Hcb) & Hm & Hmb). pose proof (cb_size _ _ _ _ _ _ _ _ Hcb) as Hsz.
    destruct (result_call buf s t dst m op p pd po (src_slice src n) (take (Z.to_nat n) b) (FWrite p (take (Z.to_nat n) b))
      wireguard_write) as (r & s' & Hr & Hg); [done..| |apply src_slice_run; [done|lia..]|].
    { intros d Hd. cbn. rewrite length_take. lia. }
    exists (JNum r), s'. split; [by apply num_answer|]. split; [by exists p, pd, po|by eapply result_inv].
  - destruct Hc as ((b & Hb & Hn) & (p & pd & po & Hcb) & Hm & Hmb). pose proof (cb_size _ _ _ _ _ _ _ _ Hcb) as Hsz.
    destruct (result_call buf s t dst m op p pd po (src_slice src n) (take (Z.to_nat n) b) (FRead p (take (Z.to_nat n) b))
      wireguard_read) as (r & s' & Hr & Hg); [done..| |apply src_slice_run; [done|lia..]|].
    { intros d Hd. cbn. rewrite length_take. lia. }
    exists (JNum r), s'. split; [by apply num_answer|]. split; [by exists p, pd, po|by eapply result_inv].
  - destruct Hc as ((p & pd & po & Hcb) & Hmb). pose proof (cb_size _ _ _ _ _ _ _ _ Hcb) as Hsz.
    destruct (result_call buf s t dst m op p pd po (mret [] : JM bytes) [] (FTick p) (λ h _ d, wireguard_tick h d))
      as (r & s' & Hr & Hg); [done..|intros d Hd; cbn; lia|done|].
    exists (JNum r), s'. split; [by apply num_answer|]. split; [by exists p, pd, po|by eapply result_inv].
Qed.

Lemma jni_call_safe buf c s :
  ffi_inv buf s.(j_ffi) → (COOKIE_REPLY_SZ ≤ buf)%nat → jni_call_fits buf s c →
  ∃ a s', run_jni c s = Ret (Ok a, s') ∧ jni_outcome buf s c a s' ∧ ffi_inv buf s'.(j_ffi).
Proof.
  intros Hi Hbuf Hc. destruct c as [|k|k|k|sk pk psk ka i| | |]; try (by apply packet_call_safe); cbn [jni_call_fits run_jni jni_outcome] in *.
  - destruct (secret_safe buf s Hi) as (r & s' & Hr & Hg & Hi'). exists (JRef r), s'. split; [by apply ref_answer|done].
  - destruct (public_safe buf s k Hi Hc) as (r & s' & Hr & Hg & Hi'). exists (JRef r), s'. split; [by apply ref_answer|done].
  - destruct (hex_safe buf s k Hi Hc) as (r & s' & Hr & Hg & Hi'). exists (JRef r), s'. split; [by apply ref_answer|done].
  - destruct (base64_safe buf s k Hi Hc) as (r & s' & Hr & Hg & Hi'). exists (JRef r), s'. split; [by apply ref_answer|done].
  - destruct (create_safe buf s sk pk psk ka i Hi Hc) as (n & s' & Hr & Hg). exists (JNum n), s'.
    split; [by apply num_answer|]. split; [exact Hg|]. by destruct Hg as (k & _ & _ & Hi' & _).
Qed.

(** A Java program: before each call it may do what it likes to its heap and to
    the memory of its buffers.  Every call that keeps to its contract is
    answered, and so on. *)
Fixpoint jni_session_safe (buf : nat) (calls : list jni_call) (f : ffi_state) : Prop :=
  match calls with
  | [] => True
  | c :: calls => ∀ vm memory, let s := MkJni _ vm memory f in
    jni_call_fits buf s c →
    ∃ a s', run_jni c s = Ret (Ok a, s') ∧ jni_outcome buf s c a s' ∧ jni_session_safe buf calls s'.(j_ffi)
  end.

Lemma jni_session_inv buf calls f : ffi_inv buf f → (COOKIE_REPLY_SZ ≤ buf)%nat → jni_session_safe buf calls f.
Proof.
  intros Hi Hbuf. revert f Hi. induction calls as [|c calls IH]; intros f Hi; [done|]. intros vm memory s Hc.
  destruct (jni_call_safe buf c s Hi Hbuf Hc) as (a & s' & Hr & Ho & Hi'). exists a, s'. split_and!; auto.
Qed.

(** C40.  The Java bindings are safe for programs that keep to a contract.  The
    program has settled on a number [buf] of at least 64; its references are to
    live objects, its keys are ASCII text, its tunnels were given out; sizes are
    not negative, below [2^31] and not larger than the arrays and buffers; a
    packet that is written is 32 bytes shorter than its buffer and than [buf]; a
    buffer for reading has at least [buf] bytes and room for the datagram; one
    for a tick has at least 32 bytes.  Then in any sequence of calls, started
    with no tunnels, whatever the program does to its own memory in between, no
    call panics or reads or writes outside of a buffer.  A call for a key gives
    an array or a string with it, or null; one for a tunnel gives a live tunnel
    or zero; one for a packet reports the operation in its buffer, puts the
    packet in the front of the other one, if it is another one, and returns its
    size, not truncated.  No other buffer and no other tunnel changes. *)
Theorem jni_calls_safe buf calls w :
  (COOKIE_REPLY_SZ ≤ buf)%nat → steady w.(w_env) → jni_session_safe buf calls (MkFfi ∅ ∅ w).
Proof. intros Hbuf Hw. apply jni_session_inv; [|done]. by split. Qed.
End Calls.

(** ** What is not freed, and what is not checked *)

Section Leaks.
Context `{CryptoLaws, Base64Laws, HexLaws, JNIEnvLaws, BoxesLaws}.

Fixpoint repeat_call (n : nat) (c : jni_call) : M () jni_state () :=
  match n with
  | O => mret ()
  | S n => _ ← run_jni c; repeat_call n c
  end.

(** Each conversion of a key leaves a string behind. *)
Lemma conversions_leak buf n k b s :
  ffi_inv buf s.(j_ffi) → array_is s k b → (32 ≤ length b)%nat →
  ∃ s', repeat_call n (JKeyHex k) s = Ret (Ok (), s') ∧ base.size s'.(j_ffi).(ffi_strings) = (n + base.size s.(j_ffi).(ffi_strings))%nat.
Proof.
  revert s. induction n as [|n IH]; intros s Hi Hb Hl; [by exists s|]. cbn [repeat_call].
  destruct (hex_safe buf s k Hi (ex_intro _ b Hb)) as (r & s1 & Hr & (b' & Hb' & Hg) & Hi1).
  assert (b' = b) as -> by (destruct Hb as (x & -> & Hx), Hb' as (y & [= <-] & Hy); by rewrite Hx in Hy; simplify_eq).
  rewrite decide_True in Hg by done. destruct Hg as (Hs & _ & p & Hp & Hf).
  erewrite bind_ok by (by apply ref_answer). destruct (IH s1 Hi1) as (s2 & Hr2 & Hsz); [|done|].
  - destruct Hb as (x & -> & Hx). exists x. split; [done|]. destruct r as [r|]; [destruct Hs as [-> _]|rewrite Hs]; done.
  - exists s2. split; [exact Hr2|]. rewrite Hsz, Hf. cbn. rewrite map_size_insert_None by done. lia.
Qed.

(** A size is taken as it is given: one that is larger than the buffer, or
    negative, is read and written past its end. *)
Lemma size_not_checked s tunnel dst pd m op po mo size :
  buffer_of s dst pd m → buffer_of s op po mo → Z.of_nat (length m) < wrap 32 size →
  run_periodic_task tunnel dst size op s = Panic.
Proof.
  intros Hd Ho Hs. unfold run_periodic_task. rewrite (with_buffers_run s dst op pd m po mo) by done.
  destruct Hd as (r & _ & _ & Hm). unfold dst_slice, memory_at, mbind, M_bind, gets. rewrite Hm. cbn.
  unfold from_raw_parts. by rewrite (proj2 (Z.leb_gt _ _)) by done.
Qed.

Lemma negative_size n : - 2 ^ 31 ≤ n < 0 → 2 ^ 31 ≤ wrap 32 n.
Proof. intros Hn. unfold wrap. replace n with (n + 2 ^ 32 + (-1) * 2 ^ 32) by lia. rewrite Z.mod_add, Z.mod_small by lia. lia. Qed.
End Leaks.

Section Faults.
Context `{Crypto, Base64, Hex, JNIEnv, Boxes}.

(** No tunnel and no string of the C bindings is gone. *)
Definition nothing_freed (f f' : ffi_state) : Prop :=
  f.(ffi_strings) ⊆ f'.(ffi_strings) ∧ dom f.(ffi_tunnels) ⊆ dom f'.(ffi_tunnels).

#[local] Instance nothing_freed_preorder : PreOrder nothing_freed.
Proof. split; [by split|]. intros f1 f2 f3 [S1 T1] [S2 T2]. split; by etransitivity. Qed.

#[local] Instance kept_preorder : PreOrder (λ s s' : jni_state, nothing_freed s.(j_ffi) s'.(j_ffi)).
Proof. split; [intros s; reflexivity|]. intros s1 s2 s3. apply transitivity. Qed.

Lemma into_raw_keeps x : preserves nothing_freed (into_raw x).
Proof.
  intros f r f'. unfold into_raw. intros [= <- <-]. split; [|done]. cbn. apply insert_subseteq.
  apply not_elem_of_dom, is_fresh.
Qed.

Lemma on_handle_keeps {A} h (m : TM A) : preserves nothing_freed (on_handle h m).
Proof.
  intros f r f'. unfold on_handle. destruct h as [p|]; [|done]. destruct (ffi_tunnels f !! p) as [t|] eqn:Hp; [|done].
  destruct (m _) as [[x [t' w']]|]; [|done]. intros [= <- <-]. split; [done|]. cbn. rewrite dom_insert. set_solver.
Qed.

Lemma world_keeps {A} (m : M () world A) : preserves nothing_freed (zoom ffi_world with_world m).
Proof. apply pres_zoom. by intros f w. Qed.

Lemma box_keeps t : preserves nothing_freed (box_tunnel t).
Proof.
  intros f r f'. unfold box_tunnel. intros [= <- <-]. split; [done|]. cbn. rewrite dom_insert. set_solver.
Qed.

Lemma secret_keeps : preserves nothing_freed x25519_secret_key.
Proof. apply pres_zoom. by intros f w. Qed.

Lemma env_call_keeps {A} (f : jvm → A * jvm) : preserves (λ s s', nothing_freed s.(j_ffi) s'.(j_ffi)) (env_call f).
Proof. intros s r s'. unfold env_call. destruct (f _). by intros [= _ <-]. Qed.

Lemma on_ffi_keeps {A} (m : FM A) : preserves nothing_freed m → preserves (λ s s', nothing_freed s.(j_ffi) s'.(j_ffi)) (on_ffi m).
Proof. intros Hm. by apply (pres_zoom_rel _ nothing_freed). Qed.
Hint Resolve into_raw_keeps on_handle_keeps world_keeps box_keeps secret_keeps env_call_keeps on_ffi_keeps : preserves.

Lemma key_keeps k : preserves nothing_freed (ffi_parse_key k).
Proof.
  assert (Hh : ∀ n i, preserves nothing_freed (parse_hex n i k)).
  { induction n as [|n IH]; intros i; cbn [parse_hex]; unfold str_slice; pres. }
  unfold ffi_parse_key, key_from_str. pres.
Qed.
Hint Resolve key_keeps : preserves.

Lemma new_tunnel_keeps sk pk psk ka i : preserves nothing_freed (new_tunnel sk pk psk ka i).
Proof. unfold new_tunnel. pres. Qed.

Lemma call_keeps h dst m : preserves nothing_freed (call_handle h dst m).
Proof. unfold call_handle. pres. Qed.

Lemma text_keeps x : preserves nothing_freed (c_string ← CString_new x; into_raw c_string).
Proof. unfold CString_new. pres. Qed.
Hint Resolve new_tunnel_keeps call_keeps text_keeps : preserves.

Lemma store_keeps p b : preserves (λ s s', nothing_freed s.(j_ffi) s'.(j_ffi)) (store_at p b).
Proof. unfold store_at, memory_at. pres. apply pres_modify. intros s'. reflexivity. Qed.
Hint Resolve store_keeps : preserves.

(** No call of the Java bindings frees a tunnel, or a text that the C bindings
    gave out. *)
Lemma jni_never_frees c : preserves (λ s s', nothing_freed s.(j_ffi) s'.(j_ffi)) (run_jni c).
Proof.
  destruct c; cbn [run_jni]; unfold generate_secret_key, generate_public_key1, convert_x25519_key_to_hex,
    convert_x25519_key_to_base64, x25519_key_to_hex, x25519_key_to_base64, JNIStr_from_ptr, create_new_tunnel, get_preshared_key,
    encrypt_raw_packet, decrypt_to_raw_packet, run_periodic_task, with_buffers, src_slice, dst_slice, memory_at, from_raw_parts, report,
    wireguard_write, wireguard_read, wireguard_tick; pres.
Qed.
End Faults.

(** ** Witnesses *)

Section JniWitnesses.
#[local] Existing Instance toy_crypto.
#[local] Existing Instance toy_laws.
#[local] Existing Instance standard_base64.
#[local] Existing Instance standard_base64_laws.
#[local] Existing Instance lower_hex.
#[local] Existing Instance lower_hex_laws.

(** A machine that is its heap, and never runs out of it. *)
#[local] Instance heap_vm : JNIEnv := {|
  jvm := jheap;
  jheap_of := id;
  byte_array_from_slice b j := let r := fresh (dom j.(jarrays)) in (Some r, with_arrays (<[r := b]> j.(jarrays)) j);
  get_byte_array_region o start n j :=
    (match o ≫= λ r, j.(jarrays) !! r with
     | Some b => if (start + n <=? length b)%nat then Some (slice start (start + n) b) else None
     | None => None
     end, j);
  convert_byte_array o j := (o ≫= λ r, j.(jarrays) !! r, j);
  new_string x j := let r := fresh (dom j.(jstrings)) in (Some r, with_jstrings (<[r := x]> j.(jstrings)) j);
  get_string_utf_chars o j :=
    match o ≫= λ r, j.(jstrings) !! r with Some x => (Some x, with_pins (S j.(jpins)) j) | None => (None, j) end;
  get_direct_buffer_address o j := (o ≫= λ r, j.(jbuffers) !! r, j);
|}.

#[local] Instance heap_vm_laws : JNIEnvLaws.
Proof.
  split; cbn.
  - intros b j r j' [= <- <-]. split; [apply not_elem_of_dom, is_fresh|done].
  - done.
  - intros r b start n j Hr Hl. unfold id in Hr. rewrite Hr. by rewrite (proj2 (Nat.leb_le _ _)) by done.
  - by intros o start n j j' [= _ <-].
  - intros r b start n j Hr Hl. unfold id in Hr. rewrite Hr. by rewrite (proj2 (Nat.leb_gt _ _)) by done.
  - intros r b j Hr. unfold id in Hr. by rewrite Hr.
  - intros x j r j' [= <- <-]. split; [apply not_elem_of_dom, is_fresh|done].
  - done.
  - intros r x j c j' Hr. unfold id in Hr. rewrite Hr. by intros [= <- <-].
  - intros o j j'. destruct o as [r|]; cbn; [destruct (jstrings j !! r); [done|]|]; by intros [= <-].
  - intros r p j Hr. unfold id in Hr. by rewrite Hr.
  - by intros o j j' [= _ <-].
Qed.

#[local] Instance counted_boxes : Boxes :=
  {| box_addr p := Z.of_nat p + 1; box_at z := if z <=? 0 then None else Some (Z.to_nat (z - 1)) |}.
#[local] Instance counted_boxes_laws : BoxesLaws.
Proof.
  split. intros p [Hp _]. cbn in *. rewrite (proj2 (Z.leb_gt _ _)) by done. f_equal. lia.
Qed.

(** Two keys as text; and a packet in an array with buffers for 148 bytes and
    for one. *)
Definition key_strings : jvm := MkHeap ∅ {[ 0%nat := hex_of k1; 1%nat := hex_of (x25519_public k2) ]} ∅ 0.
Definition packet_heap : jvm := MkHeap {[ 0%nat := ip_packet ]} ∅ {[ 1%nat := 7%nat; 2%nat := 8%nat ]} 0.
Definition packet_memory : gmap nat bytes := {[ 7%nat := zeros 148; 8%nat := zeros 1 ]}.

Definition jni_new : jni_call := JNew (Some 0%nat) (Some 1%nat) None 0 7.
Definition jni_write (t : Z) : jni_call := JWrite t (Some 0%nat) 20 (Some 1%nat) 148 (Some 2%nat).

Lemma new_fits f : jni_call_fits 148 (MkJni _ key_strings ∅ f) jni_new.
Proof.
  split; [|split; [|by left]].
  - exists (hex_of k1). split; [by exists 0%nat|]. apply ascii_bool. vm_compute. reflexivity.
  - exists (hex_of (x25519_public k2)). split; [by exists 1%nat|]. apply ascii_bool. vm_compute. reflexivity.
Qed.

Lemma write_fits t p f : live (MkJni _ key_strings ∅ f) t p → jni_call_fits 148 (MkJni _ packet_heap packet_memory f) (jni_write t).
Proof.
  intros Hl. split; [|split; [exists p, 7%nat, 8%nat; split|split]].
  - exists ip_packet. split; [by exists 0%nat|]. vm_compute. split; discriminate.
  - exact Hl.
  - exists (zeros 148). split; [by exists 1%nat|]. vm_compute. discriminate.
  - exists (zeros 1). split; [by exists 2%nat|]. vm_compute. lia.
  - done.
  - vm_compute. discriminate.
  - vm_compute. discriminate.
Qed.

Lemma one_addressable : addressable 0.
Proof. done. Qed.

Lemma jni_calls_safe_witness :
  ∃ t s1, run_jni jni_new (MkJni _ key_strings ∅ start) = Ret (Ok (JNum t), s1) ∧ t ≠ 0 ∧
    ∃ a s2, run_jni (jni_write t) (MkJni _ packet_heap packet_memory s1.(j_ffi)) = Ret (Ok a, s2) ∧
      jni_outcome 148 (MkJni _ packet_heap packet_memory s1.(j_ffi)) (jni_write t) a s2.
Proof.
  assert (Hok : match run_jni jni_new (MkJni _ key_strings ∅ start) with
    | Ret (Ok (JNum t), s) => (t, elements (dom s.(j_ffi).(ffi_tunnels))) | _ => (0, []) end = (1, [0%nat]))
    by (vm_compute; reflexivity).
  destruct (run_jni jni_new _) as [[[[r|t]|] s1]|] eqn:Hr; try discriminate Hok. injection Hok as -> Hdom.
  pose proof (jni_calls_safe 148 [jni_new; jni_write 1] (world_of (x25519_public k1)) ltac:(vm_compute; lia) test_steady) as Hs.
  destruct (Hs key_strings ∅ (new_fits _)) as (a1 & s1' & Hr1 & Ho & Hrest). fold start in Hr1.
  rewrite Hr in Hr1. injection Hr1 as <- <-. exists 1, s1. split; [reflexivity|]. split; [done|].
  destruct Ho as (k & _ & _ & _ & _ & _ & Hn). destruct (Hn ltac:(done)) as (_ & p & Hp & Hlive & _).
  assert (p = 0%nat) as ->.
  { destruct Hlive as [x Hx%elem_of_dom_2]. apply elem_of_elements in Hx. rewrite Hdom in Hx. by apply list_elem_of_singleton in Hx. }
  destruct (Hrest packet_heap packet_memory (write_fits 1 0 _ (conj Hp (conj one_addressable Hlive)))) as (a & s2 & Hr2 & Ho & _).
  exists a, s2. split; [exact Hr2|exact Ho].
Defined.
End JniWitnesses.
