(* ===== verification/AllowedIps.v ===== *)
(** * The routing table of allowed addresses (device/allowed_ips.rs)

    The trie itself comes from the crates [ip_network] and [ip_network_table]:
    it is the class [NetTable], with its documented behaviour in
    [NetTableLaws].  [AllowedIps] is proved to answer like a linear scan of the
    networks that were inserted. *)

From S2P Require Import Prelude Crypto Packet.
From coqutil Require Import Byte.

(** ** Addresses as numbers *)

Definition ip_bytes (a : IpAddr) : bytes := match a with V4 b | V6 b => b end.
Definition ip_is_v4 (a : IpAddr) : bool := match a with V4 _ => true | V6 _ => false end.
Definition ip_octets (a : IpAddr) : nat := if ip_is_v4 a then 4 else 16.
Definition ip_width (a : IpAddr) : Z := if ip_is_v4 a then 32 else 128.
Definition ip_wf (a : IpAddr) : Prop := length (ip_bytes a) = ip_octets a.
Definition ip_number (a : IpAddr) : Z := from_be_bytes (ip_bytes a).

(** The two addresses agree on the first [m] bits. *)
Definition same_prefix (m : Z) (a b : IpAddr) : bool :=
  Bool.eqb (ip_is_v4 a) (ip_is_v4 b) &&
  (Z.shiftr (ip_number a) (ip_width a - m) =? Z.shiftr (ip_number b) (ip_width a - m)).

(** ** The crates *)

Class NetTable := {
  IpNetwork : Type;
  new_truncate : IpAddr → Z → option IpNetwork;       (* [IpNetwork::new_truncate(..).ok()] *)
  network_address : IpNetwork → IpAddr;
  netmask : IpNetwork → Z;
  table : Type → Type;                                (* [IpNetworkTable] *)
  table_new : ∀ {D}, table D;
  table_insert : ∀ {D}, IpNetwork → D → table D → option D * table D;
  exact_match : ∀ {D}, table D → IpNetwork → option D;
  longest_match : ∀ {D}, table D → IpAddr → option (IpNetwork * D);
  retain : ∀ {D}, (IpNetwork → D → bool) → table D → table D;
  table_iter : ∀ {D}, table D → list (IpNetwork * D);
}.

(** The network contains the address. *)
Definition contains `{NetTable} (n : IpNetwork) (a : IpAddr) : Prop :=
  same_prefix (netmask n) (network_address n) a = true.

Class NetTableLaws `{NetTable} : Prop := {
  new_truncate_some a m : ip_wf a → 0 ≤ m → is_Some (new_truncate a m) ↔ m ≤ ip_width a;
  new_truncate_spec a m n : ip_wf a → 0 ≤ m → new_truncate a m = Some n →
    netmask n = m ∧ same_prefix m (network_address n) a = true;
  network_wf n : ip_wf (network_address n) ∧ 0 ≤ netmask n ≤ ip_width (network_address n);
  network_canonical n :
    ip_number (network_address n) mod 2 ^ (ip_width (network_address n) - netmask n) = 0;
  network_ext n n' : network_address n = network_address n' → netmask n = netmask n' → n = n';
  exact_match_new {D} n : exact_match (D := D) table_new n = None;
  insert_old {D} n (d : D) t : (table_insert n d t).1 = exact_match t n;
  insert_same {D} n (d : D) t : exact_match (table_insert n d t).2 n = Some d;
  insert_other {D} n n' (d : D) t : n ≠ n' → exact_match (table_insert n d t).2 n' = exact_match t n';
  retain_match {D} f (t : table D) n d :
    exact_match (retain f t) n = Some d ↔ exact_match t n = Some d ∧ f n d = true;
  longest_match_some {D} (t : table D) a n d : ip_wf a → longest_match t a = Some (n, d) →
    exact_match t n = Some d ∧ contains n a ∧
    ∀ n' d', exact_match t n' = Some d' → contains n' a → netmask n' ≤ netmask n;
  longest_match_none {D} (t : table D) a n d : ip_wf a → longest_match t a = None →
    exact_match t n = Some d → ¬ contains n a;
  table_iter_spec {D} (t : table D) n d : (n, d) ∈ table_iter t ↔ exact_match t n = Some d;
}.

(** ** [AllowedIps] *)

(** An [AllowedIP] of device/peer.rs. *)
Record AllowedIP := MkAllowedIP {
  ai_addr : IpAddr;
  ai_cidr : Z;
}.

Section Operations.
Context `{NetTable} {D : Type}.

Definition AllowedIps_new : table D := table_new.

Definition ips_clear (self : table D) : table D := table_new.

(** [cidr as u8] keeps the low byte; a mask that is too long panics. *)
Definition ips_insert {E} (key : IpAddr) (cidr : Z) (data : D) : M E (table D) (option D) :=
  n ← unwrap (new_truncate key (wrap 8 cidr));
  self ← get;
  _ ← modify (λ _, (table_insert n data self).2);
  mret (table_insert n data self).1.

Definition find (self : table D) (key : IpAddr) : option D := snd <$> longest_match self key.

Definition remove (predicate : D → bool) (self : table D) : table D :=
  retain (λ _ v, negb (predicate v)) self.

(** [iter]: the queue of entries, which [next] takes from the front. *)
Definition ips_iter (self : table D) : list (D * IpAddr * Z) :=
  (λ '(n, d), (d, network_address n, netmask n)) <$> table_iter self.

Definition iter_next (i : list (D * IpAddr * Z)) : option (D * IpAddr * Z) * list (D * IpAddr * Z) :=
  (head i, tail i).

Definition from_iter {E} (items : list (AllowedIP * D)) : M E (table D) () :=
  _ ← modify (λ _, AllowedIps_new);
  for_each items (λ '(ip, data), _ ← ips_insert ip.(ai_addr) ip.(ai_cidr) data; mret ()).
End Operations.

(** ** The reference: a scan of the insertions, the last of the longest wins *)

Definition covers (ip : AllowedIP) (a : IpAddr) : bool := same_prefix ip.(ai_cidr) ip.(ai_addr) a.

Definition better {D} (a : IpAddr) (acc : option (Z * D)) (e : AllowedIP * D) : option (Z * D) :=
  if covers e.1 a && match acc with Some (c, _) => c <=? e.1.(ai_cidr) | None => true end
  then Some (e.1.(ai_cidr), e.2) else acc.

Definition scan {D} (a : IpAddr) (l : list (AllowedIP * D)) : option D := snd <$> foldl (better a) None l.

(** What [AllowedIP::from_str] guarantees. *)
Definition allowed_wf (ip : AllowedIP) : Prop :=
  ip_wf ip.(ai_addr) ∧ 0 ≤ ip.(ai_cidr) ≤ ip_width ip.(ai_addr).

Lemma ip_number_range a : ip_wf a → 0 ≤ ip_number a < 2 ^ ip_width a.
Proof. intros Ha. pose proof (from_be_bytes_width _ _ Ha) as Hw. by destruct a. Qed.

Lemma ip_width_wf a : 0 ≤ ip_width a ≤ 128.
Proof. unfold ip_width. destruct (ip_is_v4 a); lia. Qed.

Lemma same_prefix_spec m a b :
  same_prefix m a b = true ↔ ip_is_v4 a = ip_is_v4 b ∧
    Z.shiftr (ip_number a) (ip_width a - m) = Z.shiftr (ip_number b) (ip_width a - m).
Proof. unfold same_prefix. by rewrite andb_true_iff, Bool.eqb_true_iff, Z.eqb_eq. Qed.

Lemma same_prefix_trans m a b c :
  same_prefix m a b = true → same_prefix m b c = same_prefix m a c.
Proof.
  rewrite same_prefix_spec. intros [Hv Hn]. unfold same_prefix. rewrite <- Hv.
  assert (ip_width b = ip_width a) as -> by (unfold ip_width; by rewrite Hv). by rewrite Hn.
Qed.

Lemma ip_number_inj a b : ip_wf a → ip_wf b → ip_is_v4 a = ip_is_v4 b → ip_number a = ip_number b → a = b.
Proof.
  unfold ip_wf, ip_number. intros Ha Hb Hv Hn.
  assert (ip_bytes a = ip_bytes b).
  { rewrite <- (to_from_be_bytes _ _ Ha), Hn. apply to_from_be_bytes. rewrite Hb. unfold ip_octets. by rewrite Hv. }
  destruct a, b; cbn in *; congruence.
Qed.

Section Refinement.
Context `{NetTableLaws} {D : Type}.
Implicit Types t : table D.

(** Networks of one length that contain an address are the same. *)
Lemma same_network n n' a : contains n a → contains n' a → netmask n = netmask n' → n = n'.
Proof.
  unfold contains. intros [Hv Hs]%same_prefix_spec [Hv' Hs']%same_prefix_spec Hm.
  destruct (network_wf n) as [Hwf Hr], (network_wf n') as [Hwf' Hr'].
  assert (Hw : ip_width (network_address n') = ip_width (network_address n)).
  { unfold ip_width. by rewrite Hv, Hv'. }
  apply network_ext; [|done]. apply ip_number_inj; [done|done|congruence|].
  pose proof (network_canonical n) as Hc. pose proof (network_canonical n') as Hc'. rewrite Hw, <- Hm in *.
  rewrite <- Hs' in Hs. rewrite !Z.shiftr_div_pow2 in Hs by lia.
  set (p := 2 ^ _) in *. assert (0 < p) by (apply Z.pow_pos_nonneg; lia).
  rewrite (Z.div_mod (ip_number (network_address n)) p), (Z.div_mod (ip_number (network_address n')) p) by lia.
  by rewrite Hc, Hc', Hs.
Qed.

Lemma longest_unique t a n d :
  ip_wf a → exact_match t n = Some d → contains n a →
  (∀ n' d', exact_match t n' = Some d' → contains n' a → netmask n' ≤ netmask n) →
  longest_match t a = Some (n, d).
Proof.
  intros Ha He Hc Hmax. destruct (longest_match t a) as [[n2 d2]|] eqn:Hl.
  - apply longest_match_some in Hl as (He2 & Hc2 & Hmax2); [|done].
    assert (n2 = n) as ->; [|by rewrite He in He2; injection He2 as ->].
    eapply same_network; [done..|]. apply Z.le_antisymm; eauto.
  - by eapply longest_match_none in Hl.
Qed.

Lemma network_dec (n n' : IpNetwork) : n = n' ∨ n ≠ n'.
Proof.
  destruct (decide (network_address n = network_address n')); [|right; congruence].
  destruct (decide (netmask n = netmask n')); [left; by apply network_ext|right; congruence].
Qed.

Lemma insert_entries n0 d0 t n d :
  exact_match (table_insert n0 d0 t).2 n = Some d →
  (n = n0 ∧ d = d0) ∨ (n ≠ n0 ∧ exact_match t n = Some d).
Proof.
  intros He. destruct (network_dec n0 n) as [<-|Hne].
  - rewrite insert_same in He. injection He as ->. by left.
  - rewrite insert_other in He by done. right. split; [congruence|done].
Qed.

(** What a table with one more network answers. *)
Lemma insert_longest t a n0 d0 :
  ip_wf a →
  longest_match (table_insert n0 d0 t).2 a =
    if same_prefix (netmask n0) (network_address n0) a &&
       match longest_match t a with Some (n, _) => netmask n <=? netmask n0 | None => true end
    then Some (n0, d0) else longest_match t a.
Proof.
  intros Ha. destruct (same_prefix _ _ _ && _) eqn:Hb.
  - apply andb_prop in Hb as [Hc Hm]. apply longest_unique; [done|apply insert_same|done|].
    intros n d [[-> _]|[_ He]]%insert_entries Hn; [done|]. destruct (longest_match t a) as [[n1 d1]|] eqn:Hl.
    + apply longest_match_some in Hl as (_ & _ & Hmax); [|done]. apply Z.leb_le in Hm. specialize (Hmax n d He Hn). lia.
    + by eapply longest_match_none in Hl.
  - destruct (longest_match t a) as [[n1 d1]|] eqn:Hl.
    + pose proof (longest_match_some t a n1 d1 Ha Hl) as (He & Hc & Hmax).
      assert (Hlt : contains n0 a → netmask n0 < netmask n1).
      { intros Hc0. unfold contains in Hc0. rewrite Hc0 in Hb. by apply Z.leb_gt in Hb. }
      assert (n0 ≠ n1) by (intros ->; specialize (Hlt Hc); lia).
      apply longest_unique; [done|by rewrite insert_other|done|].
      intros n d [[-> _]|[_ He']]%insert_entries Hn; [specialize (Hlt Hn); lia|eauto].
    + rewrite andb_true_r in Hb. destruct (longest_match (table_insert n0 d0 t).2 a) as [[n2 d2]|] eqn:Hl2; [|done].
      apply longest_match_some in Hl2 as (He & Hc & _); [|done].
      apply insert_entries in He as [[-> ->]|[_ He]]; [unfold contains in Hc; congruence|].
      by eapply longest_match_none in Hl.
Qed.

(** The table answers like the scan of the insertions. *)
Definition represents t (l : list (AllowedIP * D)) : Prop := ∀ a, ip_wf a →
  (λ '(n, d), (netmask n, d)) <$> longest_match t a = foldl (better a) None l.

Lemma represents_new : represents AllowedIps_new [].
Proof.
  intros a Ha. cbn. destruct (longest_match _ a) as [[n d]|] eqn:Hl; [|done].
  apply longest_match_some in Hl as (He & _); [|done]. by rewrite exact_match_new in He.
Qed.

Lemma insert_represents {E} t l ip d :
  represents t l → allowed_wf ip →
  ∃ o t', @ips_insert _ D E ip.(ai_addr) ip.(ai_cidr) d t = Ret (Ok o, t') ∧ represents t' (l ++ [(ip, d)]).
Proof.
  intros Hr [Hwf Hcidr]. pose proof (ip_width_wf (ai_addr ip)).
  destruct (proj2 (new_truncate_some (ai_addr ip) (ai_cidr ip) Hwf ltac:(lia)) ltac:(lia)) as [n Hn].
  pose proof (new_truncate_spec (ai_addr ip) (ai_cidr ip) n Hwf (proj1 Hcidr) Hn) as [Hm Hp].
  exists (table_insert n d t).1, (table_insert n d t).2. split.
  - unfold ips_insert. rewrite wrap_small by (unfold in_width; lia). rewrite Hn. by do 3 (erewrite bind_ok by reflexivity).
  - intros a Ha. rewrite foldl_app. cbn [foldl]. rewrite <- Hr by done. rewrite insert_longest by done.
    unfold better, covers. cbn [fst snd]. rewrite Hm. rewrite (same_prefix_trans _ _ _ _ Hp).
    destruct (longest_match t a) as [[n1 d1]|]; cbn; case_match; cbn; by rewrite ?Hm.
Qed.

Lemma insert_all_represents {E} t l items :
  represents t l → Forall (λ e, allowed_wf e.1) items →
  ∃ t', for_each items (λ '(ip, data), _ ← @ips_insert _ D E ip.(ai_addr) ip.(ai_cidr) data; mret ()) t = Ret (Ok (), t')
    ∧ represents t' (l ++ items).
Proof.
  revert t l. induction items as [|[ip d] items IH]; intros t l Hr Hall.
  - exists t. by rewrite app_nil_r.
  - apply Forall_cons in Hall as [Hip Hall]. destruct (@insert_represents E t l ip d Hr Hip) as (o & t1 & Hi & Hr1).
    destruct (IH t1 _ Hr1 Hall) as (t2 & Hrun & Hr2). exists t2. rewrite <- app_assoc in Hr2. split; [|done].
    cbn [for_each]. erewrite bind_ok by (erewrite bind_ok by exact Hi; reflexivity). exact Hrun.
Qed.

Lemma find_scan t l a : represents t l → ip_wf a → find t a = scan a l.
Proof.
  intros Hr Ha. unfold find, scan. rewrite <- Hr by done. by destruct (longest_match t a) as [[n d]|].
Qed.

(** C22.  The routing table is the one its insertions describe: collecting a
    list of well-formed networks never panics, and [find] answers as a scan of
    the list does that prefers the longest network containing the address, and
    the last one among equals. *)
Theorem allowed_ips_refine {E} (items : list (AllowedIP * D)) t0 :
  Forall (λ e, allowed_wf e.1) items →
  ∃ t, @from_iter _ D E items t0 = Ret (Ok (), t) ∧ ∀ a, ip_wf a → find t a = scan a items.
Proof.
  intros Hall. destruct (@insert_all_represents E _ [] items represents_new Hall) as (t & Hrun & Hr).
  exists t. split; [|intros a Ha; by apply find_scan]. unfold from_iter. by erewrite bind_ok by reflexivity.
Qed.

(** [remove] takes away what the predicate holds of, and nothing else. *)
Lemma find_remove t p a d : ip_wf a → find (remove p t) a = Some d → p d = false.
Proof.
  intros Ha. unfold find, remove. intros ([n d'] & Hl & ->)%fmap_Some. cbn.
  apply longest_match_some in Hl as (He & _); [|done]. apply retain_match in He as [_ He].
  by apply negb_true_iff.
Qed.

Lemma find_kept t p a d : ip_wf a → find t a = Some d → p d = false → find (remove p t) a = Some d.
Proof.
  intros Ha. unfold find, remove. intros ([n d'] & Hl & ->)%fmap_Some Hp. cbn in Hp.
  apply longest_match_some in Hl as (He & Hc & Hmax); [|done].
  erewrite longest_unique; [done|done| |done|].
  - apply retain_match. by rewrite Hp.
  - intros n' d2 [He2 _]%retain_match Hc2. eauto.
Qed.
End Refinement.

(** ** A concrete table, for evaluation *)

Section ListTable.

#[local] Program Instance ip_countable : Countable IpAddr :=
  inj_countable' (λ a, (ip_is_v4 a, ip_bytes a)) (λ p, if p.1 then V4 p.2 else V6 p.2) _.
Next Obligation. by intros []. Qed.

Definition net_ok (p : IpAddr * Z) : bool :=
  bool_decide (ip_wf p.1) && (0 <=? p.2) && (p.2 <=? ip_width p.1) &&
  (ip_number p.1 mod 2 ^ (ip_width p.1 - p.2) =? 0).

Definition network : Type := { p : IpAddr * Z | net_ok p = true }.

Definition with_number (a : IpAddr) (z : Z) : IpAddr :=
  if ip_is_v4 a then V4 (to_be_bytes 4 z) else V6 (to_be_bytes 16 z).

Definition truncated (a : IpAddr) (m : Z) : IpAddr :=
  with_number a (ip_number a / 2 ^ (ip_width a - m) * 2 ^ (ip_width a - m)).

Definition make_network (p : IpAddr * Z) : option network :=
  match Bool.bool_dec (net_ok p) true with
  | left H => Some (exist _ p H)
  | right _ => None
  end.

Definition longest {D} (a : IpAddr) (l : list (network * D)) : option (network * D) :=
  foldr (λ e acc,
    if same_prefix (`e.1).2 (`e.1).1 a && match acc with Some b => (`b.1).2 <=? (`e.1).2 | None => true end
    then Some e else acc) None l.

Definition map_table : NetTable := {|
  IpNetwork := network;
  new_truncate a m := make_network (truncated a m, m);
  network_address n := (`n).1;
  netmask n := (`n).2;
  table D := gmap network D;
  table_new D := ∅;
  table_insert D n d t := (t !! n, <[n := d]> t);
  exact_match D t n := t !! n;
  longest_match D t a := longest a (map_to_list t);
  retain D f t := filter (λ e, f e.1 e.2 = true) t;
  table_iter D t := map_to_list t;
|}.

Lemma longest_none {D} a (l : list (network * D)) n d :
  longest a l = None → (n, d) ∈ l → same_prefix (`n).2 (`n).1 a = false.
Proof.
  induction l as [|[n0 d0] l IH]; [by intros _ ?%elem_of_nil|]. cbn [longest foldr fst]. fold (longest a l).
  destruct (same_prefix (`n0).2 (`n0).1 a) eqn:Hp; cbn [andb].
  - destruct (longest a l) as [b|]; [destruct (_ <=? _)|]; by intros.
  - intros Hl [[= -> ->]|Hin]%elem_of_cons; [done|by apply IH].
Qed.

Lemma longest_some {D} a (l : list (network * D)) n d :
  longest a l = Some (n, d) →
  (n, d) ∈ l ∧ same_prefix (`n).2 (`n).1 a = true ∧
  ∀ n' d', (n', d') ∈ l → same_prefix (`n').2 (`n').1 a = true → (`n').2 ≤ (`n).2.
Proof.
  revert n d. induction l as [|[n0 d0] l IH]; intros n d; [done|]. cbn [longest foldr fst]. fold (longest a l).
  destruct (same_prefix (`n0).2 (`n0).1 a) eqn:Hp; cbn [andb]; [destruct (longest a l) as [[n1 d1]|] eqn:Hl; [case_match eqn:Hm|]|].
  - intros [= <- <-]. apply Z.leb_le in Hm. destruct (IH n1 d1 eq_refl) as (_ & _ & Hmax). split; [left|]. split; [done|].
    intros n' d' [[= -> ->]|Hin]%elem_of_cons Hc; [done|]. specialize (Hmax n' d' Hin Hc). cbn in Hm. lia.
  - intros [= <- <-]. apply Z.leb_gt in Hm. destruct (IH n1 d1 eq_refl) as (Hin & Hc & Hmax).
    split; [by right|]. split; [done|]. intros n' d' [[= -> ->]|Hin']%elem_of_cons Hc'; [cbn in Hm; lia|eauto].
  - intros [= <- <-]. split; [left|]. split; [done|].
    intros n' d' [[= -> ->]|Hin]%elem_of_cons Hc; [done|].
    by rewrite (longest_none _ _ _ _ Hl Hin) in Hc.
  - intros Hl. destruct (IH n d Hl) as (Hin & Hc & Hmax). split; [by right|]. split; [done|].
    intros n' d' [[= -> ->]|Hin']%elem_of_cons Hc'; [congruence|eauto].
Qed.

Lemma with_number_spec a z :
  0 ≤ z < 2 ^ ip_width a →
  ip_is_v4 (with_number a z) = ip_is_v4 a ∧ ip_wf (with_number a z) ∧ ip_number (with_number a z) = z.
Proof.
  intros Hz. unfold with_number. destruct a as [b|b]; cbn [ip_is_v4] in *; (split; [done|]; split;
    [apply length_to_be_bytes|apply from_to_be_bytes; exact Hz]).
Qed.

Lemma truncated_spec a m :
  ip_wf a → 0 ≤ m ≤ ip_width a →
  net_ok (truncated a m, m) = true ∧ same_prefix m (truncated a m) a = true.
Proof.
  intros Ha Hm. pose proof (ip_number_range a Ha) as Hr. set (p := 2 ^ (ip_width a - m)).
  assert (Hp : 0 < p) by (apply Z.pow_pos_nonneg; lia).
  pose proof (Z.div_mod (ip_number a) p ltac:(lia)). pose proof (Z.mod_pos_bound (ip_number a) p Hp).
  assert (0 ≤ ip_number a / p) by (apply Z.div_pos; lia).
  destruct (with_number_spec a (ip_number a / p * p)) as (Hv & Hw & Hn); [nia|].
  unfold truncated. fold p. set (t := with_number _ _) in *.
  assert (Ht : ip_width t = ip_width a) by (unfold ip_width; by rewrite Hv).
  split.
  - unfold net_ok. cbn [fst snd]. rewrite Ht, Hn, bool_decide_eq_true_2 by done.
    rewrite !(proj2 (Z.leb_le _ _)) by lia. cbn [andb]. fold p. by rewrite Z.mod_mul by lia.
  - apply same_prefix_spec. split; [done|]. rewrite Ht, Hn, !Z.shiftr_div_pow2 by lia. fold p.
    apply Z.div_mul. lia.
Qed.

Lemma map_table_laws : @NetTableLaws map_table.
Proof.
  assert (Hok : ∀ n : network, ip_wf (`n).1 ∧ 0 ≤ (`n).2 ≤ ip_width (`n).1 ∧
    ip_number (`n).1 mod 2 ^ (ip_width (`n).1 - (`n).2) = 0).
  { intros [[a m] Hn]. cbn. unfold net_ok in Hn. cbn in Hn.
    rewrite !andb_true_iff, bool_decide_eq_true, !Z.leb_le, Z.eqb_eq in Hn. tauto. }
  split; cbn.
  - intros a m Ha Hm. unfold make_network. split.
    + intros [n Hn]. destruct (Bool.bool_dec _ _) as [Hb|]; [|done]. clear n Hn.
      unfold net_ok in Hb. cbn in Hb. rewrite !andb_true_iff, !Z.leb_le in Hb.
      destruct Hb as [[_ Hb] _]. unfold truncated, with_number, ip_width in *. by destruct (ip_is_v4 a).
    + intros Hle. destruct (truncated_spec a m Ha ltac:(lia)) as [Hn _].
      destruct (Bool.bool_dec _ _); [done|congruence].
  - intros a m n Ha Hm. unfold make_network. destruct (Bool.bool_dec _ _) as [Hb|]; [|done]. intros [= <-]. cbn.
    split; [done|]. apply truncated_spec; [done|]. unfold net_ok in Hb. cbn in Hb.
    rewrite !andb_true_iff, !Z.leb_le in Hb. destruct Hb as [[_ Hb] _].
    unfold truncated, with_number, ip_width in *. destruct (ip_is_v4 a); cbn in Hb; lia.
  - intros n. destruct (Hok n) as (? & ? & _). done.
  - intros n. by destruct (Hok n) as (_ & _ & ?).
  - intros [[a m] Hn] [[a' m'] Hn'] Ha Hm. cbn in *. subst. f_equal. apply proof_irrel.
  - intros D n. apply lookup_empty.
  - done.
  - intros. apply lookup_insert_eq.
  - intros. by apply lookup_insert_ne.
  - intros D f t n d. rewrite map_lookup_filter_Some. done.
  - intros D t a n d _ Hl. apply longest_some in Hl as (Hin & Hc & Hmax). rewrite elem_of_map_to_list in Hin.
    split; [done|]. split; [done|]. intros n' d' He. apply (Hmax n' d'). by apply elem_of_map_to_list.
  - intros D t a n d _ Hl He. unfold contains. cbn. rewrite (longest_none _ _ n d Hl); [done|].
    by apply elem_of_map_to_list.
  - intros D t n d. apply elem_of_map_to_list.
Qed.
End ListTable.

Section TableWitnesses.
#[local] Existing Instance map_table.
#[local] Existing Instance map_table_laws.

Definition v4 (a b c d : Z) : IpAddr := V4 (byte.of_Z <$> [a; b; c; d]).

(** The networks of the unit tests of device/allowed_ips.rs. *)
Definition test_networks : list (AllowedIP * Z) :=
  [ (MkAllowedIP (v4 127 0 0 1) 32, 1); (MkAllowedIP (v4 45 25 15 1) 30, 6);
    (MkAllowedIP (v4 127 0 15 1) 16, 2); (MkAllowedIP (v4 127 1 15 1) 24, 3) ].

Lemma test_networks_wf : Forall (λ e : AllowedIP * Z, allowed_wf e.1) test_networks.
Proof. repeat (apply Forall_cons_2; [by split|]). apply Forall_nil_2. Qed.

Lemma allowed_ips_refine_witness :
  ∃ t, @from_iter _ Z () test_networks ∅ = Ret (Ok (), t) ∧
    find t (v4 127 0 0 1) = Some 1 ∧ find t (v4 127 0 255 255) = Some 2 ∧ find t (v4 127 1 255 255) = None.
Proof.
  destruct (@allowed_ips_refine _ _ Z () test_networks ∅ test_networks_wf) as (t & Hrun & Hf).
  exists t. rewrite !Hf by done. split; [done|]. by vm_compute.
Defined.
End TableWitnesses.
