(* ===== verification/Peer.v ===== *)
(** * Peers of a device (device/peer.rs)

    A peer is a tunnel with its index, its endpoint and the networks it may
    send from.  The system calls on sockets are recorded in a log; what they
    answer is a stream given with the operating system. *)

From Stdlib Require Import Strings.String.
From S2P Require Import Prelude Crypto Packet Handshake RateLimiter Tunn Tunnel Text AllowedIps.
From coqutil Require Import Byte.

(** ** The operating system *)

(** [io::ErrorKind], as far as the code looks at it. *)
Inductive io_kind : Type := Interrupted | WouldBlock | OtherKind.

(** [Error] of device/mod.rs, without the texts. *)
Inductive Error : Type :=
| IoError
| SocketError
| Bind
| FCntl
| EventQueue
| IOCtl
| Connect
| SetSockOpt
| InvalidTunnelName
| GetSockOpt
| GetSockName
| Timer
| IfaceRead (kind : io_kind)
| DropPrivileges
| ApiSocket.

(** The domain and type of a socket. *)
Inductive sock_type : Type := STREAM | DGRAM.

(** Calls that leave the program; a socket is a descriptor.  [RegisterConn]
    and the like are the registrations with the event queue. *)
Inductive syscall : Type :=
| SockNew (v4 : bool) (ty : sock_type)
| SetReuseAddress (fd : Z)
| BindTo (fd : Z) (v4 : bool) (port : Z)
| ConnectTo (fd : Z) (addr : SocketAddr)
| SetNonblocking (fd : Z)
| SetMark (fd mark : Z)
| TryClone (fd : Z)
| LocalPort (fd : Z)
| ShutdownBoth (fd : Z)
| SendTo (fd : Z) (packet : bytes) (addr : SocketAddr)
| SendConn (fd : Z) (packet : bytes)
| Write4 (packet : bytes)
| Write6 (packet : bytes)
| RegisterUdp (fd : Z)
| RegisterConn (peer : nat) (fd : Z) (addr : IpAddr)
| Unregister (fd : Z)
| TriggerExit.

(** [os_answer n c] is the answer to the [n]-th call, which is [c]: an error,
    or a value (the new descriptor, the port). *)
Record os := MkOs {
  os_log : list syscall;
  os_answer : nat → syscall → option Z;
}.

Definition sys (c : syscall) : M Error os Z := λ o,
  let o' := MkOs (o.(os_log) ++ [c]) o.(os_answer) in
  match o.(os_answer) (length o.(os_log)) c with
  | Some v => Ret (Ok v, o')
  | None => Ret (Err IoError, o')
  end.

(** A call whose error is unwrapped. *)
Definition sys_unwrap (c : syscall) : M Error os Z := λ o,
  match sys c o with
  | Ret (Err _, _) => Panic
  | r => r
  end.

(** A call whose answer is ignored. *)
Definition sys_ (c : syscall) : M Error os () :=
  _ ← try_ (sys c); mret ().

(** ** Endpoints and peers *)

Record Endpoint := MkEndpoint {
  ep_addr : option SocketAddr;
  ep_conn : option Z;
}.

Section Peers.
Context `{Crypto, NetTable}.

Record Peer := MkPeer {
  tunnel : Tunn;
  p_index : Z;
  p_endpoint : Endpoint;
  p_allowed_ips : table ();
  p_preshared_key : option bytes;
}.

Definition with_tunnel (t : Tunn) (p : Peer) : Peer :=
  MkPeer t p.(p_index) p.(p_endpoint) p.(p_allowed_ips) p.(p_preshared_key).
Definition with_endpoint (e : Endpoint) (p : Peer) : Peer :=
  MkPeer p.(tunnel) p.(p_index) e p.(p_allowed_ips) p.(p_preshared_key).

(** [AllowedIP::from_str] *)
Definition parse_allowed_ip (s : bytes) : option AllowedIP :=
  match split_on (byte.of_Z 47) s with
  | [a; c] =>
    match parse_ip a, parse_uint 8 c with
    | Some (V4 b), Some cidr => if cidr <=? 32 then Some (MkAllowedIP (V4 b) cidr) else None
    | Some (V6 b), Some cidr => if cidr <=? 128 then Some (MkAllowedIP (V6 b) cidr) else None
    | _, _ => None
    end
  | _ => None
  end.

Definition Peer_new {E S} (tunn : Tunn) (index : Z) (endpoint : option SocketAddr)
    (allowed_ips : list AllowedIP) (preshared_key : option bytes) : M E S Peer :=
  '(_, ips) ← on_local AllowedIps_new (from_iter ((λ ip, (ip, ())) <$> allowed_ips));
  mret {|
    tunnel := tunn;
    p_index := index;
    p_endpoint := MkEndpoint endpoint None;
    p_allowed_ips := ips;
    p_preshared_key := preshared_key;
  |}.

(** Methods that touch the endpoint and its socket. *)
Abbreviation PM := (M Error (Peer * os)).

Definition p_gets {A} (f : Peer → A) : PM A := gets (λ s, f s.1).
Definition p_modify (f : Peer → Peer) : PM () := modify (λ s, (f s.1, s.2)).
Definition p_os {A} (m : M Error os A) : PM A := zoom snd (λ o s, (s.1, o)) m.

Definition shutdown_endpoint : PM () :=
  e ← p_gets p_endpoint;
  match e.(ep_conn) with
  | Some conn =>
    _ ← p_modify (with_endpoint (MkEndpoint e.(ep_addr) None));
    _ ← p_os (sys_unwrap (ShutdownBoth conn));
    mret ()
  | None => mret ()
  end.

Definition set_endpoint (addr : SocketAddr) : PM bool :=
  e ← p_gets p_endpoint;
  if decide (e.(ep_addr) ≠ Some addr) then
    _ ← (match e.(ep_conn) with
         | Some conn =>
           _ ← p_modify (with_endpoint (MkEndpoint e.(ep_addr) None));
           _ ← p_os (sys_unwrap (ShutdownBoth conn));
           mret ()
         | None => mret ()
         end);
    _ ← p_modify (with_endpoint (MkEndpoint (Some addr) None));
    mret true
  else mret false.

Definition sock_is_ipv4 (a : SocketAddr) : bool := match a with SockV4 _ _ => true | SockV6 _ _ _ => false end.

Definition connect_endpoint (port : Z) (fwmark : option Z) : PM Z :=
  e ← p_gets p_endpoint;
  match e.(ep_conn) with
  | Some _ => throw Connect
  | None =>
    addr ← unwrap e.(ep_addr);
    udp_conn ← p_os (sys (SockNew (sock_is_ipv4 addr) STREAM));
    _ ← p_os (sys (SetReuseAddress udp_conn));
    _ ← p_os (sys (BindTo udp_conn (sock_is_ipv4 addr) port));
    _ ← p_os (sys (ConnectTo udp_conn addr));
    _ ← p_os (sys (SetNonblocking udp_conn));
    _ ← (match fwmark with
         | Some mark => _ ← p_os (sys (SetMark udp_conn mark)); mret ()
         | None => mret ()
         end);
    clone ← p_os (sys_unwrap (TryClone udp_conn));
    _ ← p_modify (with_endpoint (MkEndpoint e.(ep_addr) (Some clone)));
    mret udp_conn
  end.

Definition is_allowed_ip (addr : IpAddr) (p : Peer) : bool :=
  bool_decide (is_Some (find p.(p_allowed_ips) addr)).

Definition allowed_ips (p : Peer) : list (IpAddr * Z) :=
  (λ '(_, ip, cidr), (ip, cidr)) <$> ips_iter p.(p_allowed_ips).
End Peers.

(** ** What a peer may send *)

Section Allowed.
Context `{NetTableLaws}.

(** Networks as the configuration gives them are well formed. *)
Lemma parse_allowed_wf s ip : parse_allowed_ip s = Some ip → allowed_wf ip.
Proof.
  unfold parse_allowed_ip. destruct (split_on _ s) as [|a [|c []]]; try done.
  destruct (parse_ip a) as [addr|] eqn:Ha; [|done]. apply parse_ip_length in Ha.
  destruct (parse_uint 8 c) as [cidr|] eqn:Hc; [|by destruct addr].
  apply from_str_radix_range in Hc; [|lia..].
  destruct addr as [b|b]; [destruct (Z.leb_spec cidr 32)|destruct (Z.leb_spec cidr 128)]; try done;
    intros [= <-]; (split; [exact Ha|cbn; lia]).
Qed.

Lemma better_some {D} a (l : list (AllowedIP * D)) acc :
  is_Some acc → is_Some (foldl (better a) acc l).
Proof.
  revert acc. induction l as [|e l IH]; intros acc Hacc; [done|]. cbn. apply IH. unfold better.
  case_match; [eauto|done].
Qed.

Lemma scan_some {D} a (l : list (AllowedIP * D)) :
  is_Some (scan a l) ↔ existsb (λ e, covers e.1 a) l = true.
Proof.
  unfold scan. rewrite fmap_is_Some. induction l as [|e l IH]; [split; [by intros []|done]|].
  cbn [foldl existsb]. unfold better at 2. rewrite andb_true_r. destruct (covers e.1 a); [|done].
  split; [done|]. intros _. apply better_some. eauto.
Qed.

(** A peer may send exactly from the addresses its configuration lists:
    whatever texts are accepted as allowed networks, making the peer does not
    panic, and [is_allowed_ip] holds of an address if and only if one of the
    networks covers it. *)
Lemma peer_allows_listed tunn index endpoint psk texts ips :
  parse_allowed_ip <$> texts = Some <$> ips →
  ∃ p, @Peer_new _ () () tunn index endpoint ips psk () = Ret (Ok p, ()) ∧
    ∀ a, ip_wf a → is_allowed_ip a p = existsb (λ ip, covers ip a) ips.
Proof.
  intros Hparse.
  assert (Hwf : Forall (λ e : AllowedIP * (), allowed_wf e.1) ((λ ip, (ip, ())) <$> ips)).
  { apply Forall_fmap. revert texts Hparse. induction ips as [|ip ips IH]; intros [|s texts] Hp; try done.
    injection Hp as Hip Hp. constructor; [by eapply parse_allowed_wf|by eapply IH]. }
  destruct (@insert_all_represents _ _ () () AllowedIps_new [] _ represents_new Hwf) as (t & Hrun & Hr).
  eexists. split.
  - unfold Peer_new. rewrite (bind_ok _ _ _ ((), t) ()); [reflexivity|]. unfold on_local, from_iter.
    erewrite bind_ok by reflexivity. by rewrite Hrun.
  - intros a Ha. unfold is_allowed_ip. cbn [p_allowed_ips]. rewrite (find_scan _ _ _ Hr Ha), app_nil_l.
    apply Bool.eq_iff_eq_true. rewrite bool_decide_eq_true, scan_some. clear. induction ips; cbn; [done|].
    rewrite !orb_true_iff. tauto.
Qed.
End Allowed.

Section PeerWitnesses.
#[local] Existing Instance map_table.
#[local] Existing Instance map_table_laws.

End PeerWitnesses.
