(* ===== verification/Privileges.v ===== *)
(** * Dropping the privileges (device/drop_privileges.rs)

    The user and the group of a process are the three ids of each that
    credentials(7) describes, with the supplementary groups; [setuid] and
    [setgid] are those of setuid(2) and setgid(2), where an effective user of
    zero is the privilege to set any. *)

From S2P Require Import Prelude Crypto Packet Handshake RateLimiter Tunn Text AllowedIps Peer.

Record cred := MkCred {
  real_uid : Z; effective_uid : Z; saved_set_uid : Z;
  real_gid : Z; effective_gid : Z; saved_set_gid : Z;
  groups : list Z;
}.

(** The calls answer whether they succeed ([-1] if not). *)
Abbreviation CM := (M Error cred).

Definition setuid (uid : Z) : CM bool := λ c,
  if c.(effective_uid) =? 0 then
    Ret (Ok true, MkCred uid uid uid c.(real_gid) c.(effective_gid) c.(saved_set_gid) c.(groups))
  else if (uid =? c.(real_uid)) || (uid =? c.(saved_set_uid)) then
    Ret (Ok true, MkCred c.(real_uid) uid c.(saved_set_uid) c.(real_gid) c.(effective_gid) c.(saved_set_gid) c.(groups))
  else Ret (Ok false, c).

Definition setgid (gid : Z) : CM bool := λ c,
  if c.(effective_uid) =? 0 then
    Ret (Ok true, MkCred c.(real_uid) c.(effective_uid) c.(saved_set_uid) gid gid gid c.(groups))
  else if (gid =? c.(real_gid)) || (gid =? c.(saved_set_gid)) then
    Ret (Ok true, MkCred c.(real_uid) c.(effective_uid) c.(saved_set_uid) c.(real_gid) gid c.(saved_set_gid) c.(groups))
  else Ret (Ok false, c).

Section Drop.
(** [getlogin], and [getpwnam] with the ids of the entry; [None] is the null
    pointer.  On macOS they are the variable [USER] and [User::from_name], and
    [None] is an error or that there is none. *)
Context (getlogin : option bytes) (getpwnam : bytes → option (Z * Z)).

(** The user and the group of who logged in. *)
Definition get_saved_ids : CM (Z * Z) :=
  match getlogin with
  | None => throw DropPrivileges
  | Some uname =>
    match getpwnam uname with
    | None => throw DropPrivileges
    | Some ids => mret ids
    end
  end.

Definition drop_privileges : CM () :=
  '(saved_uid, saved_gid) ← get_saved_ids;
  g ← setgid saved_gid;
  if negb g then throw DropPrivileges
  else
    u ← setuid saved_uid;
    if negb u then throw DropPrivileges
    else
      g ← setgid 0;
      back ← (if g : bool then mret true else setuid 0);
      if back : bool then throw DropPrivileges else mret ().
End Drop.

(** ** Properties *)

(** A process of the superuser. *)
Definition root (c : cred) : Prop := c.(effective_uid) = 0.

Definition is_user (uid gid : Z) (c : cred) : Prop :=
  c.(real_uid) = uid ∧ c.(effective_uid) = uid ∧ c.(saved_set_uid) = uid ∧
  c.(real_gid) = gid ∧ c.(effective_gid) = gid ∧ c.(saved_set_gid) = gid.

(** What a process may try later. *)
Inductive cred_call : Type := SetUid (uid : Z) | SetGid (gid : Z).

Definition try_call (x : cred_call) : CM bool := match x with SetUid u => setuid u | SetGid g => setgid g end.

Fixpoint after_calls (xs : list cred_call) (c : cred) : cred :=
  match xs with
  | [] => c
  | x :: xs => match try_call x c with Ret (_, c) => after_calls xs c | Panic => c end
  end.

Lemma user_stays uid gid x c r c' : uid ≠ 0 → is_user uid gid c → try_call x c = Ret (r, c') → c' = c.
Proof.
  intros Hu (H1 & H2 & H3 & H4 & H5 & H6). destruct c as [ru eu su rg eg sg gs]. cbn in *. subst.
  destruct x as [u|g]; cbn [try_call]; unfold setuid, setgid; cbn.
  all: rewrite (proj2 (Z.eqb_neq uid 0) Hu), orb_diag; case_match eqn:E; intros [= _ <-]; try done.
  all: apply Z.eqb_eq in E; by subst.
Qed.

Lemma user_stays_all uid gid xs c : uid ≠ 0 → is_user uid gid c → after_calls xs c = c.
Proof.
  intros Hu Hc. induction xs as [|x xs IH]; [done|]. cbn. destruct (try_call x c) as [[r c']|] eqn:E; [|done].
  apply (user_stays uid gid) in E as ->; done.
Qed.

Lemma drop_run uname getpwnam uid gid c :
  root c → getpwnam uname = Some (uid, gid) →
  drop_privileges (Some uname) getpwnam c =
    Ret (if (uid =? 0) || (gid =? 0) then Err DropPrivileges else Ok (),
      if uid =? 0 then MkCred uid uid uid 0 0 0 c.(groups)
      else if gid =? 0 then MkCred uid uid uid gid 0 gid c.(groups)
      else MkCred uid uid uid gid gid gid c.(groups)).
Proof.
  intros Hr Hp. unfold drop_privileges, get_saved_ids. rewrite Hp. unfold mbind, M_bind. cbn [mret M_ret].
  unfold setgid at 1. rewrite (proj2 (Z.eqb_eq _ _) Hr). cbn [negb]. unfold setuid at 1. cbn [effective_uid].
  rewrite (proj2 (Z.eqb_eq _ _) Hr). cbn [negb]. unfold setgid, setuid.
  cbn [real_uid effective_uid saved_set_uid real_gid effective_gid saved_set_gid groups].
  destruct (Z.eqb_spec uid 0) as [->|Hu]; [done|]. cbn [orb].
  rewrite (Z.eqb_sym 0 gid), orb_diag. destruct (gid =? 0) eqn:Eg; [done|].
  cbn [real_uid effective_uid saved_set_uid real_gid effective_gid saved_set_gid groups].
  by rewrite (proj2 (Z.eqb_neq uid 0) Hu), (Z.eqb_sym 0 uid), (proj2 (Z.eqb_neq uid 0) Hu).
Qed.

(** Run by the superuser, [drop_privileges] succeeds exactly when the user
    who logged in and their group are known and neither is zero; then the
    process has that user and that group for good, whatever calls of [setuid]
    and [setgid] follow.  It keeps the supplementary groups of the superuser. *)
Lemma privileges_dropped getlogin getpwnam c :
  root c →
  (∀ c', drop_privileges getlogin getpwnam c = Ret (Ok (), c') →
    ∃ uname uid gid, getlogin = Some uname ∧ getpwnam uname = Some (uid, gid) ∧ uid ≠ 0 ∧ gid ≠ 0 ∧
      ∀ xs, is_user uid gid (after_calls xs c') ∧ (after_calls xs c').(groups) = c.(groups)) ∧
  (∀ uname uid gid, getlogin = Some uname → getpwnam uname = Some (uid, gid) → uid ≠ 0 → gid ≠ 0 →
    ∃ c', drop_privileges getlogin getpwnam c = Ret (Ok (), c')).
Proof.
  intros Hr. split.
  - intros c' Hd. destruct getlogin as [uname|]; [|done]. destruct (getpwnam uname) as [[uid gid]|] eqn:Hp.
    2:{ unfold drop_privileges, get_saved_ids in Hd. by rewrite Hp in Hd. }
    rewrite (drop_run uname getpwnam uid gid c Hr Hp) in Hd. exists uname, uid, gid.
    destruct (Z.eqb_spec uid 0); [done|]. destruct (Z.eqb_spec gid 0); [done|]. injection Hd as <-.
    split_and!; [done..|]. intros xs. rewrite (user_stays_all uid gid) by done. done.
  - intros uname uid gid -> Hp Hu Hg. rewrite (drop_run uname getpwnam uid gid c Hr Hp).
    rewrite (proj2 (Z.eqb_neq uid 0) Hu), (proj2 (Z.eqb_neq gid 0) Hg). eauto.
Qed.

(** ** Witness *)

(** The superuser in the group of administrators, and user 1000. *)
Definition root_cred : cred := MkCred 0 0 0 0 0 0 [27].

Lemma privileges_dropped_witness :
  ∃ c', drop_privileges (Some []) (λ _, Some (1000, 100)) root_cred = Ret (Ok (), c') ∧
    is_user 1000 100 (after_calls [SetUid 0; SetGid 0] c') ∧ c'.(groups) = [27].
Proof.
  destruct (privileges_dropped (Some []) (λ _, Some (1000, 100)) root_cred eq_refl) as [Hok Hex].
  destruct (Hex [] 1000 100 eq_refl eq_refl) as [c' Hc]; [discriminate|discriminate|].
  exists c'. split; [exact Hc|]. destruct (Hok c' Hc) as (u & uid & gid & Hu & Hp & _ & _ & Ha).
  injection Hp as <- <-. split; [apply Ha|]. exact (proj2 (Ha [])).
Defined.
