(* ===== verification/Tun.v ===== *)
(** * The interface on Linux (device/tun_linux.rs)

    A [TunSocket] is a descriptor with a name.  The state is the set of the
    descriptors the process has open; what the calls answer is given, a
    descriptor of [open] or [socket] among them. *)

From Stdlib Require Import Strings.String.
From S2P Require Import Prelude Crypto Packet Handshake RateLimiter Tunn Text Serialization AllowedIps Peer.
From coqutil Require Import Byte.

(** [str::parse::<i32>()] *)
Definition parse_i32 (s : bytes) : option Z :=
  match s with
  | [] => None
  | [b] => if decide (b = plus ∨ b = minus) then None else parse_digits 31 10 0 [b]
  | b :: rest =>
    if decide (b = plus) then parse_digits 31 10 0 rest
    else if decide (b = minus) then
      match parse_digits 32 10 0 rest with
      | Some n => if n <=? 2 ^ 31 then Some (- n) else None
      | None => None
      end
    else parse_digits 31 10 0 s
  end.

Definition IFNAMSIZ : nat := 16.
Definition IFF_TUN : Z := 0x1.
Definition IFF_NO_PI : Z := 0x1000.
Definition IFF_MULTI_QUEUE : Z := 0x100.

(** The name, and the field of the union that is used. *)
Record ifreq := MkIfreq {
  ifr_name : bytes;
  ifr_ifru : Z;
}.

Record TunSocket := MkTun {
  tun_fd : Z;
  tun_name : bytes;
}.

Abbreviation OM := (M Error (gset Z)).

Definition opened (fd : Z) : OM () := modify (λ fds, {[fd]} ∪ fds).
Definition close (fd : Z) : OM () := modify (λ fds, fds ∖ {[fd]}).

(** [ifr.ifr_name[..len].copy_from_slice(name)] panics on a longer name. *)
Definition copy_name (name : bytes) : OM bytes :=
  _ ← assert_ (bool_decide (length name ≤ IFNAMSIZ)%nat); mret (name ++ zeros (IFNAMSIZ - length name)).

(** [tun] is the answer of opening the tun device, [tunsetiff] says whether the
    request is accepted. *)
Definition TunSocket_new (tun : option Z) (tunsetiff : ifreq → bool) (name : bytes) : OM TunSocket :=
  match parse_i32 name with
  | Some fd => mret (MkTun fd name)
  | None =>
    match tun with
    | None => throw SocketError
    | Some fd =>
      _ ← opened fd;
      if decide (IFNAMSIZ ≤ length name)%nat then throw InvalidTunnelName
      else
        ifr_name ← copy_name name;
        let ifr := MkIfreq ifr_name (Z.lor (Z.lor IFF_TUN IFF_NO_PI) IFF_MULTI_QUEUE) in
        if tunsetiff ifr then mret (MkTun fd name) else throw IOCtl
    end
  end.

(** [Drop] *)
Definition tun_drop (self : TunSocket) : OM () := close self.(tun_fd).

(** On an error [self] is dropped. *)
Definition set_non_blocking (getfl : option Z) (setfl : bool) (self : TunSocket) : OM TunSocket :=
  match getfl with
  | None => _ ← tun_drop self; throw FCntl
  | Some _ => if setfl then mret self else _ ← tun_drop self; throw FCntl
  end.

Definition name (self : TunSocket) : bytes := self.(tun_name).

(** [socket] is the answer of making a socket, [siocgifmtu] that of the request;
    the [c_int] is cast to [usize]. *)
Definition mtu (socket : option Z) (siocgifmtu : ifreq → option Z) (self : TunSocket) : OM Z :=
  match parse_i32 self.(tun_name) with
  | Some _ => mret 1500
  | None =>
    match socket with
    | None => throw SocketError
    | Some fd =>
      _ ← opened fd;
      ifr_name ← copy_name (name self);
      match siocgifmtu (MkIfreq ifr_name 0) with
      | None => throw IOCtl
      | Some m => _ ← close fd; mret (wrap 64 m)
      end
    end
  end.

(** [write] answers the bytes written, zero on an error. *)
Definition tun_write (answer : option Z) : Z := match answer with None => 0 | Some n => n end.

(** [read] into [dst]; [answer] is what the kernel wrote to its front. *)
Definition tun_read (answer : result io_kind bytes) (dst : bytes) : OM bytes :=
  match answer with
  | Err kind => throw (IfaceRead kind)
  | Ok data => _ ← assert_ (bool_decide (length data ≤ length dst)%nat); mret data
  end.

(** ** Properties *)

(** Names that are not numbers and fit. *)
Definition iface_name (s : bytes) : Prop := parse_i32 s = None ∧ (length s < IFNAMSIZ)%nat.

(** A socket has the name it was asked for. *)
Lemma tun_named tun tunsetiff nm : yields (λ iface, name iface = nm) (TunSocket_new tun tunsetiff nm).
Proof.
  unfold TunSocket_new. destruct (parse_i32 nm); [by apply yields_ret|]. destruct tun; [|apply yields_throw].
  apply yields_then. intros _. case_decide; [apply yields_throw|]. apply yields_then. intros ifr.
  destruct (tunsetiff _); [by apply yields_ret|apply yields_throw].
Qed.

Lemma non_blocking_same getfl setfl iface : yields (λ i, i = iface) (set_non_blocking getfl setfl iface).
Proof.
  unfold set_non_blocking. destruct getfl; [|apply yields_then; intros; apply yields_throw].
  destruct setfl; [by apply yields_ret|apply yields_then; intros; apply yields_throw].
Qed.

Lemma copy_name_run s fds : (length s ≤ IFNAMSIZ)%nat → copy_name s fds = Ret (Ok (s ++ zeros (IFNAMSIZ - length s)), fds).
Proof. intros Hs. unfold copy_name. by rewrite bool_decide_eq_true_2. Qed.

(** The request for a name that fits carries it as a C string. *)
Lemma new_run fd tunsetiff s fds :
  iface_name s →
  TunSocket_new (Some fd) tunsetiff s fds =
    Ret (if tunsetiff (MkIfreq (s ++ zeros (IFNAMSIZ - length s)) 0x1101) then Ok (MkTun fd s) else Err IOCtl, {[fd]} ∪ fds).
Proof.
  intros [Hp Hl]. unfold TunSocket_new. rewrite Hp, decide_False by (unfold IFNAMSIZ in *; lia).
  unfold mbind, M_bind. cbn [opened modify]. rewrite copy_name_run by lia. by destruct (tunsetiff _).
Qed.

(** When the tun device has been opened and making the socket fails, for a name
    that is too long or a request that is refused, the descriptor stays open. *)
Lemma failed_new_leaks fd tunsetiff s fds e fds' :
  TunSocket_new (Some fd) tunsetiff s fds = Ret (Err e, fds') → fds' = {[fd]} ∪ fds.
Proof.
  unfold TunSocket_new. destruct (parse_i32 s) eqn:Hp; [done|]. case_decide as Hl; [by intros [= _ <-]|].
  unfold mbind, M_bind. cbn [opened modify]. rewrite copy_name_run by (unfold IFNAMSIZ in *; lia).
  destruct (tunsetiff _); by intros [= _ <-].
Qed.

(** A socket that was made can be asked for its MTU: it does not panic, and a
    descriptor stays open only if the request fails. *)
Lemma mtu_of_new tun tunsetiff s t fds fds1 socket siocgifmtu fds2 :
  TunSocket_new tun tunsetiff s fds = Ret (Ok t, fds1) → (∀ fd, socket = Some fd → fd ∉ fds2) →
  ∃ r fds3, mtu socket siocgifmtu t fds2 = Ret (r, fds3) ∧ ((∃ m, r = Ok m ∧ fds3 = fds2) ∨
    r = Err SocketError ∧ fds3 = fds2 ∨ r = Err IOCtl ∧ ∃ fd, socket = Some fd ∧ fds3 = {[fd]} ∪ fds2).
Proof.
  intros Hn Hfd. assert (Ht : t.(tun_name) = s ∧ (parse_i32 s = None → (length s < IFNAMSIZ)%nat)).
  { revert Hn. unfold TunSocket_new. destruct (parse_i32 s); [by intros [= <- _]|]. destruct tun as [fd|]; [|done].
    case_decide as Hl; [done|]. unfold mbind, M_bind. cbn [opened modify]. rewrite copy_name_run by (unfold IFNAMSIZ in *; lia).
    destruct (tunsetiff _); [|done]. intros [= <- _]. split; [done|]. intros _. lia. }
  destruct Ht as [Ht Hl]. unfold mtu, name. rewrite Ht. destruct (parse_i32 s); [eexists _, _; split; [done|eauto]|].
  specialize (Hl eq_refl). destruct socket as [fd|]; [|eexists _, _; split; [done|eauto]].
  unfold mbind, M_bind. cbn [opened modify]. rewrite copy_name_run by lia.
  destruct (siocgifmtu _); eexists _, _; (split; [reflexivity|]).
  - left. eexists. split; [done|]. specialize (Hfd fd eq_refl). set_solver.
  - right. right. eauto.
Qed.
