(* ===== verification/BsdTun.v ===== *)
(** * The interface on macOS and the BSDs (device/tun_darwin.rs, device/tun_bsd.rs)

    On macOS an interface is a control socket, on the BSDs a device file; both
    put a header of four bytes with the address family before every packet.
    As in Tun.v the state is what the process has open, on the BSDs with the
    interfaces that there are; the answers of the system calls are given. *)

From Stdlib Require Import Strings.String.
From S2P Require Import Prelude Crypto Packet Handshake RateLimiter Tunn Text Serialization Show AllowedIps Peer Tun.
From coqutil Require Import Byte.

(** ** Packets with a header *)

(** What is given to [sendmsg] or [writev], the header and the packet. *)
Definition with_header (af : Z) (src : bytes) : bytes := zeros 3 ++ byte.of_Z af :: src.

(** [send] is the answer to the message. *)
Definition iface_write (send : bytes → option Z) (src : bytes) (af : Z) : Z :=
  match send (with_header af src) with None => 0 | Some n => n end.

(** [recvmsg] and [readv] spread a message over the header and [dst]; the rest
    of it is lost.  The count, and [dst] after the call. *)
Definition spread (message dst : bytes) : nat * bytes :=
  let data := take (length dst) (drop 4 message) in
  (Nat.min (length message) (4 + length dst), data ++ drop (length data) dst).

Definition iface_read {S} (answer : result io_kind bytes) (dst : bytes) : M Error S bytes :=
  match answer with
  | Err kind => throw (IfaceRead kind)
  | Ok message =>
    let '(n, dst) := spread message dst in
    if (n <=? 4)%nat then mret []
    else _ ← assert_ (bool_decide (n - 4 ≤ length dst)%nat); mret (take (n - 4) dst)
  end.

(** Reading gives back what was written, as much as fits, whatever the family;
    and no message makes it panic. *)
Lemma read_written {T} af src dst (fds : T) :
  iface_read (Ok (with_header af src)) dst fds = Ret (Ok (take (length dst) src), fds).
Proof.
  unfold iface_read, spread, with_header. cbn [drop zeros replicate app length].
  set (data := take (length dst) src). assert (Hlen : length data = Nat.min (length dst) (length src)) by apply length_take.
  destruct (Nat.leb_spec (Nat.min (S (S (S (S (length src))))) (4 + length dst)) 4) as [Hn|Hn].
  - assert (data = []) as ->; [|done]. apply nil_length_inv. lia.
  - rewrite bool_decide_eq_true_2 by (rewrite length_app, length_drop; lia). unfold mbind, M_bind. cbn [assert_ mret M_ret].
    replace (Nat.min _ _ - 4)%nat with (length data) by lia. by rewrite take_app_length.
Qed.

Lemma read_total {T} answer dst (fds : T) : ∃ r, iface_read answer dst fds = Ret (r, fds) ∧ ∀ p, r = Ok p → (length p ≤ length dst)%nat.
Proof.
  unfold iface_read, spread. destruct answer as [message|kind]; [|by eexists]. set (data := take (length dst) (drop 4 message)).
  assert (Hd : (length data ≤ length dst)%nat) by (unfold data; rewrite length_take; lia).
  destruct (_ <=? 4)%nat; [by exists (Ok []); split; [done|intros p [= <-]; cbn; lia]|].
  assert (Hl : length (data ++ drop (length data) dst) = length dst) by (rewrite length_app, length_drop; lia).
  set (k := (Nat.min _ _ - 4)%nat). assert (Hk : (k ≤ length dst)%nat) by lia. clearbody k.
  rewrite bool_decide_eq_true_2 by (rewrite Hl; exact Hk). eexists. split; [reflexivity|]. intros p [= <-]. rewrite length_take. lia.
Qed.

(** ** macOS *)

Module Darwin.

(** [checks]: arithmetic that overflows panics, otherwise it wraps. *)
Definition parse_utun_name {S} (checks : bool) (name : bytes) : M Error S Z :=
  if negb (starts_with (str "utun") name) then throw InvalidTunnelName
  else
    match drop 4 name with
    | [] => mret 0
    | idx =>
      match parse_uint 32 idx with
      | None => throw InvalidTunnelName
      | Some x => _ ← assert_ (negb checks || (x + 1 <? 2 ^ 32)); mret (wrap 32 (x + 1))
      end
    end.

Definition CTRL_NAME : bytes := str "com.apple.net.utun_control".

(** What the calls answer: [ctl_info] gives the identifier of a control,
    [connect] whether a unit of it could be had, [getsockopt] the buffer and the
    length of the name. *)
Record answers := MkAnswers {
  an_socket : option Z;
  an_ctl_info : bytes → option Z;
  an_connect : Z → Z → bool;
  an_getsockopt : option (bytes * Z);
  an_mtu_socket : option Z;
  an_mtu : ifreq → option Z;
}.

Section Darwin.
Context (checks : bool) (os : answers).

(** The socket is its descriptor. *)
Definition TunSocket_new (name : bytes) : OM Z :=
  idx ← parse_utun_name checks name;
  match os.(an_socket) with
  | None => throw SocketError
  | Some fd =>
    _ ← opened fd;
    match os.(an_ctl_info) (CTRL_NAME ++ zeros (96 - length CTRL_NAME)) with
    | None => _ ← close fd; throw IOCtl
    | Some ctl_id =>
      if os.(an_connect) ctl_id idx then mret fd
      else _ ← close fd; throw Connect
    end
  end.

Definition tun_drop (fd : Z) : OM () := close fd.

(** On an error [self] is dropped. *)
Definition set_non_blocking (getfl : option Z) (setfl : bool) (fd : Z) : OM Z :=
  match getfl with
  | None => _ ← tun_drop fd; throw FCntl
  | Some _ => if setfl then mret fd else _ ← tun_drop fd; throw FCntl
  end.

Definition name : OM bytes :=
  match os.(an_getsockopt) with
  | None => throw GetSockOpt
  | Some (buffer, len) =>
    if len =? 0 then throw GetSockOpt
    else
      _ ← assert_ (bool_decide (Z.to_nat (len - 1) ≤ length buffer)%nat);
      mret (from_utf8_lossy (take (Z.to_nat (len - 1)) buffer))
  end.

Definition mtu : OM Z :=
  match os.(an_mtu_socket) with
  | None => throw SocketError
  | Some fd =>
    _ ← opened fd;
    name ← name;
    ifr_name ← copy_name name;
    match os.(an_mtu) (MkIfreq ifr_name 0) with
    | None => throw IOCtl
    | Some m => _ ← close fd; mret (wrap 64 m)
    end
  end.
End Darwin.

Definition AF_INET : Z := 2.
Definition AF_INET6 : Z := 30.

Definition write4 (send : bytes → option Z) (src : bytes) : Z := iface_write send src AF_INET.
Definition write6 (send : bytes → option Z) (src : bytes) : Z := iface_write send src AF_INET6.
Definition read (recvmsg : result io_kind bytes) (dst : bytes) : OM bytes := iface_read recvmsg dst.

(** *** Properties *)

(** The name with a number stands for the unit after it, the name without for
    any unit. *)
Lemma parse_utun_number {S} checks n (s : S) :
  0 ≤ n < 2 ^ 32 - 1 → parse_utun_name checks (str "utun" ++ show_uint 10 n) s = Ret (Ok (n + 1), s).
Proof.
  intros Hn. unfold parse_utun_name, starts_with. rewrite bool_decide_eq_true_2 by done. cbn [negb].
  change (drop 4 (str "utun" ++ show_uint 10 n)) with (show_uint 10 n).
  pose proof (parse_uint_show 32 n ltac:(unfold in_width; lia)) as Hp.
  destruct (show_uint 10 n) as [|b l] eqn:Hs; [done|]. rewrite Hp. rewrite (proj2 (Z.ltb_lt _ _)) by lia.
  rewrite orb_true_r. unfold mbind, M_bind, wrap. cbn [assert_ mret M_ret]. by rewrite Z.mod_small by lia.
Qed.

Lemma parse_utun_any {S} checks (s : S) : parse_utun_name checks (str "utun") s = Ret (Ok 0, s).
Proof. done. Qed.

(** The greatest number overflows: with checks it panics, without it is taken
    for the name without a number. *)
Lemma parse_utun_overflow {S} (s : S) :
  parse_utun_name true (str "utun4294967295") s = Panic ∧ parse_utun_name false (str "utun4294967295") s = Ret (Ok 0, s).
Proof. split; vm_compute; reflexivity. Qed.

Lemma parse_keeps {S} checks nm (s s' : S) r : parse_utun_name checks nm s = Ret (r, s') → s' = s.
Proof.
  unfold parse_utun_name. destruct (negb _); [by intros [= _ <-]|]. destruct (drop 4 nm); [by intros [= _ <-]|].
  destruct (parse_uint 32 _); [|by intros [= _ <-]]. unfold assert_, mbind, M_bind.
  destruct (negb checks || _); [by intros [= _ <-]|done].
Qed.

(** When the socket cannot be made, no descriptor stays open. *)
Lemma failed_new_closes checks os nm fds e fds' :
  (∀ fd, os.(an_socket) = Some fd → fd ∉ fds) → TunSocket_new checks os nm fds = Ret (Err e, fds') → fds' = fds.
Proof.
  intros Hfd Hr. apply bind_any_inv in Hr as [(idx & s & Hp & Hr)|(e' & Hp & _)]; apply parse_keeps in Hp; [subst s|done].
  destruct (an_socket os) as [fd|]; [|by injection Hr]. specialize (Hfd fd eq_refl). unfold mbind, M_bind in Hr.
  cbn [opened modify] in Hr.
  destruct (an_ctl_info os _) as [id|]; [destruct (an_connect os id idx); [done|]|]; injection Hr as _ <-; set_solver.
Qed.

(** A socket that was made is the one descriptor more. *)
Lemma new_opens checks os nm fds fd fds' :
  TunSocket_new checks os nm fds = Ret (Ok fd, fds') → os.(an_socket) = Some fd ∧ fds' = {[fd]} ∪ fds.
Proof.
  unfold TunSocket_new. intros (idx & s & ->%parse_keeps & Hr)%bind_inv.
  destruct (an_socket os) as [fd0|]; [|done]. unfold mbind, M_bind in Hr. cbn [opened modify] in Hr.
  destruct (an_ctl_info os _) as [id|]; [|done]. destruct (an_connect os id idx); [|done]. by injection Hr as <- <-.
Qed.

(** The interface of a device is made and set not to block: when either fails,
    no descriptor stays open. *)
Lemma failed_interface_closes checks os nm getfl setfl fds e fds' :
  (∀ fd, os.(an_socket) = Some fd → fd ∉ fds) →
  (fd ← TunSocket_new checks os nm; set_non_blocking getfl setfl fd) fds = Ret (Err e, fds') → fds' = fds.
Proof.
  intros Hfd Hr. apply bind_any_inv in Hr as [(fd & s & Hn & Hr)|(e' & Hn & _)].
  - apply new_opens in Hn as [Hs ->]. specialize (Hfd fd Hs). unfold set_non_blocking in Hr.
    assert (Hc : (_ ← tun_drop fd; throw FCntl : OM Z) ({[fd]} ∪ fds) = Ret (Err FCntl, fds)).
    { change (Ret (Err FCntl, ({[fd]} ∪ fds) ∖ {[fd]}) = Ret (Err FCntl, fds) :> outcome (result Error Z * _)).
      by replace (({[fd]} ∪ fds) ∖ {[fd]}) with fds by set_solver. }
    destruct getfl as [fl|]; [destruct setfl; [done|]|]; rewrite Hc in Hr; by injection Hr as _ <-.
  - by eapply failed_new_closes.
Qed.

(** Asking for the MTU leaves a descriptor open when it fails after the
    socket. *)
Lemma failed_mtu_leaks os fd fds e fds' :
  os.(an_mtu_socket) = Some fd → mtu os fds = Ret (Err e, fds') → fds' = {[fd]} ∪ fds.
Proof.
  unfold mtu. intros ->. unfold mbind at 1, M_bind. cbn [opened modify]. intros [(n & s & Hn & Hr)|(e' & Hn & _)]%bind_any_inv.
  - assert (s = {[fd]} ∪ fds) as ->.
    { revert Hn. unfold name. destruct (an_getsockopt os) as [[b l]|]; [|done]. destruct (l =? 0); [done|].
      unfold assert_, mbind, M_bind. case_bool_decide; [by intros [= _ <-]|done]. }
    revert Hr. unfold copy_name, assert_, mbind, M_bind. case_bool_decide; [|done]. cbn [mret M_ret].
    destruct (an_mtu os _); [done|]. by intros [= _ <-].
  - revert Hn. unfold name. destruct (an_getsockopt os) as [[b l]|]; [|by intros [= _ <-]]. destruct (l =? 0); [by intros [= _ <-]|].
    unfold assert_, mbind, M_bind. by case_bool_decide.
Qed.
End Darwin.

(** ** FreeBSD and NetBSD *)

(** What is added and taken away again. *)
Section Sets.
Context `{Countable A}.
Implicit Types X : gset A.

Lemma added_removed x X : x ∉ X → ({[x]} ∪ X) ∖ {[x]} = X.
Proof. set_solver. Qed.

Lemma added_twice a b X : a ∉ X → a ≠ b → ({[a]} ∪ ({[b]} ∪ X)) ∖ {[a]} = {[b]} ∪ X.
Proof. set_solver. Qed.

Lemma renamed_set s d X : d ∉ X → {[s]} ∪ ({[d]} ∪ X ∖ {[s]}) ∖ {[d]} = {[s]} ∪ X.
Proof. intros Hd. apply set_eq. intros x. destruct (decide (x = s)), (decide (x = d)); set_solver. Qed.

Lemma replaced_set s X : ({[s]} ∪ X) ∖ {[s]} = X ∖ {[s]}.
Proof. set_solver. Qed.
End Sets.

Module Bsd.

(** The descriptors that are open, and the interfaces that there are. *)
Record host := MkHost {
  h_fds : gset Z;
  h_ifaces : gset bytes;
}.

Definition with_fds (f : gset Z → gset Z) (s : host) : host := MkHost (f s.(h_fds)) s.(h_ifaces).
Definition with_ifaces (f : gset bytes → gset bytes) (s : host) : host := MkHost s.(h_fds) (f s.(h_ifaces)).

Abbreviation HM := (M Error host).

Definition opened (fd : Z) : HM () := modify (with_fds (λ fds, {[fd]} ∪ fds)).
Definition close (fd : Z) : HM () := modify (with_fds (λ fds, fds ∖ {[fd]})).

(** What the calls answer.  Opening a device on FreeBSD makes an interface
    with a name of its own. *)
Record answers := MkAnswers {
  an_socket : option Z;                  (* for requests *)
  an_destroy : ifreq → bool;             (* [SIOCIFDESTROY] *)
  an_rename : ifreq → bytes → bool;      (* [SIOCSIFNAME] *)
  an_clone : option (Z * bytes);         (* opening [/dev/tun] *)
  an_open : bytes → option Z;            (* opening a path *)
  an_slmode : bool;                      (* [TUNSLMODE] *)
  an_ifhead : bool;                      (* [TUNSIFHEAD] *)
  an_mtu : ifreq → option Z;
}.

(** [ifr.ifr_name[..len].copy_from_slice(name)] *)
Definition copy_name (name : bytes) : HM bytes :=
  _ ← assert_ (bool_decide (length name ≤ IFNAMSIZ)%nat); mret (name ++ zeros (IFNAMSIZ - length name)).

Section Bsd.
Context (os : answers).

Definition set_name (old_name new_name : bytes) : HM bytes :=
  match os.(an_socket) with
  | None => throw SocketError
  | Some fd =>
    _ ← opened fd;
    wanted_name ← CString_new new_name;
    if decide (IFNAMSIZ ≤ length old_name)%nat then throw InvalidTunnelName
    else
      ifr_name ← copy_name old_name;
      if os.(an_rename) (MkIfreq ifr_name 0) wanted_name then
        _ ← modify (with_ifaces (λ i, {[new_name]} ∪ i ∖ {[old_name]}));
        _ ← close fd;
        mret new_name
      else throw IOCtl
  end.

Definition remove (name : bytes) : HM () :=
  match os.(an_socket) with
  | None => throw SocketError
  | Some fd =>
    _ ← opened fd;
    if decide (IFNAMSIZ ≤ length name)%nat then throw InvalidTunnelName
    else
      ifr_name ← copy_name name;
      if os.(an_destroy) (MkIfreq ifr_name 0) then
        _ ← modify (with_ifaces (λ i, i ∖ {[name]}));
        close fd
      else throw IOCtl
  end.

(** An interface with the name is removed first. *)
Definition remove_existing (name : bytes) : HM () :=
  name_cstr ← CString_new name;
  exists_ ← gets (λ s, bool_decide (name_cstr ∈ s.(h_ifaces)));
  if exists_ : bool then remove name else mret ().

Definition new_freebsd (name : bytes) : HM TunSocket :=
  _ ← remove_existing name;
  match os.(an_clone) with
  | None => throw SocketError
  | Some (fd, devname) =>
    _ ← opened fd;
    _ ← modify (with_ifaces (λ i, {[devname]} ∪ i));
    if os.(an_ifhead) then
      name ← set_name (from_utf8_lossy devname) name;
      mret (MkTun fd name)
    else throw IOCtl
  end.

(** The path is not terminated: [open] reads on in the memory that follows it,
    [after]. *)
Definition new_netbsd (after : bytes) (name : bytes) : HM TunSocket :=
  _ ← remove_existing name;
  let devpath := str "/dev/" ++ name in
  match os.(an_open) (c_str (devpath ++ after)) with
  | None => throw SocketError
  | Some fd =>
    _ ← opened fd;
    if os.(an_slmode) then mret (MkTun fd name) else throw IOCtl
  end.

(** [Drop] *)
Definition tun_drop (self : TunSocket) : HM () :=
  _ ← close self.(tun_fd);
  _ ← try_ (remove self.(tun_name));
  mret ().

Definition name (self : TunSocket) : bytes := self.(tun_name).

(** On an error [self] is dropped. *)
Definition set_non_blocking (getfl : option Z) (setfl : bool) (self : TunSocket) : HM TunSocket :=
  match getfl with
  | None => _ ← tun_drop self; throw FCntl
  | Some _ => if setfl then mret self else _ ← tun_drop self; throw FCntl
  end.

Definition mtu (self : TunSocket) : HM Z :=
  match os.(an_socket) with
  | None => throw SocketError
  | Some fd =>
    _ ← opened fd;
    ifr_name ← copy_name self.(tun_name);
    match os.(an_mtu) (MkIfreq ifr_name 0) with
    | None => throw IOCtl
    | Some m => _ ← close fd; mret (wrap 64 m)
    end
  end.
End Bsd.

(** The address families of libc. *)
Definition AF_INET : Z := 2.
Definition AF_INET6 (netbsd : bool) : Z := if netbsd then 24 else 28.

Definition write (writev : bytes → option Z) (src : bytes) (af : Z) : Z := iface_write writev src af.
Definition write4 (writev : bytes → option Z) (src : bytes) : Z := write writev src AF_INET.
Definition write6 (netbsd : bool) (writev : bytes → option Z) (src : bytes) : Z := write writev src (AF_INET6 netbsd).
Definition read (readv : result io_kind bytes) (dst : bytes) : HM bytes := iface_read readv dst.

(** One end of an interface reads what the other end wrote. *)
Lemma read_write6 netbsd src dst s :
  ∃ m, write6 netbsd (λ m', if decide (m' = m) then Some (Z.of_nat (length m)) else None) src = 4 + Z.of_nat (length src) ∧
    read (Ok m) dst s = Ret (Ok (take (length dst) src), s).
Proof.
  exists (with_header (AF_INET6 netbsd) src). split; [|apply read_written].
  unfold write6, write, iface_write. rewrite decide_True by done. unfold with_header. rewrite length_app. cbn [length zeros].
  unfold zeros. rewrite length_replicate. lia.
Qed.

(** *** Properties *)

Lemma bsd_copy_run s h : (length s ≤ IFNAMSIZ)%nat → copy_name s h = Ret (Ok (s ++ zeros (IFNAMSIZ - length s)), h).
Proof. intros Hs. unfold copy_name. by rewrite bool_decide_eq_true_2. Qed.

Lemma cstring_run {E S} s (h : S) : Forall (λ b, code b ≠ 0) s → CString_new s h = Ret (Ok s, h : S) :> outcome (result E bytes * S).
Proof.
  intros Hs. unfold CString_new. assert (forallb (λ b, negb (code b =? 0)) s = true) as ->; [|done].
  apply forallb_forall. intros b Hb. apply negb_true_iff, Z.eqb_neq. by apply (proj1 (List.Forall_forall _ _) Hs).
Qed.

(** Removing an interface takes it away and leaves no descriptor open. *)
Lemma remove_run os fd s h :
  os.(an_socket) = Some fd → (length s < IFNAMSIZ)%nat → fd ∉ h.(h_fds) → (∀ r, os.(an_destroy) r = true) →
  remove os s h = Ret (Ok (), with_ifaces (λ i, i ∖ {[s]}) h).
Proof.
  intros Hso Hs Hfd Hd. unfold remove. rewrite Hso. unfold mbind at 1, M_bind. cbn [opened modify].
  rewrite decide_False by lia. unfold mbind at 1, M_bind. rewrite bsd_copy_run by lia. rewrite Hd. unfold close, modify, mbind, M_bind, with_fds, with_ifaces. cbn.
  by rewrite added_removed.
Qed.

(** The life of an interface on FreeBSD: when the calls succeed, it is made
    under the name that is asked for, replacing one that is there, and dropping
    it leaves the host without it and without any new descriptor. *)
Lemma freebsd_life os fd tfd devname s h :
  os.(an_socket) = Some fd → os.(an_clone) = Some (tfd, devname) → os.(an_ifhead) = true →
  (∀ r, os.(an_destroy) r = true) → (∀ r w, os.(an_rename) r w = true) →
  Forall (λ b, code b ≠ 0) s → (length s < IFNAMSIZ)%nat → (length devname < IFNAMSIZ)%nat → is_utf8 devname = true →
  (fd ∉ h.(h_fds)) → (tfd ∉ h.(h_fds)) → fd ≠ tfd → (devname ∉ h.(h_ifaces)) →
  ∃ h', new_freebsd os s h = Ret (Ok (MkTun tfd s), h') ∧ h'.(h_fds) = {[tfd]} ∪ h.(h_fds) ∧
    h'.(h_ifaces) = {[s]} ∪ h.(h_ifaces) ∧
    tun_drop os (MkTun tfd s) h' = Ret (Ok (), MkHost h.(h_fds) (h.(h_ifaces) ∖ {[s]})).
Proof.
  intros Hso Hcl Hih Hd Hre Hz Hs Hdl Hu Hf Ht Hne Hdn.
  assert (Hrm : ∃ h1, remove_existing os s h = Ret (Ok (), h1) ∧ h1.(h_fds) = h.(h_fds) ∧ h1.(h_ifaces) = h.(h_ifaces) ∖ {[s]}).
  { unfold remove_existing. erewrite bind_ok by (by apply cstring_run). erewrite bind_ok by reflexivity.
    case_bool_decide as Hin; [rewrite (remove_run os fd s h) by done; eexists; split; [reflexivity|done]|].
    exists h. split_and!; [done|done|]. symmetry. by apply difference_disjoint_L, disjoint_singleton_r. }
  destruct Hrm as (h1 & Hr1 & E1 & E2).
  assert (Hnew : new_freebsd os s h = Ret (Ok (MkTun tfd s), MkHost ({[tfd]} ∪ h.(h_fds)) ({[s]} ∪ h.(h_ifaces)))).
  { unfold new_freebsd. erewrite bind_ok by exact Hr1. rewrite Hcl. do 2 (erewrite bind_ok by reflexivity). rewrite Hih, lossy_utf8 by done.
    unfold set_name. rewrite Hso.
    unfold mbind at 1, M_bind. unfold mbind at 1, M_bind. cbn [opened modify]. unfold mbind at 1, M_bind. rewrite cstring_run by done.
    rewrite decide_False by lia. unfold mbind at 1, M_bind. rewrite bsd_copy_run by lia. rewrite Hre. unfold close, modify, mbind, M_bind, with_fds, with_ifaces. cbn.
    by rewrite E1, E2, added_twice, renamed_set. }
  eexists. split; [exact Hnew|]. split_and!; [done|done|]. unfold tun_drop. erewrite bind_ok by reflexivity.
  cbn [tun_name tun_fd]. unfold try_, mbind, M_bind, with_fds. cbn [h_fds h_ifaces]. rewrite added_removed by done.
  rewrite (remove_run os fd s) by done. unfold with_ifaces. cbn. by rewrite replaced_set.
Qed.

(** On FreeBSD, when the new device does not take the header or the interface
    cannot be renamed, the device stays open and its interface stays too. *)
Lemma failed_freebsd_leaks os tfd devname s h :
  os.(an_clone) = Some (tfd, devname) → os.(an_ifhead) = false → Forall (λ b, code b ≠ 0) s → (s ∉ h.(h_ifaces)) →
  new_freebsd os s h = Ret (Err IOCtl, MkHost ({[tfd]} ∪ h.(h_fds)) ({[devname]} ∪ h.(h_ifaces))).
Proof.
  intros Hcl Hih Hz Hs. unfold new_freebsd, remove_existing, mbind at 1, M_bind. unfold mbind at 1, M_bind.
  rewrite cstring_run by done. unfold mbind at 1, M_bind. cbn [gets]. rewrite bool_decide_eq_false_2 by done.
  cbn [mret M_ret]. by rewrite Hcl, Hih.
Qed.

Lemma c_str_app s t : Forall (λ b, code b ≠ 0) s → c_str (s ++ t) = s ++ c_str t.
Proof. induction 1 as [|b s Hb _ IH]; [done|]. cbn. rewrite (proj2 (Z.eqb_neq _ _) Hb). by rewrite IH. Qed.

(** On NetBSD, the file that is opened is the one that is meant only if a zero
    byte happens to follow the path in memory. *)
Lemma netbsd_path s after :
  Forall (λ b, code b ≠ 0) s →
  c_str ((str "/dev/" ++ s) ++ after) = str "/dev/" ++ s ↔ after = [] ∨ ∃ t b, after = b :: t ∧ code b = 0.
Proof.
  intros Hs. rewrite c_str_app by (apply Forall_app; split; [by repeat constructor|done]).
  split; [|intros [->|(t & b & -> & Hb)]; cbn [c_str]; rewrite ?Hb; cbn; by rewrite app_nil_r].
  intros Heq. assert (Hn : c_str after = []) by (by apply (app_inv_head (str "/dev/" ++ s)); rewrite app_nil_r).
  destruct after as [|b t]; [by left|right]. exists t, b. split; [done|]. cbn in Hn. by destruct (Z.eqb_spec (code b) 0).
Qed.
End Bsd.
