(* ===== verification/Device.v ===== *)
(** * The device (device/mod.rs): its peers and their configuration

    A device keeps its peers in three maps: by public key, by allowed network
    and by index.  The peers are shared ([Arc<Mutex<Peer>>]): the maps hold
    locations of a store.  The tunnel interface, the event queue and the
    sockets are the calls of [syscall]. *)

From Stdlib Require Import Strings.String.
From S2P Require Import Prelude Errors Time Crypto Packet Session Tai64N Handshake RateLimiter Tunn.
From S2P Require Import Lfsr Text Serialization AllowedIps Peer.
From coqutil Require Import Byte.

Definition HANDSHAKE_RATE_LIMIT : Z := 100.
Definition MAX_ITR : nat := 100.

(** The order in which a [HashMap] gives its entries is unspecified. *)
Class HashOrder := {
  entries : gmap bytes nat → list (bytes * nat);
  entries_perm m : entries m ≡ₚ map_to_list m;
}.

Definition values `{HashOrder} (m : gmap bytes nat) : list nat := (entries m).*2.

Lemma values_perm `{HashOrder} m : values m ≡ₚ (map_to_list m).*2.
Proof. apply fmap_Permutation, entries_perm. Qed.

Section Devices.
Context `{Crypto, NetTable, HashOrder}.

Record Device := MkDevice {
  key_pair : option (bytes * bytes);
  listen_port : Z;
  fwmark : option Z;
  udp4 : option Z;
  udp6 : option Z;
  peers : gmap bytes nat;
  peers_by_ip : table nat;
  peers_by_idx : gmap Z nat;
  d_next_index : IndexLfsr;
  use_connected_socket : bool;
  d_rate_limiter : option nat;
}.

(** The device with the store of its peers, the clocks and limiters, and the
    operating system. *)
Record dstate := MkD {
  dev : Device;
  heap : gmap nat Peer;
  dworld : world;
  dos : os;
}.

Definition with_dev (d : Device) (s : dstate) : dstate := MkD d s.(heap) s.(dworld) s.(dos).
Definition with_heap (h : gmap nat Peer) (s : dstate) : dstate := MkD s.(dev) h s.(dworld) s.(dos).
Definition with_dworld (w : world) (s : dstate) : dstate := MkD s.(dev) s.(heap) w s.(dos).
Definition with_dos (o : os) (s : dstate) : dstate := MkD s.(dev) s.(heap) s.(dworld) o.

Definition with_key_pair (k : option (bytes * bytes)) (rl : option nat) (d : Device) : Device :=
  MkDevice k d.(listen_port) d.(fwmark) d.(udp4) d.(udp6) d.(peers) d.(peers_by_ip) d.(peers_by_idx)
    d.(d_next_index) d.(use_connected_socket) rl.
Definition with_listen_port (p : Z) (d : Device) : Device :=
  MkDevice d.(key_pair) p d.(fwmark) d.(udp4) d.(udp6) d.(peers) d.(peers_by_ip) d.(peers_by_idx)
    d.(d_next_index) d.(use_connected_socket) d.(d_rate_limiter).
Definition with_fwmark (m : option Z) (d : Device) : Device :=
  MkDevice d.(key_pair) d.(listen_port) m d.(udp4) d.(udp6) d.(peers) d.(peers_by_ip) d.(peers_by_idx)
    d.(d_next_index) d.(use_connected_socket) d.(d_rate_limiter).
Definition with_udp (u4 u6 : option Z) (d : Device) : Device :=
  MkDevice d.(key_pair) d.(listen_port) d.(fwmark) u4 u6 d.(peers) d.(peers_by_ip) d.(peers_by_idx)
    d.(d_next_index) d.(use_connected_socket) d.(d_rate_limiter).
Definition with_peers (ps : gmap bytes nat) (ip : table nat) (idx : gmap Z nat) (d : Device) : Device :=
  MkDevice d.(key_pair) d.(listen_port) d.(fwmark) d.(udp4) d.(udp6) ps ip idx
    d.(d_next_index) d.(use_connected_socket) d.(d_rate_limiter).
Definition with_lfsr (l : IndexLfsr) (d : Device) : Device :=
  MkDevice d.(key_pair) d.(listen_port) d.(fwmark) d.(udp4) d.(udp6) d.(peers) d.(peers_by_ip) d.(peers_by_idx)
    l d.(use_connected_socket) d.(d_rate_limiter).

Abbreviation DM := (M Error dstate).

Definition d_gets {A} (f : Device → A) : DM A := gets (λ s, f s.(dev)).
Definition d_modify (f : Device → Device) : DM () := modify (λ s, with_dev (f s.(dev)) s).
Definition d_sys {A} (m : M Error os A) : DM A := zoom dos with_dos m.

(** Lock a peer and call one of its methods. *)
Definition on_peer {A} (r : nat) (m : M Error (Peer * os) A) : DM A := λ s,
  match s.(heap) !! r with
  | None => Panic
  | Some p =>
    match m (p, s.(dos)) with
    | Ret (x, (p', o')) => Ret (x, with_dos o' (with_heap (<[r := p']> s.(heap)) s))
    | Panic => Panic
    end
  end.

Definition peer_gets {A} (r : nat) (f : Peer → A) : DM A := on_peer r (gets (λ s, f s.1)).

(** Lock a peer and call a method of its tunnel. *)
Definition on_tunnel {A} (r : nat) (m : M WireGuardError (Tunn * world) A) : DM (result WireGuardError A) := λ s,
  match s.(heap) !! r with
  | None => Panic
  | Some p =>
    match m (p.(tunnel), s.(dworld)) with
    | Ret (x, (t', w')) => Ret (Ok x, with_dworld w' (with_heap (<[r := with_tunnel t' p]> s.(heap)) s))
    | Panic => Panic
    end
  end.

(** ** Operations *)

(** The device that [Device::new] starts from. *)
Definition Device_new (lfsr : IndexLfsr) (use_connected_socket : bool) : Device := {|
  key_pair := None;
  listen_port := 0;
  fwmark := None;
  udp4 := None;
  udp6 := None;
  peers := ∅;
  peers_by_ip := AllowedIps_new;
  peers_by_idx := ∅;
  d_next_index := lfsr;
  use_connected_socket := use_connected_socket;
  d_rate_limiter := None;
|}.

Definition next_index : DM Z :=
  zoom (λ s, s.(dev).(d_next_index)) (λ l s, with_dev (with_lfsr l s.(dev)) s) lfsr_next.

Definition remove_peer (pub_key : bytes) : DM () :=
  d ← d_gets id;
  match d.(peers) !! pub_key with
  | None => mret ()
  | Some peer =>
    _ ← d_modify (λ d, with_peers (delete pub_key d.(peers)) d.(peers_by_ip) d.(peers_by_idx) d);
    _ ← on_peer peer shutdown_endpoint;
    i ← peer_gets peer p_index;
    _ ← d_modify (λ d, with_peers d.(peers) d.(peers_by_ip) (delete i d.(peers_by_idx)) d);
    d_modify (λ d, with_peers d.(peers) (remove (λ p, bool_decide (peer = p)) d.(peers_by_ip)) d.(peers_by_idx) d)
  end.

(** [Arc::new(Mutex::new(peer))] *)
Definition new_peer (p : Peer) : DM nat := λ s,
  let r := fresh (dom s.(heap)) in
  Ret (Ok r, with_heap (<[r := p]> s.(heap)) s).

Definition update_peer (pub_key : bytes) (remove _replace_ips : bool) (endpoint : option SocketAddr)
    (allowed_ips : list AllowedIP) (keepalive : option Z) (preshared_key : option bytes) : DM () :=
  if remove then remove_peer pub_key
  else
    ps ← d_gets peers;
    _ ← assert_ (bool_decide (ps !! pub_key = None));
    next_index ← next_index;
    kp ← d_gets key_pair;
    match kp with
    | None => mret ()
    | Some device_key_pair =>
      tunn ← zoom dworld with_dworld (Tunn_new device_key_pair.1 pub_key preshared_key keepalive next_index None);
      peer ← Peer_new tunn next_index endpoint allowed_ips preshared_key;
      peer ← new_peer peer;
      _ ← d_modify (λ d, with_peers (<[pub_key := peer]> d.(peers)) d.(peers_by_ip) d.(peers_by_idx) d);
      _ ← d_modify (λ d, with_peers d.(peers) d.(peers_by_ip) (<[next_index := peer]> d.(peers_by_idx)) d);
      for_each allowed_ips (λ ip,
        _ ← zoom (λ s, s.(dev).(peers_by_ip))
              (λ t s, with_dev (with_peers s.(dev).(peers) t s.(dev).(peers_by_idx) s.(dev)) s)
              (ips_insert ip.(ai_addr) ip.(ai_cidr) peer);
        mret ())
    end.

Definition clear_peers : DM () := d_modify (with_peers ∅ AllowedIps_new ∅).

(** [Arc::new(RateLimiter::new(&public_key, HANDSHAKE_RATE_LIMIT))] *)
Definition device_limiter (public_key : bytes) : DM nat :=
  rl ← zoom (λ s, s.(dworld).(w_env)) (λ e s, with_dworld (with_w_env e s.(dworld)) s)
         (RateLimiter_new public_key HANDSHAKE_RATE_LIMIT);
  l ← gets (λ s, fresh (dom s.(dworld).(w_limiters)));
  _ ← modify (λ s, with_dworld (MkWorld s.(dworld).(w_env) (<[l := rl]> s.(dworld).(w_limiters))) s);
  mret l.

Definition set_key (private_key : bytes) : DM () :=
  let public_key := x25519_public private_key in
  kp ← d_gets key_pair;
  if decide (Some public_key = snd <$> kp) then mret ()
  else
    rate_limiter ← device_limiter public_key;
    ps ← d_gets peers;
    _ ← for_each (values ps) (λ peer,
          _ ← on_tunnel peer (tunn_set_static_private private_key public_key (Some rate_limiter));
          mret ());
    d_modify (with_key_pair (Some (private_key, public_key)) (Some rate_limiter)).

Definition set_fwmark (mark : Z) : DM () :=
  _ ← d_modify (with_fwmark (Some mark));
  d ← d_gets id;
  _ ← (match d.(udp4) with Some sock => _ ← d_sys (sys (SetMark sock mark)); mret () | None => mret () end);
  _ ← (match d.(udp6) with Some sock => _ ← d_sys (sys (SetMark sock mark)); mret () | None => mret () end);
  for_each (values d.(peers)) (λ peer,
    e ← peer_gets peer p_endpoint;
    match e.(ep_conn) with
    | Some sock => _ ← d_sys (sys (SetMark sock mark)); mret ()
    | None => mret ()
    end).

(** A listening socket for one family. *)
Definition listen_on (v4 : bool) (port : Z) : DM Z :=
  sock ← d_sys (sys (SockNew v4 DGRAM));
  _ ← d_sys (sys (SetReuseAddress sock));
  _ ← d_sys (sys (BindTo sock v4 port));
  _ ← d_sys (sys (SetNonblocking sock));
  mret sock.

Definition register_udp_handler (fd : Z) : DM () := _ ← d_sys (sys (RegisterUdp fd)); mret ().

Definition open_listen_socket (port : Z) : DM () :=
  d ← d_gets id;
  _ ← d_modify (λ d, with_udp None d.(udp6) d);
  _ ← (match d.(udp4) with Some s => d_sys (sys_ (Unregister s)) | None => mret () end);
  _ ← d_modify (λ d, with_udp d.(udp4) None d);
  _ ← (match d.(udp6) with Some s => d_sys (sys_ (Unregister s)) | None => mret () end);
  _ ← for_each (values d.(peers)) (λ peer, on_peer peer shutdown_endpoint);
  udp_sock4 ← listen_on true port;
  port ← (if port =? 0 then d_sys (sys (LocalPort udp_sock4)) else mret port);
  udp_sock6 ← listen_on false port;
  c4 ← d_sys (sys_unwrap (TryClone udp_sock4));
  _ ← register_udp_handler c4;
  c6 ← d_sys (sys_unwrap (TryClone udp_sock6));
  _ ← register_udp_handler c6;
  _ ← d_modify (with_udp (Some udp_sock4) (Some udp_sock6));
  d_modify (with_listen_port port).
End Devices.

(** ** Invariant of the maps *)

Section DeviceInvariant.
Context `{CryptoLaws, NetTableLaws, HashOrder}.

Definition peer_key (p : Peer) : bytes := p.(tunnel).(handshake).(params).(peer_static_public).

(** The same peer after some of its methods. *)
Definition same_peer (p p' : Peer) : Prop :=
  p'.(p_index) = p.(p_index) ∧ peer_key p' = peer_key p ∧ p'.(p_allowed_ips) = p.(p_allowed_ips).

Definition heap_le (h h' : gmap nat Peer) : Prop :=
  ∀ r p, h !! r = Some p → ∃ p', h' !! r = Some p' ∧ same_peer p p'.

(** No peer comes or goes. *)
Record keeps_peers (s s' : dstate) : Prop := {
  kp_peers : s'.(dev).(peers) = s.(dev).(peers);
  kp_ip : s'.(dev).(peers_by_ip) = s.(dev).(peers_by_ip);
  kp_idx : s'.(dev).(peers_by_idx) = s.(dev).(peers_by_idx);
  kp_lfsr : s'.(dev).(d_next_index) = s.(dev).(d_next_index);
  kp_heap : heap_le s.(heap) s'.(heap);
}.

#[export] Instance same_peer_preorder : PreOrder same_peer.
Proof. split; [by intros p|]. intros p q r (?&?&?) (?&?&?). unfold same_peer. intuition congruence. Qed.

#[export] Instance heap_le_preorder : PreOrder heap_le.
Proof.
  split.
  - intros h r p Hp. eexists. split; [done|reflexivity].
  - intros h1 h2 h3 H12 H23 r p Hp. destruct (H12 r p Hp) as (p2 & Hp2 & Hs2).
    destruct (H23 r p2 Hp2) as (p3 & Hp3 & Hs3). eexists. split; [done|]. by etransitivity.
Qed.

#[export] Instance keeps_peers_preorder : PreOrder keeps_peers.
Proof.
  split; [by split|]. intros s1 s2 s3 [????] [????]. split; [congruence..|]. by etransitivity.
Qed.

Lemma heap_le_insert h r p p' : h !! r = Some p → same_peer p p' → heap_le h (<[r := p']> h).
Proof.
  intros Hr Hs q x Hq. destruct (decide (q = r)) as [->|Hne].
  - rewrite lookup_insert_eq. eexists. split; [done|]. by simplify_eq.
  - rewrite lookup_insert_ne by done. eexists. split; [done|reflexivity].
Qed.

(** Every peer is found by its key and by its index, and nothing else is. *)
Record device_inv (s : dstate) : Prop := {
  di_key : ∀ k r, s.(dev).(peers) !! k = Some r → ∃ p, s.(heap) !! r = Some p ∧ peer_key p = k ∧
    s.(dev).(peers_by_idx) !! p.(p_index) = Some r;
  di_idx : ∀ i r, s.(dev).(peers_by_idx) !! i = Some r → ∃ k p, s.(dev).(peers) !! k = Some r ∧
    s.(heap) !! r = Some p ∧ p.(p_index) = i;
  di_ip : ∀ n r, exact_match s.(dev).(peers_by_ip) n = Some r → ∃ k, s.(dev).(peers) !! k = Some r;
  di_lfsr : ∃ n, lfsr_at n s.(dev).(d_next_index) ∧ ∀ i r, s.(dev).(peers_by_idx) !! i = Some r →
    ∃ k, (k < n)%nat ∧ i = index_at s.(dev).(d_next_index) k;
}.

Lemma device_inv_keeps s s' : keeps_peers s s' → device_inv s → device_inv s'.
Proof.
  intros [Hp Hip Hidx Hl Hh] [Hk Hi Hn Hlf]. split; rewrite ?Hp, ?Hip, ?Hidx, ?Hl; [| |done|done].
  - intros k r Hr. destruct (Hk k r Hr) as (p & Hpr & Hkey & Hix). destruct (Hh r p Hpr) as (p' & Hp' & Hx & Hy & _).
    exists p'. rewrite Hx, Hy. done.
  - intros i r Hr. destruct (Hi i r Hr) as (k & p & Hkr & Hpr & Hix). destruct (Hh r p Hpr) as (p' & Hp' & Hx & _).
    exists k, p'. rewrite Hx. done.
Qed.

(** Methods that keep the peers. *)
Lemma on_peer_keeps {A} r (m : M Error (Peer * os) A) :
  preserves (λ s s', same_peer s.1 s'.1) m → preserves keeps_peers (on_peer r m).
Proof.
  intros Hm s x s'. unfold on_peer. destruct (heap s !! r) as [p|] eqn:Hp; [|done].
  destruct (m (p, dos s)) as [[y [p' o']]|] eqn:He; [|done]. intros [= <- <-].
  apply Hm in He. split; cbn; [done..|]. by eapply heap_le_insert.
Qed.

Lemma on_tunnel_keeps {A} r (m : M WireGuardError (Tunn * world) A) :
  preserves (λ s s', s'.1.(handshake).(params).(peer_static_public) = s.1.(handshake).(params).(peer_static_public)) m →
  preserves keeps_peers (on_tunnel r m).
Proof.
  intros Hm s x s'. unfold on_tunnel. destruct (heap s !! r) as [p|] eqn:Hp; [|done].
  destruct (m (tunnel p, dworld s)) as [[y [t' w']]|] eqn:He; [|done]. intros [= <- <-].
  apply Hm in He. split; cbn; [done..|]. eapply heap_le_insert; [done|]. by split_and!.
Qed.

Lemma d_sys_keeps {A} (m : M Error os A) : preserves keeps_peers (d_sys m).
Proof. apply pres_zoom. intros s o. split; cbn; done. Qed.

Lemma d_gets_keeps {A} (f : Device → A) : preserves keeps_peers (d_gets f).
Proof. apply pres_gets, _. Qed.

#[local] Instance same_fst_preorder : PreOrder (λ s s' : Peer * os, same_peer s.1 s'.1).
Proof. split; [by intros [p o]|]. intros ???. apply transitivity. Qed.

Lemma p_os_same {A} (m : M Error os A) : preserves (λ s s' : Peer * os, same_peer s.1 s'.1) (p_os m).
Proof. apply pres_zoom. by intros. Qed.

Lemma with_endpoint_same e : preserves (λ s s' : Peer * os, same_peer s.1 s'.1) (p_modify (with_endpoint e)).
Proof. apply pres_modify. by intros. Qed.

Lemma p_gets_same {A} (f : Peer → A) : preserves (λ s s' : Peer * os, same_peer s.1 s'.1) (p_gets f).
Proof. apply pres_gets, _. Qed.

Hint Resolve d_sys_keeps d_gets_keeps p_os_same with_endpoint_same p_gets_same : preserves.

Lemma shutdown_same : preserves (λ s s' : Peer * os, same_peer s.1 s'.1) shutdown_endpoint.
Proof. unfold shutdown_endpoint. pres. Qed.

Lemma set_endpoint_same addr : preserves (λ s s' : Peer * os, same_peer s.1 s'.1) (set_endpoint addr).
Proof. unfold set_endpoint. pres. Qed.

Lemma connect_same port mark : preserves (λ s s' : Peer * os, same_peer s.1 s'.1) (connect_endpoint port mark).
Proof. unfold connect_endpoint. pres. Qed.

Lemma peer_gets_keeps {A} r (f : Peer → A) : preserves keeps_peers (peer_gets r f).
Proof. apply on_peer_keeps, pres_gets, _. Qed.

Hint Resolve shutdown_same set_endpoint_same connect_same peer_gets_keeps on_peer_keeps : preserves.

(** The key of the peer a tunnel is for. *)
Definition same_key (s s' : Tunn * world) : Prop :=
  s'.1.(handshake).(params).(peer_static_public) = s.1.(handshake).(params).(peer_static_public).

#[local] Instance same_key_preorder : PreOrder same_key.
Proof. split; [done|]. intros ???. unfold same_key. congruence. Qed.

Lemma set_static_keeps_key sk pk l : preserves same_key (tunn_set_static_private sk pk l).
Proof.
  unfold tunn_set_static_private, t_modify. pres; try first [apply pres_modify; by intros | apply pres_zoom; by intros].
  eapply (pres_zoom_rel same_key (λ h h', h'.(params).(peer_static_public) = h.(params).(peer_static_public))); [|done].
  eapply (pres_zoom_rel _ (λ p p', p'.(peer_static_public) = p.(peer_static_public))); [|done].
  intros p r p'. unfold NoiseParams_set_static_private, mbind, M_bind, assert_.
  destruct (bool_decide _); [|done]. by intros [= <- <-].
Qed.

Lemma set_static_keeps r sk pk l : preserves keeps_peers (on_tunnel r (tunn_set_static_private sk pk l)).
Proof. apply on_tunnel_keeps, set_static_keeps_key. Qed.

Hint Resolve set_static_keeps : preserves.

Lemma set_key_keeps sk : preserves keeps_peers (set_key sk).
Proof. unfold set_key, device_limiter, d_modify. pres; (apply pres_modify || apply pres_zoom); by intros. Qed.

Lemma set_fwmark_keeps mark : preserves keeps_peers (set_fwmark mark).
Proof. unfold set_fwmark, d_modify. pres. apply pres_modify. by intros. Qed.

Lemma open_listen_keeps port : preserves keeps_peers (open_listen_socket port).
Proof.
  unfold open_listen_socket, listen_on, register_udp_handler, d_modify. pres; apply pres_modify; by intros.
Qed.

(** ** Adding and removing peers *)

Lemma clear_peers_inv s s' r : clear_peers s = Ret (r, s') → device_inv s → device_inv s'.
Proof.
  intros [= <- <-] [_ _ _ (n & Hl & _)]. split; cbn.
  - intros k r Hr. by rewrite lookup_empty in Hr.
  - intros i r Hr. by rewrite lookup_empty in Hr.
  - intros i r. unfold AllowedIps_new. by rewrite exact_match_new.
  - exists n. split; [done|]. intros i r Hr. by rewrite lookup_empty in Hr.
Qed.

Lemma sys_unwrap_ok c o r o' : sys_unwrap c o = Ret (r, o') → ∃ v, r = Ok v.
Proof. unfold sys_unwrap. destruct (sys c o) as [[[v|e] o1]|]; intros [=]; simplify_eq; eauto. Qed.

Lemma shutdown_ok s r s' : shutdown_endpoint s = Ret (r, s') → r = Ok ().
Proof.
  unfold shutdown_endpoint. erewrite bind_ok by reflexivity. destruct (ep_conn _) as [conn|]; [|by intros [= <- _]].
  erewrite bind_ok by reflexivity. unfold p_os, zoom, mbind, M_bind.
  destruct (sys_unwrap _ _) as [[x o1]|] eqn:Hx; [|done]. destruct (sys_unwrap_ok _ _ _ _ Hx) as [v ->].
  by intros [= <- _].
Qed.

Lemma on_peer_shutdown_ok q s r s' : on_peer q shutdown_endpoint s = Ret (r, s') → r = Ok ().
Proof.
  unfold on_peer. destruct (heap s !! q); [|done]. destruct (shutdown_endpoint _) as [[x [p' o']]|] eqn:Hx; [|done].
  apply shutdown_ok in Hx as ->. by intros [= <- _].
Qed.

(** The maps without one peer. *)
Lemma device_inv_remove s s2 k q p :
  device_inv s → s.(dev).(peers) !! k = Some q → s.(heap) !! q = Some p → heap_le s.(heap) s2.(heap) →
  s2.(dev).(peers) = delete k s.(dev).(peers) →
  s2.(dev).(peers_by_ip) = remove (λ r, bool_decide (q = r)) s.(dev).(peers_by_ip) →
  s2.(dev).(peers_by_idx) = delete p.(p_index) s.(dev).(peers_by_idx) →
  s2.(dev).(d_next_index) = s.(dev).(d_next_index) → device_inv s2.
Proof.
  intros [Hk Hi Hn Hl] Hkq Hq Hle Hp Hip Hix Hlf.
  destruct (Hk k q Hkq) as (p0 & Hp0 & Hkey & Hpix). simplify_eq.
  split; rewrite ?Hp, ?Hip, ?Hix, ?Hlf.
  - intros k' r [Hne Hr]%lookup_delete_Some. destruct (Hk k' r Hr) as (p1 & Hp1 & Hkey1 & Hix1).
    destruct (Hle r p1 Hp1) as (p2 & Hp2 & Hx & Hy & _). exists p2. rewrite Hx, Hy. split_and!; [done|done|].
    apply lookup_delete_Some. split; [|done]. intros He. rewrite He in Hpix. simplify_eq.
  - intros i r [Hne Hr]%lookup_delete_Some. destruct (Hi i r Hr) as (k' & p1 & Hk' & Hp1 & Hix1).
    destruct (Hle r p1 Hp1) as (p2 & Hp2 & Hx & _). exists k', p2. rewrite Hx. split_and!; [|done|done].
    apply lookup_delete_Some. split; [|done]. intros <-. by simplify_eq.
  - intros n r [He Hne]%retain_match. destruct (Hn n r He) as [k' Hk']. exists k'.
    apply lookup_delete_Some. split; [|done]. intros <-. simplify_eq. by rewrite bool_decide_eq_true_2 in Hne.
  - destruct Hl as (n & Hn1 & Hn2). exists n. split; [done|]. intros i r [_ Hr]%lookup_delete_Some. eauto.
Qed.

Lemma remove_peer_inv k s r s' : remove_peer k s = Ret (r, s') → device_inv s → device_inv s'.
Proof.
  unfold remove_peer. erewrite bind_ok by reflexivity. unfold id. intros Hrun Hinv.
  destruct (peers (dev s) !! k) as [q|] eqn:Hq; [|by revert Hrun; intros [= <- <-]].
  destruct (di_key _ Hinv k q Hq) as (p & Hp & Hkey & Hix).
  erewrite bind_ok in Hrun by reflexivity. set (s1 := with_dev _ s) in Hrun.
  apply bind_any_inv in Hrun as [(a & s2 & Hsd & Hrun)|(e & Hsd & _)];
    [|by apply on_peer_shutdown_ok in Hsd].
  assert (Hkp : keeps_peers s1 s2) by (eapply on_peer_keeps; [exact shutdown_same|exact Hsd]).
  destruct (kp_heap _ _ Hkp q p Hp) as (p2 & Hp2 & Hx & _).
  erewrite bind_ok in Hrun by (unfold peer_gets, on_peer; rewrite Hp2; reflexivity).
  erewrite bind_ok in Hrun by reflexivity. revert Hrun. intros [= <- <-].
  destruct Hkp as [K1 K2 K3 K4 K5].
  apply (device_inv_remove s _ k q p Hinv Hq Hp); cbn.
  - intros r0 p0 Hr0. destruct (K5 r0 p0 Hr0) as (p' & Hp' & Hs'). exists p'. split; [|done].
    destruct (decide (r0 = q)) as [->|]; [rewrite lookup_insert_eq; congruence|by rewrite lookup_insert_ne].
  - by rewrite K1.
  - by rewrite K2.
  - by rewrite K3, Hx.
  - by rewrite K4.
Qed.

(** The maps with one more peer, found under a key and an index that are new. *)
Lemma device_inv_add s s2 k q p n :
  device_inv s → s.(dev).(peers) !! k = None → s.(heap) !! q = None → peer_key p = k →
  lfsr_at n s2.(dev).(d_next_index) →
  (∀ i r, s.(dev).(peers_by_idx) !! i = Some r → ∃ j, (j < n)%nat ∧ i = index_at s2.(dev).(d_next_index) j) →
  (∃ j, (j < n)%nat ∧ p.(p_index) = index_at s2.(dev).(d_next_index) j) →
  s.(dev).(peers_by_idx) !! p.(p_index) = None →
  s2.(heap) = <[q := p]> s.(heap) →
  s2.(dev).(peers) = <[k := q]> s.(dev).(peers) →
  s2.(dev).(peers_by_idx) = <[p.(p_index) := q]> s.(dev).(peers_by_idx) →
  (∀ m r, exact_match s2.(dev).(peers_by_ip) m = Some r → r = q ∨ exact_match s.(dev).(peers_by_ip) m = Some r) →
  device_inv s2.
Proof.
  intros [Hk Hi Hip Hl] Hnk Hnq Hkey Hat Hold Hj Hni Hh Hp Hix Hip2.
  split; rewrite ?Hh, ?Hp, ?Hix.
  - intros k' r [[<- <-]|[Hne Hr]]%lookup_insert_Some.
    + exists p. by rewrite !lookup_insert_eq.
    + destruct (Hk k' r Hr) as (p1 & Hp1 & Hkey1 & Hix1). exists p1.
      rewrite !lookup_insert_ne; [done|congruence|congruence].
  - intros i r [[<- <-]|[Hne Hr]]%lookup_insert_Some.
    + exists k, p. by rewrite !lookup_insert_eq.
    + destruct (Hi i r Hr) as (k' & p1 & Hk' & Hp1 & Hix1). exists k', p1.
      rewrite !lookup_insert_ne; [done|congruence|congruence].
  - intros m r [->|Hm]%Hip2; [exists k; by rewrite lookup_insert_eq|].
    destruct (Hip m r Hm) as [k' Hk']. exists k'. rewrite lookup_insert_ne; [done|congruence].
  - exists n. split; [done|]. intros i r [[<- <-]|[Hne Hr]]%lookup_insert_Some; eauto.
Qed.

Lemma Tunn_new_key {E} sk pk psk ka idx l w t w' :
  @Tunn_new _ E sk pk psk ka idx l w = Ret (Ok t, w') → t.(handshake).(params).(peer_static_public) = pk.
Proof.
  unfold Tunn_new. intros (h & w1 & Hh & (x & w2 & _ & (rl & w3 & _ & Hr)%bind_inv)%bind_inv)%bind_inv.
  revert Hr. intros [= <- _]. cbn. revert Hh. unfold zoom.
  destruct (Handshake_new _ _ _ _ _ (w_env w)) as [[r e]|] eqn:Hr; [|done]. intros [= -> _].
  unfold Handshake_new in Hr. apply bind_inv in Hr as (? & ? & _ & Hr). revert Hr. by intros [= <- _].
Qed.

Lemma Peer_new_parts {E S} t i ep ips psk (s s' : S) p :
  @Peer_new _ E S t i ep ips psk s = Ret (Ok p, s') → s' = s ∧ p.(tunnel) = t ∧ p.(p_index) = i.
Proof.
  unfold Peer_new, on_local, mbind, M_bind. destruct (from_iter _ _) as [[[[]|e] tb]|]; [|done..].
  by intros [= <- <-].
Qed.

(** Inserting networks for a peer changes only the map by networks. *)
Definition ip_added (q : nat) (s s' : dstate) : Prop :=
  s'.(heap) = s.(heap) ∧ s'.(dev).(peers) = s.(dev).(peers) ∧ s'.(dev).(peers_by_idx) = s.(dev).(peers_by_idx) ∧
  s'.(dev).(d_next_index) = s.(dev).(d_next_index) ∧
  ∀ m r, exact_match s'.(dev).(peers_by_ip) m = Some r → r = q ∨ exact_match s.(dev).(peers_by_ip) m = Some r.

#[local] Instance ip_added_preorder q : PreOrder (ip_added q).
Proof.
  split; [by intros s; split_and!; auto|]. intros s1 s2 s3 (?&?&?&?&H12) (?&?&?&?&H23).
  split_and!; [congruence..|]. intros m r [->|Hm]%H23; [by left|auto].
Qed.

Lemma insert_ip_added ip (q : nat) :
  preserves (ip_added q) (zoom (λ s, s.(dev).(peers_by_ip))
    (λ t s, with_dev (with_peers s.(dev).(peers) t s.(dev).(peers_by_idx) s.(dev)) s)
    (@ips_insert _ nat Error ip.(ai_addr) ip.(ai_cidr) q)).
Proof.
  apply (pres_zoom_rel _ (λ t t' : table nat, ∀ m r, exact_match t' m = Some r → r = q ∨ exact_match t m = Some r)).
  - intros t r t'. unfold ips_insert. destruct (new_truncate _ _) as [n|]; [|done].
    do 3 (erewrite bind_ok by reflexivity). intros [= _ <-] m r'. intros [[-> ->]|[_ He]]%insert_entries; auto.
  - intros s t Ht. by split_and!.
Qed.

(** The generator after one more index, which no peer has. *)
Lemma next_index_fresh n s r s1 :
  lfsr_at n s.(dev).(d_next_index) →
  (∀ i q, s.(dev).(peers_by_idx) !! i = Some q → ∃ k, (k < n)%nat ∧ i = index_at s.(dev).(d_next_index) k) →
  next_index s = Ret (r, s1) →
  ∃ l, s1 = with_dev (with_lfsr l s.(dev)) s ∧ r = Ok (index_at l n) ∧ lfsr_at (S n) l ∧
    s.(dev).(peers_by_idx) !! index_at l n = None ∧
    ∀ i q, s.(dev).(peers_by_idx) !! i = Some q → ∃ k, (k < S n)%nat ∧ i = index_at l k.
Proof.
  intros Hat Hold. unfold next_index, zoom. destruct (lfsr_next _) as [[x l]|] eqn:Hl; [|done]. intros [= <- <-].
  destruct (lfsr_next_fresh n _ _ _ Hat Hl) as (-> & Hat' & Hsame & Hfresh). exists l. rewrite Hsame.
  split_and!; [done|done|done| |].
  - destruct (peers_by_idx (dev s) !! _) as [q|] eqn:Hq; [|done].
    destruct (Hold _ _ Hq) as (k & Hk & He). by destruct (Hfresh k Hk).
  - intros i q Hq. destruct (Hold _ _ Hq) as (k & Hk & ->). exists k. split; [lia|]. by rewrite Hsame.
Qed.

(** A state that differs from one with the invariant only in the generator,
    the clocks and the limiters. *)
Lemma device_inv_drawn s n l w :
  device_inv s → lfsr_at n l →
  (∀ i q, s.(dev).(peers_by_idx) !! i = Some q → ∃ k, (k < n)%nat ∧ i = index_at l k) →
  device_inv (with_dworld w (with_dev (with_lfsr l s.(dev)) s)).
Proof. intros [Hk Hi Hip _] Hat Hold. split; cbn; [done..|]. by exists n. Qed.

Lemma update_peer_inv k rm rep ep ips ka psk s r s' :
  update_peer k rm rep ep ips ka psk s = Ret (r, s') → device_inv s → device_inv s'.
Proof.
  unfold update_peer. destruct rm; [by apply remove_peer_inv|]. erewrite bind_ok by reflexivity.
  intros Hrun Hinv. unfold assert_ in Hrun. destruct (bool_decide _) eqn:Hnk; [|done].
  apply bool_decide_eq_true in Hnk. erewrite bind_ok in Hrun by reflexivity.
  destruct (di_lfsr _ Hinv) as (n & Hat & Hold).
  apply bind_any_inv in Hrun as [(i & s1 & Hi & Hrun)|(e & Hi & _)];
    destruct (next_index_fresh n _ _ _ Hat Hold Hi) as (l & -> & He & Hat' & Hni & Hold'); simplify_eq.
  erewrite bind_ok in Hrun by reflexivity. cbn in Hrun. destruct (key_pair (dev s)) as [kp|].
  2:{ revert Hrun. intros [= _ <-]. by apply (device_inv_drawn s (S n) l (dworld s)). }
  apply bind_any_inv in Hrun as [(t & s2 & Ht & Hrun)|(e & Ht & _)]; revert Ht; unfold zoom;
    destruct (Tunn_new _ _ _ _ _ _ _) as [[x w]|] eqn:Hx; try done; intros [= -> <-].
  2:{ by apply (device_inv_drawn s (S n) l w). }
  apply Tunn_new_key in Hx.
  apply bind_any_inv in Hrun as [(p & s3 & Hp & Hrun)|(e & Hp & _)].
  2:{ revert Hp. unfold Peer_new, on_local, mbind, M_bind.
      destruct (from_iter _ _) as [[[[]|e'] tb]|]; [done| |done]. intros [= _ <-].
      by apply (device_inv_drawn s (S n) l w). }
  apply Peer_new_parts in Hp as (-> & Hpt & Hpi).
  do 3 (erewrite bind_ok in Hrun by reflexivity).
  apply (pres_for_each (ip_added (fresh (dom (heap s))))) in Hrun as (Hh & Hps & Hix & Hlf & Hip).
  - apply (device_inv_add s s' k (fresh (dom (heap s))) p (S n)); rewrite ?Hh, ?Hps, ?Hix, ?Hlf, ?Hpi; cbn; try done.
    + apply not_elem_of_dom, is_fresh.
    + by unfold peer_key; rewrite Hpt.
    + exists n. split; [lia|done].
  - intros ip. pres. apply insert_ip_added.
Qed.

(** ** Any sequence of configuration operations *)

Inductive config_op : Type :=
| OpKey (private_key : bytes)
| OpListen (port : Z)
| OpMark (mark : Z)
| OpClear
| OpPeer (pub_key : bytes) (remove replace_ips : bool) (endpoint : option SocketAddr)
    (allowed_ips : list AllowedIP) (keepalive : option Z) (preshared_key : option bytes).

Definition configure (op : config_op) : M Error dstate () :=
  match op with
  | OpKey k => set_key k
  | OpListen port => open_listen_socket port
  | OpMark mark => set_fwmark mark
  | OpClear => clear_peers
  | OpPeer k rm rep ep ips ka psk => update_peer k rm rep ep ips ka psk
  end.

(** One after the other; an error does not stop the next one. *)
Definition configure_all (ops : list config_op) : M Error dstate () :=
  for_each ops (λ op, _ ← try_ (configure op); mret ()).

Lemma configure_inv op s r s' : configure op s = Ret (r, s') → device_inv s → device_inv s'.
Proof.
  destruct op; cbn [configure].
  - intros Hr. apply device_inv_keeps. by eapply set_key_keeps.
  - intros Hr. apply device_inv_keeps. by eapply open_listen_keeps.
  - intros Hr. apply device_inv_keeps. by eapply set_fwmark_keeps.
  - apply clear_peers_inv.
  - apply update_peer_inv.
Qed.

Lemma configure_all_inv ops s r s' : configure_all ops s = Ret (r, s') → device_inv s → device_inv s'.
Proof.
  assert (Hp : preserves (λ s s', device_inv s → device_inv s') (configure_all ops)); [|by eapply Hp].
  assert (PreOrder (λ s s', device_inv s → device_inv s')) by (split; [by intros ?|by intros ??? Ha Hb ?; apply Hb, Ha]).
  apply pres_for_each; [done|]. intros op. apply pres_bind; [done| |intros; by apply pres_ret].
  apply pres_try. intros ??? Hr. by eapply configure_inv.
Qed.

Lemma device_new_inv l b w o : lfsr_new l → device_inv (MkD (Device_new l b) ∅ w o).
Proof.
  intros Hl. split; cbn.
  - intros k r Hr. by rewrite lookup_empty in Hr.
  - intros k r Hr. by rewrite lookup_empty in Hr.
  - intros n r. unfold AllowedIps_new. by rewrite exact_match_new.
  - exists 0%nat. split; [by apply lfsr_at_new|]. intros i r Hr. by rewrite lookup_empty in Hr.
Qed.

(** C23.  The maps of a device agree after any sequence of configuration
    operations: a peer that is found by its public key is the peer with that
    key, it is found by its index as well, a peer that is found by an index or
    by an allowed network is one of the peers, and different peers have
    different indexes. *)
Theorem peer_maps_agree l b w o ops r s :
  lfsr_new l → configure_all ops (MkD (Device_new l b) ∅ w o) = Ret (r, s) →
  (∀ k q, s.(dev).(peers) !! k = Some q → ∃ p, s.(heap) !! q = Some p ∧ peer_key p = k ∧
    s.(dev).(peers_by_idx) !! p.(p_index) = Some q ∧
    ∀ k' q' p', s.(dev).(peers) !! k' = Some q' → s.(heap) !! q' = Some p' →
      p'.(p_index) = p.(p_index) → k' = k) ∧
  (∀ i q, s.(dev).(peers_by_idx) !! i = Some q → ∃ k p, s.(dev).(peers) !! k = Some q ∧
    s.(heap) !! q = Some p ∧ p.(p_index) = i) ∧
  (∀ a q, ip_wf a → find s.(dev).(peers_by_ip) a = Some q → ∃ k, s.(dev).(peers) !! k = Some q).
Proof.
  intros Hl Hrun. apply configure_all_inv in Hrun; [|by apply device_new_inv]. destruct Hrun as [Hk Hi Hip _].
  split_and!; [|done|].
  - intros k q Hq. destruct (Hk k q Hq) as (p & Hp & Hkey & Hix). exists p. split_and!; [done..|].
    intros k' q' p' Hq' Hp' He. destruct (Hk k' q' Hq') as (p2 & Hp2 & Hkey2 & Hix2). simplify_eq.
    rewrite He in Hix2. by simplify_eq.
  - intros a q Ha ([n d] & Hl2 & ->)%fmap_Some. apply longest_match_some in Hl2 as (He & _); [|done]. eauto.
Qed.
End DeviceInvariant.

Section DeviceWitnesses.
#[local] Existing Instance toy_crypto.
#[local] Existing Instance toy_laws.
#[local] Existing Instance map_table.
#[local] Existing Instance map_table_laws.

#[local] Instance by_key : HashOrder := {| entries m := map_to_list m; entries_perm _ := reflexivity _ |}.

(** Every call succeeds with descriptor seven. *)
Definition test_os : os := MkOs [] (λ _ _, Some 7).
Definition test_device : dstate :=
  MkD (Device_new (MkIndexLfsr 1 1 77) true) ∅ (MkWorld test_env ∅) test_os.

Definition test_ops : list config_op :=
  [ OpKey k1; OpListen 51820;
    OpPeer (x25519_public k2) false false None [MkAllowedIP (v4 10 0 0 0) 8] None None;
    OpPeer k1 false false None [MkAllowedIP (v4 10 1 0 0) 16] (Some 25) (Some k2);
    OpPeer k1 true false None [] None None; OpMark 5 ].

Definition runs {E A} (o : outcome (result E A * dstate)) : bool := match o with Ret _ => true | Panic => false end.

Lemma test_lfsr : lfsr_new (MkIndexLfsr 1 1 77).
Proof. by split. Qed.

Lemma peer_maps_agree_witness :
  ∃ r s, configure_all test_ops test_device = Ret (r, s) ∧
    ∀ i q, s.(dev).(peers_by_idx) !! i = Some q → ∃ k p, s.(dev).(peers) !! k = Some q ∧
      s.(heap) !! q = Some p ∧ p.(p_index) = i.
Proof.
  destruct (configure_all test_ops test_device) as [[r s]|] eqn:Hr.
  - exists r, s. split; [reflexivity|]. unfold test_device in Hr.
    destruct (peer_maps_agree (MkIndexLfsr 1 1 77) true (MkWorld test_env ∅) test_os test_ops r s
      test_lfsr Hr) as (_ & Hix & _). exact Hix.
  - exfalso. assert (Hok : runs (configure_all test_ops test_device) = true) by (vm_compute; reflexivity).
    rewrite Hr in Hok. discriminate Hok.
Defined.
End DeviceWitnesses.
