(* ===== verification/EventPoll.v ===== *)
(** * The registry of events (device/epoll.rs)

    An [EventPoll] keeps, under the number of its descriptor, each event that
    it registered with the epoll of the operating system; the data that epoll
    stores with a descriptor is the address of the event, which [wait]
    dereferences.  Addresses are locations in a heap of boxes; to follow one
    that is not there is undefined behaviour, which is [Panic] here.

    The operating system is its interest list, as epoll_ctl(2) describes it:
    adding what is there fails, changing or deleting what is not there fails,
    an entry with [EPOLLONESHOT] is disabled when it is reported until it is
    changed; an eventfd is a counter (eventfd(2)).  That any other call fails
    is up to its caller, who gives the answers. *)

From stdpp Require Import gmultiset.
From S2P Require Import Prelude Crypto Packet Tai64N Handshake RateLimiter Tunn Lfsr Text AllowedIps Peer Device.

(** Flags of Linux. *)
Definition EPOLLIN : Z := 0x1.
Definition EPOLLOUT : Z := 0x4.
Definition EPOLLHUP : Z := 0x10.
Definition EPOLLONESHOT : Z := Z.shiftl 1 30.
Definition EPOLLET : Z := Z.shiftl 1 31.

Definition U64_MAX : Z := 2 ^ 64 - 1.

Section EventPoll.
Context {Handler : Type}.

(** An event; [e_u64] is the address that is given to epoll. *)
Record Event := MkEvent {
  e_events : Z;
  e_u64 : nat;
  e_fd : Z;
  e_handler : Handler;
  e_notifier : bool;
  e_needs_read : bool;
}.

(** An entry of the interest list: flags, data, and whether it is enabled. *)
Record interest := MkInterest {
  i_events : Z;
  i_data : nat;
  i_enabled : bool;
}.

(** The registry, the boxes, and the operating system. *)
Record EventPoll := MkPoll {
  events : list (option nat);
  boxes : gmap nat Event;
  epoll : gmap Z interest;
  counters : gmap Z Z;
}.

Definition with_events (l : list (option nat)) (p : EventPoll) : EventPoll :=
  MkPoll l p.(boxes) p.(epoll) p.(counters).
Definition with_boxes (b : gmap nat Event) (p : EventPoll) : EventPoll :=
  MkPoll p.(events) b p.(epoll) p.(counters).
Definition with_epoll (k : gmap Z interest) (p : EventPoll) : EventPoll :=
  MkPoll p.(events) p.(boxes) k p.(counters).
Definition with_counters (c : gmap Z Z) (p : EventPoll) : EventPoll :=
  MkPoll p.(events) p.(boxes) p.(epoll) c.

Abbreviation EM := (M Error EventPoll).

(** ** System calls *)

(** [EPOLL_CTL_ADD]; [ok]: it does not fail for want of memory or the like. *)
Definition epoll_add (ok : bool) (fd events : Z) (data : nat) : EM bool := λ p,
  match p.(epoll) !! fd with
  | None => if ok then Ret (Ok true, with_epoll (<[fd := MkInterest events data true]> p.(epoll)) p) else Ret (Ok false, p)
  | Some _ => Ret (Ok false, p)
  end.

(** [EPOLL_CTL_DEL] *)
Definition epoll_del (fd : Z) : EM () := modify (λ p, with_epoll (delete fd p.(epoll)) p).

(** [EPOLL_CTL_MOD] *)
Definition epoll_mod (fd events : Z) (data : nat) : EM () := modify (λ p,
  match p.(epoll) !! fd with
  | Some _ => with_epoll (<[fd := MkInterest events data true]> p.(epoll)) p
  | None => p
  end).

(** [write] of eight bytes to an eventfd that does not block. *)
Definition eventfd_write (fd v : Z) : EM () := modify (λ p,
  let c := default 0 (p.(counters) !! fd) in
  if c + v <=? U64_MAX - 1 then with_counters (<[fd := c + v]> p.(counters)) p else p).

(** [read] of an eventfd. *)
Definition eventfd_read (fd : Z) : EM () := modify (λ p, with_counters (<[fd := 0]> p.(counters)) p).

(** ** The registry *)

(** [EventPoll::new]; [fd] is what [epoll_create] gives. *)
Definition EventPoll_new (fd : option Z) : result Error EventPoll :=
  match fd with Some _ => Ok (MkPoll [] ∅ ∅ ∅) | None => Err EventQueue end.

(** [events.push(None)] until the index fits. *)
Definition extend (index : nat) (l : list (option nat)) : list (option nat) :=
  l ++ replicate (S index - length l) None.

(** The box at an address goes. *)
Definition drop_box (a : nat) : EM () := modify (λ p, with_boxes (delete a p.(boxes)) p).

Definition insert_at (index : nat) (data : nat) : EM () :=
  _ ← modify (λ p, with_events (extend index p.(events)) p);
  old ← gets (λ p, p.(events) !! index);
  _ ← (match old with
       | Some (Some a) => _ ← drop_box a; epoll_del (Z.of_nat index)
       | _ => mret ()
       end);
  modify (λ p, with_events (<[index := Some data]> p.(events)) p).

(** The inner event points back to the box. *)
Definition pointing (a : nat) (ev : Event) : Event :=
  MkEvent ev.(e_events) a ev.(e_fd) ev.(e_handler) ev.(e_notifier) ev.(e_needs_read).

Definition register_event (ok : bool) (ev : Event) : EM Z :=
  a ← gets (λ p, fresh (dom p.(boxes)));
  let ev := pointing a ev in
  _ ← modify (λ p, with_boxes (<[a := ev]> p.(boxes)) p);
  _ ← insert_at (Z.to_nat ev.(e_fd)) a;
  added ← epoll_add ok ev.(e_fd) ev.(e_events) a;
  if added : bool then mret ev.(e_fd) else throw EventQueue.

Definition new_event (ok : bool) (trigger : Z) (handler : Handler) : EM Z :=
  register_event ok (MkEvent (Z.lor EPOLLIN EPOLLONESHOT) 0 trigger handler false false).

Definition new_write_event (ok : bool) (trigger : Z) (handler : Handler) : EM Z :=
  register_event ok (MkEvent (Z.lor (Z.lor EPOLLOUT EPOLLET) EPOLLONESHOT) 0 trigger handler false false).

(** The two calls of [timerfd_create], and [timerfd_settime]. *)
Definition new_periodic_event (ok : bool) (boottime monotonic : option Z) (set : bool) (handler : Handler) : EM Z :=
  match (match boottime with Some efd => Some efd | None => monotonic end) with
  | None => throw Timer
  | Some tfd =>
    if set then register_event ok (MkEvent (Z.lor EPOLLIN EPOLLONESHOT) 0 tfd handler false true)
    else throw Timer
  end.

(** [eventfd(0, EFD_NONBLOCK)] *)
Definition new_notifier (ok : bool) (efd : option Z) (handler : Handler) : EM Z :=
  match efd with
  | None => throw EventQueue
  | Some efd =>
    _ ← modify (λ p, with_counters (<[efd := 0]> p.(counters)) p);
    register_event ok (MkEvent EPOLLIN 0 efd handler true false)
  end.

(** [signalfd] *)
Definition new_signal_event (ok : bool) (sfd : option Z) (handler : Handler) : EM Z :=
  match sfd with
  | None => throw EventQueue
  | Some sfd => register_event ok (MkEvent (Z.lor EPOLLIN EPOLLONESHOT) 0 sfd handler false true)
  end.

(** The event of a notifier. *)
Definition notifier_event (trigger : Z) : EM Event :=
  l ← gets events;
  slot ← unwrap (l !! Z.to_nat trigger);
  a ← unwrap slot;
  b ← gets boxes;
  ev ← unwrap (b !! a);
  _ ← assert_ ev.(e_notifier);
  mret ev.

Definition trigger_notification (trigger : Z) : EM () :=
  _ ← notifier_event trigger;
  eventfd_write trigger (U64_MAX - 1).

Definition stop_notification (trigger : Z) : EM () :=
  _ ← notifier_event trigger;
  eventfd_read trigger.

Definition clear_event_by_fd (index : Z) : EM () :=
  _ ← assert_ (0 <=? index);
  l ← gets events;
  slot ← unwrap (l !! Z.to_nat index);
  match slot with
  | Some a =>
    _ ← modify (λ p, with_events (<[Z.to_nat index := None]> p.(events)) p);
    _ ← drop_box a;
    epoll_del index
  | None => mret ()
  end.

(** ** Waiting *)

(** What [epoll_wait] answers: an error, a number of events other than one,
    or an event with its flags. *)
Inductive wait_answer : Type :=
| WaitFailed
| WaitOdd
| WaitReady (fd revents : Z).

(** An eventfd can be read while its counter is not zero. *)
Definition readable (fd : Z) (p : EventPoll) : bool :=
  match p.(counters) !! fd with Some c => negb (c =? 0) | None => true end.

(** An entry that is not enabled is not reported; one with [EPOLLONESHOT] is
    disabled when it is. *)
Definition epoll_wait (ans : wait_answer) : EM (option (nat * Z)) := λ p,
  match ans with
  | WaitReady fd revents =>
    match p.(epoll) !! fd with
    | Some (MkInterest flags data true) =>
      let still := negb (Z.testbit flags 30) in
      if readable fd p then
        Ret (Ok (Some (data, revents)), with_epoll (<[fd := MkInterest flags data still]> p.(epoll)) p)
      else Ret (Ok None, p)
    | _ => Ret (Ok None, p)
    end
  | _ => Ret (Ok None, p)
  end.

(** A guard is the address of its event. *)
Inductive WaitResult : Type :=
| WaitOk (guard : nat)
| WaitEoF (guard : nat)
| WaitError.

(** The event at an address. *)
Definition deref (a : nat) : EM Event := b ← gets boxes; unwrap (b !! a).

Definition wait (ans : wait_answer) : EM WaitResult :=
  r ← epoll_wait ans;
  match r with
  | None => mret WaitError
  | Some (data, revents) =>
    _ ← deref data;
    mret (if Z.land revents EPOLLHUP =? 0 then WaitOk data else WaitEoF data)
  end.

(** [EventGuard::deref] *)
Definition guard_handler (a : nat) : EM Handler := ev ← deref a; mret ev.(e_handler).

Definition guard_fd (a : nat) : EM Z := ev ← deref a; mret ev.(e_fd).

(** [EventGuard::drop]; what is read from a timer or a signal before is not
    looked at. *)
Definition guard_drop (a : nat) : EM () :=
  ev ← deref a;
  epoll_mod ev.(e_fd) ev.(e_events) ev.(e_u64).

Definition cancel (a : nat) : EM () :=
  ev ← deref a;
  clear_event_by_fd ev.(e_fd).

Definition notify_writable (a : nat) (enabled : bool) : EM () :=
  ev ← deref a;
  let flags := if enabled then Z.lor (Z.lor (Z.lor EPOLLOUT EPOLLIN) EPOLLET) EPOLLONESHOT
               else Z.lor EPOLLIN EPOLLONESHOT in
  modify (λ p, with_boxes (<[a := MkEvent flags ev.(e_u64) ev.(e_fd) ev.(e_handler) ev.(e_notifier) ev.(e_needs_read)]>
                             p.(boxes)) p).
End EventPoll.
Arguments Event Handler : clear implicits.
Arguments EventPoll Handler : clear implicits.

(** ** The invariant *)

Section PollInvariant.
Context {Handler : Type}.

(** [g] are the guards that the threads hold.  Epoll knows only events that
    are there, under their own descriptor; what a guard refers to is there;
    and an event that is no notifier is disabled while somebody has a guard on
    it, and nobody else has. *)
Record poll_inv (p : EventPoll Handler) (g : gmultiset nat) : Prop := {
  pi_slot i a : p.(events) !! i = Some (Some a) → ∃ ev, p.(boxes) !! a = Some ev ∧ ev.(e_fd) = Z.of_nat i;
  pi_box a ev : p.(boxes) !! a = Some ev → 0 ≤ ev.(e_fd) ∧ p.(events) !! Z.to_nat ev.(e_fd) = Some (Some a) ∧
    ev.(e_u64) = a ∧ (ev.(e_notifier) = false → Z.testbit ev.(e_events) 30 = true);
  pi_epoll fd it : p.(epoll) !! fd = Some it → 0 ≤ fd ∧ p.(events) !! Z.to_nat fd = Some (Some it.(i_data)) ∧
    ∀ ev, p.(boxes) !! it.(i_data) = Some ev → ev.(e_notifier) = false → Z.testbit it.(i_events) 30 = true;
  pi_guard a : a ∈ g → is_Some (p.(boxes) !! a);
  pi_once a ev : a ∈ g → p.(boxes) !! a = Some ev → ev.(e_notifier) = false →
    multiplicity a g = 1%nat ∧ ∀ it, p.(epoll) !! ev.(e_fd) = Some it → it.(i_enabled) = false;
}.

Lemma length_extend i l : (i < length (extend i l))%nat.
Proof. unfold extend. rewrite length_app, length_replicate. lia. Qed.

Lemma extend_lookup i l j a : extend i l !! j = Some (Some a) ↔ l !! j = Some (Some a).
Proof.
  unfold extend. rewrite lookup_app_Some. split; [|by left]. intros [Hj|[_ [? _]%lookup_replicate]]; done.
Qed.

(** What a registration does. *)
Definition without_old (index : nat) (p : EventPoll Handler) (b : gmap nat (Event Handler)) : gmap nat (Event Handler) :=
  match p.(events) !! index with Some (Some o) => delete o b | _ => b end.

Definition registered_at (ok : bool) (ev : Event Handler) (p : EventPoll Handler) : EventPoll Handler :=
  let a := fresh (dom p.(boxes)) in
  let index := Z.to_nat ev.(e_fd) in
  MkPoll (<[index := Some a]> (extend index p.(events))) (without_old index p (<[a := pointing a ev]> p.(boxes)))
    (if ok then <[ev.(e_fd) := MkInterest ev.(e_events) a true]> (delete ev.(e_fd) p.(epoll)) else delete ev.(e_fd) p.(epoll))
    p.(counters).

Lemma insert_run index a (q : EventPoll Handler) :
  insert_at index a q = Ret (Ok (), MkPoll (<[index := Some a]> (extend index q.(events))) (without_old index q q.(boxes))
    (match q.(events) !! index with Some (Some _) => delete (Z.of_nat index) q.(epoll) | _ => q.(epoll) end) q.(counters)).
Proof.
  unfold insert_at, without_old, drop_box, epoll_del, modify, gets, mbind, M_bind. cbn.
  destruct (extend index (events q) !! index) as [[o|]|] eqn:He.
  - apply extend_lookup in He. by rewrite He.
  - destruct (events q !! index) as [[o|]|] eqn:Ho; [|done|done]. apply (extend_lookup index) in Ho. congruence.
  - apply lookup_ge_None in He. pose proof (length_extend index (events q)). lia.
Qed.

Lemma register_run ok ev p g :
  poll_inv p g → 0 ≤ ev.(e_fd) →
  register_event ok ev p = Ret (if ok then Ok ev.(e_fd) else Err EventQueue, registered_at ok ev p).
Proof.
  intros Hinv Hfd. unfold register_event, registered_at. do 2 (erewrite bind_ok by reflexivity). cbn [e_fd e_events pointing].
  erewrite bind_ok by apply insert_run. cbn [events boxes epoll counters with_boxes].
  rewrite Z2Nat.id by done. set (index := Z.to_nat ev.(e_fd)).
  assert (He : match p.(events) !! index with Some (Some _) => delete (e_fd ev) p.(epoll) | _ => p.(epoll) end =
    delete (e_fd ev) p.(epoll)).
  { assert (Hn : (∀ a, p.(events) !! index ≠ Some (Some a)) → p.(epoll) = delete (e_fd ev) p.(epoll)).
    { intros Hn. symmetry. apply delete_id. destruct (epoll p !! e_fd ev) as [it|] eqn:He; [|done].
      destruct (pi_epoll _ _ Hinv _ _ He) as (_ & Hs & _). by destruct (Hn _ Hs). }
    destruct (events p !! index) as [[o|]|]; [done|by apply Hn..]. }
  rewrite He. unfold epoll_add, mbind, M_bind. cbn [epoll]. rewrite lookup_delete_eq. by destruct ok.
Qed.

(** The three maps after a registration. *)
Lemma without_old_lookup p g a ev index b x :
  poll_inv p g → p.(boxes) !! a = None →
  without_old index p (<[a := pointing a ev]> p.(boxes)) !! b = Some x ↔
    (b = a ∧ x = pointing a ev) ∨ (b ≠ a ∧ p.(boxes) !! b = Some x ∧ p.(events) !! index ≠ Some (Some b)).
Proof.
  intros Hinv Ha. unfold without_old. destruct (events p !! index) as [[o|]|] eqn:Ho;
    rewrite ?lookup_delete_Some, lookup_insert_Some; [|naive_solver..].
  assert (o ≠ a) by (intros ->; destruct (pi_slot _ _ Hinv _ _ Ho) as (? & ? & _); congruence). naive_solver.
Qed.

Lemma slot_lookup index a l i b :
  <[index := Some a]> (extend index l) !! i = Some (Some b) ↔ (i = index ∧ b = a) ∨ (i ≠ index ∧ l !! i = Some (Some b)).
Proof. pose proof (length_extend index l). rewrite list_lookup_insert_Some, extend_lookup. naive_solver. Qed.

Lemma added_lookup ok fd it (m : gmap Z interest) fd' it' :
  (if ok : bool then <[fd := it]> (delete fd m) else delete fd m) !! fd' = Some it' →
  (fd' = fd ∧ it' = it) ∨ (fd' ≠ fd ∧ m !! fd' = Some it').
Proof. destruct ok; rewrite ?lookup_insert_Some, lookup_delete_Some; naive_solver. Qed.

(** A registration under a descriptor that nobody has a guard on. *)
Lemma register_inv ok ev p g :
  poll_inv p g → 0 ≤ ev.(e_fd) → (ev.(e_notifier) = false → Z.testbit ev.(e_events) 30 = true) →
  (∀ a, p.(events) !! Z.to_nat ev.(e_fd) = Some (Some a) → a ∉ g) → poll_inv (registered_at ok ev p) g.
Proof.
  intros Hinv Hfd Hone Hfree. unfold registered_at. set (a := fresh _). set (index := Z.to_nat _).
  assert (Ha : p.(boxes) !! a = None) by (apply not_elem_of_dom, is_fresh).
  pose proof (λ b x, without_old_lookup p g a ev index b x Hinv Ha) as Hbox.
  pose proof (slot_lookup index a (events p)) as Hslot.
  pose proof (added_lookup ok (e_fd ev) (MkInterest (e_events ev) a true) (epoll p)) as Hep.
  assert (Hown : ∀ b x, p.(boxes) !! b = Some x → p.(events) !! index ≠ Some (Some b) → Z.to_nat x.(e_fd) ≠ index).
  { intros b x Hb Hne Heq. destruct (pi_box _ _ Hinv _ _ Hb) as (_ & Hs & _). by rewrite Heq in Hs. }
  split; cbn.
  - intros i b [[-> ->]|[Hne Hi]]%Hslot.
    + exists (pointing a ev). split; [apply Hbox; by left|]. cbn. unfold index. lia.
    + destruct (pi_slot _ _ Hinv _ _ Hi) as (x & Hx & Hxf). exists x. split; [|done]. apply Hbox. right.
      split_and!; [congruence|done|]. intros Hi'. destruct (pi_slot _ _ Hinv _ _ Hi') as (y & Hy & Hyf). simplify_eq. lia.
  - intros b x [[-> ->]|(Hne & Hb & Ho)]%Hbox; [split_and!; [done| |done|done]; apply Hslot; by left|].
    destruct (pi_box _ _ Hinv _ _ Hb) as (H1 & H2 & H3 & H4). split_and!; [done| |done|done].
    apply Hslot. right. split; [by eapply Hown|done].
  - intros fd it [[-> ->]|[Hne Hf]]%Hep; cbn.
    + split_and!; [done|apply Hslot; by left|]. intros x [[_ ->]|(? & ? & ?)]%Hbox; done.
    + destruct (pi_epoll _ _ Hinv _ _ Hf) as (H1 & H2 & H3). split_and!; [done| |].
      * apply Hslot. right. split; [unfold index; lia|done].
      * intros x [[Hc _]|(_ & Hx & _)]%Hbox; [|by apply H3]. destruct (pi_slot _ _ Hinv _ _ H2) as (y & Hy & _). congruence.
  - intros b Hb. destruct (pi_guard _ _ Hinv b Hb) as [x Hx]. exists x. apply Hbox. right. split_and!; [congruence|done|].
    intros Ho. by apply (Hfree b Ho).
  - intros b x Hb [[-> _]|(Hne & Hx & Ho)]%Hbox Hn; [destruct (pi_guard _ _ Hinv a Hb) as [y Hy]; congruence|].
    destruct (pi_once _ _ Hinv b x Hb Hx Hn) as [H1 H2]. split; [done|]. intros it [[Hc _]|[_ Hit]]%Hep; [|by apply H2].
    destruct (Hown b x Hx Ho). by rewrite Hc.
Qed.

(** The other operations. *)
Lemma poll_clear_inv i p g :
  poll_inv p g → 0 ≤ i → (Z.to_nat i < length p.(events))%nat →
  (∀ a, p.(events) !! Z.to_nat i = Some (Some a) → a ∉ g) →
  ∃ p', clear_event_by_fd i p = Ret (Ok (), p') ∧ poll_inv p' g ∧ p'.(epoll) = delete i p.(epoll) ∧
    ∀ a, p'.(events) !! Z.to_nat i ≠ Some (Some a).
Proof.
  intros Hinv Hi [slot Hs]%lookup_lt_is_Some_2 Hfree. unfold clear_event_by_fd, assert_.
  rewrite (proj2 (Z.leb_le _ _)) by done. do 2 (erewrite bind_ok by reflexivity). rewrite Hs.
  erewrite bind_ok by reflexivity. destruct slot as [a|].
  2:{ exists p. split_and!; [done|done| |by intros a [=]; congruence]. symmetry. apply delete_id.
      destruct (epoll p !! i) as [it|] eqn:He; [|done]. destruct (pi_epoll _ _ Hinv _ _ He) as (_ & Hx & _). congruence. }
  do 2 (erewrite bind_ok by reflexivity). eexists. split; [reflexivity|].
  pose proof (lookup_lt_Some _ _ _ Hs) as Hlt. destruct (pi_slot _ _ Hinv _ _ Hs) as (ev & Hev & Hfd).
  assert (Hother : ∀ b x, b ≠ a → p.(boxes) !! b = Some x → Z.to_nat x.(e_fd) ≠ Z.to_nat i).
  { intros b x Hne Hb Heq. destruct (pi_box _ _ Hinv _ _ Hb) as (_ & Hx & _). rewrite Heq in Hx. congruence. }
  split_and!; [|done|intros b; cbn; rewrite list_lookup_insert_eq by done; done].
  split; cbn [events boxes epoll with_events with_boxes with_epoll].
  - intros j b Hj. apply list_lookup_insert_Some in Hj as [(_ & Hc & _)|[Hne Hj]]; [done|]. destruct (pi_slot _ _ Hinv _ _ Hj) as (x & Hx & Hxf).
    exists x. split; [|done]. apply lookup_delete_Some. split; [|done]. intros <-. simplify_eq. lia.
  - intros b x [Hne Hb]%lookup_delete_Some. destruct (pi_box _ _ Hinv _ _ Hb) as (H1 & H2 & H3 & H4).
    split_and!; [done| |done|done]. rewrite list_lookup_insert_ne; [done|]. intros Heq. by apply (Hother b x).
  - intros fd it [Hne Hf]%lookup_delete_Some. destruct (pi_epoll _ _ Hinv _ _ Hf) as (H1 & H2 & H3). split_and!; [done| |].
    + rewrite list_lookup_insert_ne by lia. done.
    + intros x [_ Hx]%lookup_delete_Some. by apply H3.
  - intros b Hb. destruct (pi_guard _ _ Hinv b Hb) as [x Hx]. exists x. apply lookup_delete_Some. split; [|done].
    intros <-. by apply (Hfree a).
  - intros b x Hb [Hne Hx]%lookup_delete_Some Hn. destruct (pi_once _ _ Hinv b x Hb Hx Hn) as [H1 H2]. split; [done|].
    intros it [_ Hit]%lookup_delete_Some. by apply H2.
Qed.

Lemma wait_inv ans p g :
  poll_inv p g →
  ∃ r p', wait ans p = Ret (Ok r, p') ∧
    poll_inv p' (match r with WaitOk a | WaitEoF a => {[+ a +]} ⊎ g | WaitError => g end).
Proof.
  intros Hinv. unfold wait, epoll_wait, mbind, M_bind. destruct ans as [| |fd revents]; [by eexists _, _..|].
  destruct (epoll p !! fd) as [[flags data enabled]|] eqn:He; [|by eexists _, _]. destruct enabled; [|by eexists _, _].
  destruct (readable fd p); [|by eexists _, _].
  destruct (pi_epoll _ _ Hinv _ _ He) as (H1 & H2 & H3). cbn [i_data i_events] in *.
  destruct (pi_slot _ _ Hinv _ _ H2) as (ev & Hev & Hfd). unfold deref, gets, unwrap, mbind, M_bind.
  cbn [boxes with_epoll]. rewrite Hev. eexists _, _. split; [reflexivity|].
  assert (Hinv' : poll_inv (with_epoll (<[fd := MkInterest flags data (negb (Z.testbit flags 30))]> (epoll p)) p)
    ({[+ data +]} ⊎ g)); [|by destruct (_ =? 0)].
  split; cbn [events boxes epoll with_epoll].
  - apply (pi_slot _ _ Hinv).
  - apply (pi_box _ _ Hinv).
  - intros fd' it [[<- <-]|[_ Hit]]%lookup_insert_Some; [done|]. by apply (pi_epoll _ _ Hinv).
  - intros b [->%gmultiset_elem_of_singleton|Hb]%gmultiset_elem_of_disj_union; [eauto|by apply (pi_guard _ _ Hinv)].
  - intros b x Hb Hx Hn. destruct (decide (b = data)) as [->|Hne].
    + assert (x = ev) as -> by congruence. assert (Hfree : data ∉ g).
      { intros Hg. destruct (pi_once _ _ Hinv _ _ Hg Hev Hn) as [_ Hoff]. rewrite Hfd, Z2Nat.id in Hoff by done.
        by specialize (Hoff _ He). }
      rewrite multiplicity_disj_union, multiplicity_singleton. split.
      * assert (multiplicity data g = 0%nat) as -> by multiset_solver. by rewrite decide_True.
      * rewrite Hfd, Z2Nat.id, (H3 _ Hev Hn), lookup_insert_eq by done. by intros it [= <-].
    + assert (Hg : b ∈ g) by multiset_solver. destruct (pi_once _ _ Hinv _ _ Hg Hx Hn) as [Hm Hoff]. split.
      * rewrite multiplicity_disj_union, multiplicity_singleton_ne by done. done.
      * intros it [[Hc <-]|[_ Hit]]%lookup_insert_Some; [|by apply Hoff].
        destruct (pi_box _ _ Hinv _ _ Hx) as (_ & Hs & _). rewrite <- Hc in Hs. congruence.
Qed.

Lemma deref_run (a : nat) (p : EventPoll Handler) ev : p.(boxes) !! a = Some ev → deref a p = Ret (Ok ev, p).
Proof. intros Ha. unfold deref, gets, unwrap, mbind, M_bind. by rewrite Ha. Qed.

(** One guard less. *)
Lemma fewer_guards (a b : nat) (g : gmultiset nat) :
  b ∈ g ∖ {[+ a +]} → b ∈ g ∧ (multiplicity b g = 1%nat → b ≠ a ∧ multiplicity b (g ∖ {[+ a +]}) = 1%nat).
Proof.
  rewrite !elem_of_multiplicity, multiplicity_difference, multiplicity_singleton. intros Hb. split; [lia|]. intros Hm.
  destruct (decide (b = a)); [lia|]. split; [done|lia].
Qed.

(** The guards without one. *)
Lemma others_hold (a b : nat) (g : gmultiset nat) : b ≠ a → multiplicity b (g ∖ {[+ a +]}) = multiplicity b g.
Proof. intros Hne. rewrite multiplicity_difference, multiplicity_singleton_ne by done. lia. Qed.

Lemma fewer_hold (a : nat) (g : gmultiset nat) : multiplicity a (g ∖ {[+ a +]}) = pred (multiplicity a g).
Proof. rewrite multiplicity_difference, multiplicity_singleton, decide_True by done. lia. Qed.

Lemma drop_inv a p g :
  poll_inv p g → a ∈ g → ∃ p', guard_drop a p = Ret (Ok (), p') ∧ poll_inv p' (g ∖ {[+ a +]}).
Proof.
  intros Hinv Ha. destruct (pi_guard _ _ Hinv a Ha) as [ev Hev]. unfold guard_drop.
  erewrite bind_ok by (by apply deref_run). destruct (pi_box _ _ Hinv _ _ Hev) as (H1 & H2 & H3 & H4).
  unfold epoll_mod, modify. eexists. split; [reflexivity|].
  assert (Hguard : ∀ b, b ∈ g ∖ {[+ a +]} → is_Some (p.(boxes) !! b)).
  { intros b [Hb _]%fewer_guards. by apply (pi_guard _ _ Hinv). }
  assert (Honce : ∀ b x, b ∈ g ∖ {[+ a +]} → p.(boxes) !! b = Some x → x.(e_notifier) = false →
    b ≠ a ∧ multiplicity b (g ∖ {[+ a +]}) = 1%nat ∧ ∀ it, p.(epoll) !! x.(e_fd) = Some it → it.(i_enabled) = false).
  { intros b x [Hb Hm]%fewer_guards Hx Hn. destruct (pi_once _ _ Hinv b x Hb Hx Hn) as [Hmb Hoff].
    destruct (Hm Hmb). done. }
  destruct (epoll p !! e_fd ev) as [it|] eqn:He.
  2:{ split; [apply Hinv..|done|]. intros b x Hb Hx Hn. destruct (Honce b x Hb Hx Hn) as (_ & ? & ?). done. }
  split; cbn [events boxes epoll with_epoll]; [apply Hinv|apply Hinv| |done|].
  - intros fd it' [[<- <-]|[_ Hit]]%lookup_insert_Some; [|by apply (pi_epoll _ _ Hinv)]. cbn [i_data i_events]. rewrite H3.
    split_and!; [done|done|]. intros x Hx. assert (x = ev) as -> by congruence. done.
  - intros b x Hb Hx Hn. destruct (Honce b x Hb Hx Hn) as (Hne & Hm & Hoff). split; [done|].
    intros it' [[Hc <-]|[_ Hit]]%lookup_insert_Some; [|by apply Hoff]. exfalso.
    destruct (pi_box _ _ Hinv _ _ Hx) as (_ & Hs & _). rewrite <- Hc in Hs. congruence.
Qed.

(** A guard that is the only one on its event takes the event with it. *)
Lemma cancel_inv a p g :
  poll_inv p g → multiplicity a g = 1%nat → ∃ p', cancel a p = Ret (Ok (), p') ∧ poll_inv p' (g ∖ {[+ a +]}).
Proof.
  intros Hinv Hm. assert (Ha : a ∈ g) by (apply elem_of_multiplicity; lia).
  destruct (pi_guard _ _ Hinv a Ha) as [ev Hev]. unfold cancel.
  erewrite bind_ok by (by apply deref_run). destruct (pi_box _ _ Hinv _ _ Hev) as (H1 & H2 & H3 & H4).
  assert (Hinv' : poll_inv p (g ∖ {[+ a +]})).
  { split; [apply Hinv..|intros b [Hb _]%fewer_guards; by apply (pi_guard _ _ Hinv)|]. intros b x [Hb Hmb]%fewer_guards Hx Hn.
    destruct (pi_once _ _ Hinv b x Hb Hx Hn) as [H5 Hoff]. by destruct (Hmb H5). }
  destruct (poll_clear_inv (e_fd ev) p (g ∖ {[+ a +]}) Hinv' H1) as (p' & Hr & Hp & _); [by eapply lookup_lt_Some| |eauto].
  intros b Hb. assert (b = a) as -> by congruence.
  rewrite elem_of_multiplicity, multiplicity_difference, multiplicity_singleton, decide_True by done. lia.
Qed.

Lemma inv_counters p g c : poll_inv p g → poll_inv (with_counters c p) g.
Proof. intros Hinv. split; apply Hinv. Qed.

Lemma notifier_run fd a ev (p : EventPoll Handler) :
  p.(events) !! Z.to_nat fd = Some (Some a) → p.(boxes) !! a = Some ev → ev.(e_notifier) = true →
  notifier_event fd p = Ret (Ok ev, p).
Proof.
  intros Hs Hb Hn. unfold notifier_event. erewrite bind_ok by reflexivity. rewrite Hs.
  do 3 (erewrite bind_ok by reflexivity). rewrite Hb. erewrite bind_ok by reflexivity. unfold assert_. rewrite Hn.
  by erewrite bind_ok by reflexivity.
Qed.

Lemma writable_inv a b p g :
  poll_inv p g → a ∈ g → ∃ p', notify_writable a b p = Ret (Ok (), p') ∧ poll_inv p' g.
Proof.
  intros Hinv Ha. destruct (pi_guard _ _ Hinv a Ha) as [ev Hev]. unfold notify_writable.
  erewrite bind_ok by (by apply deref_run). eexists. split; [reflexivity|].
  destruct (pi_box _ _ Hinv _ _ Hev) as (H1 & H2 & H3 & H4).
  set (ev' := MkEvent _ _ _ _ _ _).
  assert (Hbox : ∀ c x, <[a := ev']> p.(boxes) !! c = Some x → ∃ y, p.(boxes) !! c = Some y ∧ x.(e_fd) = y.(e_fd) ∧
    x.(e_notifier) = y.(e_notifier) ∧ x.(e_u64) = y.(e_u64) ∧ (Z.testbit x.(e_events) 30 = true ∨ x = y)).
  { intros c x [[<- <-]|[_ Hc]]%lookup_insert_Some; [|eauto 10]. exists ev. split_and!; try done. left. by destruct b. }
  split; cbn [events boxes epoll with_boxes].
  - intros i c Hi. destruct (pi_slot _ _ Hinv _ _ Hi) as (x & Hx & Hf). destruct (decide (c = a)) as [->|Hne].
    + exists ev'. rewrite lookup_insert_eq. split; [done|]. cbn. congruence.
    + exists x. by rewrite lookup_insert_ne.
  - intros c x (y & Hy & Ef & En & Eu & Hbit)%Hbox. destruct (pi_box _ _ Hinv _ _ Hy) as (G1 & G2 & G3 & G4).
    rewrite Ef, Eu, En. split_and!; [done..|]. intros Hn. destruct Hbit as [?| ->]; [done|by apply G4].
  - intros fd it Hit. destruct (pi_epoll _ _ Hinv _ _ Hit) as (G1 & G2 & G3). split_and!; [done|done|].
    intros x (y & Hy & _ & En & _)%Hbox Hn. apply (G3 y Hy). congruence.
  - intros c Hc. destruct (pi_guard _ _ Hinv c Hc) as [x Hx]. destruct (decide (c = a)) as [->|Hne];
      [rewrite lookup_insert_eq|rewrite lookup_insert_ne by done]; eauto.
  - intros c x Hc (y & Hy & Ef & En & _)%Hbox Hn. rewrite En in Hn. rewrite Ef. by apply (pi_once _ _ Hinv c y).
Qed.

(** ** Runs of the registry *)

Inductive event_kind : Type := KRead | KWrite | KTimer | KNotifier | KSignal.

(** The operations, with the answers of the system calls; a guard is named by
    its address. *)
Inductive poll_op : Type :=
| ONew (kind : event_kind) (ok : bool) (fd : Z) (handler : Handler)
| OWait (ans : wait_answer)
| ODrop (guard : nat)
| OCancel (guard : nat)
| OWritable (guard : nat) (enabled : bool)
| OClear (fd : Z)
| OTrigger (fd : Z)
| OStop (fd : Z).

Definition new_of_kind (kind : event_kind) (ok : bool) (fd : Z) (handler : Handler) : M Error (EventPoll Handler) Z :=
  match kind with
  | KRead => new_event ok fd handler
  | KWrite => new_write_event ok fd handler
  | KTimer => new_periodic_event ok (Some fd) None true handler
  | KNotifier => new_notifier ok (Some fd) handler
  | KSignal => new_signal_event ok (Some fd) handler
  end.

Definition run_op (op : poll_op) (s : EventPoll Handler * gmultiset nat) : outcome (EventPoll Handler * gmultiset nat) :=
  let '(p, g) := s in
  match op with
  | ONew kind ok fd h => match new_of_kind kind ok fd h p with Ret (_, p) => Ret (p, g) | Panic => Panic end
  | OWait ans =>
    match wait ans p with
    | Ret (Ok (WaitOk a), p) | Ret (Ok (WaitEoF a), p) => Ret (p, {[+ a +]} ⊎ g)
    | Ret (_, p) => Ret (p, g)
    | Panic => Panic
    end
  | ODrop a => match guard_drop a p with Ret (_, p) => Ret (p, g ∖ {[+ a +]}) | Panic => Panic end
  | OCancel a => match cancel a p with Ret (_, p) => Ret (p, g ∖ {[+ a +]}) | Panic => Panic end
  | OWritable a b => match notify_writable a b p with Ret (_, p) => Ret (p, g) | Panic => Panic end
  | OClear fd => match clear_event_by_fd fd p with Ret (_, p) => Ret (p, g) | Panic => Panic end
  | OTrigger fd => match trigger_notification fd p with Ret (_, p) => Ret (p, g) | Panic => Panic end
  | OStop fd => match stop_notification fd p with Ret (_, p) => Ret (p, g) | Panic => Panic end
  end.

Fixpoint run_ops (ops : list poll_op) (s : EventPoll Handler * gmultiset nat) : outcome (EventPoll Handler * gmultiset nat) :=
  match ops with
  | [] => Ret s
  | op :: ops => match run_op op s with Ret s => run_ops ops s | Panic => Panic end
  end.

(** How the registry may be used: a descriptor is registered or cleared when
    nobody has a guard on its event; a guard is used by who has it, and to
    cancel it must be the only one on its event; notifications are for
    notifiers. *)
Definition unguarded (fd : Z) (s : EventPoll Handler * gmultiset nat) : Prop :=
  0 ≤ fd ∧ ∀ a, s.1.(events) !! Z.to_nat fd = Some (Some a) → a ∉ s.2.

Definition allowed (op : poll_op) (s : EventPoll Handler * gmultiset nat) : Prop :=
  match op with
  | ONew _ _ fd _ => unguarded fd s
  | OWait _ => True
  | ODrop a | OWritable a _ => a ∈ s.2
  | OCancel a => multiplicity a s.2 = 1%nat
  | OClear fd => unguarded fd s ∧ (Z.to_nat fd < length s.1.(events))%nat
  | OTrigger fd | OStop fd =>
    ∃ a ev, s.1.(events) !! Z.to_nat fd = Some (Some a) ∧ s.1.(boxes) !! a = Some ev ∧ ev.(e_notifier) = true
  end.

Fixpoint all_allowed (ops : list poll_op) (s : EventPoll Handler * gmultiset nat) : Prop :=
  match ops with
  | [] => True
  | op :: ops => allowed op s ∧ ∀ s', run_op op s = Ret s' → all_allowed ops s'
  end.

Lemma poll_new_inv kind ok fd h p g :
  poll_inv p g → unguarded fd (p, g) → ∃ r p', new_of_kind kind ok fd h p = Ret (r, p') ∧ poll_inv p' g.
Proof.
  intros Hinv [Hfd Hfree]. destruct kind; cbn [new_of_kind]; unfold new_event, new_write_event, new_periodic_event, new_signal_event.
  4:{ unfold new_notifier. erewrite bind_ok by reflexivity. eexists _, _.
      split; [eapply register_run; [apply inv_counters, Hinv|done]|]. apply register_inv; [by apply inv_counters|done..]. }
  all: eexists _, _; (split; [by eapply register_run|]); by apply register_inv.
Qed.

Lemma run_op_inv op p g :
  poll_inv p g → allowed op (p, g) → ∃ p' g', run_op op (p, g) = Ret (p', g') ∧ poll_inv p' g'.
Proof.
  intros Hinv Hop. destruct op as [kind ok fd h|ans|a|a|a b|fd|fd|fd]; cbn [run_op allowed fst snd] in *.
  - destruct (poll_new_inv kind ok fd h p g Hinv Hop) as (r & p' & -> & Hp). eauto.
  - destruct (wait_inv ans p g Hinv) as (r & p' & -> & Hp). destruct r; eauto.
  - destruct (drop_inv a p g Hinv Hop) as (p' & -> & Hp). eauto.
  - destruct (cancel_inv a p g Hinv Hop) as (p' & -> & Hp). eauto.
  - destruct (writable_inv a b p g Hinv Hop) as (p' & -> & Hp). eauto.
  - destruct Hop as [[Hfd Hfree] Hlt]. destruct (poll_clear_inv fd p g Hinv Hfd Hlt Hfree) as (p' & -> & Hp & _). eauto.
  - destruct Hop as (a & ev & Hs & Hb & Hn). unfold trigger_notification.
    erewrite bind_ok by (by eapply notifier_run). unfold eventfd_write, modify. eexists _, _. split; [reflexivity|].
    case_match; [by apply inv_counters|done].
  - destruct Hop as (a & ev & Hs & Hb & Hn). unfold stop_notification.
    erewrite bind_ok by (by eapply notifier_run). eexists _, _. split; [reflexivity|]. by apply inv_counters.
Qed.

Lemma run_ops_inv ops p g :
  poll_inv p g → all_allowed ops (p, g) → ∃ p' g', run_ops ops (p, g) = Ret (p', g') ∧ poll_inv p' g'.
Proof.
  revert p g. induction ops as [|op ops IH]; intros p g Hinv; [by eexists _, _|]. intros [Hop Hops]. cbn [run_ops].
  destruct (run_op_inv op p g Hinv Hop) as (p1 & g1 & Hr & Hinv1). rewrite Hr. by apply IH, Hops.
Qed.

(** The registry keeps its promises: however it is used within its rules,
    it never follows a pointer to an event that is gone; an event that a thread
    has a guard on is there, registered under its own descriptor; and only one
    thread has a guard on it, unless it is a notifier. *)
Lemma registry_safe ops fd p0 :
  EventPoll_new (Some fd) = Ok p0 → all_allowed ops (p0, ∅) →
  ∃ p g, run_ops ops (p0, ∅) = Ret (p, g) ∧
    ∀ a, a ∈ g → ∃ ev, p.(boxes) !! a = Some ev ∧ p.(events) !! Z.to_nat ev.(e_fd) = Some (Some a) ∧
      (ev.(e_notifier) = false → multiplicity a g = 1%nat).
Proof.
  intros [= <-] Hops. destruct (run_ops_inv ops (MkPoll [] ∅ ∅ ∅) ∅) as (p & g & Hr & Hinv); [|done|].
  { split; cbn; [done|done|done|multiset_solver|multiset_solver]. }
  exists p, g. split; [done|]. intros a Ha. destruct (pi_guard _ _ Hinv a Ha) as [ev Hev]. exists ev.
  destruct (pi_box _ _ Hinv _ _ Hev) as (_ & Hs & _). split_and!; [done|done|].
  intros Hn. by apply (pi_once _ _ Hinv a ev).
Qed.

(** ** Notifications *)

Definition notified (fd : Z) (p : EventPoll Handler) : bool := negb (default 0 (p.(counters) !! fd) =? 0).

(** However often it is triggered, one stop ends it. *)
Lemma trigger_notifies fd p p' :
  (∀ c, p.(counters) !! fd = Some c → 0 ≤ c) →
  trigger_notification fd p = Ret (Ok (), p') → notified fd p' = true.
Proof.
  intros Hc. unfold trigger_notification. intros (ev & p1 & Hn & Hr)%bind_inv.
  assert (p1 = p) as ->.
  { assert (PreOrder (λ q q' : EventPoll Handler, q' = q)) by (split; [done|congruence]).
    assert (Hp : preserves (λ q q' : EventPoll Handler, q' = q) (notifier_event fd)) by (unfold notifier_event; pres).
    by apply Hp in Hn. }
  revert Hr. unfold eventfd_write, modify. intros [= <-]. unfold notified, U64_MAX.
  assert (Hd : 0 ≤ default 0 (counters p !! fd)) by (destruct (counters p !! fd) eqn:Hfd; [by apply Hc|done]).
  case_match eqn:Hle; cbn [counters with_counters]; rewrite ?lookup_insert_eq; apply negb_true_iff, Z.eqb_neq.
  - cbn. lia.
  - apply Z.leb_gt in Hle. lia.
Qed.

Lemma stop_quiets fd p p' : stop_notification fd p = Ret (Ok (), p') → notified fd p' = false.
Proof.
  unfold stop_notification. intros (ev & p1 & Hn & [= <-])%bind_inv. unfold notified. cbn. by rewrite lookup_insert_eq.
Qed.
End PollInvariant.

(** ** The listening sockets *)

(** The descriptors that are registered after a sequence of calls:
    [RegisterUdp] and [RegisterConn] call [new_event], [Unregister] calls
    [clear_event_by_fd]. *)
Definition registers (c : syscall) (r : gset Z) : gset Z :=
  match c with
  | RegisterUdp fd | RegisterConn _ fd _ => {[fd]} ∪ r
  | Unregister fd => r ∖ {[fd]}
  | _ => r
  end.

Definition registered (log : list syscall) : gset Z := foldl (λ r c, registers c r) ∅ log.

Lemma registered_snoc log c : registered (log ++ [c]) = registers c (registered log).
Proof. unfold registered. by rewrite foldl_snoc. Qed.

(** The descriptors that the calls gave and that are open still: a socket goes
    with the handler that is cleared, or when it is taken out of the device
    before its number is cleared, or when it is shut down. *)
Definition opens (ans : option Z) (c : syscall) (r : gset Z) : gset Z :=
  match c with
  | SockNew _ _ | TryClone _ => match ans with Some fd => {[fd]} ∪ r | None => r end
  | Unregister fd | ShutdownBoth fd => r ∖ {[fd]}
  | _ => r
  end.

Fixpoint held_from (ans : nat → syscall → option Z) (n : nat) (r : gset Z) (log : list syscall) : gset Z :=
  match log with
  | [] => r
  | c :: log => held_from ans (S n) (opens (ans n c) c r) log
  end.

Definition held (o : os) : gset Z := held_from o.(os_answer) 0 ∅ o.(os_log).

Lemma held_from_app ans n r l1 l2 :
  held_from ans n r (l1 ++ l2) = held_from ans (n + length l1) (held_from ans n r l1) l2.
Proof.
  revert n r. induction l1 as [|c l1 IH]; intros n r; cbn; [by rewrite Nat.add_0_r|].
  rewrite IH. f_equal. lia.
Qed.

(** What every operating system promises (open(2), dup(2)): a new descriptor is
    none of those that are open. *)
Definition creates (c : syscall) : bool := match c with SockNew _ _ | TryClone _ => true | _ => false end.

Definition fresh_descriptors (o : os) : Prop := ∀ n c fd,
  o.(os_log) !! n = Some c → creates c = true → o.(os_answer) n c = Some fd →
  fd ∉ held (MkOs (take n o.(os_log)) o.(os_answer)).

(** The calls of [o'] are those of [o] and then others. *)
Definition extends (o o' : os) : Prop :=
  o'.(os_answer) = o.(os_answer) ∧ ∃ l, o'.(os_log) = o.(os_log) ++ l.

#[local] Instance extends_preorder : PreOrder extends.
Proof.
  split; [intros o; split; [done|exists []; by rewrite app_nil_r]|].
  intros o1 o2 o3 [H1 [l1 E1]] [H2 [l2 E2]]. split; [congruence|]. exists (l1 ++ l2). by rewrite E2, E1, app_assoc.
Qed.

Lemma fresh_extends o o' : extends o o' → fresh_descriptors o' → fresh_descriptors o.
Proof.
  intros [Ha [l Hl]] Hf n c fd Hn Hc Hfd. rewrite <-Ha in Hfd.
  pose proof (lookup_lt_Some _ _ _ Hn) as Hlt.
  specialize (Hf n c fd). rewrite Hl, lookup_app_l, take_app_le, Ha in Hf by lia. apply Hf; [done|done|congruence].
Qed.

(** What one call does to the two sets. *)
Record sys_effect (c : syscall) (r : result Error Z) (o o' : os) : Prop := {
  se_extends : extends o o';
  se_registered : registered o'.(os_log) = registers c (registered o.(os_log));
  se_held : held o' = opens (match r with Ok v => Some v | Err _ => None end) c (held o);
  se_fresh : ∀ fd, r = Ok fd → creates c = true → fresh_descriptors o' → fd ∉ held o;
}.

Lemma sys_effects c o r o' : sys c o = Ret (r, o') → sys_effect c r o o'.
Proof.
  intros Hs. assert (o' = MkOs (o.(os_log) ++ [c]) o.(os_answer) ∧
    (match r with Ok v => Some v | Err _ => None end) = o.(os_answer) (length o.(os_log)) c) as [-> Hr].
  { revert Hs. unfold sys. destruct (os_answer _ _ _); by intros [= <- <-]. }
  split.
  - split; [done|by exists [c]].
  - apply registered_snoc.
  - unfold held. cbn. rewrite held_from_app. cbn. by rewrite Hr.
  - intros fd -> Hc Hf. specialize (Hf (length o.(os_log)) c fd). cbn in Hf.
    rewrite lookup_app_r, Nat.sub_diag, take_app_length in Hf by done. destruct o. by apply Hf.
Qed.

Section Listening.
Context `{Crypto, NetTable, HashOrder}.

(** Nothing but the log of the calls changes. *)
Lemma d_sys_run c s fd s' :
  d_sys (sys c) s = Ret (Ok fd, s') → s' = with_dos s'.(dos) s ∧ sys_effect c (Ok fd) s.(dos) s'.(dos).
Proof.
  unfold d_sys, zoom. destruct (sys c _) as [[r o]|] eqn:Hs; [|done]. intros [= -> <-].
  split; [done|]. by apply sys_effects.
Qed.

Lemma d_sys_unwrap_run c s fd s' :
  d_sys (sys_unwrap c) s = Ret (Ok fd, s') → s' = with_dos s'.(dos) s ∧ sys_effect c (Ok fd) s.(dos) s'.(dos).
Proof.
  intros Hr. apply d_sys_run. revert Hr. unfold d_sys, zoom, sys_unwrap.
  by destruct (sys c _) as [[[v|e] o]|].
Qed.

(** A socket that is not registered is closed. *)
Definition no_longer (old : option Z) (r : gset Z) : gset Z :=
  match old with Some fd => r ∖ {[fd]} | None => r end.

Lemma clear_socket_run old s r s' :
  (match old with Some fd => d_sys (sys_ (Unregister fd)) | None => mret () end) s = Ret (r, s') →
  s' = with_dos s'.(dos) s ∧ extends s.(dos) s'.(dos) ∧
  registered s'.(dos).(os_log) = no_longer old (registered s.(dos).(os_log)) ∧
  held s'.(dos) = no_longer old (held s.(dos)).
Proof.
  destruct old as [fd|]; [|intros [= _ <-]; by destruct s].
  unfold d_sys, zoom, sys_, try_, mbind, M_bind. destruct (sys _ _) as [[x o]|] eqn:Hs; [|done].
  intros Hr. assert (s' = with_dos o s) as -> by (by destruct x; injection Hr as _ <-).
  apply sys_effects in Hs as [? Hreg Hheld _]. by destruct x.
Qed.

Lemma listen_on_run v4 port s fd s' :
  listen_on v4 port s = Ret (Ok fd, s') →
  s' = with_dos s'.(dos) s ∧ extends s.(dos) s'.(dos) ∧
  registered s'.(dos).(os_log) = registered s.(dos).(os_log) ∧ held s'.(dos) = {[fd]} ∪ held s.(dos) ∧
  (fresh_descriptors s'.(dos) → fd ∉ held s.(dos)).
Proof.
  unfold listen_on. intros (fd' & s1 & [E1 [X1 R1 Y1 F1]]%d_sys_run & Hr)%bind_inv.
  apply bind_inv in Hr as (v2 & s2 & [E2 [X2 R2 Y2 _]]%d_sys_run & Hr).
  apply bind_inv in Hr as (v3 & s3 & [E3 [X3 R3 Y3 _]]%d_sys_run & Hr).
  apply bind_inv in Hr as (v4' & s4 & [E4 [X4 R4 Y4 _]]%d_sys_run & [= <- <-]). cbn in *.
  assert (Hx : extends (dos s1) (dos s4)) by (by do 2 (etransitivity; [eassumption|])).
  split_and!; [|by etransitivity|congruence|congruence|].
  - rewrite E4, E3, E2, E1. done.
  - intros Hf. apply F1; [done|done|by eapply fresh_extends].
Qed.

(** No peer has a connected socket. *)
Definition unconnected (s : dstate) : Prop := ∀ r p, s.(heap) !! r = Some p → p.(p_endpoint).(ep_conn) = None.

Lemma shutdown_unconnected peer s r s' :
  unconnected s → on_peer peer shutdown_endpoint s = Ret (r, s') → s' = s.
Proof.
  intros Hu. unfold on_peer. destruct (heap s !! peer) as [p|] eqn:Hp; [|done].
  unfold shutdown_endpoint, p_gets, mbind, M_bind. cbn. rewrite (Hu _ _ Hp). cbn. intros [= _ <-].
  rewrite (insert_id _ _ _ Hp). by destruct s.
Qed.

(** The sockets of the device are open and apart from those of the handlers. *)
Record apart (s : dstate) : Prop := {
  ap_unconnected : unconnected s;
  ap_registered : registered s.(dos).(os_log) ⊆ held s.(dos);
  ap_udp4 : ∀ fd, s.(dev).(udp4) = Some fd → fd ∈ held s.(dos) ∧ fd ∉ registered s.(dos).(os_log);
  ap_udp6 : ∀ fd, s.(dev).(udp6) = Some fd → fd ∈ held s.(dos) ∧ fd ∉ registered s.(dos).(os_log);
  ap_differ : ∀ fd, s.(dev).(udp4) = Some fd → s.(dev).(udp6) ≠ Some fd;
}.

(** Closing the old sockets takes no handler with it. *)
Lemma close_old_sockets s (r r' : gset Z) :
  apart s → r = no_longer s.(dev).(udp6) (no_longer s.(dev).(udp4) (registered s.(dos).(os_log))) →
  r' = no_longer s.(dev).(udp6) (no_longer s.(dev).(udp4) (held s.(dos))) →
  r = registered s.(dos).(os_log) ∧ r ⊆ r'.
Proof.
  intros [_ Hsub H4 H6 _] -> ->. unfold no_longer.
  destruct (udp4 (dev s)) as [f4|], (udp6 (dev s)) as [f6|]; set_solver.
Qed.

Lemma shutdowns_unconnected l s r s' :
  unconnected s → for_each l (λ peer, on_peer peer shutdown_endpoint) s = Ret (r, s') → s' = s.
Proof.
  assert (PreOrder (λ s s', unconnected s → s' = s)).
  { split; [done|]. intros s1 s2 s3 Ha Hb Hu. rewrite (Ha Hu) in Hb. auto. }
  intros Hu Hr. apply (pres_for_each (λ s s', unconnected s → s' = s)) in Hr; [by apply Hr|].
  intros peer s1 r1 s1' Hs1 Hu1. by eapply shutdown_unconnected.
Qed.

(** Two sockets and two clones, each different from what was open before. *)
Lemma apart_sets (r h : gset Z) (u4 u6 c4 c6 : Z) :
  r ⊆ h → u4 ∉ h → u6 ∉ {[u4]} ∪ h → c4 ∉ {[u6]} ∪ ({[u4]} ∪ h) → c6 ∉ {[c4]} ∪ ({[u6]} ∪ ({[u4]} ∪ h)) →
  let r' := {[c6]} ∪ ({[c4]} ∪ r) in
  let h' := {[c6]} ∪ ({[c4]} ∪ ({[u6]} ∪ ({[u4]} ∪ h))) in
  r' ⊆ h' ∧ (u4 ∈ h' ∧ u4 ∉ r') ∧ (u6 ∈ h' ∧ u6 ∉ r') ∧
  (r' = ({[c4]} ∪ {[c6]}) ∪ r ∧ c4 ≠ c6 ∧ (c4 ∉ r) ∧ (c6 ∉ r)).
Proof. intros. cbn. split_and!; set_solver. Qed.

Lemma open_listen_socket_run port s s' :
  apart s → open_listen_socket port s = Ret (Ok (), s') →
  extends s.(dos) s'.(dos) ∧
  (fresh_descriptors s'.(dos) → apart s' ∧ ∃ c4 c6,
     registered s'.(dos).(os_log) = ({[c4]} ∪ {[c6]}) ∪ registered s.(dos).(os_log) ∧
     c4 ≠ c6 ∧ (c4 ∉ registered s.(dos).(os_log)) ∧ (c6 ∉ registered s.(dos).(os_log))).
Proof.
  intros Hap Hr. unfold open_listen_socket in Hr. apply bind_inv in Hr as (d & s0 & [= <- <-] & Hr).
  apply bind_inv in Hr as ([] & s1 & [= <-] & Hr). apply bind_inv in Hr as ([] & s2 & Hu4 & Hr).
  apply clear_socket_run in Hu4 as (E2 & X2 & R2 & Y2).
  apply bind_inv in Hr as ([] & s3 & [= <-] & Hr). apply bind_inv in Hr as ([] & s4 & Hu6 & Hr).
  apply clear_socket_run in Hu6 as (E4 & X4 & R4 & Y4).
  apply bind_inv in Hr as ([] & s5 & Hsh & Hr).
  assert (Hu : unconnected s4) by (rewrite E4, E2; apply Hap).
  apply (shutdowns_unconnected _ _ _ _ Hu) in Hsh as ->. cbn in *.
  rewrite R2 in R4. rewrite Y2 in Y4. destruct (close_old_sockets s _ _ Hap R4 Y4) as [R4' Hsub]. clear R2 R4 Y2 Y4.
  apply bind_inv in Hr as (u4 & s6 & (E6 & X6 & R6 & Y6 & F6)%listen_on_run & Hr).
  apply bind_inv in Hr as (p1 & s7 & H7 & Hr).
  assert (s7 = with_dos s7.(dos) s6 ∧ extends s6.(dos) s7.(dos) ∧
    registered s7.(dos).(os_log) = registered s6.(dos).(os_log) ∧ held s7.(dos) = held s6.(dos)) as (E7 & X7 & R7 & Y7).
  { destruct (port =? 0); [by apply d_sys_run in H7 as [? []]|]. injection H7 as _ <-. by destruct s6. }
  apply bind_inv in Hr as (u6 & s8 & (E8 & X8 & R8 & Y8 & F8)%listen_on_run & Hr).
  apply bind_inv in Hr as (c4 & s9 & [E9 [X9 R9 Y9 F9]]%d_sys_unwrap_run & Hr).
  apply bind_inv in Hr as ([] & s10 & (? & s10' & [E10 [X10 R10 Y10 _]]%d_sys_run & [= <-])%bind_inv & Hr).
  apply bind_inv in Hr as (c6 & s11 & [E11 [X11 R11 Y11 F11]]%d_sys_unwrap_run & Hr).
  apply bind_inv in Hr as ([] & s12 & (? & s12' & [E12 [X12 R12 Y12 _]]%d_sys_run & [= <-])%bind_inv & Hr).
  apply bind_inv in Hr as ([] & s13 & [= <-] & [= <-]). cbn in *.
  assert (X : extends (dos s) (dos s12')) by (repeat (etransitivity; [eassumption|]); reflexivity).
  split; [exact X|]. intros Hf.
  assert (fresh_descriptors (dos s11)) by (by eapply fresh_extends).
  assert (fresh_descriptors (dos s9)).
  { eapply fresh_extends; [|done]. by etransitivity. }
  assert (fresh_descriptors (dos s8)) by (by eapply fresh_extends).
  assert (fresh_descriptors (dos s6)).
  { eapply fresh_extends; [|done]. by etransitivity. }
  specialize (F11 _ eq_refl eq_refl ltac:(done)). specialize (F9 _ eq_refl eq_refl ltac:(done)).
  specialize (F8 ltac:(done)). specialize (F6 ltac:(done)).
  assert (Hreg : registered (os_log (dos s12')) = {[c6]} ∪ ({[c4]} ∪ registered (os_log (dos s)))) by congruence.
  assert (Hheld : held (dos s12') = {[c6]} ∪ ({[c4]} ∪ ({[u6]} ∪ ({[u4]} ∪ held (dos s4))))) by congruence.
  rewrite Y10, Y9, Y8, Y7, Y6 in F11. rewrite Y8, Y7, Y6 in F9. rewrite Y7, Y6 in F8. rewrite R4' in Hsub.
  destruct (apart_sets _ _ _ _ _ _ Hsub F6 F8 F9 F11) as (Q1 & Q2 & Q3 & Q4).
  split; [|exists c4, c6; rewrite Hreg; exact Q4].
  split; cbn; rewrite ?Hreg, ?Hheld; [|exact Q1|by intros fd [= <-]|by intros fd [= <-]|].
  - rewrite E12, E11, E10, E9, E8, E7, E6. exact Hu.
  - intros fd [= <-] [= ->]. set_solver +F8.
Qed.

(** Calls are only ever added to the log. *)
Definition d_extends (s s' : dstate) : Prop := extends s.(dos) s'.(dos).

#[export] Instance d_extends_preorder : PreOrder d_extends.
Proof. unfold d_extends. split; [intros s; reflexivity|intros s1 s2 s3; apply extends_preorder]. Qed.

Lemma sys_extends c : preserves extends (sys c).
Proof. intros o r o' Hs. by apply sys_effects in Hs as []. Qed.

Lemma sys_unwrap_extends c : preserves extends (sys_unwrap c).
Proof.
  intros o r o' Hr. unfold sys_unwrap in Hr. destruct (sys c o) as [[[v|e] o1]|] eqn:Hs; [|done..].
  injection Hr as <- <-. by eapply sys_extends.
Qed.

Lemma d_sys_extends {A} (m : M Error os A) : preserves extends m → preserves d_extends (d_sys m).
Proof. intros Hm. unfold d_sys. by apply (pres_zoom_rel d_extends extends dos with_dos m). Qed.

Lemma shutdown_extends peer : preserves d_extends (on_peer peer shutdown_endpoint).
Proof.
  intros s r s'. unfold on_peer. destruct (heap s !! peer) as [p|]; [|done].
  destruct (shutdown_endpoint (p, dos s)) as [[x [p' o']]|] eqn:He; [|done]. intros [= <- <-]. unfold d_extends. cbn.
  unfold shutdown_endpoint, p_gets, p_modify, p_os in He. erewrite bind_ok in He by reflexivity.
  destruct (ep_conn _) as [conn|]; [|by injection He as _ _ <-]. erewrite bind_ok in He by reflexivity.
  apply bind_any_inv in He as [(v & [p1 o1] & Hs & [= _ _ <-])|(e & Hs & _)]; revert Hs; unfold zoom;
    destruct (sys_unwrap _ _) as [[y o2]|] eqn:Hx; try done; intros [= _ _ <-]; by eapply sys_unwrap_extends.
Qed.

Lemma open_extends port : preserves d_extends (open_listen_socket port).
Proof.
  unfold open_listen_socket, listen_on, register_udp_handler, d_modify, d_gets. pres;
    first [apply d_sys_extends, sys_unwrap_extends | apply d_sys_extends, sys_extends
      | apply d_sys_extends; unfold sys_; pres; apply sys_extends | apply shutdown_extends
      | intros s r s' [= _ <-]; unfold d_extends; reflexivity].
Qed.

Lemma open_all_run ports s s' :
  apart s → for_each ports open_listen_socket s = Ret (Ok (), s') → fresh_descriptors s'.(dos) →
  apart s' ∧ registered s.(dos).(os_log) ⊆ registered s'.(dos).(os_log) ∧
  base.size (registered s'.(dos).(os_log)) = (base.size (registered s.(dos).(os_log)) + 2 * length ports)%nat.
Proof.
  revert s. induction ports as [|port ports IH]; intros s Hap; cbn [for_each].
  { intros [= <-] _. split_and!; [done|done|cbn; lia]. }
  intros ([] & s1 & Ho & Hr)%bind_inv Hf. assert (Hx : d_extends s1 s').
  { apply (pres_for_each d_extends) in Hr; [done|apply open_extends]. }
  destruct (open_listen_socket_run port s s1 Hap Ho) as [_ Hs1].
  destruct (Hs1 (fresh_extends _ _ Hx Hf)) as (Hap1 & c4 & c6 & Hreg & Hne & H4 & H6).
  destruct (IH s1 Hap1 Hr Hf) as (Hap' & Hsub & Hsize). rewrite Hreg in Hsub, Hsize.
  split_and!; [done|set_solver|]. rewrite Hsize. rewrite size_union by set_solver.
  rewrite size_union by set_solver. rewrite !size_singleton. cbn. lia.
Qed.

(** A device that has no sockets yet. *)
Record without_sockets (s : dstate) : Prop := {
  ws_unconnected : unconnected s;
  ws_udp4 : s.(dev).(udp4) = None;
  ws_udp6 : s.(dev).(udp6) = None;
  ws_log : s.(dos).(os_log) = [];
}.

Lemma without_sockets_apart s : without_sockets s → apart s.
Proof. intros [Hu H4 H6 Hl]. split; [done|rewrite Hl; done|rewrite ?H4, ?H6; done..]. Qed.

(** C37.  Changing the port leaves the old sockets at work.  Ports are opened
    one after the other on a device that has no sockets yet, the operating
    system giving no descriptor that is open.  The handlers are registered under
    clones of the listening sockets, but it is the numbers of the sockets
    themselves that are cleared, which are never registered.  So opening more
    ports unregisters nothing, the handlers of all earlier ports stay, and after
    [n] openings there are [2 * n] of them. *)
Theorem reopening_keeps_old_sockets s ports s1 ports' s2 :
  without_sockets s →
  for_each ports open_listen_socket s = Ret (Ok (), s1) →
  for_each ports' open_listen_socket s1 = Ret (Ok (), s2) →
  fresh_descriptors s2.(dos) →
  registered s1.(dos).(os_log) ⊆ registered s2.(dos).(os_log) ∧
  base.size (registered s1.(dos).(os_log)) = (2 * length ports)%nat ∧
  base.size (registered s2.(dos).(os_log)) = (2 * (length ports + length ports'))%nat ∧
  ∀ fd, s2.(dev).(udp4) = Some fd ∨ s2.(dev).(udp6) = Some fd → fd ∉ registered s2.(dos).(os_log).
Proof.
  intros Hs Hr1 Hr2 Hf. assert (Hx : d_extends s1 s2).
  { apply (pres_for_each d_extends) in Hr2; [done|apply open_extends]. }
  destruct (open_all_run ports s s1 (without_sockets_apart s Hs) Hr1 (fresh_extends _ _ Hx Hf)) as (Hap1 & _ & Hn1).
  destruct (open_all_run ports' s1 s2 Hap1 Hr2 Hf) as (Hap2 & Hsub & Hn2).
  rewrite (ws_log _ Hs) in Hn1. change (registered []) with (∅ : gset Z) in Hn1. rewrite size_empty in Hn1.
  split_and!; [done|lia|lia|]. intros fd [Hfd|Hfd]; [by apply (ap_udp4 _ Hap2)|by apply (ap_udp6 _ Hap2)].
Qed.
End Listening.

(** ** Witnesses *)

Section PollWitnesses.
#[local] Existing Instance toy_crypto.
#[local] Existing Instance map_table.
#[local] Existing Instance by_key.

(** Two threads get the notifier, and one of them a timer too. *)
Definition poll_session : list poll_op :=
  [ONew KNotifier true 5 1%nat; ONew KTimer true 6 2%nat; OTrigger 5; OWait (WaitReady 5 1); OWait (WaitReady 5 1);
   OWait (WaitReady 6 1); OStop 5; OWait (WaitReady 6 1)].

Lemma poll_session_allowed : all_allowed poll_session (MkPoll [] ∅ ∅ ∅, ∅).
Proof.
  unfold poll_session.
  repeat match goal with
  | |- all_allowed [] _ => exact I
  | |- all_allowed (_ :: _) _ => split; [|intros s Hs; vm_compute in Hs; injection Hs as <-]
  end; try exact I; try (split; [lia|intros a Ha; by vm_compute in Ha]); by eexists _, _.
Qed.

Lemma registry_safe_witness :
  ∃ p g, run_ops poll_session (MkPoll [] ∅ ∅ ∅, ∅) = Ret (p, g) ∧ size g = 3%nat ∧
    ∀ a, a ∈ g → ∃ ev, p.(boxes) !! a = Some ev ∧ p.(events) !! Z.to_nat ev.(e_fd) = Some (Some a) ∧
      (ev.(e_notifier) = false → multiplicity a g = 1%nat).
Proof.
  destruct (registry_safe poll_session 3 (MkPoll [] ∅ ∅ ∅) eq_refl poll_session_allowed) as (p & g & Hr & Hg).
  exists p, g. split; [exact Hr|]. split; [|exact Hg]. vm_compute in Hr. injection Hr as _ <-. vm_compute. reflexivity.
Defined.

(** An operating system that gives a new descriptor with every call. *)
Definition counting_os : os := MkOs [] (λ n _, Some (10 + Z.of_nat n)).
Definition counting_device : dstate := MkD (Device_new (MkIndexLfsr 1 1 77) true) ∅ (MkWorld test_env ∅) counting_os.

(** What two changes of the port leave after a first one: the registered
    descriptors in the middle and at the end. *)
Definition reopened : option (dstate * dstate) :=
  match for_each [1000] open_listen_socket counting_device with
  | Ret (Ok _, s) =>
      match for_each [2000; 0] open_listen_socket s with
      | Ret (Ok _, s') => Some (s, s')
      | _ => None
      end
  | _ => None
  end.

Lemma counting_held log n r :
  (∀ x, x ∈ r → x < 10 + Z.of_nat n) →
  ∀ x, x ∈ held_from counting_os.(os_answer) n r log → x < 10 + Z.of_nat (n + length log).
Proof.
  revert n r. induction log as [|c log IH]; intros n r Hr x; cbn; [rewrite Nat.add_0_r; apply Hr|].
  replace (n + S (length log))%nat with (S n + length log)%nat by lia. apply IH.
  intros y Hy. assert (y = 10 + Z.of_nat n ∨ y ∈ r) as [->|Hin] by (destruct c; set_solver); [lia|].
  apply Hr in Hin. lia.
Qed.

Lemma counting_fresh log : fresh_descriptors (MkOs log counting_os.(os_answer)).
Proof.
  intros n c fd Hn Hc [= <-] Hin. apply counting_held in Hin; [|set_solver].
  apply lookup_lt_Some in Hn. cbn in *. rewrite length_take in Hin. lia.
Qed.

Lemma reopened_fresh s s' : reopened = Some (s, s') → fresh_descriptors s'.(dos).
Proof.
  unfold reopened. destruct (for_each [1000] _ _) as [[[[]|] s1]|] eqn:E1; [|done..].
  destruct (for_each [2000; 0] _ _) as [[[[]|] s2]|] eqn:E2; [|done..]. intros [= <- <-].
  apply (pres_for_each d_extends) in E1; [|apply open_extends]. apply (pres_for_each d_extends) in E2; [|apply open_extends].
  assert (Ha : os_answer (dos s2) = os_answer counting_os) by (destruct E1 as [E1 _], E2 as [E2 _]; by rewrite E2, E1).
  destruct (dos s2) as [l a]. cbn in Ha. subst a. apply counting_fresh.
Qed.

Lemma reopening_keeps_old_sockets_witness :
  ∃ s1 s2, for_each [1000] open_listen_socket counting_device = Ret (Ok (), s1) ∧
    for_each [2000; 0] open_listen_socket s1 = Ret (Ok (), s2) ∧
    elements (registered s1.(dos).(os_log)) = [18; 20] ∧
    registered s1.(dos).(os_log) ⊆ registered s2.(dos).(os_log) ∧
    base.size (registered s2.(dos).(os_log)) = 6%nat.
Proof.
  assert (Hd : (λ x, elements (registered x.1.(dos).(os_log))) <$> reopened = Some [18; 20]) by (vm_compute; reflexivity).
  pose proof reopened_fresh as Hf. unfold reopened in *.
  destruct (for_each [1000] _ _) as [[[[]|] s1]|] eqn:E1; [|discriminate Hd..].
  destruct (for_each [2000; 0] _ _) as [[[[]|] s2]|] eqn:E2; [|discriminate Hd..].
  destruct (reopening_keeps_old_sockets counting_device [1000] s1 [2000; 0] s2) as (Hsub & _ & Hn & _);
    [by split|exact E1|exact E2|by eapply Hf|].
  exists s1, s2. split_and!; [done|done|by injection Hd|done|done].
Defined.
End PollWitnesses.
