(* ===== verification/Kqueue.v ===== *)
(** * The registry of events on macOS and the BSDs (device/kqueue.rs)

    The same registry as that of EventPoll.v over a kqueue.  Events with a
    descriptor, custom events (timers and notifiers) and signals are kept in
    three vectors; the queue of the operating system knows an event by its
    identifier and its filter, and stores the address of its box.

    The queue is as kevent(2) describes it: [EV_ADD] adds or changes an event
    and enables it, [EV_DELETE] removes it, [EV_ENABLE] and [EV_DISABLE] fail
    when it is not there, an event with [EV_DISPATCH] is disabled when it is
    reported, and an event of [EVFILT_USER] is reported once [NOTE_TRIGGER] was
    given.  That adding fails otherwise is up to the caller, who gives the
    answers.  The constants are those of macOS. *)

From stdpp Require Import gmultiset.
From S2P Require Import Prelude Errors Crypto Packet Time Tunn Text AllowedIps Peer Device EventPoll.

Definition EV_ADD : Z := 0x1.
Definition EV_DELETE : Z := 0x2.
Definition EV_ENABLE : Z := 0x4.
Definition EV_DISABLE : Z := 0x8.
Definition EV_DISPATCH : Z := 0x80.
Definition EV_EOF : Z := 0x8000.
Definition EVFILT_READ : Z := -1.
Definition EVFILT_SIGNAL : Z := -6.
Definition EVFILT_TIMER : Z := -7.
Definition EVFILT_USER : Z := -10.
Definition NOTE_NSECONDS : Z := 0x4.
Definition NOTE_TRIGGER : Z := 0x01000000.

(** [as RawFd] *)
Definition as_i32 (z : Z) : Z := let w := wrap 32 z in if w <? 2 ^ 31 then w else w - 2 ^ 32.

(** [as isize] *)
Definition as_isize (z : Z) : Z := let w := wrap 64 z in if w <? 2 ^ 63 then w else w - 2 ^ 64.

(** [as usize] *)
Definition as_usize (z : Z) : Z := wrap 64 z.

Inductive EventKind : Type := FD | Notifier | Signal | Timer.

#[global] Instance EventKind_eq_dec : EqDecision EventKind.
Proof. solve_decision. Defined.

(** The struct of the system; [udata] is null or an address. *)
Record kevent := MkKevent {
  k_ident : Z;
  k_filter : Z;
  k_flags : Z;
  k_fflags : Z;
  k_data : Z;
  k_udata : option nat;
}.

Definition with_flags (f : Z) (k : kevent) : kevent :=
  MkKevent k.(k_ident) k.(k_filter) f k.(k_fflags) k.(k_data) k.(k_udata).
Definition with_fflags (f : Z) (k : kevent) : kevent :=
  MkKevent k.(k_ident) k.(k_filter) k.(k_flags) f k.(k_data) k.(k_udata).

(** An event in the queue of the system. *)
Record knote := MkKnote {
  kn_udata : option nat;
  kn_dispatch : bool;
  kn_enabled : bool;
  kn_triggered : bool;
}.

Section Kqueue.
Context {Handler : Type}.

Record Event := MkEvent {
  e_event : kevent;
  e_handler : Handler;
  e_kind : EventKind;
}.

(** The three vectors, the boxes, the queue of the system, and the signals that
    are ignored. *)
Record EventPoll := MkPoll {
  events : list (option nat);
  custom : list (option nat);
  signals : list (option nat);
  boxes : gmap nat Event;
  kqueue : gmap (Z * Z) knote;
  ignored : gset Z;
}.

Definition with_boxes (b : gmap nat Event) (p : EventPoll) : EventPoll :=
  MkPoll p.(events) p.(custom) p.(signals) b p.(kqueue) p.(ignored).
Definition with_kqueue (k : gmap (Z * Z) knote) (p : EventPoll) : EventPoll :=
  MkPoll p.(events) p.(custom) p.(signals) p.(boxes) k p.(ignored).
Definition with_ignored (i : gset Z) (p : EventPoll) : EventPoll :=
  MkPoll p.(events) p.(custom) p.(signals) p.(boxes) p.(kqueue) i.

(** The vector that holds events of a kind. *)
Inductive vector : Type := VEvents | VCustom | VSignals.

Definition vector_of (k : EventKind) : vector :=
  match k with FD => VEvents | Timer | Notifier => VCustom | Signal => VSignals end.

Definition slots (v : vector) (p : EventPoll) : list (option nat) :=
  match v with VEvents => p.(events) | VCustom => p.(custom) | VSignals => p.(signals) end.

Definition with_slots (v : vector) (l : list (option nat)) (p : EventPoll) : EventPoll :=
  match v with
  | VEvents => MkPoll l p.(custom) p.(signals) p.(boxes) p.(kqueue) p.(ignored)
  | VCustom => MkPoll p.(events) l p.(signals) p.(boxes) p.(kqueue) p.(ignored)
  | VSignals => MkPoll p.(events) p.(custom) l p.(boxes) p.(kqueue) p.(ignored)
  end.

Abbreviation EM := (M Error EventPoll).

(** ** The system calls *)

Definition has_flag (flags f : Z) : bool := negb (Z.land flags f =? 0).

(** The events of [EVFILT_USER] that a change triggers. *)
Definition triggers (c : kevent) : bool := (c.(k_filter) =? EVFILT_USER) && has_flag c.(k_fflags) NOTE_TRIGGER.

Definition enables (c : kevent) (before : bool) : bool :=
  if has_flag c.(k_flags) EV_DISABLE then false
  else if has_flag c.(k_flags) EV_ENABLE || has_flag c.(k_flags) EV_ADD then true else before.

(** The event after a change other than its deletion, [None] when the change
    fails. *)
Definition changed (ok : bool) (c : kevent) (old : option knote) : option knote :=
  match old with
  | Some kn =>
    if has_flag c.(k_flags) EV_ADD then
      Some (MkKnote c.(k_udata) (has_flag c.(k_flags) EV_DISPATCH) (enables c kn.(kn_enabled)) (kn.(kn_triggered) || triggers c))
    else Some (MkKnote kn.(kn_udata) kn.(kn_dispatch) (enables c kn.(kn_enabled)) (kn.(kn_triggered) || triggers c))
  | None =>
    if has_flag c.(k_flags) EV_ADD && ok then
      Some (MkKnote c.(k_udata) (has_flag c.(k_flags) EV_DISPATCH) (enables c true) (triggers c))
    else None
  end.

(** [kevent] with one change; whether it succeeds. *)
Definition kevent_change (ok : bool) (c : kevent) : EM bool := λ p,
  let key := (c.(k_ident), c.(k_filter)) in
  if has_flag c.(k_flags) EV_DELETE then
    match p.(kqueue) !! key with
    | Some _ => Ret (Ok true, with_kqueue (delete key p.(kqueue)) p)
    | None => Ret (Ok false, p)
    end
  else
    match changed ok c (p.(kqueue) !! key) with
    | Some kn => Ret (Ok true, with_kqueue (<[key := kn]> p.(kqueue)) p)
    | None => Ret (Ok false, p)
    end.

(** [kevent] without looking at the outcome. *)
Definition kevent_ (c : kevent) : EM () := _ ← kevent_change true c; mret ().

(** What a wait for an event answers: an error, or an event with its flags. *)
Inductive kevent_answer : Type :=
| KFailed
| KReady (ident filter flags : Z).

Definition reportable (filter : Z) (kn : knote) : bool :=
  kn.(kn_enabled) && (negb (filter =? EVFILT_USER) || kn.(kn_triggered)).

(** What may not be reported is not. *)
Definition kevent_wait (ans : kevent_answer) : EM (option (option nat * Z)) := λ p,
  match ans with
  | KReady ident filter flags =>
    match p.(kqueue) !! (ident, filter) with
    | Some kn =>
      if reportable filter kn then
        Ret (Ok (Some (kn.(kn_udata), flags)), with_kqueue (<[(ident, filter) :=
          MkKnote kn.(kn_udata) kn.(kn_dispatch) (negb kn.(kn_dispatch)) kn.(kn_triggered)]> p.(kqueue)) p)
      else Ret (Ok None, p)
    | None => Ret (Ok None, p)
    end
  | KFailed => Ret (Ok None, p)
  end.

(** ** The registry *)

Definition EventPoll_new (fd : option Z) : result Error EventPoll :=
  match fd with Some _ => Ok (MkPoll [] [] [] ∅ ∅ ∅) | None => Err EventQueue end.

(** The event at an address. *)
Definition deref (a : nat) : EM Event := b ← gets boxes; unwrap (b !! a).

Definition drop_box (a : nat) : EM () := modify (λ p, with_boxes (delete a p.(boxes)) p).

(** [events[index].take()], and what is done with the event. *)
Definition take_event (v : vector) (index : nat) : EM () :=
  l ← gets (slots v);
  slot ← unwrap (l !! index);
  match slot with
  | Some a =>
    _ ← modify (with_slots v (<[index := None]> l));
    event ← deref a;
    _ ← kevent_ (with_flags EV_DELETE event.(e_event));
    drop_box a
  | None => mret ()
  end.

(** The inner event points back to the wrapper. *)
Definition pointing (a : nat) (trigger : Z) (ev : Event) : Event :=
  let k := ev.(e_event) in
  MkEvent (MkKevent (as_usize trigger) k.(k_filter) k.(k_flags) k.(k_fflags) k.(k_data) (Some a)) ev.(e_handler) ev.(e_kind).

(** The trigger and the index of a new event in a vector of some length. *)
Definition trigger_index (len : nat) (ev : Event) : Z * nat :=
  match ev.(e_kind) with
  | FD | Signal => (as_i32 ev.(e_event).(k_ident), Z.to_nat ev.(e_event).(k_ident))
  | Timer | Notifier => (as_i32 (- as_i32 (Z.of_nat len) - 1), len)
  end.

Definition register_event (ok : bool) (ev : Event) : EM Z :=
  let v := vector_of ev.(e_kind) in
  l ← gets (slots v);
  let '(trigger, index) := trigger_index (length l) ev in
  _ ← modify (with_slots v (extend index l));
  a ← gets (λ p, fresh (dom p.(boxes)));
  let ev := pointing a trigger ev in
  _ ← modify (λ p, with_boxes (<[a := ev]> p.(boxes)) p);
  added ← kevent_change ok (with_flags (Z.lor ev.(e_event).(k_flags) EV_ADD) ev.(e_event));
  if negb added then _ ← drop_box a; throw EventQueue
  else
    _ ← take_event v index;
    _ ← (if decide (ev.(e_kind) = Signal) then modify (λ p, with_ignored ({[trigger]} ∪ p.(ignored)) p) else mret ());
    _ ← modify (λ p, with_slots v (<[index := Some a]> (slots v p)) p);
    mret trigger.

Definition new_event (ok : bool) (trigger : Z) (handler : Handler) : EM Z :=
  register_event ok (MkEvent (MkKevent (as_usize trigger) EVFILT_READ (Z.lor EV_ENABLE EV_DISPATCH) 0 0 None) handler FD).

(** The nanoseconds of a duration of [secs] seconds and [nanos] nanoseconds;
    [checked_mul] and [checked_add] are unwrapped. *)
Definition period_nanos (secs nanos : Z) : EM Z :=
  let s := secs * 1000000000 in
  _ ← assert_ (s <? 2 ^ 64);
  _ ← assert_ (s + nanos <? 2 ^ 64);
  mret (as_isize (s + nanos)).

Definition new_periodic_event (ok : bool) (handler : Handler) (secs nanos : Z) : EM Z :=
  data ← period_nanos secs nanos;
  register_event ok (MkEvent (MkKevent 0 EVFILT_TIMER (Z.lor EV_ENABLE EV_DISPATCH) NOTE_NSECONDS data None) handler Timer).

Definition new_notifier (ok : bool) (handler : Handler) : EM Z :=
  register_event ok (MkEvent (MkKevent 0 EVFILT_USER EV_ENABLE 0 0 None) handler Notifier).

Definition new_signal_event (ok : bool) (signal : Z) (handler : Handler) : EM Z :=
  register_event ok (MkEvent (MkKevent (as_usize signal) EVFILT_SIGNAL (Z.lor EV_ENABLE EV_DISPATCH) 0 0 None) handler Signal).

(** A guard is the address of its event. *)
Inductive WaitResult : Type :=
| WaitOk (guard : nat)
| WaitEoF (guard : nat)
| WaitError.

Definition wait (ans : kevent_answer) : EM WaitResult :=
  r ← kevent_wait ans;
  match r with
  | None => mret WaitError
  | Some (udata, flags) =>
    a ← unwrap udata;
    _ ← deref a;
    mret (if has_flag flags EV_EOF then WaitEoF a else WaitOk a)
  end.

(** The event of a notifier. *)
Definition notifier_event (trigger : Z) : EM Event :=
  l ← gets custom;
  let ev_index := as_i32 (- trigger - 1) in
  slot ← unwrap (l !! Z.to_nat (as_usize ev_index));
  a ← unwrap slot;
  ev ← deref a;
  _ ← assert_ (bool_decide (ev.(e_kind) = Notifier));
  mret ev.

Definition trigger_notification (trigger : Z) : EM () :=
  ev ← notifier_event trigger;
  kevent_ (with_fflags NOTE_TRIGGER ev.(e_event)).

Definition stop_notification (trigger : Z) : EM () :=
  ev ← notifier_event trigger;
  kevent_ (with_fflags 0 (with_flags EV_DISABLE ev.(e_event))).

Definition clear_event_by_fd (index : Z) : EM () :=
  if 0 <=? index then take_event VEvents (Z.to_nat index)
  else take_event VCustom (Z.to_nat (as_i32 (- index - 1))).

(** [EventGuard::deref] *)
Definition guard_handler (a : nat) : EM Handler := ev ← deref a; mret ev.(e_handler).

(** [EventGuard::drop] *)
Definition guard_drop (a : nat) : EM () := ev ← deref a; kevent_ ev.(e_event).

Definition cancel (a : nat) : EM () := ev ← deref a; clear_event_by_fd (as_i32 ev.(e_event).(k_ident)).

(** [EventGuard::fd] is a stub. *)
Definition guard_fd (a : nat) : Z := -1.
End Kqueue.
Arguments Event Handler : clear implicits.
Arguments EventPoll Handler : clear implicits.

(** ** The invariant *)

Section KqueueInvariant.
Context {Handler : Type}.

#[global] Instance vector_eq_dec : EqDecision vector.
Proof. solve_decision. Defined.

Lemma slots_with_slots v v' l (p : EventPoll Handler) :
  slots v' (with_slots v l p) = if decide (v' = v) then l else slots v' p.
Proof. by destruct v, v'. Qed.

Lemma boxes_with_slots v l (p : EventPoll Handler) : boxes (with_slots v l p) = boxes p.
Proof. by destruct v. Qed.

Lemma kqueue_with_slots v l (p : EventPoll Handler) : kqueue (with_slots v l p) = kqueue p.
Proof. by destruct v. Qed.

Definition filter_of (k : EventKind) : Z :=
  match k with FD => EVFILT_READ | Timer => EVFILT_TIMER | Notifier => EVFILT_USER | Signal => EVFILT_SIGNAL end.
Definition flags_of (k : EventKind) : Z :=
  match k with Notifier => EV_ENABLE | _ => Z.lor EV_ENABLE EV_DISPATCH end.
Definition fflags_of (k : EventKind) : Z := match k with Timer => NOTE_NSECONDS | _ => 0 end.

(** The trigger of the event in a slot. *)
Definition name_at (v : vector) (i : nat) : Z :=
  match v with VCustom => - Z.of_nat i - 1 | _ => Z.of_nat i end.

(** The event that is put in slot [i], at address [a]. *)
Definition event_at (a : nat) (k : EventKind) (i : nat) (data : Z) (h : Handler) : Event Handler :=
  MkEvent (MkKevent (as_usize (name_at (vector_of k) i)) (filter_of k) (flags_of k) (fflags_of k) data (Some a)) h k.

Definition made (a i : nat) (ev : Event Handler) : Prop :=
  Z.of_nat i < 2 ^ 31 ∧ ∃ data, ev = event_at a ev.(e_kind) i data ev.(e_handler).

Definition key_of (ev : Event Handler) : Z * Z := (ev.(e_event).(k_ident), ev.(e_event).(k_filter)).

(** [g] are the guards that the threads hold. *)
Record kq_inv (p : EventPoll Handler) (g : gmultiset nat) : Prop := {
  ki_slot v i a : slots v p !! i = Some (Some a) →
    ∃ ev, p.(boxes) !! a = Some ev ∧ vector_of ev.(e_kind) = v ∧ made a i ev;
  ki_box a ev : p.(boxes) !! a = Some ev → ∃ i, slots (vector_of ev.(e_kind)) p !! i = Some (Some a);
  ki_queue key kn : p.(kqueue) !! key = Some kn →
    ∃ a ev, kn.(kn_udata) = Some a ∧ p.(boxes) !! a = Some ev ∧ key = key_of ev ∧
      (ev.(e_kind) ≠ Notifier → kn.(kn_dispatch) = true);
  ki_guard a : a ∈ g → is_Some (p.(boxes) !! a);
  ki_once a ev : a ∈ g → p.(boxes) !! a = Some ev → ev.(e_kind) ≠ Notifier →
    multiplicity a g = 1%nat ∧ ∀ kn, p.(kqueue) !! key_of ev = Some kn → kn.(kn_enabled) = false;
}.

Lemma as_i32_small n : - 2 ^ 31 ≤ n < 2 ^ 31 → as_i32 n = n.
Proof.
  intros Hn. unfold as_i32, wrap. destruct (Z.ltb_spec (n mod 2 ^ 32) (2 ^ 31)) as [Hl|Hl].
  - destruct (Z.le_gt_cases 0 n); [by apply Z.mod_small; lia|].
    rewrite <- (Z_mod_plus_full n 1), Z.mod_small in Hl by lia. lia.
  - destruct (Z.le_gt_cases 0 n); [rewrite Z.mod_small in Hl by lia; lia|].
    rewrite <- (Z_mod_plus_full n 1), Z.mod_small by lia. lia.
Qed.

Lemma as_i32_id n : - 2 ^ 31 ≤ n < 2 ^ 31 → as_i32 (as_usize n) = n.
Proof.
  intros Hn. rewrite <- (as_i32_small n) at 2 by done. unfold as_i32, as_usize, wrap.
  by rewrite Z.mod_mod_divide by (exists (2 ^ 32); lia).
Qed.

Lemma as_i32_name v i : Z.of_nat i < 2 ^ 31 → as_i32 (as_usize (name_at v i)) = name_at v i.
Proof. intros Hi. apply as_i32_id. destruct v; cbn [name_at]; lia. Qed.

Lemma name_at_inj v i j : name_at v i = name_at v j → i = j.
Proof. destruct v; cbn [name_at]; lia. Qed.

Lemma filter_of_inj k k' : filter_of k = filter_of k' → k = k'.
Proof. by destruct k, k'. Qed.

(** The queue tells the slots apart. *)
Lemma key_place a b i j ev ev' :
  made a i ev → made b j ev' → key_of ev = key_of ev' → ev.(e_kind) = ev'.(e_kind) ∧ i = j.
Proof.
  intros [Hi [d He]] [Hj [d' He']]. rewrite He, He'. cbn. intros [= Hid Hf]. apply filter_of_inj in Hf. split; [done|].
  rewrite Hf in Hid. apply (f_equal as_i32) in Hid. rewrite !as_i32_name in Hid by done. by eapply name_at_inj.
Qed.

Lemma ki_made p g a ev : kq_inv p g → p.(boxes) !! a = Some ev → ∃ i, slots (vector_of ev.(e_kind)) p !! i = Some (Some a) ∧ made a i ev.
Proof.
  intros Hinv Ha. destruct (ki_box _ _ Hinv _ _ Ha) as [i Hi]. exists i. split; [done|].
  destruct (ki_slot _ _ Hinv _ _ _ Hi) as (ev' & Hev & _ & Hm). congruence.
Qed.

(** No two events have the same key. *)
Lemma key_inj p g a b ev ev' :
  kq_inv p g → p.(boxes) !! a = Some ev → p.(boxes) !! b = Some ev' → key_of ev = key_of ev' → a = b.
Proof.
  intros Hinv Ha Hb Hk. destruct (ki_made _ _ _ _ Hinv Ha) as (i & Hi & Hmi). destruct (ki_made _ _ _ _ Hinv Hb) as (j & Hj & Hmj).
  destruct (key_place _ _ _ _ _ _ Hmi Hmj Hk) as [Hkind ->]. rewrite Hkind in Hi. congruence.
Qed.

(** *** Taking an event out *)

Definition taken (v : vector) (i o : nat) (key : Z * Z) (p : EventPoll Handler) : EventPoll Handler :=
  with_slots v (<[i := None]> (slots v p)) (with_boxes (delete o p.(boxes)) (with_kqueue (delete key p.(kqueue)) p)).

Lemma delete_run k (p : EventPoll Handler) :
  kevent_ (with_flags EV_DELETE k) p = Ret (Ok (), with_kqueue (delete (k.(k_ident), k.(k_filter)) p.(kqueue)) p).
Proof.
  unfold kevent_, kevent_change, mbind, M_bind. cbn. destruct (kqueue p !! _) eqn:Hk; cbn; [done|].
  rewrite delete_id by done. by destruct p.
Qed.

Lemma kq_deref_run (a : nat) (p : EventPoll Handler) ev : p.(boxes) !! a = Some ev → deref a p = Ret (Ok ev, p).
Proof. intros Ha. unfold deref, gets, unwrap, mbind, M_bind. by rewrite Ha. Qed.

Lemma take_none_run v i (p : EventPoll Handler) : slots v p !! i = Some None → take_event v i p = Ret (Ok (), p).
Proof. intros Hi. unfold take_event. erewrite bind_ok by reflexivity. rewrite Hi. by erewrite bind_ok by reflexivity. Qed.

Lemma take_run v i o ev (p : EventPoll Handler) :
  slots v p !! i = Some (Some o) → p.(boxes) !! o = Some ev → take_event v i p = Ret (Ok (), taken v i o (key_of ev) p).
Proof.
  intros Hi Ho. unfold take_event. erewrite bind_ok by reflexivity. rewrite Hi. erewrite bind_ok by reflexivity. cbv match.
  erewrite bind_ok by reflexivity. erewrite bind_ok by (apply kq_deref_run; by rewrite boxes_with_slots).
  erewrite bind_ok by apply delete_run.
  unfold drop_box, modify, taken. by destruct v.
Qed.

Lemma slots_taken v i o key v' j (p : EventPoll Handler) a :
  slots v' (taken v i o key p) !! j = Some (Some a) → slots v' p !! j = Some (Some a) ∧ (v', j) ≠ (v, i).
Proof.
  unfold taken. rewrite slots_with_slots. destruct (decide (v' = v)) as [->|Hne].
  - intros [(_ & ? & _)|[Hne Hj]]%list_lookup_insert_Some; [done|]. split; [done|congruence].
  - intros Hj. split; [by destruct v, v'|congruence].
Qed.

Lemma taken_slots v i o key v' j (p : EventPoll Handler) a :
  slots v' p !! j = Some (Some a) → (v', j) ≠ (v, i) → slots v' (taken v i o key p) !! j = Some (Some a).
Proof.
  intros Hj Hne. unfold taken. rewrite slots_with_slots. destruct (decide (v' = v)) as [->|]; [|by destruct v, v'].
  rewrite list_lookup_insert_ne; [done|congruence].
Qed.

Lemma taken_inv v i a ev p g :
  kq_inv p g → slots v p !! i = Some (Some a) → p.(boxes) !! a = Some ev → a ∉ g → kq_inv (taken v i a (key_of ev) p) g.
Proof.
  intros Hinv Hi Ha Hg. destruct (ki_slot _ _ Hinv _ _ _ Hi) as (ev' & Hev' & Hv & Hm). simplify_eq.
  assert (Hb : boxes (taken (vector_of (e_kind ev)) i a (key_of ev) p) = delete a p.(boxes)) by (unfold taken; by rewrite boxes_with_slots).
  assert (Hq : kqueue (taken (vector_of (e_kind ev)) i a (key_of ev) p) = delete (key_of ev) p.(kqueue))
    by (unfold taken; by rewrite kqueue_with_slots).
  split; rewrite ?Hb, ?Hq.
  - intros v' j b [Hj Hne]%slots_taken. destruct (ki_slot _ _ Hinv _ _ _ Hj) as (x & Hx & Hvx & Hmx).
    exists x. split; [|done]. apply lookup_delete_Some. split; [|done]. intros <-. simplify_eq. apply Hne.
    destruct (key_place _ _ _ _ _ _ Hm Hmx eq_refl) as [_ ->]. done.
  - intros b x [Hne Hx]%lookup_delete_Some. destruct (ki_box _ _ Hinv _ _ Hx) as [j Hj]. exists j.
    apply taken_slots; [done|]. intros [= Hvv ->]. rewrite Hvv in Hj. congruence.
  - intros key kn [Hne Hk]%lookup_delete_Some. destruct (ki_queue _ _ Hinv _ _ Hk) as (b & x & Hu & Hx & -> & Hd).
    exists b, x. split_and!; try done. apply lookup_delete_Some. split; [|done]. intros <-. congruence.
  - intros b Hbg. destruct (ki_guard _ _ Hinv b Hbg) as [x Hx]. exists x. apply lookup_delete_Some. split; [congruence|done].
  - intros b x Hbg [Hne Hx]%lookup_delete_Some Hn. destruct (ki_once _ _ Hinv b x Hbg Hx Hn) as [H1 H2]. split; [done|].
    intros kn [_ Hk]%lookup_delete_Some. by apply H2.
Qed.

(** *** Putting an event in *)

(** [reg]: the queue of the system knows the event. *)
Definition placed (a : nat) (k : EventKind) (i : nat) (data : Z) (h : Handler) (reg : bool) (ig : gset Z)
  (p : EventPoll Handler) : EventPoll Handler :=
  let ev := event_at a k i data h in
  with_slots (vector_of k) (<[i := Some a]> (extend i (slots (vector_of k) p)))
    (with_ignored ig (with_boxes (<[a := ev]> p.(boxes))
      (with_kqueue (if reg then <[key_of ev := MkKnote (Some a) (has_flag (flags_of k) EV_DISPATCH) true false]> p.(kqueue)
                    else p.(kqueue)) p))).

(** There is no event in the slot. *)
Definition vacant (v : vector) (i : nat) (p : EventPoll Handler) : Prop := ∀ o, slots v p !! i ≠ Some (Some o).

Lemma slots_placed a k i data h reg ig v j (p : EventPoll Handler) b :
  slots v (placed a k i data h reg ig p) !! j = Some (Some b) ↔
    ((v, j) = (vector_of k, i) ∧ b = a) ∨ ((v, j) ≠ (vector_of k, i) ∧ slots v p !! j = Some (Some b)).
Proof.
  unfold placed. rewrite slots_with_slots. destruct (decide (v = vector_of k)) as [->|Hne].
  - rewrite slot_lookup. naive_solver.
  - set (q := with_ignored _ _). assert (slots v q = slots v p) as -> by (by destruct v). naive_solver.
Qed.

Lemma placed_inv a k i data h reg ig p g :
  kq_inv p g → p.(boxes) !! a = None → Z.of_nat i < 2 ^ 31 → vacant (vector_of k) i p →
  kq_inv (placed a k i data h reg ig p) g.
Proof.
  intros Hinv Ha Hi Hvac. set (ev := event_at a k i data h).
  assert (Hb : boxes (placed a k i data h reg ig p) = <[a := ev]> p.(boxes)) by (unfold placed; by rewrite boxes_with_slots).
  assert (Hm : made a i ev) by (split; [done|by exists data]).
  assert (Hold : ∀ b x, p.(boxes) !! b = Some x → key_of x ≠ key_of ev).
  { intros b x Hx Hk. destruct (ki_made _ _ _ _ Hinv Hx) as (j & Hj & Hmx).
    destruct (key_place _ _ _ _ _ _ Hmx Hm Hk) as [Hkind ->]. rewrite Hkind in Hj. by apply (Hvac b). }
  assert (Hq : ∀ key kn, kqueue (placed a k i data h reg ig p) !! key = Some kn →
    (key = key_of ev ∧ kn = MkKnote (Some a) (has_flag (flags_of k) EV_DISPATCH) true false) ∨ p.(kqueue) !! key = Some kn).
  { intros key kn. unfold placed. rewrite kqueue_with_slots. cbn. destruct reg; [|by right]. rewrite lookup_insert_Some. naive_solver. }
  split; rewrite ?Hb.
  - intros v j b [[[= -> ->] ->]|[Hne Hj]]%slots_placed; [exists ev; by rewrite lookup_insert_eq|].
    destruct (ki_slot _ _ Hinv _ _ _ Hj) as (x & Hx & Hrest). exists x. split; [|done]. rewrite lookup_insert_ne; [done|congruence].
  - intros b x [[<- <-]|[Hne Hx]]%lookup_insert_Some.
    + exists i. apply slots_placed. by left.
    + destruct (ki_box _ _ Hinv _ _ Hx) as [j Hj]. exists j. apply slots_placed. right. split; [|done].
      intros [= Hv ->]. rewrite Hv in Hj. by apply (Hvac b).
  - intros key kn [[-> ->]|Hk]%Hq.
    + exists a, ev. split_and!; [done|apply lookup_insert_eq|done|]. cbn. by destruct k.
    + destruct (ki_queue _ _ Hinv _ _ Hk) as (b & x & Hu & Hx & Hkey & Hd). exists b, x. split_and!; try done.
      rewrite lookup_insert_ne; [done|congruence].
  - intros b Hbg. destruct (ki_guard _ _ Hinv b Hbg) as [x Hx]. exists x. rewrite lookup_insert_ne; [done|congruence].
  - intros b x Hbg [[<- <-]|[Hne Hx]]%lookup_insert_Some Hn.
    + destruct (ki_guard _ _ Hinv a Hbg) as [y Hy]. congruence.
    + destruct (ki_once _ _ Hinv b x Hbg Hx Hn) as [H1 H2]. split; [done|]. intros kn [[Hc _]|Hk]%Hq; [|by apply H2].
      by destruct (Hold b x Hx).
Qed.

(** *** Registering *)

(** The events that the four functions register. *)
Definition raw (k : EventKind) (ident data : Z) (h : Handler) : Event Handler :=
  MkEvent (MkKevent ident (filter_of k) (flags_of k) (fflags_of k) data None) h k.

(** The slot that an event with this identifier gets. *)
Definition slot_for (k : EventKind) (ident : Z) (i : nat) (p : EventPoll Handler) : Prop :=
  Z.of_nat i < 2 ^ 31 ∧
  match k with FD | Signal => ident = as_usize (Z.of_nat i) | Timer | Notifier => i = length p.(custom) end.

Lemma trigger_index_run k ident data h i p :
  slot_for k ident i p → trigger_index (length (slots (vector_of k) p)) (raw k ident data h) = (name_at (vector_of k) i, i).
Proof.
  assert (Hu : Z.of_nat i < 2 ^ 31 → as_usize (Z.of_nat i) = Z.of_nat i) by (intros ?; apply Z.mod_small; lia).
  intros [Hi Hk]. unfold trigger_index. destruct k; cbn [raw e_kind e_event k_ident vector_of name_at slots] in *; subst.
  1,3: by rewrite as_i32_id, Hu, Nat2Z.id by lia.
  all: by rewrite !as_i32_small by (rewrite ?as_i32_small by lia; lia).
Qed.

Lemma kq_add_run ok a k i data h (q : EventPoll Handler) :
  let ev := event_at a k i data h in
  q.(kqueue) !! key_of ev = None →
  kevent_change ok (with_flags (Z.lor (flags_of k) EV_ADD) ev.(e_event)) q =
    Ret (Ok ok, if ok then with_kqueue (<[key_of ev := MkKnote (Some a) (has_flag (flags_of k) EV_DISPATCH) true false]> q.(kqueue)) q else q).
Proof.
  intros ev Hn. unfold key_of in Hn. unfold kevent_change. cbn [with_flags k_ident k_filter k_flags ev event_at e_event] in *.
  rewrite Hn. by destruct k, ok.
Qed.

Lemma kq_change_run ok a k i data h (q : EventPoll Handler) kn :
  let ev := event_at a k i data h in
  q.(kqueue) !! key_of ev = Some kn →
  ∃ kn', kevent_change ok (with_flags (Z.lor (flags_of k) EV_ADD) ev.(e_event)) q =
    Ret (Ok true, with_kqueue (<[key_of ev := kn']> q.(kqueue)) q).
Proof.
  intros ev Hn. unfold key_of in Hn. unfold kevent_change. cbn [with_flags k_ident k_filter k_flags ev event_at e_event] in *.
  rewrite Hn. by destruct k; eexists.
Qed.

Definition ignoring (k : EventKind) (i : nat) (p : EventPoll Handler) : gset Z :=
  if decide (k = Signal) then {[name_at (vector_of k) i]} ∪ p.(ignored) else p.(ignored).

Definition extended (v : vector) (i : nat) (p : EventPoll Handler) : EventPoll Handler :=
  with_slots v (extend i (slots v p)) p.

Lemma vacant_no_knote k i a data h p g :
  kq_inv p g → Z.of_nat i < 2 ^ 31 → vacant (vector_of k) i p → p.(kqueue) !! key_of (event_at a k i data h) = None.
Proof.
  intros Hinv Hi Hvac. destruct (kqueue p !! _) as [kn|] eqn:Hk; [|done]. exfalso.
  destruct (ki_queue _ _ Hinv _ _ Hk) as (b & x & _ & Hx & Hkey & _). destruct (ki_made _ _ _ _ Hinv Hx) as (j & Hj & Hm).
  destruct (key_place a b i j (event_at a k i data h) x) as [Hkind ->]; [split; [done|by exists data]|done|done|].
  cbn in Hkind. rewrite <- Hkind in Hj. by apply (Hvac b).
Qed.

Lemma register_vacant ok k ident i data h p g :
  let a := fresh (dom p.(boxes)) in
  kq_inv p g → slot_for k ident i p → vacant (vector_of k) i p →
  register_event ok (raw k ident data h) p =
    if ok then Ret (Ok (name_at (vector_of k) i), placed a k i data h true (ignoring k i p) p)
    else Ret (Err EventQueue, extended (vector_of k) i p).
Proof.
  intros a Hinv Hslot Hvac. pose proof Hslot as [Hi _]. unfold register_event. cbn [raw e_kind].
  erewrite bind_ok by reflexivity. rewrite (trigger_index_run k ident data h i p Hslot).
  erewrite bind_ok by reflexivity. erewrite bind_ok by reflexivity. rewrite boxes_with_slots. fold a.
  change (pointing a (name_at (vector_of k) i) (raw k ident data h)) with (event_at a k i data h).
  erewrite bind_ok by reflexivity. rewrite boxes_with_slots. set (q := with_boxes _ _).
  assert (Hq : q.(kqueue) = p.(kqueue)) by (unfold q; by destruct k).
  erewrite bind_ok by (apply kq_add_run; rewrite Hq; by eapply vacant_no_knote). rewrite Hq.
  destruct ok; cbv match; cbn [negb]; cbv match.
  - assert (Hl : slots (vector_of k) q !! i = Some None).
    { assert (slots (vector_of k) q = extend i (slots (vector_of k) p)) as -> by (unfold q; by destruct k).
      destruct (extend i _ !! i) as [[o|]|] eqn:He; [|done|].
      - apply extend_lookup in He. by apply (Hvac o) in He.
      - apply lookup_ge_None in He. pose proof (length_extend i (slots (vector_of k) p)). lia. }
    erewrite bind_ok by (apply take_none_run; rewrite <- Hl; by destruct k).
    by destruct k.
  - unfold drop_box, modify, mbind, M_bind. cbn. unfold extended.
    assert (Ha : p.(boxes) !! a = None) by (apply not_elem_of_dom, is_fresh).
    rewrite delete_insert_id by done. by destruct k, p.
Qed.

Lemma extend_id i (l : list (option nat)) : (i < length l)%nat → extend i l = l.
Proof. intros Hi. unfold extend. replace (S i - length l)%nat with 0%nat by lia. apply app_nil_r. Qed.

Lemma occupied_kind k ident i o ev p g :
  kq_inv p g → slot_for k ident i p → slots (vector_of k) p !! i = Some (Some o) → p.(boxes) !! o = Some ev →
  (k = FD ∨ k = Signal) ∧ ev.(e_kind) = k ∧ ∀ a data h, key_of ev = key_of (event_at a k i data h).
Proof.
  intros Hinv [Hi Hslot] Hs Ho. destruct (ki_slot _ _ Hinv _ _ _ Hs) as (x & Hx & Hv & _ & d & He). simplify_eq.
  assert (Hk : k = FD ∨ k = Signal).
  { destruct k; auto; subst; apply lookup_lt_Some in Hs; cbn in Hs; lia. }
  assert (Hkind : ev.(e_kind) = k) by (by destruct Hk as [-> | ->], (e_kind ev)).
  split_and!; [done|done|]. intros a data h. by rewrite He, Hkind.
Qed.

(** What follows the change, when an event was there: the change is undone. *)
Lemma register_over k i data h p o ev kn a :
  (k = FD ∨ k = Signal) → slots (vector_of k) p !! i = Some (Some o) → p.(boxes) !! o = Some ev → o ≠ a →
  let q := with_boxes (<[a := event_at a k i data h]> p.(boxes)) (with_kqueue (<[key_of ev := kn]> p.(kqueue)) p) in
  take_event (vector_of k) i q = Ret (Ok (), with_boxes (<[a := event_at a k i data h]> (delete o p.(boxes)))
    (taken (vector_of k) i o (key_of ev) p)) ∧
  extend i (<[i := None]> (slots (vector_of k) p)) = <[i := None]> (slots (vector_of k) p).
Proof.
  intros Hk Hs Ho Hne q. split; [|apply extend_id; rewrite length_insert; by eapply lookup_lt_Some].
  rewrite (take_run (vector_of k) i o ev); [|by destruct Hk as [-> | ->]|cbn; by rewrite lookup_insert_ne].
  do 2 f_equal. unfold taken, q. cbn [boxes kqueue with_kqueue with_boxes].
  rewrite delete_insert_ne, delete_insert_eq by done. by destruct Hk as [-> | ->].
Qed.

Lemma register_occupied ok k ident i data h p g o ev :
  let a := fresh (dom p.(boxes)) in
  kq_inv p g → slot_for k ident i p → slots (vector_of k) p !! i = Some (Some o) → p.(boxes) !! o = Some ev →
  register_event ok (raw k ident data h) p =
    if ok || bool_decide (is_Some (p.(kqueue) !! key_of ev)) then
      Ret (Ok (name_at (vector_of k) i), placed a k i data h false (ignoring k i p) (taken (vector_of k) i o (key_of ev) p))
    else Ret (Err EventQueue, p).
Proof.
  intros a Hinv Hslot Hs Ho. destruct (occupied_kind _ _ _ _ _ _ _ Hinv Hslot Hs Ho) as (Hk & Hkind & Hkey).
  specialize (Hkey a data h). assert (Ha : p.(boxes) !! a = None) by (apply not_elem_of_dom, is_fresh).
  assert (Hne : o ≠ a) by congruence. unfold register_event. cbn [raw e_kind]. erewrite bind_ok by reflexivity.
  rewrite (trigger_index_run k ident data h i p Hslot), extend_id by (by eapply lookup_lt_Some).
  erewrite bind_ok by reflexivity. erewrite bind_ok by reflexivity. rewrite boxes_with_slots. fold a.
  change (pointing a (name_at (vector_of k) i) (raw k ident data h)) with (event_at a k i data h).
  erewrite bind_ok by reflexivity. rewrite boxes_with_slots.
  replace (with_boxes (<[a := event_at a k i data h]> p.(boxes)) (with_slots (vector_of k) (slots (vector_of k) p) p))
    with (with_boxes (<[a := event_at a k i data h]> p.(boxes)) p) by (by destruct k, p).
  set (q := with_boxes _ p). pose proof (λ kn, register_over k i data h p o ev kn a Hk Hs Ho Hne) as Hover.
  assert (Hcase : (∃ kn, kevent_change ok (with_flags (Z.lor (flags_of k) EV_ADD) (e_event (event_at a k i data h))) q =
      Ret (Ok true, with_kqueue (<[key_of ev := kn]> p.(kqueue)) q) ∧ ok || bool_decide (is_Some (p.(kqueue) !! key_of ev)) = true) ∨
    (kevent_change ok (with_flags (Z.lor (flags_of k) EV_ADD) (e_event (event_at a k i data h))) q = Ret (Ok false, q) ∧
      ok || bool_decide (is_Some (p.(kqueue) !! key_of ev)) = false)).
  { rewrite Hkey. destruct (kqueue p !! _) as [kn|] eqn:Hkn.
    - left. rewrite bool_decide_true, orb_true_r by eauto. destruct (kq_change_run ok a k i data h q kn) as [kn' Hc]; eauto.
    - rewrite bool_decide_false, orb_false_r by (by intros []). rewrite kq_add_run by done. destruct ok; eauto. }
  destruct Hcase as [(kn & Hc & ->)|(Hc & ->)]; erewrite bind_ok by exact Hc; cbn [negb]; cbv match.
  - destruct (Hover kn) as [Ht Hx]. erewrite bind_ok by exact Ht. unfold placed.
    assert (Hsl : slots (vector_of k) (taken (vector_of k) i o (key_of ev) p) = <[i := None]> (slots (vector_of k) p))
      by (unfold taken; by destruct k).
    rewrite Hsl, Hx. clear Hover Hc Ht Hx Hsl. by destruct Hk as [-> | ->].
  - unfold drop_box, modify, mbind, M_bind, q. cbn. rewrite delete_insert_id by done. by destruct p.
Qed.

Lemma extended_inv v i p g : kq_inv p g → kq_inv (extended v i p) g.
Proof.
  intros Hinv. assert (Hs : ∀ v' j b, slots v' (extended v i p) !! j = Some (Some b) ↔ slots v' p !! j = Some (Some b)).
  { intros v' j b. unfold extended. rewrite slots_with_slots. destruct (decide (v' = v)) as [->|]; [apply extend_lookup|done]. }
  unfold extended in *. split; rewrite ?boxes_with_slots, ?kqueue_with_slots; try apply Hinv.
  - intros v' j b Hj%Hs. by apply (ki_slot _ _ Hinv).
  - intros b x Hx. destruct (ki_box _ _ Hinv _ _ Hx) as [j Hj]. exists j. by apply Hs.
Qed.

(** Registering where nobody has a guard on the event that is there. *)
Lemma kq_register_inv ok k ident i data h p g :
  kq_inv p g → slot_for k ident i p → (∀ o, slots (vector_of k) p !! i = Some (Some o) → o ∉ g) →
  ∃ r p', register_event ok (raw k ident data h) p = Ret (r, p') ∧ kq_inv p' g.
Proof.
  intros Hinv Hslot Hfree. pose proof Hslot as [Hi _].
  assert (Ha : p.(boxes) !! fresh (dom p.(boxes)) = None) by (apply not_elem_of_dom, is_fresh).
  destruct (slots (vector_of k) p !! i) as [[o|]|] eqn:Hs.
  - destruct (ki_slot _ _ Hinv _ _ _ Hs) as (ev & Ho & _). rewrite (register_occupied ok k ident i data h p g o ev) by done.
    case_match; [|eauto]. eexists _, _. split; [reflexivity|]. apply placed_inv; [apply taken_inv; auto|..|done|].
    + unfold taken. rewrite boxes_with_slots. apply lookup_delete_None. by right.
    + intros x [_ []]%slots_taken. done.
  - rewrite (register_vacant ok k ident i data h p g) by (try intros ?; congruence || done).
    destruct ok; eexists _, _; (split; [reflexivity|]); [|by apply extended_inv]. apply placed_inv; [done..|]. intros x; congruence.
  - rewrite (register_vacant ok k ident i data h p g) by (try intros ?; congruence || done).
    destruct ok; eexists _, _; (split; [reflexivity|]); [|by apply extended_inv]. apply placed_inv; [done..|]. intros x; congruence.
Qed.

(** *** Changing what the queue knows *)

Definition touched (c : kevent) (p : EventPoll Handler) : EventPoll Handler :=
  match p.(kqueue) !! (c.(k_ident), c.(k_filter)) with
  | Some kn => with_kqueue (<[(c.(k_ident), c.(k_filter)) :=
      MkKnote kn.(kn_udata) kn.(kn_dispatch) (enables c kn.(kn_enabled)) (kn.(kn_triggered) || triggers c)]> p.(kqueue)) p
  | None => p
  end.

Lemma touch_run c (p : EventPoll Handler) :
  has_flag c.(k_flags) EV_ADD = false → has_flag c.(k_flags) EV_DELETE = false → kevent_ c p = Ret (Ok (), touched c p).
Proof.
  intros Ha Hd. unfold kevent_, kevent_change, changed, touched, mbind, M_bind. rewrite Ha, Hd.
  by destruct (kqueue p !! _).
Qed.

Lemma knote_inv key kn kn' p g :
  kq_inv p g → p.(kqueue) !! key = Some kn → kn'.(kn_udata) = kn.(kn_udata) → kn'.(kn_dispatch) = kn.(kn_dispatch) →
  (∀ a ev, a ∈ g → p.(boxes) !! a = Some ev → ev.(e_kind) ≠ Notifier → key_of ev = key → kn'.(kn_enabled) = false) →
  kq_inv (with_kqueue (<[key := kn']> p.(kqueue)) p) g.
Proof.
  intros Hinv Hk Hu Hd Hoff. split; cbn [boxes kqueue with_kqueue].
  - intros v i a Hi. apply (ki_slot _ _ Hinv). by destruct v.
  - intros a ev Ha. destruct (ki_box _ _ Hinv _ _ Ha) as [i Hi]. exists i. by destruct (vector_of (e_kind ev)).
  - intros key' x [[<- <-]|[_ Hx]]%lookup_insert_Some; [|by apply (ki_queue _ _ Hinv)].
    rewrite Hu, Hd. by apply (ki_queue _ _ Hinv).
  - apply Hinv.
  - intros a ev Ha Hev Hn. destruct (ki_once _ _ Hinv a ev Ha Hev Hn) as [H1 H2]. split; [done|].
    intros x [[Hkey <-]|[_ Hx]]%lookup_insert_Some; [by eapply Hoff|by apply H2].
Qed.

Lemma fewer_inv a p g : kq_inv p g → kq_inv p (g ∖ {[+ a +]}).
Proof.
  intros Hinv. split; [apply Hinv..|intros b [Hb _]%fewer_guards; by apply (ki_guard _ _ Hinv)|].
  intros b x [Hb Hmb]%fewer_guards Hx Hn. destruct (ki_once _ _ Hinv b x Hb Hx Hn) as [H1 Hoff]. by destruct (Hmb H1).
Qed.

Lemma more_inv a ev p g :
  kq_inv p g → p.(boxes) !! a = Some ev →
  (ev.(e_kind) ≠ Notifier → (a ∉ g) ∧ (∀ kn, p.(kqueue) !! key_of ev = Some kn → kn.(kn_enabled) = false)) →
  kq_inv p ({[+ a +]} ⊎ g).
Proof.
  intros Hinv Ha Hev. split; [apply Hinv..| |].
  - intros b [->%gmultiset_elem_of_singleton|Hb]%gmultiset_elem_of_disj_union; [eauto|by apply (ki_guard _ _ Hinv)].
  - intros b x Hb Hx Hn. rewrite multiplicity_disj_union. destruct (decide (b = a)) as [->|Hne].
    + assert (x = ev) as -> by congruence. destruct (Hev Hn) as [Hg Hoff]. split; [|done].
      assert (multiplicity a g = 0%nat) as -> by multiset_solver. by rewrite multiplicity_singleton, decide_True.
    + rewrite multiplicity_singleton_ne by done. apply (ki_once _ _ Hinv b x); [multiset_solver|done|done].
Qed.

Lemma wait_reports ident filter flags a kn ev (p : EventPoll Handler) :
  p.(kqueue) !! (ident, filter) = Some kn → reportable filter kn = true → kn.(kn_udata) = Some a → p.(boxes) !! a = Some ev →
  wait (KReady ident filter flags) p = Ret (Ok (if has_flag flags EV_EOF then WaitEoF a else WaitOk a),
    with_kqueue (<[(ident, filter) := MkKnote kn.(kn_udata) kn.(kn_dispatch) (negb kn.(kn_dispatch)) kn.(kn_triggered)]> p.(kqueue)) p).
Proof.
  intros Hk Hrep Hu Ha. unfold wait. erewrite bind_ok by (unfold kevent_wait; rewrite Hk, Hrep; reflexivity). cbv match.
  erewrite bind_ok by (rewrite Hu; reflexivity). erewrite bind_ok by (apply kq_deref_run; exact Ha). by rewrite Hu.
Qed.

Lemma wait_silent ident filter flags (p : EventPoll Handler) :
  (∀ kn, p.(kqueue) !! (ident, filter) = Some kn → reportable filter kn = false) →
  wait (KReady ident filter flags) p = Ret (Ok WaitError, p).
Proof.
  intros Hno. unfold wait. assert (Hw : kevent_wait (KReady ident filter flags) p = Ret (Ok None, p)).
  { unfold kevent_wait. destruct (kqueue p !! _) as [kn|]; [|done]. by rewrite (Hno kn). }
  by erewrite bind_ok by exact Hw.
Qed.

Lemma kq_wait_inv ans p g :
  kq_inv p g →
  ∃ r p', wait ans p = Ret (Ok r, p') ∧
    kq_inv p' (match r with WaitOk a | WaitEoF a => {[+ a +]} ⊎ g | WaitError => g end).
Proof.
  intros Hinv. destruct ans as [|ident filter flags]; [by eexists _, _|].
  destruct (kqueue p !! (ident, filter)) as [kn|] eqn:Hk;
    [|rewrite wait_silent by (intros ?; congruence); by eexists _, _].
  destruct (reportable filter kn) eqn:Hrep; [|rewrite wait_silent by (intros ? ?; congruence); by eexists _, _].
  destruct (ki_queue _ _ Hinv _ _ Hk) as (a & ev & Hu & Ha & Hkey & Hd).
  rewrite (wait_reports ident filter flags a kn ev) by done. eexists _, _. split; [reflexivity|].
  set (kn' := MkKnote _ _ _ _). assert (Hinv' : kq_inv (with_kqueue (<[(ident, filter) := kn']> p.(kqueue)) p) ({[+ a +]} ⊎ g));
    [|destruct (has_flag flags EV_EOF); exact Hinv'].
  assert (Hfree : ev.(e_kind) ≠ Notifier → a ∉ g).
  { intros Hn Hg. destruct (ki_once _ _ Hinv _ _ Hg Ha Hn) as [_ Hoff]. rewrite <- Hkey in Hoff.
    specialize (Hoff _ Hk). unfold reportable in Hrep. by rewrite Hoff in Hrep. }
  apply (more_inv a ev); [apply (knote_inv _ kn)|done|]; [done..| |].
  - intros b x Hb Hx Hn Hkx. rewrite Hkey in Hkx. assert (b = a) as -> by (by eapply key_inj).
    destruct Hfree; [congruence|done].
  - intros Hn. split; [by apply Hfree|]. cbn. rewrite <- Hkey, lookup_insert_eq. intros x [= <-]. cbn. by rewrite (Hd Hn).
Qed.

Lemma made_flags a i ev :
  made a i ev → has_flag ev.(e_event).(k_flags) EV_ADD = false ∧ has_flag ev.(e_event).(k_flags) EV_DELETE = false.
Proof. intros [_ [d ->]]. cbn. by destruct (e_kind ev). Qed.

(** What dropping a guard changes. *)
Lemma made_enables a i ev b : made a i ev → enables ev.(e_event) b = true ∧ triggers ev.(e_event) = false.
Proof. intros [_ [d ->]]. by destruct (e_kind ev). Qed.

Lemma kq_drop_inv a p g :
  kq_inv p g → a ∈ g → ∃ p', guard_drop a p = Ret (Ok (), p') ∧ kq_inv p' (g ∖ {[+ a +]}).
Proof.
  intros Hinv Ha. destruct (ki_guard _ _ Hinv a Ha) as [ev Hev]. unfold guard_drop.
  erewrite bind_ok by (by apply kq_deref_run). destruct (ki_made _ _ _ _ Hinv Hev) as (i & _ & Hm).
  destruct (made_flags _ _ _ Hm). eexists. split; [by apply touch_run|]. unfold touched.
  destruct (kqueue p !! _) as [kn|] eqn:Hk; [|by apply fewer_inv]. apply (knote_inv _ kn); [by apply fewer_inv|done|done|done|].
  intros b x Hb Hx Hn Hkey. change (key_of x = key_of ev) in Hkey. assert (b = a) as -> by (by eapply key_inj). exfalso.
  destruct (ki_once _ _ Hinv a x) as [Hm1 _]; [by apply fewer_guards in Hb as []|done|done|].
  apply fewer_guards in Hb as [_ Hb]. by destruct (Hb Hm1).
Qed.

(** Descriptors and custom events are cleared by their triggers. *)
Lemma clear_run k i (p : EventPoll Handler) :
  k ≠ Signal → Z.of_nat i < 2 ^ 31 → clear_event_by_fd (name_at (vector_of k) i) p = take_event (vector_of k) i p.
Proof.
  intros Hk Hi. unfold clear_event_by_fd. destruct k; cbn [vector_of name_at]; [| |done|].
  - rewrite (proj2 (Z.leb_le _ _)), Nat2Z.id by lia. done.
  - rewrite (proj2 (Z.leb_gt _ _)), as_i32_small by lia. f_equal. lia.
  - rewrite (proj2 (Z.leb_gt _ _)), as_i32_small by lia. f_equal. lia.
Qed.

Lemma cancel_run a i ev (p : EventPoll Handler) :
  p.(boxes) !! a = Some ev → made a i ev → cancel a p = clear_event_by_fd (name_at (vector_of ev.(e_kind)) i) p.
Proof.
  intros Ha [Hi [d He]]. unfold cancel. erewrite bind_ok by (by apply kq_deref_run). f_equal. rewrite He. by apply as_i32_name.
Qed.

Lemma kq_notifier_run trigger i a ev (p : EventPoll Handler) :
  trigger = name_at VCustom i → Z.of_nat i < 2 ^ 31 → p.(custom) !! i = Some (Some a) → p.(boxes) !! a = Some ev →
  ev.(e_kind) = Notifier → notifier_event trigger p = Ret (Ok ev, p).
Proof.
  intros -> Hi Hs Hb Hk. unfold notifier_event. erewrite bind_ok by reflexivity. cbn [name_at].
  rewrite as_i32_small by lia. assert (as_usize (- (- Z.of_nat i - 1) - 1) = Z.of_nat i) as -> by (unfold as_usize, wrap; rewrite Z.mod_small; lia).
  rewrite Nat2Z.id, Hs. do 2 (erewrite bind_ok by reflexivity). erewrite bind_ok by (by apply kq_deref_run).
  rewrite Hk. by erewrite bind_ok by reflexivity.
Qed.
End KqueueInvariant.
