(* ===== verification/Registry.v ===== *)
(** * What the registry of events promises (device/epoll.rs, device/kqueue.rs)

    The two registries have the same interface, and the device uses whichever
    its platform has.  [areg] is what their clients may rely on: under a name
    there is at most one event; the handler of an event is given to one holder
    at a time, that of a notifier to everybody while it is raised.  A registry
    is the class [Registry]; what makes it one is [RegistryLaws]: every
    operation, used by the rules, does what [a_step] says and never panics.
    The registry over epoll and the one over kqueue are instances; they differ
    in whether a name that is in use may be registered again. *)

From stdpp Require Import gmultiset.
From S2P Require Import Prelude Crypto Packet Tai64N Handshake RateLimiter Tunn Lfsr Text AllowedIps Peer.

(** ** The abstract registry *)

(** The ways to make an event: whether it is a notifier, and whether the
    operating system accepts it. *)
Class Call (C : Type) := {
  call_notifier : C → bool;
  call_ok : C → bool;
}.

Section Spec.
Context {K : Type} `{EqDecision K} {C : Type} `{Call C} {Handler : Type}.

Record aevent := MkA {
  ae_handler : Handler;
  ae_notifier : bool;
  ae_held : nat;         (* how many guards there are *)
  ae_raised : bool;      (* a notifier that was triggered and not stopped *)
}.

Definition areg : Type := K → option aevent.

#[global] Instance areg_equiv : Equiv areg := pointwise_relation K eq.

#[global] Instance areg_equivalence : Equivalence (≡@{areg}).
Proof. unfold equiv, areg_equiv. apply _. Qed.

Definition put (k : K) (o : option aevent) (m : areg) : areg := λ k', if decide (k' = k) then o else m k'.

#[global] Instance put_proper k o : Proper ((≡@{areg}) ==> (≡)) (put k o).
Proof. intros m m' Hm k'. unfold put. destruct (decide _); [done|apply Hm]. Qed.

Lemma put_eq k o m : put k o m k = o.
Proof. unfold put. by rewrite decide_True. Qed.

Lemma put_ne k k' o m : k' ≠ k → put k o m k' = m k'.
Proof. intros Hne. unfold put. by rewrite decide_False. Qed.

Definition hold (n : nat) (e : aevent) : aevent := MkA e.(ae_handler) e.(ae_notifier) n e.(ae_raised).
Definition raise (b : bool) (e : aevent) : aevent := MkA e.(ae_handler) e.(ae_notifier) e.(ae_held) b.

(** The operations.  A new event has the name [k]; a wait names the event that
    is ready, and whether it is at its end. *)
Inductive rop : Type :=
| RNew (c : C) (k : K) (h : Handler)
| RWait (k : K) (eof : bool)
| RDrop (k : K)
| RCancel (k : K)
| RClear (k : K)
| RTrigger (k : K)
| RStop (k : K).

(** What the client sees. *)
Inductive obs : Type :=
| Done
| Refused
| Silent
| Handed (h : Handler) (eof : bool).

(** May the event be handed out? *)
Definition ready_to (e : aevent) : bool := if e.(ae_notifier) then e.(ae_raised) else (e.(ae_held) =? 0)%nat.

Definition a_step (op : rop) (m : areg) : obs * areg :=
  match op with
  | RNew c k h =>
    if call_ok c then (Done, put k (Some (MkA h (call_notifier c) 0 false)) m) else (Refused, put k None m)
  | RWait k eof =>
    match m k with
    | Some e => if ready_to e then (Handed e.(ae_handler) eof, put k (Some (hold (S e.(ae_held)) e)) m) else (Silent, m)
    | None => (Silent, m)
    end
  | RDrop k => (Done, put k ((λ e, hold (pred e.(ae_held)) e) <$> m k) m)
  | RCancel k | RClear k => (Done, put k None m)
  | RTrigger k => (Done, put k (raise true <$> m k) m)
  | RStop k => (Done, put k (raise false <$> m k) m)
  end.

(** The rules: a name is registered when it is free or, where names may be used
    again, when nobody has a guard on its event; guards are used by who has
    them, and the only guard on an event may cancel it; an event is cleared
    when nobody has a guard on it; notifiers are triggered and stopped, and
    stopped when nobody has a guard on them. *)
Definition permitted (reuse : bool) (op : rop) (m : areg) : Prop :=
  match op with
  | RNew _ k _ => match m k with None => True | Some e => reuse = true ∧ e.(ae_held) = 0%nat end
  | RWait _ _ => True
  | RDrop k => ∃ e, m k = Some e ∧ (0 < e.(ae_held))%nat
  | RCancel k => ∃ e, m k = Some e ∧ e.(ae_held) = 1%nat
  | RClear k => ∃ e, m k = Some e ∧ e.(ae_held) = 0%nat
  | RTrigger k => ∃ e, m k = Some e ∧ e.(ae_notifier) = true
  | RStop k => ∃ e, m k = Some e ∧ e.(ae_notifier) = true ∧ e.(ae_held) = 0%nat
  end.

#[global] Instance permitted_proper reuse op : Proper ((≡@{areg}) ==> iff) (permitted reuse op).
Proof. intros m m' Hm. destruct op as [? k|k|k|k|k|k|k]; cbn; by rewrite ?(Hm k). Qed.

(** The same step from equivalent registries. *)
Lemma a_step_proper op m m' : m ≡ m' → (a_step op m).1 = (a_step op m').1 ∧ (a_step op m).2 ≡ (a_step op m').2.
Proof.
  intros Hm. destruct op as [c k h|k eof|k|k|k|k|k]; cbn; rewrite ?(Hm k).
  - destruct (call_ok c); cbn; split; try done; by rewrite Hm.
  - destruct (m' k) as [e|]; [destruct (ready_to e)|]; cbn; split; try done. by rewrite Hm.
  - split; [done|by rewrite Hm].
  - split; [done|by rewrite Hm].
  - split; [done|by rewrite Hm].
  - split; [done|by rewrite Hm].
  - split; [done|by rewrite Hm].
Qed.

Fixpoint a_run (ops : list rop) (m : areg) : list obs * areg :=
  match ops with
  | [] => ([], m)
  | op :: ops => let '(o, m) := a_step op m in let '(os, m) := a_run ops m in (o :: os, m)
  end.

Lemma a_run_cons op ops m :
  a_run (op :: ops) m = ((a_step op m).1 :: (a_run ops (a_step op m).2).1, (a_run ops (a_step op m).2).2).
Proof. cbn. destruct (a_step op m) as [o m1]. cbn. by destruct (a_run ops m1). Qed.

Lemma a_run_proper ops m m' : m ≡ m' → (a_run ops m).1 = (a_run ops m').1 ∧ (a_run ops m).2 ≡ (a_run ops m').2.
Proof.
  revert m m'. induction ops as [|op ops IH]; intros m m' Hm; [done|]. rewrite !a_run_cons. cbn.
  destruct (a_step_proper op m m' Hm) as [Ho Hm1]. destruct (IH _ _ Hm1) as [Hos Hm2]. split; [congruence|done].
Qed.
End Spec.
Arguments aevent Handler : clear implicits.
Arguments areg K Handler : clear implicits.
Arguments rop K C Handler : clear implicits.
Arguments obs Handler : clear implicits.

(** ** Registries *)

(** A guard is the address of its event; [q_at] is the address of the event
    with a name. *)
Class Registry (K C Handler Q : Type) := {
  q_new : C → Handler → M Error Q Z;
  q_wait : K → bool → M Error Q (option (nat * bool));
  q_handler : nat → M Error Q Handler;
  q_drop : nat → M Error Q ();
  q_cancel : nat → M Error Q ();
  q_clear : K → M Error Q ();
  q_trigger : K → M Error Q ();
  q_stop : K → M Error Q ();
  q_at : K → Q → option nat;
}.

Section Steps.
Context {K C Handler Q : Type} `{Registry K C Handler Q}.

Definition finished {A} (g : gmultiset nat) (r : outcome (result Error A * Q)) : outcome (obs Handler * (Q * gmultiset nat)) :=
  match r with
  | Ret (Ok _, q) => Ret (Done, (q, g))
  | Ret (Err _, q) => Ret (Refused, (q, g))
  | Panic => Panic
  end.

(** An operation with the guards that there are. *)
Definition i_step (op : rop K C Handler) (s : Q * gmultiset nat) : outcome (obs Handler * (Q * gmultiset nat)) :=
  let '(q, g) := s in
  match op with
  | RNew c _ h => finished g (q_new c h q)
  | RWait k eof =>
    match q_wait k eof q with
    | Ret (Ok (Some (a, eof)), q) =>
      match q_handler a q with
      | Ret (Ok h, q) => Ret (Handed h eof, (q, {[+ a +]} ⊎ g))
      | _ => Panic
      end
    | Ret (_, q) => Ret (Silent, (q, g))
    | Panic => Panic
    end
  | RDrop k => match q_at k q with Some a => finished (g ∖ {[+ a +]}) (q_drop a q) | None => Panic end
  | RCancel k => match q_at k q with Some a => finished (g ∖ {[+ a +]}) (q_cancel a q) | None => Panic end
  | RClear k => finished g (q_clear k q)
  | RTrigger k => finished g (q_trigger k q)
  | RStop k => finished g (q_stop k q)
  end.

Fixpoint i_run (ops : list (rop K C Handler)) (s : Q * gmultiset nat) : outcome (list (obs Handler) * (Q * gmultiset nat)) :=
  match ops with
  | [] => Ret ([], s)
  | op :: ops =>
    match i_step op s with
    | Ret (o, s) => match i_run ops s with Ret (os, s) => Ret (o :: os, s) | Panic => Panic end
    | Panic => Panic
    end
  end.
End Steps.

(** [q_rule]: what else an operation needs; [q_reuse]: whether names may be
    registered again. *)
Class RegistryLaws (K C Handler Q : Type) `{EqDecision K, Call C, Registry K C Handler Q} := {
  q_inv : Q → gmultiset nat → Prop;
  q_abs : Q → gmultiset nat → areg K Handler;
  q_rule : rop K C Handler → Q → Prop;
  q_reuse : bool;
  q_refines op q g : q_inv q g → permitted q_reuse op (q_abs q g) → q_rule op q →
    ∃ o q' g', i_step op (q, g) = Ret (o, (q', g')) ∧ q_inv q' g' ∧
      (a_step op (q_abs q g)).1 = o ∧ (a_step op (q_abs q g)).2 ≡ q_abs q' g';
}.

Section Runs.
Context {K C Handler Q : Type} `{RegistryLaws K C Handler Q}.

(** Every operation keeps the rules where the run has got to. *)
Fixpoint by_the_rules (ops : list (rop K C Handler)) (m : areg K Handler) (s : Q * gmultiset nat) : Prop :=
  match ops with
  | [] => True
  | op :: ops => permitted q_reuse op m ∧ q_rule op s.1 ∧
      ∀ o s', i_step op s = Ret (o, s') → by_the_rules ops (a_step op m).2 s'
  end.

(** Every run by the rules is one of the abstract registry. *)
Lemma runs_refine ops m q g :
  q_inv q g → m ≡ q_abs q g → by_the_rules ops m (q, g) →
  ∃ q' g', i_run ops (q, g) = Ret ((a_run ops m).1, (q', g')) ∧ q_inv q' g' ∧ (a_run ops m).2 ≡ q_abs q' g'.
Proof.
  revert m q g. induction ops as [|op ops IH]; intros m q g Hinv Hm; [by eexists _, _|].
  intros (Hp & Hr & Hops). rewrite a_run_cons. cbn [i_run fst snd].
  destruct (q_refines op q g Hinv) as (o & q1 & g1 & Hs & Hinv1 & Ho & Hm1); [by rewrite <- Hm|done|].
  destruct (a_step_proper op m (q_abs q g) Hm) as [Eo Em]. specialize (Hops _ _ Hs). rewrite Hs.
  destruct (IH (a_step op m).2 q1 g1 Hinv1) as (q2 & g2 & Hrun & Hinv2 & Hm2); [by rewrite Em|done|].
  rewrite Hrun. exists q2, g2. split; [|done]. by rewrite Eo, Ho.
Qed.
End Runs.

(** Steps through a concrete run, one operation after the other; [rule] shows
    what else an operation needs. *)
Ltac step_rules rule :=
  repeat match goal with
  | |- by_the_rules [] _ _ => exact I
  | |- by_the_rules (_ :: _) _ _ =>
    split; [vm_compute; repeat first [exact I|eexists|split]; try reflexivity; try (cbn; lia)
           |split; [rule|let o := fresh "o" in let s := fresh "s" in let Hs := fresh "Hs" in
                         intros o s Hs; vm_compute in Hs; injection Hs as <- <-]]
  end.
