(* ===== verification/EpollRegistry.v ===== *)
(** * The registry over epoll keeps the promises of Registry.v

    The name of an event is its descriptor.  An event whose registration epoll
    refused stays in the vector, where nothing will report it; it counts as not
    being there.  A name may be registered again while it is in use: the last
    event that is added is the one that is handed out. *)

From stdpp Require Import gmultiset.
From S2P Require Import Prelude Crypto Packet Tai64N Handshake RateLimiter Tunn Lfsr Text AllowedIps Peer Device EventPoll Registry.

Record epoll_call := MkCall {
  ec_kind : event_kind;
  ec_ok : bool;
  ec_fd : Z;
}.

#[global] Instance epoll_call_call : Call epoll_call := {|
  call_notifier c := match c.(ec_kind) with KNotifier => true | _ => false end;
  call_ok := ec_ok;
|}.

Section EpollRegistry.
Context {Handler : Type}.

Definition slot_at (fd : Z) (p : EventPoll Handler) : option nat :=
  match p.(events) !! Z.to_nat fd with Some (Some a) => Some a | _ => None end.

#[global] Instance epoll_registry : Registry Z epoll_call Handler (EventPoll Handler) := {|
  q_new c h := new_of_kind c.(ec_kind) c.(ec_ok) c.(ec_fd) h;
  q_wait fd eof :=
    r ← wait (WaitReady fd (if eof then Z.lor EPOLLIN EPOLLHUP else EPOLLIN));
    mret (match r with WaitOk a => Some (a, false) | WaitEoF a => Some (a, true) | WaitError => None end);
  q_handler := guard_handler;
  q_drop := guard_drop;
  q_cancel := cancel;
  q_clear := clear_event_by_fd;
  q_trigger := trigger_notification;
  q_stop := stop_notification;
  q_at := slot_at;
|}.

(** What the abstract registry has under a descriptor. *)
Definition epoll_abs (p : EventPoll Handler) (g : gmultiset nat) : areg Z Handler := λ fd,
  match slot_at fd p with
  | Some a =>
    match p.(boxes) !! a, p.(epoll) !! fd with
    | Some ev, Some _ => Some (MkA ev.(e_handler) ev.(e_notifier) (multiplicity a g) (ev.(e_notifier) && readable fd p))
    | _, _ => None
    end
  | None => None
  end.

(** What epoll knows of an event: a notifier is always enabled and has a
    counter; any other event is enabled unless somebody has a guard on it. *)
Definition known_ok (p : EventPoll Handler) (g : gmultiset nat) (fd : Z) (it : interest) (ev : Event Handler) : Prop :=
  if ev.(e_notifier) then it.(i_enabled) = true ∧ Z.testbit it.(i_events) 30 = false ∧ is_Some (p.(counters) !! fd)
  else (multiplicity it.(i_data) g = 0%nat → it.(i_enabled) = true) ∧ p.(counters) !! fd = None.

Record epoll_inv (p : EventPoll Handler) (g : gmultiset nat) : Prop := {
  ei_poll : poll_inv p g;
  ei_known fd it ev : p.(epoll) !! fd = Some it → p.(boxes) !! it.(i_data) = Some ev → known_ok p g fd it ev;
  ei_level a ev : p.(boxes) !! a = Some ev → ev.(e_notifier) = true → Z.testbit ev.(e_events) 30 = false;
  ei_held a ev : a ∈ g → p.(boxes) !! a = Some ev → is_Some (p.(epoll) !! ev.(e_fd));
  ei_counter fd c : p.(counters) !! fd = Some c → 0 ≤ c;
}.

Definition epoll_rule (op : rop Z epoll_call Handler) (p : EventPoll Handler) : Prop :=
  match op with
  | RNew c fd _ => fd = c.(ec_fd) ∧ 0 ≤ fd ∧ (call_notifier c = false → p.(counters) !! fd = None)
  | _ => True
  end.

(** Event [ev] is at address [a] under descriptor [fd], and epoll knows it. *)
Record known_at (p : EventPoll Handler) (g : gmultiset nat) (fd : Z) (a : nat) (ev : Event Handler) (it : interest) : Prop := {
  ka_inv : epoll_inv p g;
  ka_fd : 0 ≤ fd;
  ka_slot : p.(events) !! Z.to_nat fd = Some (Some a);
  ka_box : p.(boxes) !! a = Some ev;
  ka_epoll : p.(epoll) !! fd = Some it;
  ka_data : it.(i_data) = a;
  ka_name : ev.(e_fd) = fd;
}.

Lemma epoll_abs_some p g fd e :
  epoll_inv p g → epoll_abs p g fd = Some e →
  ∃ a ev it, known_at p g fd a ev it ∧ slot_at fd p = Some a ∧
    e = MkA ev.(e_handler) ev.(e_notifier) (multiplicity a g) (ev.(e_notifier) && readable fd p).
Proof.
  intros Hinv. unfold epoll_abs. destruct (slot_at fd p) as [a|] eqn:Ha; [|done].
  destruct (boxes p !! a) as [ev|] eqn:Hev; [|done]. destruct (epoll p !! fd) as [it|] eqn:Hit; [|done]. intros [= <-].
  unfold slot_at in Ha. destruct (events p !! Z.to_nat fd) as [[b|]|] eqn:Hs; [|done..]. injection Ha as ->.
  destruct (pi_epoll _ _ (ei_poll _ _ Hinv) _ _ Hit) as (H0 & H1 & _). destruct (pi_slot _ _ (ei_poll _ _ Hinv) _ _ Hs) as (x & Hx & Hf).
  exists a, ev, it. assert (x = ev) as -> by congruence. split; [|done]. split; congruence || lia || done.
Qed.

Lemma epoll_abs_at p g fd a ev it :
  p.(events) !! Z.to_nat fd = Some (Some a) → p.(boxes) !! a = Some ev → p.(epoll) !! fd = Some it →
  epoll_abs p g fd = Some (MkA ev.(e_handler) ev.(e_notifier) (multiplicity a g) (ev.(e_notifier) && readable fd p)).
Proof. intros Hs Hb He. unfold epoll_abs, slot_at. by rewrite Hs, Hb, He. Qed.

Lemma epoll_abs_unknown p g fd : p.(epoll) !! fd = None → epoll_abs p g fd = None.
Proof. intros He. unfold epoll_abs. destruct (slot_at fd p) as [a|]; [|done]. rewrite He. by destruct (boxes p !! a). Qed.

Lemma slot_at_some fd a p : slot_at fd p = Some a ↔ p.(events) !! Z.to_nat fd = Some (Some a).
Proof. unfold slot_at. destruct (events p !! Z.to_nat fd) as [[b|]|]; naive_solver. Qed.

(** What is under a descriptor depends on nothing else. *)
Lemma epoll_abs_local p p' g g' fd :
  p'.(epoll) !! fd = p.(epoll) !! fd → p'.(counters) !! fd = p.(counters) !! fd → slot_at fd p' = slot_at fd p →
  (∀ a, slot_at fd p = Some a → p'.(boxes) !! a = p.(boxes) !! a ∧ multiplicity a g' = multiplicity a g) →
  epoll_abs p' g' fd = epoll_abs p g fd.
Proof.
  intros He Hc Hs Hb. unfold epoll_abs, readable. rewrite Hs, He, Hc.
  destruct (slot_at fd p) as [a|]; [|done]. by destruct (Hb a eq_refl) as [-> ->].
Qed.

(** *** Registering *)

Definition event_of (kind : event_kind) (fd : Z) (h : Handler) : Event Handler :=
  MkEvent (match kind with
    | KWrite => Z.lor (Z.lor EPOLLOUT EPOLLET) EPOLLONESHOT | KNotifier => EPOLLIN | _ => Z.lor EPOLLIN EPOLLONESHOT end)
    0 fd h (match kind with KNotifier => true | _ => false end) (match kind with KTimer | KSignal => true | _ => false end).

Definition with_eventfd (kind : event_kind) (fd : Z) (p : EventPoll Handler) : EventPoll Handler :=
  match kind with KNotifier => with_counters (<[fd := 0]> p.(counters)) p | _ => p end.

Lemma new_of_kind_run kind ok fd h p g :
  poll_inv p g → 0 ≤ fd →
  new_of_kind kind ok fd h p =
    Ret (if ok then Ok fd else Err EventQueue, registered_at ok (event_of kind fd h) (with_eventfd kind fd p)).
Proof.
  intros Hinv Hfd. assert (Hinv' : poll_inv (with_eventfd kind fd p) g) by (destruct kind; try done; by apply inv_counters).
  etransitivity; [|exact (register_run ok (event_of kind fd h) _ g Hinv' Hfd)]. by destruct kind.
Qed.

(** Nobody has a guard on an event that may be replaced. *)
Lemma replaceable p g fd a :
  epoll_inv p g → (match epoll_abs p g fd with None => True | Some e => true = true ∧ e.(ae_held) = 0%nat end) → 0 ≤ fd →
  p.(events) !! Z.to_nat fd = Some (Some a) → a ∉ g.
Proof.
  intros Hinv Hp Hfd Hs Ha. destruct (pi_slot _ _ (ei_poll _ _ Hinv) _ _ Hs) as (ev & Hev & Hf).
  assert (ev.(e_fd) = fd) as Hf' by lia. destruct (ei_held _ _ Hinv a ev Ha Hev) as [it Hit]. rewrite Hf' in Hit.
  rewrite (epoll_abs_at p g fd a ev it Hs Hev Hit) in Hp. destruct Hp as [_ Hp]. cbn in Hp.
  rewrite elem_of_multiplicity, Hp in Ha. lia.
Qed.

Section New.
Context (kind : event_kind) (ok : bool) (fd : Z) (h : Handler) (p : EventPoll Handler) (g : gmultiset nat).
Context (Hinv : epoll_inv p g) (Hfd : 0 ≤ fd) (Hfree : ∀ a, p.(events) !! Z.to_nat fd = Some (Some a) → a ∉ g).
Context (Hcount : (if kind is KNotifier then true else false) = false → p.(counters) !! fd = None).

Let ev := event_of kind fd h.
Let p0 := with_eventfd kind fd p.
Let a := fresh (dom p.(boxes)).

Lemma with_eventfd_same : p0.(events) = p.(events) ∧ p0.(boxes) = p.(boxes) ∧ p0.(epoll) = p.(epoll).
Proof. unfold p0. by destruct kind. Qed.

Lemma new_box b x :
  (registered_at ok ev p0).(boxes) !! b = Some x ↔
    (b = a ∧ x = pointing a ev) ∨ (b ≠ a ∧ p.(boxes) !! b = Some x ∧ p.(events) !! Z.to_nat fd ≠ Some (Some b)).
Proof.
  destruct with_eventfd_same as (He & Hb & Hk). unfold a. rewrite <- Hb, <- He.
  assert (Hinv0 : poll_inv p0 g) by (unfold p0; destruct kind; try apply Hinv; apply inv_counters, Hinv).
  apply (without_old_lookup p0 g); [done|apply not_elem_of_dom, is_fresh].
Qed.

Lemma new_slot i b :
  (registered_at ok ev p0).(events) !! i = Some (Some b) ↔
    (i = Z.to_nat fd ∧ b = a) ∨ (i ≠ Z.to_nat fd ∧ p.(events) !! i = Some (Some b)).
Proof. destruct with_eventfd_same as (He & Hb & Hk). unfold a. rewrite <- Hb, <- He. apply slot_lookup. Qed.

Lemma new_known fd' it :
  (registered_at ok ev p0).(epoll) !! fd' = Some it ↔
    (ok = true ∧ fd' = fd ∧ it = MkInterest ev.(e_events) a true) ∨ (fd' ≠ fd ∧ p.(epoll) !! fd' = Some it).
Proof.
  destruct with_eventfd_same as (He & Hb & Hk). unfold a. rewrite <- Hb, <- Hk. cbn.
  destruct ok; rewrite ?lookup_insert_Some, lookup_delete_Some; naive_solver.
Qed.

Lemma new_counters fd' : fd' ≠ fd → (registered_at ok ev p0).(counters) !! fd' = p.(counters) !! fd'.
Proof. intros Hne. unfold registered_at, p0, with_eventfd. cbn. destruct kind; cbn; try done. by rewrite lookup_insert_ne. Qed.

Lemma fresh_unguarded : (a ∉ g) ∧ p.(boxes) !! a = None.
Proof.
  assert (Hn : p.(boxes) !! a = None) by (apply not_elem_of_dom, is_fresh). split; [|done].
  intros Ha. destruct (pi_guard _ _ (ei_poll _ _ Hinv) a Ha). congruence.
Qed.

Lemma new_epoll_inv : epoll_inv (registered_at ok ev p0) g.
Proof.
  destruct with_eventfd_same as (Ee & Eb & Ek). destruct fresh_unguarded as [Hag Han].
  assert (Hinv0 : poll_inv p0 g) by (unfold p0; destruct kind; try apply Hinv; apply inv_counters, Hinv).
  split.
  - apply register_inv; [done|done|by destruct kind|]. by rewrite Ee.
  - intros fd' it x [(_ & -> & ->)|[Hne Hit]]%new_known Hx.
    + apply new_box in Hx as [[_ ->]|[Hc _]]; [|done]. unfold known_ok, registered_at. subst ev p0. clear - Hcount.
      destruct kind; cbn in *; (split; [done|]); try (by rewrite Hcount). split; [done|]. rewrite lookup_insert_eq. eauto.
    + destruct (pi_epoll _ _ (ei_poll _ _ Hinv) _ _ Hit) as (_ & Hs & _).
      destruct (pi_slot _ _ (ei_poll _ _ Hinv) _ _ Hs) as (y & Hy & _).
      apply new_box in Hx as [[Hc _]|(_ & Hx & _)]; [congruence|].
      pose proof (ei_known _ _ Hinv _ _ _ Hit Hx) as Hk. unfold known_ok in *. by rewrite new_counters.
  - intros b x [[_ ->]|(_ & Hx & _)]%new_box; [by destruct kind|by apply (ei_level _ _ Hinv b)].
  - intros b x Hb [[-> _]|(Hne & Hx & Ho)]%new_box; [done|]. destruct (ei_held _ _ Hinv b x Hb Hx) as [it Hit].
    exists it. apply new_known. right. split; [|done]. intros Hc.
    destruct (pi_box _ _ (ei_poll _ _ Hinv) _ _ Hx) as (_ & Hs & _). by rewrite Hc in Hs.
  - intros fd' c. destruct (decide (fd' = fd)) as [->|Hne].
    + unfold registered_at, p0, with_eventfd. cbn. intros Hc. destruct kind; try (by eapply (ei_counter _ _ Hinv)).
      cbn in Hc. rewrite lookup_insert_eq in Hc. by injection Hc as <-.
    + rewrite new_counters by done. apply (ei_counter _ _ Hinv).
Qed.

Lemma new_epoll_abs :
  put fd (if ok then Some (MkA h (if kind is KNotifier then true else false) 0 false) else None) (epoll_abs p g) ≡
    epoll_abs (registered_at ok ev p0) g.
Proof.
  destruct fresh_unguarded as [Hag Han]. intros fd'. destruct (decide (fd' = fd)) as [->|Hne].
  - rewrite put_eq. pose proof new_slot as Hslot. pose proof new_box as Hbox. pose proof new_known as Hknown. destruct ok.
    + rewrite (epoll_abs_at _ g fd a (pointing a ev) (MkInterest ev.(e_events) a true));
        [|apply Hslot; by left|apply Hbox; by left|apply Hknown; by left].
      assert (multiplicity a g = 0%nat) as -> by multiset_solver. unfold ev, p0, readable. destruct kind; try done.
      cbn. by rewrite lookup_insert_eq.
    + rewrite epoll_abs_unknown; [done|]. apply eq_None_not_Some. intros [it Hit]. apply Hknown in Hit as [[? _]|[? _]]; done.
  - rewrite put_ne by done. destruct (decide (0 ≤ fd')) as [H0|H0].
    2:{ rewrite !epoll_abs_unknown; [done|..]; apply eq_None_not_Some; intros [it Hit].
        - apply new_known in Hit as [(_ & ? & _)|[_ Hit]]; [done|]. by apply (pi_epoll _ _ (ei_poll _ _ Hinv)) in Hit as [].
        - by apply (pi_epoll _ _ (ei_poll _ _ Hinv)) in Hit as []. }
    symmetry. apply epoll_abs_local.
    + apply option_eq. intros it. rewrite new_known. naive_solver.
    + by apply new_counters.
    + apply option_eq. intros b. rewrite !slot_at_some, new_slot. split; [intros [[? _]|[_ ?]]; [lia|done]|].
      intros ?. right. split; [lia|done].
    + intros b Hb%slot_at_some. split; [|done]. destruct (pi_slot _ _ (ei_poll _ _ Hinv) _ _ Hb) as (x & Hx & Hf).
      rewrite Hx. apply new_box. right. split_and!; [congruence|done|]. intros Hc.
      destruct (pi_slot _ _ (ei_poll _ _ Hinv) _ _ Hc) as (y & Hy & Hyf). simplify_eq. lia.
Qed.
End New.

(** *** Waiting *)

Lemma wait_at fd revents it ev (p : EventPoll Handler) :
  p.(epoll) !! fd = Some it → it.(i_enabled) = true → readable fd p = true → p.(boxes) !! it.(i_data) = Some ev →
  wait (WaitReady fd revents) p = Ret (Ok (if Z.land revents EPOLLHUP =? 0 then WaitOk it.(i_data) else WaitEoF it.(i_data)),
    with_epoll (<[fd := MkInterest it.(i_events) it.(i_data) (negb (Z.testbit it.(i_events) 30))]> p.(epoll)) p).
Proof.
  destruct it as [flags data enabled]. cbn. intros He -> Hr Hb. unfold wait.
  erewrite bind_ok by (unfold epoll_wait; rewrite He, Hr; reflexivity). cbv match.
  by erewrite bind_ok by (apply deref_run; exact Hb).
Qed.

Lemma wait_quiet fd revents (p : EventPoll Handler) :
  (∀ it, p.(epoll) !! fd = Some it → it.(i_enabled) && readable fd p = false) →
  wait (WaitReady fd revents) p = Ret (Ok WaitError, p).
Proof.
  intros Hno. unfold wait. assert (Hw : epoll_wait (WaitReady fd revents) p = Ret (Ok None, p)).
  { unfold epoll_wait. destruct (epoll p !! fd) as [[flags data []]|]; [|done..].
    specialize (Hno _ eq_refl). cbn in Hno. by rewrite Hno. }
  by erewrite bind_ok by exact Hw.
Qed.

(** An event is handed out exactly when the abstract registry does. *)
Lemma known_ready p g fd a ev it :
  known_at p g fd a ev it →
  it.(i_enabled) && readable fd p =
    ready_to (MkA ev.(e_handler) ev.(e_notifier) (multiplicity a g) (ev.(e_notifier) && readable fd p)).
Proof.
  intros [Hinv _ _ Ha Hit <- Hf]. pose proof (ei_known _ _ Hinv _ _ _ Hit Ha) as Hk. unfold known_ok in Hk. unfold ready_to. cbn.
  destruct (e_notifier ev) eqn:Hn; [by destruct Hk as [-> _]|]. destruct Hk as [Hk Hc]. unfold readable. rewrite Hc, andb_true_r.
  destruct (Nat.eqb_spec (multiplicity (i_data it) g) 0) as [E|E]; [by apply Hk|].
  apply (pi_once _ _ (ei_poll _ _ Hinv) (i_data it) ev); [by apply elem_of_multiplicity; lia|done|done|by rewrite Hf].
Qed.

(** The events under other descriptors have other addresses. *)
Lemma other_address p g fd fd' a b :
  epoll_inv p g → 0 ≤ fd → 0 ≤ fd' → fd' ≠ fd → slot_at fd p = Some a → slot_at fd' p = Some b → b ≠ a.
Proof.
  intros Hinv H0 H0' Hne Ha%slot_at_some Hb%slot_at_some ->.
  destruct (pi_slot _ _ (ei_poll _ _ Hinv) _ _ Ha) as (x & Hx & Hf). destruct (pi_slot _ _ (ei_poll _ _ Hinv) _ _ Hb) as (y & Hy & Hf').
  simplify_eq. lia.
Qed.

Section Known.
Context (p : EventPoll Handler) (g : gmultiset nat) (fd : Z) (a : nat) (ev : Event Handler) (it : interest).
Context (Hka : known_at p g fd a ev it).

(** The entry of the event changes, and the guards on it. *)
Lemma touched_epoll_inv it' g' :
  poll_inv (with_epoll (<[fd := it']> p.(epoll)) p) g' → it'.(i_data) = a → known_ok p g' fd it' ev →
  (∀ b, b ≠ a → multiplicity b g' = multiplicity b g) → epoll_inv (with_epoll (<[fd := it']> p.(epoll)) p) g'.
Proof.
  destruct Hka as [Hinv Hfd Hs Hb Hit Hd Hf]. intros Hp Hd' Hk Hg. split; [done|..|apply Hinv]; cbn [epoll boxes with_epoll].
  - intros fd' x y [[<- <-]|[Hne Hx]]%lookup_insert_Some Hy.
    + rewrite Hd' in Hy. assert (y = ev) as -> by (cbn in Hy; congruence). done.
    + pose proof (ei_known _ _ Hinv _ _ _ Hx Hy) as Hk'. unfold known_ok in *. cbn.
      rewrite Hg; [done|]. destruct (pi_epoll _ _ (ei_poll _ _ Hinv) _ _ Hx) as (H0 & Hsx & _).
      eapply (other_address p g fd fd'); [done..|by apply slot_at_some|by apply slot_at_some].
  - apply (ei_level _ _ Hinv).
  - intros b x Hbg Hx. cbn. destruct (decide (b = a)) as [->|Hne].
    + cbn in Hx. assert (x = ev) as -> by congruence. rewrite Hf, lookup_insert_eq. eauto.
    + rewrite elem_of_multiplicity, Hg, <- elem_of_multiplicity in Hbg by done.
      destruct (ei_held _ _ Hinv b x Hbg Hx) as [y Hy]. destruct (decide (e_fd x = fd)) as [->|Hnf];
        [rewrite lookup_insert_eq|rewrite lookup_insert_ne by done]; eauto.
Qed.

Lemma touched_epoll_abs it' g' :
  (∀ b, b ≠ a → multiplicity b g' = multiplicity b g) →
  put fd (Some (MkA ev.(e_handler) ev.(e_notifier) (multiplicity a g') (ev.(e_notifier) && readable fd p))) (epoll_abs p g) ≡
    epoll_abs (with_epoll (<[fd := it']> p.(epoll)) p) g'.
Proof.
  destruct Hka as [Hinv Hfd Hs Hb Hit Hd Hf]. intros Hg fd'. destruct (decide (fd' = fd)) as [->|Hne].
  - rewrite put_eq, (epoll_abs_at _ g' fd a ev it'); [done|done|done|]. cbn. apply lookup_insert_eq.
  - rewrite put_ne by done. destruct (decide (0 ≤ fd')) as [H0|H0].
    2:{ assert (Hn : p.(epoll) !! fd' = None).
        { apply eq_None_not_Some. intros [x Hx]. by apply (pi_epoll _ _ (ei_poll _ _ Hinv)) in Hx as []. }
        rewrite !epoll_abs_unknown; [done| |done]. cbn. by rewrite lookup_insert_ne. }
    symmetry. apply epoll_abs_local; [cbn; by rewrite lookup_insert_ne|done|done|].
    intros b Hbs. split; [done|]. apply Hg. eapply (other_address p g fd fd'); [done..|by apply slot_at_some|done].
Qed.

(** The event goes, when nobody else has a guard on it. *)
Definition without_event : EventPoll Handler :=
  with_epoll (delete fd p.(epoll)) (with_boxes (delete a p.(boxes)) (with_events (<[Z.to_nat fd := None]> p.(events)) p)).

Lemma clear_known_run : clear_event_by_fd fd p = Ret (Ok (), without_event).
Proof.
  destruct Hka as [Hinv Hfd Hs Hb Hit Hd Hf]. unfold clear_event_by_fd, assert_. rewrite (proj2 (Z.leb_le _ _)) by done. do 2 (erewrite bind_ok by reflexivity). rewrite Hs.
  erewrite bind_ok by reflexivity. reflexivity.
Qed.

Lemma without_event_slot fd' b : 0 ≤ fd' → slot_at fd' without_event = Some b ↔ fd' ≠ fd ∧ slot_at fd' p = Some b.
Proof.
  destruct Hka as [Hinv Hfd Hs Hb Hit Hd Hf]. intros H0. rewrite !slot_at_some. cbn. rewrite list_lookup_insert_Some. split.
  - intros [(_ & ? & _)|[Hne Hb']]; [done|]. split; [by intros ->|done].
  - intros [Hne Hb']. right. split; [lia|done].
Qed.

Lemma without_event_inv g' :
  a ∉ g' → (∀ b, b ≠ a → multiplicity b g' = multiplicity b g) → poll_inv without_event g' → epoll_inv without_event g'.
Proof.
  destruct Hka as [Hinv Hfd Hs Hb Hit Hd Hf]. intros Ha Hg Hp. split; [done|..|apply Hinv]; cbn [epoll boxes without_event with_epoll with_boxes with_events].
  - intros fd' x y [Hne Hx]%lookup_delete_Some [Hna Hy]%lookup_delete_Some.
    pose proof (ei_known _ _ Hinv _ _ _ Hx Hy) as Hk. unfold known_ok in *. by rewrite Hg.
  - intros b x [_ Hx]%lookup_delete_Some. by apply (ei_level _ _ Hinv b).
  - intros b x Hbg [Hne Hx]%lookup_delete_Some. rewrite elem_of_multiplicity, Hg, <- elem_of_multiplicity in Hbg by done.
    destruct (ei_held _ _ Hinv b x Hbg Hx) as [y Hy]. exists y. apply lookup_delete_Some. split; [|done].
    intros Hc. destruct (pi_box _ _ (ei_poll _ _ Hinv) _ _ Hx) as (_ & Hsx & _). rewrite <- Hc in Hsx. congruence.
Qed.

Lemma without_event_abs g' :
  (∀ b, b ≠ a → multiplicity b g' = multiplicity b g) → put fd None (epoll_abs p g) ≡ epoll_abs without_event g'.
Proof.
  destruct Hka as [Hinv Hfd Hs Hb Hit Hd Hf]. intros Hg fd'. destruct (decide (fd' = fd)) as [->|Hne].
  - rewrite put_eq, epoll_abs_unknown; [done|]. cbn. apply lookup_delete_eq.
  - rewrite put_ne by done. destruct (decide (0 ≤ fd')) as [H0|H0].
    2:{ assert (Hn : p.(epoll) !! fd' = None).
        { apply eq_None_not_Some. intros [x Hx]. by apply (pi_epoll _ _ (ei_poll _ _ Hinv)) in Hx as []. }
        rewrite !epoll_abs_unknown; [done| |done]. cbn. by rewrite lookup_delete_ne. }
    assert (Hadd : ∀ b, slot_at fd' p = Some b → b ≠ a).
    { intros b Hbs. eapply (other_address p g fd fd'); [done..|by apply slot_at_some|done]. }
    symmetry. apply epoll_abs_local; [cbn; by rewrite lookup_delete_ne|done| |].
    + apply option_eq. intros b. rewrite without_event_slot by done. naive_solver.
    + intros b Hbs. specialize (Hadd b Hbs). split; [|by apply Hg]. cbn. by rewrite lookup_delete_ne.
Qed.

(** The counter of a notifier changes. *)
Lemma counted_inv c : ev.(e_notifier) = true → 0 ≤ c → epoll_inv (with_counters (<[fd := c]> p.(counters)) p) g.
Proof.
  destruct Hka as [Hinv Hfd Hs Hb Hit Hd Hf]. intros Hn Hc. split; [apply inv_counters, Hinv|..|apply (ei_level _ _ Hinv)|apply (ei_held _ _ Hinv)|]; cbn [epoll boxes counters with_counters].
  - intros fd' x y Hx Hy. pose proof (ei_known _ _ Hinv _ _ _ Hx Hy) as Hk. unfold known_ok in *. cbn.
    destruct (decide (fd' = fd)) as [->|Hne]; [|by rewrite lookup_insert_ne]. assert (y = ev) as -> by congruence.
    rewrite Hn in *. rewrite lookup_insert_eq. destruct Hk as (? & ? & ?). eauto.
  - intros fd' x [[_ <-]|[_ Hx]]%lookup_insert_Some; [done|by apply (ei_counter _ _ Hinv fd')].
Qed.

Lemma counted_abs c :
  ev.(e_notifier) = true →
  put fd (Some (MkA ev.(e_handler) true (multiplicity a g) (negb (c =? 0)))) (epoll_abs p g) ≡
    epoll_abs (with_counters (<[fd := c]> p.(counters)) p) g.
Proof.
  destruct Hka as [Hinv Hfd Hs Hb Hit Hd Hf]. intros Hn fd'. destruct (decide (fd' = fd)) as [->|Hne].
  - rewrite put_eq, (epoll_abs_at _ g fd a ev it); [|done..]. unfold readable. cbn. by rewrite lookup_insert_eq, Hn.
  - rewrite put_ne by done. symmetry. apply epoll_abs_local; [done| |done|done]. cbn. by rewrite lookup_insert_ne.
Qed.
End Known.

(** *** Every operation *)

Lemma refines_new c fd h p g :
  epoll_inv p g → permitted true (RNew c fd h) (epoll_abs p g) → epoll_rule (RNew c fd h) p →
  ∃ o p' g', i_step (RNew c fd h) (p, g) = Ret (o, (p', g')) ∧ epoll_inv p' g' ∧
    (a_step (RNew c fd h) (epoll_abs p g)).1 = o ∧ (a_step (RNew c fd h) (epoll_abs p g)).2 ≡ epoll_abs p' g'.
Proof.
  intros Hinv Hp (-> & Hfd & Hc). cbn [i_step q_new epoll_registry].
  rewrite (new_of_kind_run (ec_kind c) (ec_ok c) (ec_fd c) h p g) by (done || apply Hinv).
  assert (Hc' : (if ec_kind c is KNotifier then true else false) = false → p.(counters) !! ec_fd c = None)
    by (intros Hk; apply Hc; by destruct c as [[] ? ?]).
  pose proof (λ a, replaceable p g _ a Hinv Hp Hfd) as Hfree.
  pose proof (new_epoll_inv (ec_kind c) (ec_ok c) (ec_fd c) h p g Hinv Hfd Hfree Hc') as Hinv'.
  pose proof (new_epoll_abs (ec_kind c) (ec_ok c) (ec_fd c) h p g Hinv Hfd Hfree Hc') as Habs.
  cbn [a_step call_ok call_notifier epoll_call_call].
  destruct (ec_ok c); eexists _, _, _; (split; [reflexivity|]); (split; [done|]); (split; [done|]); exact Habs.
Qed.

Lemma refines_wait fd eof p g :
  epoll_inv p g →
  let op : rop Z epoll_call Handler := RWait fd eof in
  ∃ o p' g', i_step op (p, g) = Ret (o, (p', g')) ∧ epoll_inv p' g' ∧
    (a_step op (epoll_abs p g)).1 = o ∧ (a_step op (epoll_abs p g)).2 ≡ epoll_abs p' g'.
Proof.
  intros Hinv op. set (revents := if eof then Z.lor EPOLLIN EPOLLHUP else EPOLLIN). cbn [i_step op q_wait epoll_registry].
  fold revents. cbn [a_step op]. destruct (epoll_abs p g fd) as [e|] eqn:He.
  2:{ assert (Hn : p.(epoll) !! fd = None).
      { apply eq_None_not_Some. intros [it Hit]. destruct (pi_epoll _ _ (ei_poll _ _ Hinv) _ _ Hit) as (_ & Hs & _).
        destruct (pi_slot _ _ (ei_poll _ _ Hinv) _ _ Hs) as (ev & Hev & _). rewrite (epoll_abs_at p g fd _ ev it Hs Hev Hit) in He. done. }
      erewrite bind_ok by (apply wait_quiet; intros ?; congruence). by eexists _, _, _. }
  destruct (epoll_abs_some p g fd e Hinv He) as (a & ev & it & Hka & Hat & ->).
  rewrite <- (known_ready p g fd a ev it Hka). pose proof Hka as [_ Hfd Hs Hb Hit Hd Hf]. destruct (i_enabled it && readable fd p) eqn:Hr.
  2:{ erewrite bind_ok by (apply wait_quiet; intros x Hx; congruence). by eexists _, _, _. }
  apply andb_true_iff in Hr as [Hen Hr]. destruct (wait_inv (WaitReady fd revents) p g (ei_poll _ _ Hinv)) as (r & p1 & Hw & Hp).
  pose proof (wait_at fd revents it ev p Hit Hen Hr ltac:(by rewrite Hd)) as Hw'. rewrite Hw' in Hw. injection Hw as <- <-.
  erewrite bind_ok by exact Hw'.
  assert (Hland : (Z.land revents EPOLLHUP =? 0) = negb eof) by (by destruct eof). rewrite Hland in *. rewrite Hd in *.
  assert (Hg : ∀ b, b ≠ a → multiplicity b ({[+ a +]} ⊎ g) = multiplicity b g)
    by (intros b Hne; by rewrite multiplicity_disj_union, multiplicity_singleton_ne).
  eexists _, _, ({[+ a +]} ⊎ g). split.
  - destruct eof; cbn [negb]; cbv match; cbn [mret M_ret]; unfold q_handler, epoll_registry, guard_handler, mbind, M_bind;
      erewrite deref_run by exact Hb; reflexivity.
  - split; [|split; [done|]].
    + apply (touched_epoll_inv p g fd a ev it); [done|by destruct eof|done| |done].
      pose proof (ei_known _ _ Hinv _ _ ev Hit ltac:(by rewrite Hd)) as Hk. unfold known_ok in *.
      cbn [i_enabled i_events i_data]. destruct (e_notifier ev); [destruct Hk as (_ & -> & ?); done|]. destruct Hk as [_ ?]. split; [|done].
      rewrite multiplicity_disj_union, multiplicity_singleton, decide_True by done. lia.
    + rewrite <- (touched_epoll_abs p g fd a ev it Hka _ _ Hg).
      by rewrite multiplicity_disj_union, multiplicity_singleton, decide_True.
Qed.

Lemma refines_drop fd e p g :
  let op : rop Z epoll_call Handler := RDrop fd in
  epoll_inv p g → epoll_abs p g fd = Some e → (0 < e.(ae_held))%nat →
  ∃ o p' g', i_step op (p, g) = Ret (o, (p', g')) ∧ epoll_inv p' g' ∧
    (a_step op (epoll_abs p g)).1 = o ∧ (a_step op (epoll_abs p g)).2 ≡ epoll_abs p' g'.
Proof.
  intros op Hinv He Hheld. destruct (epoll_abs_some p g fd e Hinv He) as (a & ev & it & Hka & Hat & ->). cbn [ae_held] in Hheld.
  pose proof Hka as [_ Hfd Hs Hb Hit Hd Hf]. assert (Ha : a ∈ g) by (by apply elem_of_multiplicity).
  destruct (drop_inv a p g (ei_poll _ _ Hinv) Ha) as (p' & Hdrop & Hp').
  cbn [i_step op q_at q_drop epoll_registry a_step]. rewrite Hat, Hdrop, He. cbn [finished fst snd].
  destruct (pi_box _ _ (ei_poll _ _ Hinv) _ _ Hb) as (_ & _ & Hu & Hone).
  assert (Hrun : p' = with_epoll (<[fd := MkInterest ev.(e_events) ev.(e_u64) true]> p.(epoll)) p).
  { revert Hdrop. unfold guard_drop. erewrite bind_ok by (by apply deref_run). unfold epoll_mod, modify. rewrite Hf, Hit.
    by intros [= <-]. }
  subst p'. eexists _, _, _. split; [reflexivity|]. split; [|split; [done|]].
  - apply (touched_epoll_inv p g fd a ev it); [done|done|done| |intros b; apply others_hold].
    unfold known_ok. cbn [i_enabled i_events i_data]. pose proof (ei_known _ _ Hinv _ _ ev Hit ltac:(by rewrite Hd)) as Hk.
    unfold known_ok in Hk. destruct (e_notifier ev) eqn:Hn; [|by destruct Hk].
    split_and!; [done|by apply (ei_level _ _ Hinv a)|by destruct Hk as (_ & _ & ?)].
  - rewrite <- (touched_epoll_abs p g fd a ev it Hka _ _ (λ b, others_hold a b g)), fewer_hold. done.
Qed.

Lemma refines_cancel fd e p g :
  let op : rop Z epoll_call Handler := RCancel fd in
  epoll_inv p g → epoll_abs p g fd = Some e → e.(ae_held) = 1%nat →
  ∃ o p' g', i_step op (p, g) = Ret (o, (p', g')) ∧ epoll_inv p' g' ∧
    (a_step op (epoll_abs p g)).1 = o ∧ (a_step op (epoll_abs p g)).2 ≡ epoll_abs p' g'.
Proof.
  intros op Hinv He Hheld. destruct (epoll_abs_some p g fd e Hinv He) as (a & ev & it & Hka & Hat & ->). cbn [ae_held] in Hheld.
  pose proof Hka as [_ Hfd Hs Hb Hit Hd Hf]. destruct (cancel_inv a p g (ei_poll _ _ Hinv) Hheld) as (p' & Hc & Hp').
  cbn [i_step op q_at q_cancel epoll_registry a_step]. rewrite Hat, Hc. cbn [finished fst snd].
  assert (Hrun : p' = without_event p fd a).
  { revert Hc. unfold cancel. erewrite bind_ok by (by apply deref_run). rewrite Hf, (clear_known_run p g fd a ev it Hka). by intros [= <-]. }
  subst p'. eexists _, _, _. split; [reflexivity|]. split; [|split; [done|]].
  - apply (without_event_inv p g fd a ev it); [done| |intros b; apply others_hold|done].
    rewrite elem_of_multiplicity, fewer_hold. lia.
  - apply (without_event_abs p g fd a ev it Hka). intros b. apply others_hold.
Qed.

Lemma refines_clear fd e p g :
  let op : rop Z epoll_call Handler := RClear fd in
  epoll_inv p g → epoll_abs p g fd = Some e → e.(ae_held) = 0%nat →
  ∃ o p' g', i_step op (p, g) = Ret (o, (p', g')) ∧ epoll_inv p' g' ∧
    (a_step op (epoll_abs p g)).1 = o ∧ (a_step op (epoll_abs p g)).2 ≡ epoll_abs p' g'.
Proof.
  intros op Hinv He Hheld. destruct (epoll_abs_some p g fd e Hinv He) as (a & ev & it & Hka & Hat & ->). cbn [ae_held] in Hheld.
  pose proof Hka as [_ Hfd Hs Hb Hit Hd Hf]. assert (Ha : a ∉ g) by (rewrite elem_of_multiplicity; lia).
  destruct (poll_clear_inv fd p g (ei_poll _ _ Hinv) Hfd) as (p' & Hc & Hp' & _); [by eapply lookup_lt_Some|congruence|].
  cbn [i_step op q_clear epoll_registry a_step]. rewrite Hc. cbn [finished fst snd].
  rewrite (clear_known_run p g fd a ev it Hka) in Hc. injection Hc as <-.
  eexists _, _, _. split; [reflexivity|]. split; [|split; [done|]].
  - by apply (without_event_inv p g fd a ev it).
  - by apply (without_event_abs p g fd a ev it Hka).
Qed.

Lemma refines_notice (up : bool) fd e p g :
  let op : rop Z epoll_call Handler := if up then RTrigger fd else RStop fd in
  epoll_inv p g → epoll_abs p g fd = Some e → e.(ae_notifier) = true →
  ∃ o p' g', i_step op (p, g) = Ret (o, (p', g')) ∧ epoll_inv p' g' ∧
    (a_step op (epoll_abs p g)).1 = o ∧ (a_step op (epoll_abs p g)).2 ≡ epoll_abs p' g'.
Proof.
  intros op Hinv He Hn. destruct (epoll_abs_some p g fd e Hinv He) as (a & ev & it & Hka & Hat & ->). cbn [ae_notifier] in Hn.
  pose proof Hka as [_ Hfd Hs Hb Hit Hd Hf].
  assert (Hrun : ∃ c, i_step op (p, g) = Ret (Done, (with_counters (<[fd := c]> p.(counters)) p, g)) ∧ 0 ≤ c ∧ negb (c =? 0) = up).
  { unfold op. destruct up; cbn [i_step q_trigger q_stop epoll_registry]; unfold trigger_notification, stop_notification;
      (erewrite bind_ok by (by eapply notifier_run)); [|by exists 0].
    pose proof (ei_known _ _ Hinv _ _ ev Hit ltac:(by rewrite Hd)) as Hk. unfold known_ok in Hk. rewrite Hn in Hk.
    destruct Hk as (_ & _ & [c Hc]). pose proof (ei_counter _ _ Hinv _ _ Hc) as Hc0.
    unfold eventfd_write, modify. rewrite Hc. cbn [default from_option id]. unfold id. destruct (Z.leb_spec (c + (U64_MAX - 1)) (U64_MAX - 1)) as [Hle|Hgt].
    - exists (c + (U64_MAX - 1)). unfold U64_MAX in *. split_and!; [done|lia|]. apply negb_true_iff, Z.eqb_neq. lia.
    - exists c. rewrite insert_id by done. split_and!; [by destruct p|done|]. apply negb_true_iff, Z.eqb_neq. lia. }
  destruct Hrun as (c & Hstep & Hc0 & Hc). rewrite Hstep. eexists _, _, _. split; [reflexivity|].
  split; [by apply (counted_inv p g fd a ev it)|]. split; [by destruct up|].
  rewrite <- (counted_abs p g fd a ev it Hka c Hn), Hc. unfold op. destruct up; cbn [a_step snd]; rewrite He; cbn; by rewrite Hn.
Qed.

Lemma epoll_step_refines (op : rop Z epoll_call Handler) p g :
  epoll_inv p g → permitted true op (epoll_abs p g) → epoll_rule op p →
  ∃ o p' g', i_step op (p, g) = Ret (o, (p', g')) ∧ epoll_inv p' g' ∧
    (a_step op (epoll_abs p g)).1 = o ∧ (a_step op (epoll_abs p g)).2 ≡ epoll_abs p' g'.
Proof.
  intros Hinv Hp Hr. destruct op as [c fd h|fd eof|fd|fd|fd|fd|fd].
  - by apply refines_new.
  - by apply refines_wait.
  - destruct Hp as (e & He & Hh). by eapply refines_drop.
  - destruct Hp as (e & He & Hh). by eapply refines_cancel.
  - destruct Hp as (e & He & Hh). by eapply refines_clear.
  - destruct Hp as (e & He & Hn). by eapply (refines_notice true).
  - destruct Hp as (e & He & Hn & _). by eapply (refines_notice false).
Qed.

#[global] Instance epoll_registry_laws : RegistryLaws Z epoll_call Handler (EventPoll Handler) := {|
  q_inv := epoll_inv;
  q_abs := epoll_abs;
  q_rule := epoll_rule;
  q_reuse := true;
  q_refines := epoll_step_refines;
|}.

Lemma epoll_start_inv : epoll_inv (MkPoll [] ∅ ∅ ∅ : EventPoll Handler) ∅.
Proof.
  split; cbn; [|done|done|intros a ev Ha; multiset_solver|done].
  split; cbn; [done|done|done|multiset_solver|multiset_solver].
Qed.

(** C30.  The registry over epoll does what its contract says.  However it is
    used by the rules (guards are used by those who have them, events are
    replaced, cleared and cancelled when nobody else has a guard on them), it
    never panics nor follows a pointer to an event that is gone, and its
    clients see what they would see of the abstract registry: of an event that
    is not a notifier at most one guard at a time; a notifier from when it is
    triggered until it is stopped, as often as anybody waits; and the last
    event that is registered under a descriptor, not the ones before it. *)
Theorem epoll_refines (ops : list (rop Z epoll_call Handler)) fd p0 :
  EventPoll_new (Some fd) = Ok p0 → by_the_rules ops (λ _, None) (p0, ∅) →
  ∃ p g, i_run ops (p0, ∅) = Ret ((a_run ops (λ _, None)).1, (p, g)) ∧ poll_inv p g ∧
    (a_run ops (λ _, None)).2 ≡ epoll_abs p g.
Proof.
  intros [= <-] Hops. destruct (runs_refine ops (λ _, None) (MkPoll [] ∅ ∅ ∅) ∅) as (p & g & Hrun & Hinv & Habs);
    [exact epoll_start_inv|done|done|].
  exists p, g. split; [done|]. split; [apply Hinv|done].
Qed.
End EpollRegistry.

(** ** Witness *)

(** A notifier for two, a timer that is taken, and an event that replaces it. *)
Definition epoll_session : list (rop Z epoll_call nat) :=
  [RNew (MkCall KNotifier true 5) 5 1%nat; RNew (MkCall KTimer true 6) 6 2%nat; RTrigger 5; RWait 5 false; RWait 5 false;
   RWait 6 false; RWait 6 false; RDrop 6; RNew (MkCall KRead true 6) 6 3%nat; RWait 6 true; RDrop 5; RDrop 5; RStop 5;
   RWait 5 false; RCancel 6; RWait 6 false].

Lemma epoll_session_rules : by_the_rules epoll_session (λ _, None) (MkPoll [] ∅ ∅ ∅, ∅).
Proof. unfold epoll_session. step_rules ltac:(vm_compute; repeat split; done). Qed.

Lemma epoll_refines_witness :
  ∃ p g, i_run epoll_session (MkPoll [] ∅ ∅ ∅, ∅) =
    Ret ([Done; Done; Done; Handed 1%nat false; Handed 1%nat false; Handed 2%nat false; Silent; Done; Done; Handed 3%nat true;
          Done; Done; Done; Silent; Done; Silent], (p, g)) ∧ poll_inv p g.
Proof.
  destruct (epoll_refines epoll_session 3 (MkPoll [] ∅ ∅ ∅) eq_refl epoll_session_rules) as (p & g & Hr & Hinv & _).
  exists p, g. split; [exact Hr|exact Hinv].
Defined.
