(* ===== verification/KqueueRegistry.v ===== *)
(** * The registry over kqueue and the promises of Registry.v

    An event is named by its kind and its slot.  The registry keeps its promises
    as long as no name is registered again while it is in use
    ([kqueue_refines]): a second registration changes the entry in the queue of
    the system and then deletes it with the event that it replaces, so that the
    new event is never reported ([registered_again_is_lost]). *)

From stdpp Require Import gmultiset.
From S2P Require Import Prelude Crypto Packet Tai64N Handshake RateLimiter Tunn Lfsr Text AllowedIps Peer Device EventPoll Kqueue Registry.

(** [kc_number] is a descriptor or a signal. *)
Record kq_call := MkCall {
  kc_kind : EventKind;
  kc_ok : bool;
  kc_number : Z;
  kc_secs : Z;
  kc_nanos : Z;
}.

#[global] Instance kq_call_call : Call kq_call := {|
  call_notifier c := bool_decide (c.(kc_kind) = Notifier);
  call_ok := kc_ok;
|}.

Abbreviation kname := (EventKind * nat)%type.

Section KqueueRegistry.
Context {Handler : Type}.

Definition kq_new (c : kq_call) (h : Handler) : M Error (EventPoll Handler) Z :=
  match c.(kc_kind) with
  | FD => new_event c.(kc_ok) c.(kc_number) h
  | Timer => new_periodic_event c.(kc_ok) h c.(kc_secs) c.(kc_nanos)
  | Notifier => new_notifier c.(kc_ok) h
  | Signal => new_signal_event c.(kc_ok) c.(kc_number) h
  end.

Definition trigger_of (n : kname) : Z := name_at (vector_of n.1) n.2.

Definition kq_at (n : kname) (p : EventPoll Handler) : option nat :=
  match slots (vector_of n.1) p !! n.2 with Some (Some a) => Some a | _ => None end.

#[global] Instance kqueue_registry : Registry kname kq_call Handler (EventPoll Handler) := {|
  q_new := kq_new;
  q_wait n eof :=
    r ← wait (KReady (as_usize (trigger_of n)) (filter_of n.1) (if eof then EV_EOF else 0));
    mret (match r with WaitOk a => Some (a, false) | WaitEoF a => Some (a, true) | WaitError => None end);
  q_handler := guard_handler;
  q_drop := guard_drop;
  q_cancel := cancel;
  q_clear n := clear_event_by_fd (trigger_of n);
  q_trigger n := trigger_notification (trigger_of n);
  q_stop n := stop_notification (trigger_of n);
  q_at := kq_at;
|}.

Definition is_notifier (k : EventKind) : bool := bool_decide (k = Notifier).

Definition abs_event (k : EventKind) (h : Handler) (held : nat) (kn : knote) : aevent Handler :=
  MkA h (is_notifier k) held (is_notifier k && (kn.(kn_enabled) && kn.(kn_triggered))).

Definition kq_abs (p : EventPoll Handler) (g : gmultiset nat) : areg kname Handler := λ n,
  match kq_at n p with
  | Some a =>
    match p.(boxes) !! a with
    | Some ev =>
      if decide (ev.(e_kind) = n.1) then
        match p.(kqueue) !! key_of ev with
        | Some kn => Some (abs_event n.1 ev.(e_handler) (multiplicity a g) kn)
        | None => None
        end
      else None
    | None => None
    end
  | None => None
  end.

(** What the queue knows of an event: a notifier is enabled and triggered while
    somebody has a guard on it; any other event is enabled unless somebody
    has. *)
Definition knote_ok (held : nat) (ev : Event Handler) (kn : knote) : Prop :=
  if is_notifier ev.(e_kind) then kn.(kn_dispatch) = false ∧ ((0 < held)%nat → kn.(kn_enabled) = true ∧ kn.(kn_triggered) = true)
  else kn.(kn_dispatch) = true ∧ (held = 0%nat → kn.(kn_enabled) = true).

Record kqr_inv (p : EventPoll Handler) (g : gmultiset nat) : Prop := {
  kr_inv : kq_inv p g;
  kr_known a ev kn : p.(boxes) !! a = Some ev → p.(kqueue) !! key_of ev = Some kn → knote_ok (multiplicity a g) ev kn;
  kr_held a ev : a ∈ g → p.(boxes) !! a = Some ev → is_Some (p.(kqueue) !! key_of ev);
}.

(** The queue knows every event. *)
Definition complete (p : EventPoll Handler) : Prop :=
  ∀ a ev, p.(boxes) !! a = Some ev → is_Some (p.(kqueue) !! key_of ev).

(** The identifier of the call is that of the slot; periods are not too long;
    slots are numbered in 31 bits; and signals are not cancelled or cleared. *)
Definition call_ident (c : kq_call) : Z :=
  match c.(kc_kind) with FD | Signal => as_usize c.(kc_number) | _ => 0 end.

Definition kq_rule (op : rop kname kq_call Handler) (p : EventPoll Handler) : Prop :=
  match op with
  | RNew c n _ => n.1 = c.(kc_kind) ∧ slot_for c.(kc_kind) (call_ident c) n.2 p ∧
      (c.(kc_kind) = Timer → 0 ≤ c.(kc_secs) ∧ 0 ≤ c.(kc_nanos) ∧ c.(kc_secs) * 1000000000 + c.(kc_nanos) < 2 ^ 64)
  | RWait n _ => Z.of_nat n.2 < 2 ^ 31
  | RCancel n | RClear n => n.1 ≠ Signal
  | _ => True
  end.

(** Event [ev] is at address [a] under the name. *)
Record ev_at (p : EventPoll Handler) (g : gmultiset nat) (n : kname) (a : nat) (ev : Event Handler) : Prop := {
  eva_inv : kqr_inv p g;
  eva_slot : slots (vector_of n.1) p !! n.2 = Some (Some a);
  eva_box : p.(boxes) !! a = Some ev;
  eva_kind : ev.(e_kind) = n.1;
  eva_made : made a n.2 ev;
}.

(** And the queue knows it. *)
Record kn_at (p : EventPoll Handler) (g : gmultiset nat) (n : kname) (a : nat) (ev : Event Handler) (kn : knote) : Prop := {
  kna_inv : kqr_inv p g;
  kna_slot : slots (vector_of n.1) p !! n.2 = Some (Some a);
  kna_box : p.(boxes) !! a = Some ev;
  kna_kind : ev.(e_kind) = n.1;
  kna_made : made a n.2 ev;
  kna_queue : p.(kqueue) !! key_of ev = Some kn;
  kna_udata : kn.(kn_udata) = Some a;
  kna_key : key_of ev = (as_usize (trigger_of n), filter_of n.1);
}.

Lemma kq_at_some n a p : kq_at n p = Some a ↔ slots (vector_of n.1) p !! n.2 = Some (Some a).
Proof. unfold kq_at. destruct (slots _ p !! n.2) as [[b|]|]; naive_solver. Qed.

Lemma kn_at_intro p g n a ev kn :
  kqr_inv p g → slots (vector_of n.1) p !! n.2 = Some (Some a) → p.(boxes) !! a = Some ev → ev.(e_kind) = n.1 →
  p.(kqueue) !! key_of ev = Some kn → kn_at p g n a ev kn.
Proof.
  intros Hinv Hs Hb Hk Hq. pose proof (kr_inv _ _ Hinv) as Hkq. destruct (ki_slot _ _ Hkq _ _ _ Hs) as (x & Hx & _ & Hm).
  assert (x = ev) as -> by congruence. split; try done.
  - destruct (ki_queue _ _ Hkq _ _ Hq) as (b & y & Hu & Hy & Hkey & _). by rewrite (key_inj p g a b ev y Hkq Hb Hy Hkey).
  - destruct Hm as [_ [d ->]]. unfold trigger_of. by rewrite Hk.
Qed.

Lemma kq_abs_some p g n e :
  kqr_inv p g → kq_abs p g n = Some e →
  ∃ a ev kn, kn_at p g n a ev kn ∧ kq_at n p = Some a ∧ e = abs_event n.1 ev.(e_handler) (multiplicity a g) kn.
Proof.
  intros Hinv. unfold kq_abs. destruct (kq_at n p) as [a|] eqn:Ha; [|done]. destruct (boxes p !! a) as [ev|] eqn:Hb; [|done].
  destruct (decide (e_kind ev = n.1)) as [Hk|]; [|done]. destruct (kqueue p !! key_of ev) as [kn|] eqn:Hq; [|done].
  intros [= <-]. exists a, ev, kn. apply kq_at_some in Ha. split; [|done]. by apply kn_at_intro.
Qed.

Lemma kq_abs_at p g n a ev kn : kn_at p g n a ev kn → kq_abs p g n = Some (abs_event n.1 ev.(e_handler) (multiplicity a g) kn).
Proof.
  intros [_ Hs Hb Hk _ Hq _ _]. unfold kq_abs. rewrite (proj2 (kq_at_some n a p) Hs), Hb, decide_True, Hq by done. done.
Qed.

(** What is under a name depends on nothing else. *)
Lemma kq_abs_local p p' g g' n :
  kq_at n p' = kq_at n p →
  (∀ a, kq_at n p = Some a → p'.(boxes) !! a = p.(boxes) !! a ∧ multiplicity a g' = multiplicity a g ∧
    ∀ ev, p.(boxes) !! a = Some ev → ev.(e_kind) = n.1 → p'.(kqueue) !! key_of ev = p.(kqueue) !! key_of ev) →
  kq_abs p' g' n = kq_abs p g n.
Proof.
  intros Hs Ha. unfold kq_abs. rewrite Hs. destruct (kq_at n p) as [a|]; [|done]. destruct (Ha a eq_refl) as (-> & -> & Hq).
  destruct (boxes p !! a) as [ev|]; [|done]. destruct (decide (e_kind ev = n.1)) as [Hk|]; [|done]. by rewrite (Hq ev).
Qed.

(** An event is handed out exactly when the abstract registry does. *)
Lemma kn_ready p g n a ev kn :
  kn_at p g n a ev kn → reportable (filter_of n.1) kn = ready_to (abs_event n.1 ev.(e_handler) (multiplicity a g) kn).
Proof.
  intros [Hinv _ Hb Hk _ Hq _ _]. pose proof (kr_known _ _ Hinv _ _ _ Hb Hq) as Hok. unfold knote_ok in Hok. rewrite Hk in Hok.
  unfold reportable, ready_to, abs_event. cbn. assert (Hf : (filter_of n.1 =? EVFILT_USER) = is_notifier n.1) by (by destruct n as [[] i]).
  rewrite Hf. destruct (is_notifier n.1) eqn:Hn; [done|]. cbn. rewrite andb_true_r. destruct Hok as [_ Hok].
  destruct (Nat.eqb_spec (multiplicity a g) 0) as [E|E]; [by apply Hok|].
  apply (ki_once _ _ (kr_inv _ _ Hinv) a ev); [apply elem_of_multiplicity; lia|done| |done]. rewrite Hk. intros Hc. by rewrite Hc in Hn.
Qed.

(** ** What an operation does *)

Definition subject (op : rop kname kq_call Handler) : kname :=
  match op with RNew _ n _ | RWait n _ | RDrop n | RCancel n | RClear n | RTrigger n | RStop n => n end.

(** It does what the abstract registry does; the queue still knows all events
    if it did, and other descriptors keep their events. *)
Definition refined (op : rop kname kq_call Handler) (p : EventPoll Handler) (g : gmultiset nat) : Prop :=
  ∃ o p' g', i_step op (p, g) = Ret (o, (p', g')) ∧ kqr_inv p' g' ∧
    (a_step op (kq_abs p g)).1 = o ∧ (a_step op (kq_abs p g)).2 ≡ kq_abs p' g' ∧
    (complete p → complete p') ∧
    ∀ i a, ((FD, i) ≠ subject op ∨ ∃ n eof, op = RWait n eof) → kq_at (FD, i) p = Some a → kq_at (FD, i) p' = Some a.

Lemma kn_ev_at p g n a ev kn : kn_at p g n a ev kn → ev_at p g n a ev.
Proof. by intros []. Qed.

Section There.
Context (p : EventPoll Handler) (g : gmultiset nat) (n : kname) (a : nat) (ev : Event Handler).
Context (Hea : ev_at p g n a ev).

(** A name that shares the slot. *)
Lemma kq_abs_alias n' q g' :
  n' ≠ n → (vector_of n'.1, n'.2) = (vector_of n.1, n.2) →
  (∀ b, kq_at n' q = Some b → b = a) → (∀ x, q.(boxes) !! a = Some x → x = ev) → kq_abs q g' n' = None.
Proof.
  destruct Hea as [_ _ _ Hk _]. intros Hne Hs Hat Hbox. unfold kq_abs. destruct (kq_at n' q) as [b|]; [|done].
  rewrite (Hat b eq_refl). destruct (boxes q !! a) as [x|]; [|done]. rewrite (Hbox x eq_refl), decide_False; [done|].
  intros Hk'. apply Hne. destruct n, n'. cbn in *. congruence.
Qed.

Lemma other_slot n' b : n' ≠ n → kq_at n' p = Some b → b = a → (vector_of n'.1, n'.2) = (vector_of n.1, n.2).
Proof.
  destruct Hea as [Hinv Hs Hb Hk Hm]. intros Hne Hb'%kq_at_some ->.
  destruct (ki_slot _ _ (kr_inv _ _ Hinv) _ _ _ Hb') as (x & Hx & Hv & Hmx). assert (x = ev) as -> by congruence.
  destruct (key_place _ _ _ _ _ _ Hm Hmx eq_refl) as [_ <-]. by rewrite <- Hv, Hk.
Qed.

(** The event goes. *)
Section Taken.
Context (g' : gmultiset nat) (Ha : a ∉ g').
Context (Hg : ∀ b, b ≠ a → multiplicity b g' = multiplicity b g).

Let p' := taken (vector_of n.1) n.2 a (key_of ev) p.

Lemma boxes_of_taken : boxes p' = delete a p.(boxes).
Proof. unfold p', taken. by rewrite boxes_with_slots. Qed.

Lemma kqueue_of_taken : kqueue p' = delete (key_of ev) p.(kqueue).
Proof. unfold p', taken. by rewrite kqueue_with_slots. Qed.

Lemma taken_kqr_inv : kq_inv p' g' → kqr_inv p' g'.
Proof.
  destruct Hea as [Hinv Hs Hb Hk Hm]. intros Hkq. split; [done|..]; rewrite ?boxes_of_taken, ?kqueue_of_taken.
  - intros b x y [Hne Hx]%lookup_delete_Some [_ Hy]%lookup_delete_Some. rewrite Hg by done. by apply (kr_known _ _ Hinv).
  - intros b x Hbg [Hne Hx]%lookup_delete_Some. rewrite elem_of_multiplicity, Hg, <- elem_of_multiplicity in Hbg by done.
    destruct (kr_held _ _ Hinv b x Hbg Hx) as [y Hy]. exists y. apply lookup_delete_Some. split; [|done].
    intros Hkey. apply Hne. by eapply (key_inj p g); [apply Hinv|..].
Qed.

Lemma taken_kq_abs : put n None (kq_abs p g) ≡ kq_abs p' g'.
Proof.
  pose proof Hea as [Hinv Hs Hb Hk Hm]. intros n'.
  assert (Hgone : (vector_of n'.1, n'.2) = (vector_of n.1, n.2) → kq_abs p' g' n' = None).
  { intros Hsl. unfold kq_abs. destruct (kq_at n' p') as [b|] eqn:Hb'; [|done]. by apply kq_at_some, slots_taken in Hb' as [_ []]. }
  destruct (decide (n' = n)) as [->|Hne]; [rewrite put_eq; by rewrite Hgone|]. rewrite put_ne by done.
  destruct (decide ((vector_of n'.1, n'.2) = (vector_of n.1, n.2))) as [Hsl|Hsl].
  { rewrite Hgone by done. apply kq_abs_alias; [done|done| |intros; congruence]. intros b Hb'%kq_at_some. injection Hsl as E1 E2.
    rewrite E1, E2 in Hb'. congruence. }
  assert (Hat : ∀ b, kq_at n' p = Some b → b ≠ a) by (intros b Hb' Hc; by apply Hsl, (other_slot n' b)).
  symmetry. apply kq_abs_local.
  - apply option_eq. intros b. rewrite !kq_at_some. split; [by intros [? _]%slots_taken|intros; by apply taken_slots].
  - intros b Hb'. specialize (Hat b Hb'). rewrite boxes_of_taken, kqueue_of_taken, lookup_delete_ne by done.
    split_and!; [done|by apply Hg|]. intros x Hx _. rewrite lookup_delete_ne; [done|]. intros Hkey. apply Hat. symmetry.
    by eapply (key_inj p g); [apply Hinv|..].
Qed.

Lemma taken_complete : complete p → complete p'.
Proof.
  pose proof Hea as [Hinv Hs Hb Hk Hm]. intros Hc b x. rewrite boxes_of_taken, kqueue_of_taken.
  intros [Hne Hx]%lookup_delete_Some. destruct (Hc b x Hx) as [y Hy]. exists y. apply lookup_delete_Some. split; [|done].
  intros Hkey. apply Hne. by eapply (key_inj p g); [apply Hinv|..].
Qed.

Lemma taken_frame i b : (FD, i) ≠ n → kq_at (FD, i) p = Some b → kq_at (FD, i) p' = Some b.
Proof.
  intros Hne Hb'%kq_at_some. apply kq_at_some. apply taken_slots; [done|]. intros [= Hv Hi]. apply Hne.
  destruct n as [[] j]; cbn in *; congruence.
Qed.
End Taken.
End There.

(** The entry in the queue changes, and the guards. *)
Section Touched.
Context (p : EventPoll Handler) (g : gmultiset nat) (n : kname) (a : nat) (ev : Event Handler) (kn : knote).
Context (Hka : kn_at p g n a ev kn).
Context (kn' : knote) (g' : gmultiset nat).
Context (Hg : ∀ b, b ≠ a → multiplicity b g' = multiplicity b g).

Let p' := with_kqueue (<[key_of ev := kn']> p.(kqueue)) p.

Lemma touched_kqr_inv : kq_inv p' g' → knote_ok (multiplicity a g') ev kn' → kqr_inv p' g'.
Proof.
  destruct Hka as [Hinv Hs Hb Hk Hm Hq Hu _]. intros Hkq Hok. split; [done|..]; cbn.
  - intros b x y Hx [[Hkey <-]|[Hne Hy]]%lookup_insert_Some.
    + assert (b = a) as -> by (by eapply (key_inj p g); [apply Hinv|..]). assert (x = ev) as -> by congruence. done.
    + rewrite Hg; [by apply (kr_known _ _ Hinv)|]. intros ->. congruence.
  - intros b x Hbg Hx. destruct (decide (b = a)) as [->|Hne].
    + assert (x = ev) as -> by congruence. rewrite lookup_insert_eq. eauto.
    + rewrite elem_of_multiplicity, Hg, <- elem_of_multiplicity in Hbg by done.
      destruct (kr_held _ _ Hinv b x Hbg Hx) as [y Hy]. destruct (decide (key_of x = key_of ev)) as [->|Hnk];
        [rewrite lookup_insert_eq|rewrite lookup_insert_ne by done]; eauto.
Qed.

Lemma touched_kq_abs : kqr_inv p' g' → put n (Some (abs_event n.1 ev.(e_handler) (multiplicity a g') kn')) (kq_abs p g) ≡ kq_abs p' g'.
Proof.
  destruct Hka as [Hinv Hs Hb Hk Hm Hq Hu _]. intros Hinv' n'. destruct (decide (n' = n)) as [->|Hne].
  - rewrite put_eq, (kq_abs_at p' g' n a ev kn'); [done|]. apply kn_at_intro; [done|by destruct n as [[] i]|done|done|]. cbn. apply lookup_insert_eq.
  - rewrite put_ne by done. assert (Hat : kq_at n' p' = kq_at n' p) by (unfold kq_at; by destruct n' as [[] i]).
    destruct (kq_at n' p) as [b|] eqn:Hb'; [|unfold kq_abs; by rewrite Hat, Hb'].
    destruct (decide (b = a)) as [->|Hba].
    + pose proof (other_slot p g n a ev (kn_ev_at _ _ _ _ _ _ Hka) n' a Hne Hb' eq_refl) as Hsl.
      rewrite !(kq_abs_alias p g n a ev (kn_ev_at _ _ _ _ _ _ Hka) n'); [done|done|done|cbn; congruence|cbn; congruence|done|done|congruence|cbn; congruence].
    + symmetry. apply kq_abs_local; [congruence|]. intros c Hc. assert (c = b) as -> by congruence. split_and!; [done|by apply Hg|].
      intros x Hx _. cbn. rewrite lookup_insert_ne; [done|]. intros Hkey. apply Hba. symmetry. by eapply (key_inj p g); [apply Hinv|..].
Qed.

Lemma touched_complete : complete p → complete p'.
Proof.
  intros Hc b x Hx. cbn in *. destruct (decide (key_of x = key_of ev)) as [->|Hne];
    [rewrite lookup_insert_eq|rewrite lookup_insert_ne by done]; [eauto|by apply (Hc b)].
Qed.
End Touched.


(** *** Registering *)

Definition call_data (c : kq_call) : Z :=
  match c.(kc_kind) with Timer => as_isize (c.(kc_secs) * 1000000000 + c.(kc_nanos)) | _ => 0 end.

Lemma kq_new_run c n h p :
  kq_rule (RNew c n h) p → kq_new c h p = register_event c.(kc_ok) (raw c.(kc_kind) (call_ident c) (call_data c) h) p.
Proof.
  intros (_ & _ & Ht). unfold kq_new, call_ident, call_data. destruct (kc_kind c); [done..|].
  destruct (Ht eq_refl) as (H1 & H2 & H3). unfold new_periodic_event, period_nanos, assert_.
  rewrite (proj2 (Z.ltb_lt (_ * _) _)), (proj2 (Z.ltb_lt (_ + _) _)) by lia. done.
Qed.

(** An event is put in; [reg]: the queue knows it. *)
Section Placed.
Context (k : EventKind) (i : nat) (data : Z) (h : Handler) (reg : bool) (ig : gset Z) (a : nat).
Context (p : EventPoll Handler) (g : gmultiset nat).
Context (Hinv : kqr_inv p g) (Han : p.(boxes) !! a = None) (Hi : Z.of_nat i < 2 ^ 31) (Hvac : vacant (vector_of k) i p).

Let p' := placed a k i data h reg ig p.
Let ev := event_at a k i data h.
Let kn := MkKnote (Some a) (has_flag (flags_of k) EV_DISPATCH) true false.

Lemma boxes_of_placed : boxes p' = <[a := ev]> p.(boxes).
Proof. unfold p', placed. by rewrite boxes_with_slots. Qed.

Lemma kqueue_of_placed : kqueue p' = if reg then <[key_of ev := kn]> p.(kqueue) else p.(kqueue).
Proof. unfold p', placed. by rewrite kqueue_with_slots. Qed.

Lemma placed_unguarded : a ∉ g.
Proof. intros Ha. destruct (ki_guard _ _ (kr_inv _ _ Hinv) a Ha). congruence. Qed.

Lemma placed_key b x : p.(boxes) !! b = Some x → key_of x ≠ key_of ev.
Proof.
  intros Hx Hk. destruct (ki_made _ _ _ _ (kr_inv _ _ Hinv) Hx) as (j & Hj & Hmx).
  destruct (key_place b a j i x ev Hmx) as [Hkind ->]; [split; [done|by exists data]|done|]. cbn in Hkind.
  rewrite Hkind in Hj. by apply (Hvac b).
Qed.

Lemma placed_no_knote : p.(kqueue) !! key_of ev = None.
Proof. by apply (vacant_no_knote k i a data h p g); [apply Hinv|..]. Qed.

Lemma placed_kqr_inv : kqr_inv p' g.
Proof.
  pose proof placed_unguarded as Hag. split; [by apply placed_inv; [apply Hinv|..]|..]; rewrite ?boxes_of_placed, ?kqueue_of_placed.
  - intros b x y [[<- <-]|[Hne Hx]]%lookup_insert_Some Hy.
    + destruct reg.
      * rewrite lookup_insert_eq in Hy. injection Hy as <-. assert (multiplicity a g = 0%nat) as -> by multiset_solver.
        unfold knote_ok. by destruct k; cbn; split; try lia.
      * by rewrite placed_no_knote in Hy.
    + apply (kr_known _ _ Hinv b x y Hx). destruct reg; [|done]. rewrite lookup_insert_ne in Hy; [done|].
      intros Hc. by apply (placed_key b x Hx).
  - intros b x Hbg [[<- <-]|[Hne Hx]]%lookup_insert_Some; [done|]. destruct (kr_held _ _ Hinv b x Hbg Hx) as [y Hy]. exists y.
    destruct reg; [|done]. rewrite lookup_insert_ne; [done|]. intros Hc. by apply (placed_key b x Hx).
Qed.

Lemma placed_kq_abs :
  put (k, i) (if reg then Some (MkA h (is_notifier k) 0 false) else None) (kq_abs p g) ≡ kq_abs p' g.
Proof.
  pose proof placed_unguarded as Hag. pose proof placed_kqr_inv as Hinv'. intros n'. unfold put. destruct (decide (n' = (k, i))) as [->|Hne].
  - assert (Hs : slots (vector_of k) p' !! i = Some (Some a)) by (apply slots_placed; by left).
    assert (Hb : p'.(boxes) !! a = Some ev) by (rewrite boxes_of_placed; apply lookup_insert_eq).
    pose proof kqueue_of_placed as Hq. pose proof placed_no_knote as Hno. clearbody p'. destruct reg.
    + rewrite (kq_abs_at p' g (k, i) a ev kn).
      * unfold abs_event. assert (multiplicity a g = 0%nat) as -> by multiset_solver. cbn. by rewrite andb_false_r.
      * apply kn_at_intro; [done|done|done|done|]. rewrite Hq. apply lookup_insert_eq.
    + unfold kq_abs. rewrite (proj2 (kq_at_some (k, i) a p') Hs), Hb. cbn. by rewrite decide_True, Hq, Hno by done.
  - destruct (decide ((vector_of n'.1, n'.2) = (vector_of k, i))) as [[= Hv Hn]|Hsl].
    + assert (kq_at n' p = None) as Hno.
      { apply eq_None_not_Some. intros [b Hb%kq_at_some]. rewrite Hv, Hn in Hb. by apply (Hvac b). }
      assert (kq_at n' p' = Some a) as Ha by (apply kq_at_some, slots_placed; left; by rewrite Hv, Hn).
      unfold kq_abs. rewrite Hno, Ha, boxes_of_placed, lookup_insert_eq. cbn. rewrite decide_False; [done|].
      intros ->. apply Hne. destruct n'. cbn in *. congruence.
    + symmetry. apply kq_abs_local.
      * apply option_eq. intros b. rewrite !kq_at_some. unfold p'. rewrite slots_placed. naive_solver.
      * intros b Hb%kq_at_some. destruct (ki_slot _ _ (kr_inv _ _ Hinv) _ _ _ Hb) as (x & Hx & _).
        rewrite boxes_of_placed, kqueue_of_placed, lookup_insert_ne by congruence. split_and!; [done|done|].
        intros y Hy _. destruct reg; [|done]. rewrite lookup_insert_ne; [done|]. intros Hc. by apply (placed_key b y Hy).
Qed.

Lemma placed_complete : reg = true → complete p → complete p'.
Proof.
  intros Hreg Hc b x. rewrite boxes_of_placed, kqueue_of_placed, Hreg.
  intros [[<- <-]|[Hne Hx]]%lookup_insert_Some; [rewrite lookup_insert_eq; eauto|].
  rewrite lookup_insert_ne; [by apply (Hc b)|]. intros Hk. by apply (placed_key b x Hx).
Qed.

Lemma placed_frame j b : (FD, j) ≠ (k, i) → kq_at (FD, j) p = Some b → kq_at (FD, j) p' = Some b.
Proof.
  intros Hne Hb%kq_at_some. apply kq_at_some, slots_placed. right. split; [|done]. intros [= Hv Hj]. apply Hne.
  destruct k; cbn in *; congruence.
Qed.
End Placed.

Lemma refined_new c n h p g :
  kqr_inv p g → kq_rule (RNew c n h) p → vacant (vector_of n.1) n.2 p → refined (RNew c n h) p g.
Proof.
  intros Hinv Hr Hvac. pose proof Hr as (Hk & Hslot & _). destruct n as [k i]. cbn [fst snd] in *. subst k. pose proof Hslot as [Hi _].
  assert (Han : p.(boxes) !! fresh (dom p.(boxes)) = None) by (apply not_elem_of_dom, is_fresh).
  unfold refined. cbn [i_step q_new kqueue_registry a_step subject call_ok call_notifier kq_call_call].
  rewrite (kq_new_run c (kc_kind c, i) h p Hr), (register_vacant _ _ _ i _ h p g (kr_inv _ _ Hinv) Hslot Hvac).
  destruct (kc_ok c); cbn [finished fst snd]; eexists _, _, _; (split; [reflexivity|]).
  - split_and!; [by apply placed_kqr_inv|done|by apply (placed_kq_abs _ _ _ _ true)|by eapply placed_complete|].
    intros j b [Hne|(? & ? & ?)]; [by apply placed_frame|done].
  - assert (Hs : ∀ n' b, kq_at n' (extended (vector_of (kc_kind c)) i p) = Some b ↔ kq_at n' p = Some b).
    { intros n' b. rewrite !kq_at_some. unfold extended. rewrite slots_with_slots. destruct (decide _) as [->|]; [apply extend_lookup|done]. }
    assert (Hbox : boxes (extended (vector_of (kc_kind c)) i p) = p.(boxes)) by (unfold extended; by rewrite boxes_with_slots).
    assert (Hq : kqueue (extended (vector_of (kc_kind c)) i p) = p.(kqueue)) by (unfold extended; by rewrite kqueue_with_slots).
    split_and!; [|done| | |intros j b _; by apply Hs].
    + destruct Hinv as [H1 H2 H3]. split; [by apply extended_inv|..]; by rewrite Hbox, Hq.
    + intros n'. destruct (decide (n' = (kc_kind c, i))) as [->|Hne]; [rewrite put_eq|rewrite put_ne by done].
      * unfold kq_abs. destruct (kq_at _ _) as [b|] eqn:Hb; [|done]. apply Hs, kq_at_some in Hb. by apply (Hvac b) in Hb.
      * symmetry. apply kq_abs_local; [apply option_eq; intros b; apply Hs|]. intros b _. by rewrite Hbox, Hq.
    + intros Hc b x. rewrite Hbox, Hq. apply Hc.
Qed.

(** *** The other operations *)

Lemma no_knote p g n kn :
  kqr_inv p g → kq_abs p g n = None → Z.of_nat n.2 < 2 ^ 31 →
  p.(kqueue) !! (as_usize (trigger_of n), filter_of n.1) = Some kn → False.
Proof.
  intros Hinv He Hlt Hkn. destruct (ki_queue _ _ (kr_inv _ _ Hinv) _ _ Hkn) as (a & ev & _ & Ha & Hkey & _).
  destruct (ki_made _ _ _ _ (kr_inv _ _ Hinv) Ha) as (i & Hi & Hm).
  destruct (key_place a a n.2 i (event_at a n.1 n.2 0 ev.(e_handler)) ev) as [Hk Hni]; [split; [done|by eexists]|done|done|].
  cbn in Hk. destruct n as [k j]. cbn in *. subst k j.
  rewrite (kq_abs_at p g _ a ev kn) in He; [done|]. apply kn_at_intro; [done|done|done|done|by rewrite <- Hkey].
Qed.

Lemma refined_wait n eof p g : kqr_inv p g → Z.of_nat n.2 < 2 ^ 31 → refined (RWait n eof) p g.
Proof.
  intros Hinv Hlt. unfold refined. cbn [i_step q_wait kqueue_registry a_step subject]. set (flags := if eof then EV_EOF else 0).
  destruct (kq_abs p g n) as [e|] eqn:He.
  2:{ erewrite bind_ok by (apply wait_silent; intros kn Hkn; exfalso; by eapply no_knote). by eexists _, _, _. }
  destruct (kq_abs_some p g n e Hinv He) as (a & ev & kn & Hka & Hat & ->). pose proof Hka as [_ Hs Hb Hk Hm Hq Hu Hkey].
  rewrite <- (kn_ready p g n a ev kn Hka). destruct (reportable (filter_of n.1) kn) eqn:Hrep.
  2:{ erewrite bind_ok by (apply wait_silent; intros x Hx; rewrite <- Hkey in Hx; congruence). by eexists _, _, _. }
  rewrite Hkey in Hq. pose proof (wait_reports _ _ flags a kn ev p Hq Hrep Hu Hb) as Hw.
  destruct (kq_wait_inv (KReady (as_usize (trigger_of n)) (filter_of n.1) flags) p g (kr_inv _ _ Hinv)) as (r & p1 & Hw' & Hp).
  rewrite Hw in Hw'. injection Hw' as <- <-. erewrite bind_ok by exact Hw.
  assert (Hf : has_flag flags EV_EOF = eof) by (by destruct eof). rewrite Hf in *. rewrite <- Hkey in *.
  assert (Hg : ∀ b, b ≠ a → multiplicity b ({[+ a +]} ⊎ g) = multiplicity b g)
    by (intros b Hne; by rewrite multiplicity_disj_union, multiplicity_singleton_ne).
  assert (Ha : multiplicity a ({[+ a +]} ⊎ g) = S (multiplicity a g))
    by (by rewrite multiplicity_disj_union, multiplicity_singleton, decide_True).
  set (kn' := MkKnote _ _ _ _) in *. pose proof (kr_known _ _ Hinv _ _ _ Hb Hq) as Hok.
  assert (Hinv' : kqr_inv (with_kqueue (<[key_of ev := kn']> p.(kqueue)) p) ({[+ a +]} ⊎ g)).
  { apply (touched_kqr_inv p g n a ev kn Hka); [done|by destruct eof|]. rewrite Ha. unfold knote_ok in *. subst kn'. cbn.
    destruct (is_notifier (e_kind ev)) eqn:Hn; destruct Hok as [-> _]; [|by split]. split; [done|]. intros _. split; [done|].
    unfold reportable in Hrep. rewrite <- Hk in Hrep. by destruct (e_kind ev), (kn_enabled kn). }
  eexists _, _, ({[+ a +]} ⊎ g). split; [|split; [exact Hinv'|split; [reflexivity|split; [|split]]]].
  - destruct eof; cbv match; cbn [mret M_ret]; unfold q_handler, kqueue_registry, guard_handler, mbind, M_bind;
      erewrite kq_deref_run by exact Hb; reflexivity.
  - rewrite <- (touched_kq_abs p g n a ev kn Hka _ _ Hg Hinv'), Ha.
    assert (Hsame : is_notifier n.1 && (kn_enabled kn && kn_triggered kn) = is_notifier n.1 && (kn_enabled kn' && kn_triggered kn')).
    { unfold knote_ok in Hok. rewrite Hk in Hok. destruct (is_notifier n.1); [|done]. destruct Hok as [Hd _]. cbn. rewrite Hd.
      unfold reportable in Hrep. by destruct (kn_enabled kn). }
    unfold hold, abs_event. cbn [ae_handler ae_notifier ae_raised snd]. by rewrite Hsame.
  - by apply (touched_complete p ev).
  - done.
Qed.

Lemma refined_drop n e p g : kqr_inv p g → kq_abs p g n = Some e → (0 < e.(ae_held))%nat → refined (RDrop n) p g.
Proof.
  intros Hinv He Hheld. destruct (kq_abs_some p g n e Hinv He) as (a & ev & kn & Hka & Hat & ->). cbn in Hheld.
  pose proof Hka as [_ Hs Hb Hk Hm Hq Hu Hkey]. assert (Ha : a ∈ g) by (by apply elem_of_multiplicity).
  destruct (kq_drop_inv a p g (kr_inv _ _ Hinv) Ha) as (p' & Hdrop & Hp').
  unfold refined. cbn [i_step q_at q_drop kqueue_registry a_step subject]. rewrite Hat, Hdrop, He. cbn [finished fst snd].
  set (kn' := MkKnote kn.(kn_udata) kn.(kn_dispatch) true kn.(kn_triggered)).
  assert (Hrun : p' = with_kqueue (<[key_of ev := kn']> p.(kqueue)) p).
  { destruct (made_flags _ _ _ Hm). revert Hdrop. unfold guard_drop. erewrite bind_ok by (by apply kq_deref_run).
    rewrite touch_run by done. intros [= <-]. unfold touched. fold (key_of ev). rewrite Hq.
    destruct (made_enables _ _ _ (kn_enabled kn) Hm) as [-> ->]. by rewrite orb_false_r. }
  subst p'. pose proof (kr_known _ _ Hinv _ _ _ Hb Hq) as Hok.
  assert (Hinv' : kqr_inv (with_kqueue (<[key_of ev := kn']> p.(kqueue)) p) (g ∖ {[+ a +]})).
  { apply (touched_kqr_inv p g n a ev kn Hka); [intros b; apply others_hold|done|]. unfold knote_ok in *. cbn.
    destruct (is_notifier (e_kind ev)); [|by destruct Hok]. destruct Hok as [-> Hok]. split; [done|]. by destruct (Hok Hheld). }
  eexists _, _, _. split; [reflexivity|]. split; [exact Hinv'|]. split; [done|]. split; [|split; [by apply (touched_complete p ev)|done]].
  rewrite <- (touched_kq_abs p g n a ev kn Hka _ _ (λ b, others_hold a b g) Hinv'), fewer_hold.
  unfold knote_ok in Hok. rewrite Hk in Hok. unfold abs_event, hold. cbn.
  destruct (is_notifier n.1); [|done]. destruct Hok as [_ Hok]. by destruct (Hok Hheld) as [-> ->].
Qed.

Lemma refined_take op n a ev kn p g g' :
  kn_at p g n a ev kn → n = subject op → (∀ m, a_step op m = (Done, put n None m)) → (a ∉ g') →
  (∀ b, b ≠ a → multiplicity b g' = multiplicity b g) → kq_inv p g' →
  i_step op (p, g) = finished g' (take_event (vector_of n.1) n.2 p) → refined op p g.
Proof.
  intros Hka Hn Hop Ha Hg Hinv' Hstep. pose proof (kn_ev_at _ _ _ _ _ _ Hka) as Hea. pose proof Hka as [Hinv Hs Hb Hk Hm Hq Hu Hkey]. unfold refined. rewrite Hop, Hstep, <- Hn.
  rewrite (take_run _ _ a ev) by done. eexists _, _, _. split; [reflexivity|]. split_and!.
  - apply (taken_kqr_inv p g n a ev Hea); [done|]. by apply taken_inv.
  - done.
  - by apply (taken_kq_abs p g n a ev Hea).
  - by apply (taken_complete p g n a ev Hea).
  - intros i b [Hne|(n' & eof & ->)]; [by eapply taken_frame|]. by specialize (Hop (λ _, None)).
Qed.

Lemma refined_cancel n e p g :
  kqr_inv p g → kq_abs p g n = Some e → e.(ae_held) = 1%nat → n.1 ≠ Signal → refined (RCancel n) p g.
Proof.
  intros Hinv He Hheld Hsig. destruct (kq_abs_some p g n e Hinv He) as (a & ev & kn & Hka & Hat & ->). cbn in Hheld.
  pose proof Hka as [_ Hs Hb Hk Hm Hq Hu Hkey]. apply (refined_take _ n a ev kn p g (g ∖ {[+ a +]})); try done.
  - rewrite elem_of_multiplicity, fewer_hold. lia.
  - intros b. apply others_hold.
  - apply fewer_inv, Hinv.
  - cbn [i_step q_at q_cancel kqueue_registry]. rewrite Hat, (cancel_run a n.2 ev) by done. f_equal. rewrite Hk. apply clear_run; [done|by destruct Hm].
Qed.

Lemma refined_clear n e p g :
  kqr_inv p g → kq_abs p g n = Some e → e.(ae_held) = 0%nat → n.1 ≠ Signal → refined (RClear n) p g.
Proof.
  intros Hinv He Hheld Hsig. destruct (kq_abs_some p g n e Hinv He) as (a & ev & kn & Hka & Hat & ->). cbn in Hheld.
  pose proof Hka as [_ Hs Hb Hk Hm Hq Hu Hkey]. apply (refined_take _ n a ev kn p g g); try done.
  - rewrite elem_of_multiplicity. lia.
  - apply Hinv.
  - cbn [i_step q_clear kqueue_registry]. f_equal. apply clear_run; [done|by destruct Hm].
Qed.

Lemma refined_notice (up : bool) n e p g :
  kqr_inv p g → kq_abs p g n = Some e → e.(ae_notifier) = true → (up = false → e.(ae_held) = 0%nat) →
  refined (if up then RTrigger n else RStop n) p g.
Proof.
  intros Hinv He Hn Hheld. destruct (kq_abs_some p g n e Hinv He) as (a & ev & kn & Hka & Hat & ->). cbn in Hn, Hheld.
  pose proof Hka as [_ Hs Hb Hk Hm Hq Hu Hkey]. apply bool_decide_eq_true in Hn. destruct n as [k i]. cbn in Hn, Hk. subst k.
  set (kn' := MkKnote kn.(kn_udata) kn.(kn_dispatch) up (kn.(kn_triggered) || up)).
  assert (Hev : ∃ d, ev = event_at a Notifier i d ev.(e_handler)) by (destruct Hm as [_ [d Hd]]; exists d; by rewrite Hk in Hd).
  destruct Hev as [d Hev].
  assert (Hstep : i_step (if up then RTrigger (Notifier, i) else RStop (Notifier, i)) (p, g) =
    Ret (Done, (with_kqueue (<[key_of ev := kn']> p.(kqueue)) p, g))).
  { pose proof (kq_notifier_run _ i a ev p eq_refl (proj1 Hm) Hs Hb Hk) as Hnr.
    destruct up; cbn [i_step q_trigger q_stop kqueue_registry]; unfold trigger_notification, stop_notification;
      (erewrite bind_ok by exact Hnr); (rewrite touch_run; [|by rewrite Hev..]); unfold touched; fold (key_of ev);
      cbn [k_ident k_filter with_fflags with_flags]; fold (key_of ev); rewrite Hq; cbn [finished]; by rewrite Hev. }
  pose proof (kr_known _ _ Hinv _ _ _ Hb Hq) as Hok. unfold knote_ok in Hok. rewrite Hk in Hok. cbn in Hok. destruct Hok as [Hd Hok].
  assert (Hinv' : kqr_inv (with_kqueue (<[key_of ev := kn']> p.(kqueue)) p) g).
  { apply (touched_kqr_inv p g (Notifier, i) a ev kn Hka); [done|apply (knote_inv _ kn); try done; [apply Hinv|]|].
    - intros b x Hbg Hx Hnot Hkx. assert (b = a) as -> by (by eapply (key_inj p g); [apply Hinv|..]). congruence.
    - unfold knote_ok. rewrite Hk. cbn. split; [done|]. intros Hpos. destruct up; [|specialize (Hheld eq_refl); lia].
      split; [done|]. apply orb_true_r. }
  unfold refined. rewrite Hstep. eexists _, _, _. split; [reflexivity|]. split; [exact Hinv'|]. split; [by destruct up|].
  split; [|split; [by apply (touched_complete p ev)|by destruct up]].
  rewrite <- (touched_kq_abs p g (Notifier, i) a ev kn Hka _ g (λ _ _, eq_refl) Hinv').
  destruct up; cbn [a_step snd]; rewrite He; unfold abs_event, raise; cbn; by rewrite ?orb_true_r.
Qed.

(** ** The contract *)

(** What is in the slot of a new event, if anything. *)
Lemma slot_event c n h p g a :
  kqr_inv p g → kq_rule (RNew c n h) p → slots (vector_of n.1) p !! n.2 = Some (Some a) →
  ∃ ev, ev_at p g n a ev ∧ (n.1 = FD ∨ n.1 = Signal).
Proof.
  intros Hinv (Hk & Hslot & _) Hs. destruct (ki_slot _ _ (kr_inv _ _ Hinv) _ _ _ Hs) as (ev & Hb & Hv & Hm).
  rewrite <- Hk in Hslot. destruct (occupied_kind _ _ _ _ _ _ _ (kr_inv _ _ Hinv) Hslot Hs Hb) as (HF & He & _). exists ev. by split.
Qed.

Lemma vacant_of_abs c n h p g :
  kqr_inv p g → complete p → kq_rule (RNew c n h) p → kq_abs p g n = None → vacant (vector_of n.1) n.2 p.
Proof.
  intros Hinv Hc Hr He a Hs. destruct (slot_event c n h p g a Hinv Hr Hs) as (ev & [_ _ Hb Hk _] & _).
  destruct (Hc a ev Hb) as [kn Hkn]. rewrite (kq_abs_at p g n a ev kn) in He; [done|]. by apply kn_at_intro.
Qed.

(** Every operation but registering over an event. *)
Lemma kq_step reuse op p g :
  kqr_inv p g → permitted reuse op (kq_abs p g) → kq_rule op p →
  (∀ c n h, op = RNew c n h → vacant (vector_of n.1) n.2 p) → refined op p g.
Proof.
  intros Hinv Hp Hr Hvac. destruct op as [c n h|n eof|n|n|n|n|n].
  - apply refined_new; [done|done|by eapply Hvac].
  - by apply refined_wait.
  - destruct Hp as (e & He & Hh). by eapply refined_drop.
  - destruct Hp as (e & He & Hh). by eapply refined_cancel.
  - destruct Hp as (e & He & Hh). by eapply refined_clear.
  - destruct Hp as (e & He & Hn). by eapply (refined_notice true).
  - destruct Hp as (e & He & Hn & Hh). by eapply (refined_notice false).
Qed.

Lemma kq_step_refines op p g :
  kqr_inv p g ∧ complete p → permitted false op (kq_abs p g) → kq_rule op p →
  ∃ o p' g', i_step op (p, g) = Ret (o, (p', g')) ∧ (kqr_inv p' g' ∧ complete p') ∧
    (a_step op (kq_abs p g)).1 = o ∧ (a_step op (kq_abs p g)).2 ≡ kq_abs p' g'.
Proof.
  intros [Hinv Hc] Hp Hr. destruct (kq_step false op p g Hinv Hp Hr) as (o & p' & g' & Hs & Hinv' & Ho & Ha & Hc' & _).
  - intros c n h ->. cbn in Hp. destruct (kq_abs p g n) eqn:He; [by destruct Hp|]. by eapply vacant_of_abs.
  - exists o, p', g'. split; [done|]. split; [|done]. split; [done|]. by apply Hc'.
Qed.

#[global] Instance kqueue_registry_laws : RegistryLaws kname kq_call Handler (EventPoll Handler) := {|
  q_inv p g := kqr_inv p g ∧ complete p;
  q_abs := kq_abs;
  q_rule := kq_rule;
  q_reuse := false;
  q_refines := kq_step_refines;
|}.

Lemma kq_start_inv : kqr_inv (MkPoll [] [] [] ∅ ∅ ∅ : EventPoll Handler) ∅ ∧ complete (MkPoll [] [] [] ∅ ∅ ∅ : EventPoll Handler).
Proof.
  split; [|done]. split; [|done|intros a ev Ha; multiset_solver].
  split; cbn; [by intros []|done|done|multiset_solver|multiset_solver].
Qed.

(** Cancelling a signal looks for a descriptor with the number of the signal:
    it panics where the vector of descriptors is shorter, and takes out the
    event of that descriptor otherwise, while the signal stays. *)
Lemma cancelled_signal i a ev (p : EventPoll Handler) :
  p.(boxes) !! a = Some ev → ev.(e_kind) = Signal → made a i ev →
  cancel a p = take_event VEvents i p ∧ ((length p.(events) ≤ i)%nat → cancel a p = Panic).
Proof.
  intros Hb Hk Hm. assert (Hrun : cancel a p = take_event VEvents i p).
  { rewrite (cancel_run a i ev p Hb Hm), Hk. cbn [vector_of name_at]. unfold clear_event_by_fd.
    by rewrite (proj2 (Z.leb_le _ _)), Nat2Z.id by lia. }
  split; [done|]. intros Hlen. rewrite Hrun. unfold take_event. erewrite bind_ok by reflexivity. cbn [slots].
  by rewrite (proj2 (lookup_ge_None _ _) Hlen).
Qed.

(** C31.  The registry over kqueue does what its contract says, with two
    exceptions: no descriptor or signal is registered again while its event is
    there, and no event of a signal is cancelled or cleared (periods fit 64 bits
    of nanoseconds, and slots are numbered in 31 bits).  A run without them never
    panics nor follows a pointer to an event that is gone, and its clients see
    what they would see of the abstract registry.  At its end, cancelling a signal
    looks among the descriptors: it panics where the vector of descriptors is
    shorter, and otherwise takes out the event of the descriptor with the number
    of the signal. *)
Theorem kqueue_refines (ops : list (rop kname kq_call Handler)) fd p0 :
  EventPoll_new (Some fd) = Ok p0 → by_the_rules ops (λ _, None) (p0, ∅) →
  ∃ p g, i_run ops (p0, ∅) = Ret ((a_run ops (λ _, None)).1, (p, g)) ∧ kq_inv p g ∧
    (a_run ops (λ _, None)).2 ≡ kq_abs p g ∧
    ∀ i a, p.(signals) !! i = Some (Some a) →
      cancel a p = take_event VEvents i p ∧ ((length p.(events) ≤ i)%nat → cancel a p = Panic).
Proof.
  intros [= <-] Hops. destruct (runs_refine ops (λ _, None) (MkPoll [] [] [] ∅ ∅ ∅) ∅) as (p & g & Hrun & Hinv & Habs);
    [exact kq_start_inv|by intros [[] i]|done|].
  exists p, g. split; [done|]. split; [apply Hinv|]. split; [done|]. intros i a Hs.
  destruct (ki_slot _ _ (kr_inv _ _ (proj1 Hinv)) VSignals i a Hs) as (ev & Hb & Hk & Hm).
  apply (cancelled_signal i a ev p Hb); [|done]. by destruct (e_kind ev).
Qed.

(** ** Descriptors that are registered again *)

(** There is an event under the descriptor that the queue does not know. *)
Definition lost (i : nat) (p : EventPoll Handler) (g : gmultiset nat) : Prop :=
  is_Some (kq_at (FD, i) p) ∧ kq_abs p g (FD, i) = None.

(** Closing a descriptor deletes what the queue knows of it; the event stays. *)
Definition closed (i : nat) (p : EventPoll Handler) : EventPoll Handler :=
  with_kqueue (delete (as_usize (trigger_of (FD, i)), EVFILT_READ) p.(kqueue)) p.

Lemma closed_inv i p g : kqr_inv p g → (∀ a, kq_at (FD, i) p = Some a → a ∉ g) → Z.of_nat i < 2 ^ 31 → kqr_inv (closed i p) g.
Proof.
  intros [Hkq Hk Hh] Hfree Hi. split; [split|..]; cbn.
  - intros v j a Hj. apply (ki_slot _ _ Hkq). by destruct v.
  - intros a ev Ha. destruct (ki_box _ _ Hkq _ _ Ha) as [j Hj]. exists j. by destruct (vector_of (e_kind ev)).
  - intros key kn [_ Hq]%lookup_delete_Some. by apply (ki_queue _ _ Hkq).
  - apply Hkq.
  - intros a ev Ha Hb Hn. destruct (ki_once _ _ Hkq a ev Ha Hb Hn) as [H1 H2]. split; [done|].
    intros kn [_ Hq]%lookup_delete_Some. by apply H2.
  - intros a ev kn Hb [_ Hq]%lookup_delete_Some. by apply Hk.
  - intros a ev Ha Hb. destruct (Hh a ev Ha Hb) as [kn Hq]. exists kn. apply lookup_delete_Some. split; [|done].
    intros Hkey. destruct (ki_made _ _ _ _ Hkq Hb) as (j & Hj & Hm).
    destruct (key_place a a i j (event_at a FD i 0 ev.(e_handler)) ev) as [Hkind <-]; [split; [done|by eexists]|done|done|].
    cbn in Hkind. apply (Hfree a); [|done]. apply kq_at_some. cbn. by rewrite <- Hkind in Hj.
Qed.

(** Registering over an event loses the new one. *)
Lemma registered_over c n h p g a :
  kqr_inv p g → kq_rule (RNew c n h) p → slots (vector_of n.1) p !! n.2 = Some (Some a) → a ∉ g →
  ∃ o p', i_step (RNew c n h) (p, g) = Ret (o, (p', g)) ∧ kqr_inv p' g ∧ (kc_ok c = true → o = Done) ∧
    is_Some (kq_at n p') ∧ (kc_ok c = true ∨ kq_abs p g n = None → kq_abs p' g n = None) ∧
    (∀ n', n' ≠ n → kq_abs p' g n' = kq_abs p g n') ∧
    ∀ i b, (FD, i) ≠ n → kq_at (FD, i) p = Some b → kq_at (FD, i) p' = Some b.
Proof.
  intros Hinv Hr Hs Ha. destruct (slot_event c n h p g a Hinv Hr Hs) as (ev & Hea & _). pose proof Hea as [_ _ Hb Hk Hm].
  pose proof Hr as (Hkc & Hslot & _). rewrite <- Hkc in Hslot. cbn [i_step q_new kqueue_registry]. rewrite (kq_new_run c n h p Hr), <- Hkc.
  rewrite (register_occupied _ _ _ n.2 _ h p g a ev (kr_inv _ _ Hinv) Hslot Hs Hb).
  destruct (kc_ok c || bool_decide (is_Some (kqueue p !! key_of ev))) eqn:Hok.
  - set (q := taken (vector_of n.1) n.2 a (key_of ev) p). assert (Hq : kqr_inv q g).
    { apply (taken_kqr_inv p g n a ev Hea g); [done|]. apply taken_inv; [apply Hinv|done..]. }
    set (a' := fresh (dom p.(boxes))). assert (Hfresh : q.(boxes) !! a' = None).
    { unfold q, taken. rewrite boxes_with_slots. apply lookup_delete_None. right. apply not_elem_of_dom, is_fresh. }
    assert (Hvac : vacant (vector_of n.1) n.2 q) by (by intros x [_ []]%slots_taken).
    set (ig := ignoring n.1 n.2 p). set (d := call_data c). destruct Hslot as [Hi _].
    pose proof (placed_kqr_inv n.1 n.2 d h false ig a' q g Hq Hfresh Hi Hvac) as Hinv'.
    pose proof (placed_kq_abs n.1 n.2 d h false ig a' q g Hq Hfresh Hi Hvac) as Habs.
    pose proof (taken_kq_abs p g n a ev Hea g (λ _ _, eq_refl)) as Habs'. rewrite <- surjective_pairing in Habs. fold q in Habs'.
    eexists _, _. split; [reflexivity|]. split_and!; [exact Hinv'|done|..].
    + eexists. apply kq_at_some, slots_placed. by left.
    + intros _. by rewrite <- (Habs n), put_eq.
    + intros n' Hne. rewrite <- (Habs n'), put_ne, <- (Habs' n'), put_ne by done. done.
    + intros i b Hne Hb'. apply placed_frame; [done|by destruct n|]. by eapply (taken_frame p g n a ev Hea).

  - apply orb_false_iff in Hok as [Hok Hno]. eexists _, _. split; [reflexivity|]. rewrite Hok.
    split_and!; [done|done|exists a; by apply kq_at_some| |done|done]. by intros [].
Qed.

(** Guards are only on events that the queue knows. *)
Lemma over_unguarded c n h p g a :
  kqr_inv p g → permitted true (RNew c n h) (kq_abs p g) → kq_rule (RNew c n h) p →
  slots (vector_of n.1) p !! n.2 = Some (Some a) → a ∉ g.
Proof.
  intros Hinv Hp Hr Hs Ha. destruct (slot_event c n h p g a Hinv Hr Hs) as (ev & [_ _ Hb Hk _] & _).
  destruct (kr_held _ _ Hinv a ev Ha Hb) as [kn Hq]. cbn in Hp. rewrite (kq_abs_at p g n a ev kn) in Hp by (by apply kn_at_intro).
  destruct Hp as [_ Hp]. cbn in Hp. rewrite elem_of_multiplicity in Ha. lia.
Qed.

Lemma a_step_other n op (m : areg kname Handler) : n ≠ subject op → (a_step op m).2 n = m n.
Proof.
  intros Hne. destruct op as [c k h|k eof|k|k|k|k|k]; cbn in *; try by apply put_ne.
  - destruct (kc_ok c); by apply put_ne.
  - destruct (m k) as [e|]; [|done]. destruct (ready_to e); [by apply put_ne|done].
Qed.

(** A lost event stays lost, and is not handed out. *)
Lemma lost_step i op p g :
  kqr_inv p g → lost i p g → permitted true op (kq_abs p g) → kq_rule op p →
  ∃ o p' g', i_step op (p, g) = Ret (o, (p', g')) ∧ kqr_inv p' g' ∧ lost i p' g' ∧ ∀ eof, op = RWait (FD, i) eof → o = Silent.
Proof.
  intros Hinv [[a Hat] Hno] Hp Hr.
  assert (Hcase : (∃ c n h b, op = RNew c n h ∧ slots (vector_of n.1) p !! n.2 = Some (Some b)) ∨
    ∀ c n h, op = RNew c n h → vacant (vector_of n.1) n.2 p).
  { destruct op as [c n h| | | | | |]; try (by right). destruct (slots (vector_of n.1) p !! n.2) as [[b|]|] eqn:Hs; [left; eauto 10|right..];
      intros ? ? ? [= <- <- <-] x; congruence. }
  destruct Hcase as [(c & n & h & b & -> & Hs)|Hvac].
  - pose proof (over_unguarded c n h p g b Hinv Hp Hr Hs) as Hb.
    destruct (registered_over c n h p g b Hinv Hr Hs Hb) as (o & p' & Hstep & Hinv' & _ & Hat' & Habs & Hother & Hframe).
    exists o, p', g. split_and!; [done|done| |done]. destruct (decide ((FD, i) = n)) as [<-|Hne].
    + split; [done|]. apply Habs. by right.
    + split; [exists a; by apply Hframe|]. by rewrite Hother.
  - destruct (kq_step true op p g Hinv Hp Hr Hvac) as (o & p' & g' & Hstep & Hinv' & Ho & Habs & _ & Hframe).
    exists o, p', g'. split; [done|]. split; [done|]. destruct (decide ((FD, i) = subject op)) as [Heq|Hne].
    + destruct op as [c n h|n eof|n|n|n|n|n]; cbn in Heq, Hp; subst n; try (destruct Hp as (? & ? & _); congruence).
      * apply kq_at_some in Hat. by apply (Hvac c (FD, i) h eq_refl) in Hat.
      * cbn in Ho, Habs. rewrite Hno in Ho, Habs. cbn in Ho, Habs. split; [|done].
        split; [exists a; by apply Hframe; [right; eauto|]|]. by rewrite <- (Habs (FD, i)).
    + split; [split; [exists a; by apply Hframe; [left|]|]|by intros eof ->].
      by rewrite <- (Habs (FD, i)), a_step_other.
Qed.

(** The rules, where descriptors may be registered again. *)
Fixpoint loose_rules (ops : list (rop kname kq_call Handler)) (s : EventPoll Handler * gmultiset nat) : Prop :=
  match ops with
  | [] => True
  | op :: ops => permitted true op (kq_abs s.1 s.2) ∧ kq_rule op s.1 ∧ ∀ o s', i_step op s = Ret (o, s') → loose_rules ops s'
  end.

Lemma lost_run i ops p g :
  kqr_inv p g → lost i p g → loose_rules ops (p, g) →
  ∃ os s, i_run ops (p, g) = Ret (os, s) ∧ ∀ j eof, ops !! j = Some (RWait (FD, i) eof) → os !! j = Some Silent.
Proof.
  revert p g. induction ops as [|op ops IH]; intros p g Hinv Hlost; [by eexists _, _|]. intros (Hp & Hr & Hops). cbn [fst snd] in *.
  destruct (lost_step i op p g Hinv Hlost Hp Hr) as (o & p1 & g1 & Hs & Hinv1 & Hlost1 & Hsil).
  destruct (IH p1 g1 Hinv1 Hlost1 (Hops _ _ Hs)) as (os & s & Hrun & Hos). cbn [i_run]. rewrite Hs, Hrun.
  eexists _, _. split; [reflexivity|]. intros [|j] eof; cbn; [|apply Hos]. intros [= ->]. by rewrite (Hsil eof).
Qed.

(** C32.  On kqueue, registering a descriptor again loses it: the entry that
    [EV_ADD] has just changed is then deleted with the event it replaces.  The
    registration succeeds, but whatever happens by the rules, further
    registrations of the descriptor included, no wait ever gives its handler
    to anybody.  It does not matter whether the old event still worked: a
    descriptor that was closed leaves its event behind, so a new descriptor
    with the same number is lost too. *)
Theorem registered_again_is_lost ops i h p g a :
  kqr_inv p g → Z.of_nat i < 2 ^ 31 → p.(events) !! i = Some (Some a) → a ∉ g →
  ∃ p', new_event true (Z.of_nat i) h p = Ret (Ok (Z.of_nat i), p') ∧
    (loose_rules ops (p', g) → ∃ os s, i_run ops (p', g) = Ret (os, s) ∧
      ∀ j eof, ops !! j = Some (RWait (FD, i) eof) → os !! j = Some Silent).
Proof.
  intros Hinv Hi Hs Ha. set (c := MkCall FD true (Z.of_nat i) 0 0).
  assert (Hr : kq_rule (RNew c (FD, i) h) p) by (split; [done|split; [by split|done]]).
  destruct (registered_over c (FD, i) h p g a Hinv Hr Hs Ha) as (o & p' & Hstep & Hinv' & Ho & Hat & Habs & _).
  exists p'. split; [|intros Hrules; apply lost_run; [done|split; [done|by apply Habs; left]|done]].
  destruct (ki_slot _ _ (kr_inv _ _ Hinv) VEvents _ _ Hs) as (ev & Hb & _).
  pose proof (register_occupied true FD (as_usize (Z.of_nat i)) i 0 h p g a ev (kr_inv _ _ Hinv) (conj Hi eq_refl) Hs Hb) as Hrun.
  cbn [orb] in Hrun. cbn [i_step q_new kqueue_registry] in Hstep. unfold kq_new in Hstep. cbn [kc_kind c kc_ok kc_number] in Hstep.
  change (new_event true (Z.of_nat i) h p) with (register_event true (raw FD (as_usize (Z.of_nat i)) 0 h) p) in *.
  rewrite Hrun in *. unfold finished in Hstep. assert (Hsame : ∀ x y : EventPoll Handler, Ret (Done, (x, g)) = Ret (o, (y, g)) → x = y) by congruence.
  by apply Hsame in Hstep as <-.
Qed.

End KqueueRegistry.

(** ** Witnesses *)

Definition kq_session : list (rop kname kq_call nat) :=
  [RNew (MkCall Signal true 9 0 0) (Signal, 9%nat) 5%nat; RNew (MkCall Notifier true 0 0 0) (Notifier, 0%nat) 1%nat; RNew (MkCall Timer true 0 1 0) (Timer, 1%nat) 2%nat;
   RNew (MkCall FD true 7 0 0) (FD, 7%nat) 3%nat; RTrigger (Notifier, 0%nat); RWait (Notifier, 0%nat) false;
   RWait (Notifier, 0%nat) false; RWait (FD, 7%nat) false; RWait (FD, 7%nat) false; RDrop (Notifier, 0%nat);
   RDrop (Notifier, 0%nat); RStop (Notifier, 0%nat); RWait (Notifier, 0%nat) false; RWait (Timer, 1%nat) false;
   RCancel (FD, 7%nat); RNew (MkCall FD true 7 0 0) (FD, 7%nat) 4%nat; RWait (FD, 7%nat) true].

Lemma kq_session_rules : by_the_rules kq_session (λ _, None) (MkPoll [] [] [] ∅ ∅ ∅, ∅).
Proof. unfold kq_session. step_rules ltac:(first [exact I|by vm_compute|vm_compute; repeat split; done]). Qed.

Lemma kqueue_refines_witness :
  ∃ p g, i_run kq_session (MkPoll [] [] [] ∅ ∅ ∅, ∅) =
    Ret ([Done; Done; Done; Done; Done; Handed 1%nat false; Handed 1%nat false; Handed 3%nat false; Silent; Done; Done; Done; Silent;
          Handed 2%nat false; Done; Done; Handed 4%nat true], (p, g)) ∧ kq_inv p g ∧
    ∃ a, p.(signals) !! 9%nat = Some (Some a) ∧ cancel a p = Panic.
Proof.
  destruct (kqueue_refines kq_session 3 (MkPoll [] [] [] ∅ ∅ ∅) eq_refl kq_session_rules) as (p & g & Hr & Hinv & _ & Hc).
  exists p, g. split; [exact Hr|]. split; [exact Hinv|]. vm_compute in Hr. injection Hr as <- _. eexists. split; [reflexivity|].
  apply (Hc 9%nat); [reflexivity|]. vm_compute. lia.
Defined.

(** A socket is registered under descriptor 7 and closed; the next socket gets
    the same number. *)
Definition reused : option (EventPoll nat) :=
  match new_event true 7 1%nat (MkPoll [] [] [] ∅ ∅ ∅) with Ret (Ok _, p) => Some (closed 7 p) | _ => None end.

Lemma reused_ok : ∃ p a, reused = Some p ∧ kqr_inv p ∅ ∧ p.(events) !! 7%nat = Some (Some a).
Proof.
  set (c := MkCall FD true 7 0 0). set (p0 := MkPoll [] [] [] ∅ ∅ ∅ : EventPoll nat).
  assert (Hr : kq_rule (RNew c (FD, 7%nat) 1%nat) p0) by (split; [done|split; [by split|done]]).
  destruct (refined_new c (FD, 7%nat) 1%nat p0 ∅ (proj1 kq_start_inv) Hr ltac:(by intros o)) as (o & p & g & Hs & Hinv & _).
  assert (Hp : new_event true 7 1%nat p0 = Ret (Ok 7, p) ∧ g = ∅ ∧ p.(events) !! 7%nat = Some (Some 0%nat)).
  { cbn [i_step q_new kqueue_registry kq_new kc_kind kc_ok kc_number c] in Hs. destruct (new_event true 7 1%nat p0) as [[r q]|] eqn:Hn; [|done].
    vm_compute in Hn. injection Hn as <- <-. injection Hs as _ <- <-. done. }
  destruct Hp as (Hn & -> & Hs7). exists (closed 7 p), 0%nat. unfold reused. fold p0. rewrite Hn. split; [done|]. split; [|done].
  apply closed_inv; [done|multiset_solver|lia].
Qed.

Lemma registered_again_is_lost_witness :
  ∃ p p', reused = Some p ∧ new_event true 7 2%nat p = Ret (Ok 7, p') ∧
    ∃ os s, i_run [RWait (FD, 7%nat) false; RNew (MkCall FD true 7 0 0) (FD, 7%nat) 3%nat; RWait (FD, 7%nat) false] (p', ∅) = Ret (os, s) ∧
      os !! 2%nat = Some Silent.
Proof.
  destruct reused_ok as (p & a & Hp & Hinv & Hs).
  destruct (registered_again_is_lost [RWait (FD, 7%nat) false; RNew (MkCall FD true 7 0 0) (FD, 7%nat) 3%nat; RWait (FD, 7%nat) false]
    7 2%nat p ∅ a Hinv ltac:(lia) Hs ltac:(multiset_solver)) as (p' & Hn & Hrun).
  exists p, p'. split; [exact Hp|]. split; [exact Hn|]. destruct Hrun as (os & s & Hr & Hos).
  - unfold reused in Hp. vm_compute in Hp. injection Hp as <-. vm_compute in Hn. injection Hn as <-.
    repeat match goal with
    | |- loose_rules [] _ => exact I
    | |- loose_rules (_ :: _) _ =>
      split; [vm_compute; exact I|split; [first [by vm_compute|vm_compute; repeat split; done]|intros o s' Hs'; vm_compute in Hs'; injection Hs' as <- <-]]
    end.
  - exists os, s. split; [exact Hr|]. exact (Hos 2%nat false eq_refl).
Defined.
