(* ===== verification/Api.v ===== *)
(** * The configuration protocol ([api_set], [api_set_peer] of device/api.rs)

    The protocol is lines of the form [key=value].  What [read_line] answers
    is a list: a line of text with its newline, or [None] for an error; the
    end of the list is the end of the stream. *)

From Stdlib Require Import Strings.String.
From S2P Require Import Prelude Errors Time Crypto Packet Session Tai64N Handshake RateLimiter Tunn.
From S2P Require Import Lfsr Text Serialization AllowedIps Peer Device.
From coqutil Require Import Byte.

(** Error numbers of Linux. *)
Definition EIO : Z := 5.
Definition EINVAL : Z := 22.
Definition EPROTO : Z := 71.
Definition EADDRINUSE : Z := 98.

(** [cmd.pop()]: the last character goes, with all its bytes. *)
Fixpoint drop_last_char (r : bytes) : bytes :=
  match r with
  | [] => []
  | b :: r => if (128 <=? code b) && (code b <? 192) then drop_last_char r else r
  end.
Definition str_pop (s : bytes) : bytes := rev (drop_last_char (rev s)).

Definition equals : byte := byte.of_Z 61.

Section Api.
Context `{Crypto, NetTable, HashOrder, Base64}.

Abbreviation DM := (M Error dstate).

(** [val.parse::<KeyBytes>()] *)
Definition parse_key (val : bytes) : DM (option bytes) :=
  r ← attempt (key_from_str val);
  mret (match r with Ok k => Some k | Err _ => None end).

(** The local variables of [api_set_peer]. *)
Record section := MkSection {
  s_remove : bool;
  s_replace_ips : bool;
  s_endpoint : option SocketAddr;
  s_keepalive : option Z;
  s_public_key : bytes;
  s_preshared_key : option bytes;
  s_allowed_ips : list AllowedIP;
}.

Definition with_s_remove (b : bool) (c : section) : section :=
  MkSection b c.(s_replace_ips) c.(s_endpoint) c.(s_keepalive) c.(s_public_key) c.(s_preshared_key) c.(s_allowed_ips).
Definition with_s_replace_ips (b : bool) (c : section) : section :=
  MkSection c.(s_remove) b c.(s_endpoint) c.(s_keepalive) c.(s_public_key) c.(s_preshared_key) c.(s_allowed_ips).
Definition with_s_endpoint (e : option SocketAddr) (c : section) : section :=
  MkSection c.(s_remove) c.(s_replace_ips) e c.(s_keepalive) c.(s_public_key) c.(s_preshared_key) c.(s_allowed_ips).
Definition with_s_keepalive (k : option Z) (c : section) : section :=
  MkSection c.(s_remove) c.(s_replace_ips) c.(s_endpoint) k c.(s_public_key) c.(s_preshared_key) c.(s_allowed_ips).
Definition with_s_public_key (k : bytes) (c : section) : section :=
  MkSection c.(s_remove) c.(s_replace_ips) c.(s_endpoint) c.(s_keepalive) k c.(s_preshared_key) c.(s_allowed_ips).
Definition with_s_preshared_key (k : option bytes) (c : section) : section :=
  MkSection c.(s_remove) c.(s_replace_ips) c.(s_endpoint) c.(s_keepalive) c.(s_public_key) k c.(s_allowed_ips).
Definition with_s_allowed_ips (l : list AllowedIP) (c : section) : section :=
  MkSection c.(s_remove) c.(s_replace_ips) c.(s_endpoint) c.(s_keepalive) c.(s_public_key) c.(s_preshared_key) l.

Definition new_section (pub_key : bytes) : section := {|
  s_remove := false;
  s_replace_ips := false;
  s_endpoint := None;
  s_keepalive := None;
  s_public_key := pub_key;
  s_preshared_key := None;
  s_allowed_ips := [];
|}.

(** [d.update_peer(..)] with the local variables. *)
Definition commit (c : section) : DM () :=
  update_peer c.(s_public_key) c.(s_remove) c.(s_replace_ips) c.(s_endpoint) c.(s_allowed_ips)
    c.(s_keepalive) c.(s_preshared_key).

(** One line of a peer section: the status to return, or the variables after it. *)
Definition peer_line (key val : bytes) (c : section) : DM (Z + section) :=
  if decide (key = str "remove") then
    mret (match parse_bool val with Some b => inr (with_s_remove b c) | None => inl EINVAL end)
  else if decide (key = str "preshared_key") then
    k ← parse_key val;
    mret (match k with Some k => inr (with_s_preshared_key (Some k) c) | None => inl EINVAL end)
  else if decide (key = str "endpoint") then
    mret (match parse_socket_addr val with Some a => inr (with_s_endpoint (Some a) c) | None => inl EINVAL end)
  else if decide (key = str "persistent_keepalive_interval") then
    mret (match parse_uint 16 val with Some i => inr (with_s_keepalive (Some i) c) | None => inl EINVAL end)
  else if decide (key = str "replace_allowed_ips") then
    mret (match parse_bool val with Some b => inr (with_s_replace_ips b c) | None => inl EINVAL end)
  else if decide (key = str "allowed_ip") then
    mret (match parse_allowed_ip val with
          | Some ip => inr (with_s_allowed_ips (c.(s_allowed_ips) ++ [ip]) c)
          | None => inl EINVAL
          end)
  else if decide (key = str "public_key") then
    _ ← commit c;
    let c := with_s_allowed_ips [] c in
    k ← parse_key val;
    mret (match k with Some k => inr (with_s_public_key k c) | None => inl EINVAL end)
  else if decide (key = str "protocol_version") then
    mret (match parse_uint 32 val with Some 1 => inr c | _ => inl EINVAL end)
  else mret (inl EINVAL).

(** The end of the stream reads as an empty line. *)
Fixpoint api_set_peer (lines : list (option bytes)) (c : section) : DM Z :=
  match lines with
  | [] => _ ← commit c; mret 0
  | None :: _ => mret 0
  | Some cmd :: rest =>
    let cmd := str_pop cmd in
    if decide (cmd = []) then _ ← commit c; mret 0
    else
      match splitn_2 equals cmd with
      | [key; val] =>
        r ← peer_line key val c;
        match r with
        | inl status => mret status
        | inr c => api_set_peer rest c
        end
      | _ => mret EPROTO
      end
  end.

(** One line before the peer sections: go on, return a status, or enter a
    peer section. *)
Inductive device_step : Type :=
| Next
| Return (status : Z)
| PeerSection (public_key : bytes).

Definition device_line (key val : bytes) : DM device_step :=
  if decide (key = str "private_key") then
    k ← parse_key val;
    match k with
    | Some k => _ ← set_key k; mret Next
    | None => mret (Return EINVAL)
    end
  else if decide (key = str "listen_port") then
    match parse_uint 16 val with
    | Some port =>
      r ← try_ (open_listen_socket port);
      mret (match r with Ok _ => Next | Err _ => Return EADDRINUSE end)
    | None => mret (Return EINVAL)
    end
  else if decide (key = str "fwmark") then
    match parse_uint 32 val with
    | Some mark =>
      r ← try_ (set_fwmark mark);
      mret (match r with Ok _ => Next | Err _ => Return EADDRINUSE end)
    | None => mret (Return EINVAL)
    end
  else if decide (key = str "replace_peers") then
    match parse_bool val with
    | Some true => _ ← clear_peers; mret Next
    | Some false => mret Next
    | None => mret (Return EINVAL)
    end
  else if decide (key = str "public_key") then
    k ← parse_key val;
    mret (match k with Some k => PeerSection k | None => Return EINVAL end)
  else mret (Return EINVAL).

(** What [api_set] runs with the write lock held; [try_writeable] always
    returns what its function does. *)
Fixpoint api_set (lines : list (option bytes)) : DM Z :=
  match lines with
  | [] => mret 0
  | None :: _ => mret 0
  | Some cmd :: rest =>
    let cmd := str_pop cmd in
    if decide (cmd = []) then mret 0
    else
      match split_on equals cmd with
      | [key; val] =>
        r ← device_line key val;
        match r with
        | Next => api_set rest
        | Return status => mret status
        | PeerSection k => api_set_peer rest (new_section k)
        end
      | _ => mret EPROTO
      end
  end.
End Api.

(** ** Properties *)

Definition newline : byte := byte.of_Z 10.

Lemma str_pop_newline s : str_pop (s ++ [newline]) = s.
Proof. unfold str_pop. rewrite rev_app_distr. cbn. apply rev_involutive. Qed.

Section ApiProperties.
Context `{CryptoLaws, NetTableLaws, HashOrder, Base64}.

Lemma parse_key_hex k s : length k = KEY_SIZE → parse_key (to_lower_hex k) s = Ret (Ok (Some k), s).
Proof. intros Hk. unfold parse_key. erewrite bind_ok by (apply attempt_run; by apply key_from_hex). done. Qed.

(** A key that panics, panics in the command. *)
Lemma set_bad_key_panics key b rest s :
  length key = 64%nat → key !! 2%nat = Some b → 128 ≤ code b < 192 → Forall (λ x, x ≠ equals) key →
  api_set (Some (str "private_key=" ++ key ++ [newline]) :: rest) s = Panic.
Proof.
  intros Hl Hb Hc Hk. cbn [api_set]. rewrite app_assoc, str_pop_newline.
  change (str "private_key=") with (str "private_key" ++ [equals]). rewrite <- app_assoc. cbn [app].
  rewrite split_on_app by (repeat constructor; done). rewrite split_on_none by done.
  rewrite decide_False by done. unfold device_line. rewrite decide_True by done.
  unfold mbind, M_bind, parse_key, attempt. unfold mbind, M_bind. by rewrite (split_character_panics key b).
Qed.

(** Whatever the operations of the configuration keep, the lines keep. *)
Section Kept.
Context (R : relation dstate) `{!PreOrder R} (configure_kept : ∀ op, preserves R (configure op)).

Lemma parse_key_kept val : preserves R (parse_key val).
Proof.
  assert (Hh : ∀ n i, preserves R (parse_hex n i val)).
  { induction n as [|n IH]; intros i; cbn [parse_hex]; unfold str_slice; pres. }
  unfold parse_key, key_from_str. pres.
Qed.

Lemma commit_kept c : preserves R (commit c).
Proof.
  exact (configure_kept (OpPeer c.(s_public_key) c.(s_remove) c.(s_replace_ips) c.(s_endpoint) c.(s_allowed_ips)
    c.(s_keepalive) c.(s_preshared_key))).
Qed.

Hint Resolve parse_key_kept commit_kept : preserves.

Lemma api_set_peer_kept lines c : preserves R (api_set_peer lines c).
Proof.
  revert c. induction lines as [|[cmd|] lines IH]; intros c; cbn [api_set_peer]; unfold peer_line; pres; apply IH.
Qed.

Lemma api_set_kept lines : preserves R (api_set lines).
Proof.
  induction lines as [|[cmd|] lines IH]; cbn [api_set]; [pres| |pres].
  unfold device_line. pres.
  - exact (configure_kept (OpKey _)).
  - exact (configure_kept (OpListen _)).
  - exact (configure_kept (OpMark _)).
  - exact (configure_kept OpClear).
  - apply api_set_peer_kept.
Qed.
End Kept.

(** The settings of a peer section carry over to the next one: a line
    [public_key=..] that starts a new peer commits the current one and clears
    only the list of allowed addresses, so the next peer gets the removal flag,
    the endpoint, the keepalive interval and the preshared key of the previous
    peer. *)
Lemma settings_carry_over c k s :
  length k = KEY_SIZE →
  api_set_peer [Some (str "public_key" ++ equals :: to_lower_hex k ++ [newline]); Some [newline]] c s =
  (_ ← commit c;
   _ ← update_peer k c.(s_remove) c.(s_replace_ips) c.(s_endpoint) [] c.(s_keepalive) c.(s_preshared_key);
   mret 0) s.
Proof.
  intros Hk. cbn [api_set_peer].
  replace (str_pop (str "public_key" ++ equals :: to_lower_hex k ++ [newline])) with (str "public_key" ++ equals :: to_lower_hex k)
    by (rewrite app_comm_cons, app_assoc; symmetry; apply str_pop_newline).
  rewrite decide_False by done. rewrite splitn_2_app by (by apply (bool_decide_unpack _)).
  unfold peer_line.
  do 6 rewrite decide_False by done. rewrite decide_True by done. unfold mbind, M_bind.
  destruct (commit c s) as [[[[]|e] s1]|]; [|done..]. by rewrite parse_key_hex.
Qed.
End ApiProperties.

Section ApiWitnesses.
#[local] Existing Instance toy_crypto.
#[local] Existing Instance toy_laws.
#[local] Existing Instance map_table.
#[local] Existing Instance map_table_laws.
#[local] Existing Instance by_key.
#[local] Existing Instance no_base64.

(** A peer with a preshared key and a keepalive interval, then one without. *)
Definition first_peer : section := with_s_keepalive (Some 25) (with_s_preshared_key (Some k1) (new_section k2)).

Lemma settings_carry_over_witness :
  api_set_peer [Some (str "public_key" ++ equals :: to_lower_hex k1 ++ [newline]); Some [newline]] first_peer test_device =
  (_ ← commit first_peer; _ ← update_peer k1 false false None [] (Some 25) (Some k1); mret 0) test_device.
Proof. exact (settings_carry_over first_peer k1 test_device eq_refl). Defined.
End ApiWitnesses.
