(* ===== verification/Handlers.v ===== *)
(** * The event handlers of a device (device/mod.rs, lines 544-895)

    Datagrams from the network, from a connected socket and packets from the
    tunnel interface, and the periodic timers.  A handler takes what the
    successive reads of its descriptor give. *)

From Stdlib Require Import Strings.String.
From S2P Require Import Prelude Errors ReplayWindow Time Crypto Packet Session Tai64N Handshake.
From S2P Require Import RateLimiter Tunn Tunnel TunnTimers Lfsr Text AllowedIps Peer Device.
From coqutil Require Import Byte.

Inductive Action : Type := Continue | Yield | Exit.

Section Handlers.
Context `{Crypto, NetTable, HashOrder}.

Abbreviation DM := (M Error dstate).

Definition call_tunnel (peer : nat) (m : M WireGuardError (Tunn * world) TunnResult) : DM TunnResult :=
  r ← on_tunnel peer m; mret (tunn_result r).

(** Call a method of the limiter at a location. *)
Definition on_device_limiter {E A} (l : nat) (m : M E (RateLimiter * env) A) : DM (result E A) := λ s,
  match s.(dworld).(w_limiters) !! l with
  | None => Panic
  | Some rl =>
    match m (rl, s.(dworld).(w_env)) with
    | Ret (r, (rl', e')) => Ret (Ok r, with_dworld (MkWorld e' (<[l := rl']> s.(dworld).(w_limiters))) s)
    | Panic => Panic
    end
  end.

(** The peer a verified packet is for. *)
Definition find_peer (private_key public_key : bytes) (packet : Packet) (d : Device) : option nat :=
  match packet with
  | PHandshakeInit p =>
    match parse_handshake_anon private_key public_key p with
    | Ok hh => d.(peers) !! hh.(hh_peer_static_public)
    | Err _ => None
    end
  | PHandshakeResponse p => d.(peers_by_idx) !! Z.shiftr p.(hr_receiver_idx) 8
  | PCookieReply p => d.(peers_by_idx) !! Z.shiftr p.(cr_receiver_idx) 8
  | PData p => d.(peers_by_idx) !! Z.shiftr p.(pd_receiver_idx) 8
  end.

(** The loop that flushes the queue of a peer; [false] if it has not ended
    after [n] turns. *)
Fixpoint flush (n : nat) (peer : nat) (send : bytes → syscall) (dst : bytes) : DM bool :=
  match n with
  | O => mret false
  | S n =>
    r ← call_tunnel peer (decapsulate None [] dst);
    match r with
    | WriteToNetwork packet => _ ← d_sys (sys_ (send packet)); flush n peer send dst
    | _ => mret true
    end
  end.

(** The queue has at most [MAX_QUEUE_DEPTH] packets, and a turn without a
    session happens once. *)
Definition FLUSH_TURNS : nat := MAX_QUEUE_DEPTH + 3.

(** What is done with the answer of the tunnel of a peer: send it, or write
    it to the interface if the peer may use the address; then flush. *)
Definition act_on (peer : nat) (send : bytes → syscall) (dst : bytes) (r : TunnResult) : DM () :=
  match r with
  | TDone | TErr _ => mret ()
  | WriteToNetwork packet =>
    _ ← d_sys (sys_ (send packet));
    _ ← flush FLUSH_TURNS peer send dst;
    mret ()
  | WriteToTunnelV4 packet addr =>
    allowed ← peer_gets peer (is_allowed_ip (V4 addr));
    if allowed : bool then d_sys (sys_ (Write4 packet)) else mret ()
  | WriteToTunnelV6 packet addr =>
    allowed ← peer_gets peer (is_allowed_ip (V6 addr));
    if allowed : bool then d_sys (sys_ (Write6 packet)) else mret ()
  end.

(** The endpoint of a peer follows the packets it sends. *)
Definition follow (peer : nat) (addr : SocketAddr) : DM () :=
  d ← d_gets id;
  endpoint_changed ← on_peer peer (set_endpoint addr);
  e ← peer_gets peer p_endpoint;
  if d.(use_connected_socket) && (endpoint_changed || bool_decide (e.(ep_conn) = None)) then
    r ← try_ (on_peer peer (connect_endpoint d.(listen_port) d.(fwmark)));
    match r with
    | Ok sock => _ ← d_sys (sys_unwrap (RegisterConn peer sock (sock_ip addr))); mret ()
    | Err _ => mret ()
    end
  else mret ().

(** One datagram on a listening socket; [false] if the loop goes on without
    counting it. *)
Definition handle_datagram (udp : Z) (keys : bytes * bytes) (rate_limiter : nat) (dst packet : bytes)
    (addr : SocketAddr) : DM bool :=
  v ← on_device_limiter rate_limiter (verify_packet (Some (sock_ip addr)) packet dst);
  match v with
  | Err (WriteToNetwork cookie) => _ ← d_sys (sys_ (SendTo udp cookie addr)); mret false
  | Err _ => mret false
  | Ok parsed_packet =>
    d ← d_gets id;
    match find_peer keys.1 keys.2 parsed_packet d with
    | None => mret false
    | Some peer =>
      r ← call_tunnel peer (handle_verified_packet parsed_packet dst);
      match r with
      | TErr _ => mret false
      | r =>
        _ ← act_on peer (λ p, SendTo udp p addr) dst r;
        _ ← follow peer addr;
        mret true
      end
    end
  end.

(** The loop; the datagrams left when [MAX_ITR] of them have been counted. *)
Fixpoint udp_loop (udp : Z) (keys : bytes * bytes) (rate_limiter : nat) (dst : bytes) (iter : nat)
    (pending : list (bytes * SocketAddr)) : DM (list (bytes * SocketAddr)) :=
  match pending with
  | [] => mret []
  | (packet, addr) :: pending =>
    counted ← handle_datagram udp keys rate_limiter dst packet addr;
    if counted : bool then
      match iter with
      | S (S n) => udp_loop udp keys rate_limiter dst (S n) pending
      | _ => mret pending
      end
    else udp_loop udp keys rate_limiter dst iter pending
  end.

Definition udp_handler (udp : Z) (dst : bytes) (pending : list (bytes * SocketAddr)) :
    DM (list (bytes * SocketAddr)) :=
  kp ← d_gets key_pair;
  keys ← unwrap kp;
  rl ← d_gets d_rate_limiter;
  rate_limiter ← unwrap rl;
  udp_loop udp keys rate_limiter dst MAX_ITR pending.

(** One datagram on the connected socket of a peer. *)
Definition handle_connected (peer : nat) (udp : Z) (peer_addr : IpAddr) (dst packet : bytes) : DM () :=
  r ← call_tunnel peer (decapsulate (Some peer_addr) packet dst);
  act_on peer (SendConn udp) dst r.

(** The handler of a connected socket. *)
Fixpoint conn_loop (peer : nat) (udp : Z) (peer_addr : IpAddr) (dst : bytes) (iter : nat)
    (pending : list bytes) : DM (list bytes) :=
  match iter, pending with
  | S iter, packet :: pending =>
    _ ← handle_connected peer udp peer_addr dst packet;
    conn_loop peer udp peer_addr dst iter pending
  | _, _ => mret pending
  end.

Definition conn_handler (peer : nat) (udp : Z) (peer_addr : IpAddr) (dst : bytes) (pending : list bytes) :
    DM (list bytes) :=
  conn_loop peer udp peer_addr dst MAX_ITR pending.

(** Send a packet to the endpoint of a peer. *)
Definition send_to_endpoint (u4 u6 : Z) (e : Endpoint) (packet : bytes) : DM () :=
  match e.(ep_conn), e.(ep_addr) with
  | Some conn, _ => d_sys (sys_ (SendConn conn packet))
  | None, Some (SockV4 ip port) => d_sys (sys_ (SendTo u4 packet (SockV4 ip port)))
  | None, Some (SockV6 ip port scope) => d_sys (sys_ (SendTo u6 packet (SockV6 ip port scope)))
  | None, None => mret ()
  end.

(** One packet from the interface. *)
Definition handle_outgoing (u4 u6 : Z) (dst src : bytes) : DM () :=
  match dst_address src with
  | None => mret ()
  | Some dst_addr =>
    d ← d_gets id;
    match find d.(peers_by_ip) dst_addr with
    | None => mret ()
    | Some peer =>
      r ← call_tunnel peer (encapsulate src dst);
      match r with
      | TDone | TErr _ => mret ()
      | WriteToNetwork packet => e ← peer_gets peer p_endpoint; send_to_endpoint u4 u6 e packet
      | _ => panic
      end
    end
  end.

(** [reads i] is what the [i]-th read of the interface gives.  It reads into the
    first [mtu] bytes of a buffer that is as long as [dst]. *)
Fixpoint iface_loop (u4 u6 mtu : Z) (dst : bytes) (reads : nat → result Error bytes) (todo i : nat) : DM Action :=
  match todo with
  | O => mret Continue
  | S todo =>
    _ ← assert_ (mtu <=? Z.of_nat (length dst));
    match reads i with
    | Ok src => _ ← handle_outgoing u4 u6 dst src; iface_loop u4 u6 mtu dst reads todo (S i)
    | Err (IfaceRead Interrupted) | Err (IfaceRead WouldBlock) => mret Continue
    | Err _ => mret Exit
    end
  end.

(** [mtu] is what the device last read from its interface. *)
Definition iface_handler (mtu : Z) (dst : bytes) (reads : nat → result Error bytes) : DM Action :=
  d ← d_gets id;
  u4 ← unwrap d.(udp4);
  u6 ← unwrap d.(udp6);
  iface_loop u4 u6 mtu dst reads MAX_ITR 0.

(** ** Timers *)

Definition reset_timer : DM Action :=
  rl ← d_gets d_rate_limiter;
  match rl with
  | Some l => _ ← on_device_limiter (E := Error) l reset_count; mret Continue
  | None => mret Continue
  end.

Definition peer_timer (u4 u6 : Z) (dst : bytes) (peer : nat) : DM () :=
  e ← peer_gets peer p_endpoint;
  match e.(ep_addr) with
  | None => mret ()
  | Some endpoint_addr =>
    r ← call_tunnel peer (update_timers dst);
    match r with
    | TDone => mret ()
    | TErr ConnectionExpired => on_peer peer shutdown_endpoint
    | TErr _ => mret ()
    | WriteToNetwork packet =>
      d_sys (sys_ (SendTo (if sock_is_ipv4 endpoint_addr then u4 else u6) packet endpoint_addr))
    | _ => panic
    end
  end.

Definition peers_timer (dst : bytes) : DM Action :=
  d ← d_gets id;
  match d.(udp4), d.(udp6) with
  | Some u4, Some u6 =>
    _ ← for_each (values d.(peers)) (peer_timer u4 u6 dst);
    mret Continue
  | _, _ => mret Continue
  end.
End Handlers.

(** ** The flush of the queue ends *)

Section Flush.
Context `{CryptoLaws}.

Lemma append_keeps_state idx buf :
  preserves (λ s s' : Handshake * env, s'.1.(state) = s.1.(state)) (append_mac1_and_mac2 idx buf).
Proof.
  assert (PreOrder (λ s s' : Handshake * env, s'.1.(state) = s.1.(state))) by (split; [done|congruence]).
  unfold append_mac1_and_mac2, self_gets, self_modify, io. pres. by apply pres_modify.
Qed.

(** An initiation that is sent is awaited. *)
Lemma initiation_in_progress dst s b s' :
  format_handshake_initiation dst s = Ret (Ok b, s') → is_in_progress s'.1 = true.
Proof.
  unfold format_handshake_initiation. case_match; [done|].
  intros (idx & s1 & _ & (h & s2 & _ & (eph & s3 & _ & Hr)%bind_inv)%bind_inv)%bind_inv. revert Hr.
  destruct (b2s_kdf2 _ _) as [ck key]. destruct (b2s_kdf2 _ _) as [ck' key'].
  intros (ts & s4 & _ & (now & s5 & _ & ([] & s6 & Hm & Ha)%bind_inv)%bind_inv)%bind_inv.
  apply append_keeps_state in Ha. revert Hm. intros [= <-]. unfold is_in_progress. rewrite Ha. done.
Qed.

(** The ring, the current slot and the handshake after a step that sends nothing. *)
Definition current_kept (s s' : Tunn * world) : Prop := s'.1.(current) = s.1.(current).

#[local] Instance current_kept_preorder : PreOrder current_kept.
Proof. split; [done|]. intros ???. unfold current_kept. congruence. Qed.

Lemma initiation_current dst b : preserves current_kept (tunn_format_handshake_initiation dst b).
Proof.
  unfold tunn_format_handshake_initiation, t_gets, t_tick, t_modify, on_handshake, timers_clear, t_io, when. pres;
    first [by apply pres_modify | by apply pres_zoom].
Qed.

Lemma initiation_starts dst t w p t' w' :
  tunn_format_handshake_initiation dst false (t, w) = Ret (Ok (WriteToNetwork p), (t', w')) →
  is_in_progress t.(handshake) = false ∧ is_in_progress t'.(handshake) = true.
Proof.
  unfold tunn_format_handshake_initiation. erewrite bind_ok by reflexivity. cbn [fst negb]. rewrite andb_true_r.
  destruct (is_in_progress (handshake t)); [by intros [=]|]. intros ([] & s1 & _ & (r & s2 & Ha & Hr)%bind_inv)%bind_inv.
  split; [done|]. destruct r as [packet|e]; [|done]. revert Ha. unfold attempt, on_handshake, zoom.
  destruct (format_handshake_initiation dst _) as [[x [h e]]|] eqn:Hf; [|done]. intros [= -> <-].
  apply initiation_in_progress in Hf.
  apply bind_inv in Hr as ([] & s3 & [= <-] & ([] & s4 & [= <-] & [= <- <- <-])%bind_inv).
  exact Hf.
Qed.

(** An upper bound of the turns of the flush. *)
Definition need (t : Tunn) : nat :=
  match session_at (slot t.(current)) t with
  | Some _ => S (length t.(packet_queue))
  | None => if is_in_progress t.(handshake) then 1 else 2
  end.

(** Sending with a session. *)
Lemma encapsulate_with_session src dst t w r t' w' s :
  session_at (slot t.(current)) t = Some s → encapsulate src dst (t, w) = Ret (Ok r, (t', w')) →
  is_Some (session_at (slot t'.(current)) t') ∧ t'.(packet_queue) = t.(packet_queue).
Proof.
  intros Hs. unfold encapsulate. do 2 (erewrite bind_ok by reflexivity). cbn [fst]. rewrite Hs.
  intros (b & [t1 w1] & Ho & Hr)%bind_inv. revert Ho. unfold on_session. cbn [fst snd]. rewrite Hs.
  destruct (format_packet_data src dst s) as [[x s1]|]; [|done]. intros [= -> <- <-].
  assert (Hs1 : is_Some (session_at (slot (current t))
    (with_sessions (<[slot (current t) := Some s1]> (sessions t)) t))).
  { unfold session_at in *. cbn. destruct (sessions t !! _) as [o|] eqn:Ho; [|done].
    rewrite list_lookup_insert_eq by (by eapply lookup_lt_Some). eauto. }
  revert Hr. unfold when. destruct (negb _); do 3 (erewrite bind_ok by reflexivity); intros [= <- <- <-]; by split.
Qed.

Lemma flush_step dst t w p t' w' :
  decapsulate None [] dst (t, w) = Ret (Ok (WriteToNetwork p), (t', w')) → (need t' < need t)%nat.
Proof.
  unfold decapsulate. rewrite bool_decide_eq_true_2 by done. unfold send_queued_packet.
  intros (q & [t1 w1] & Hd & Hr)%bind_inv. revert Hd. unfold dequeue_packet.
  erewrite bind_ok by reflexivity. cbn [fst]. destruct (packet_queue t) as [|packet rest] eqn:Hq.
  { intros [= <- _ _]. done. }
  erewrite bind_ok by reflexivity. intros [= <- <- <-]. apply bind_inv in Hr as (r & [t2 w2] & He & Hr).
  assert (r = WriteToNetwork p ∧ t2 = t') as [-> ->].
  { destruct r; by revert Hr; intros [= -> -> ->]. }
  unfold need. destruct (session_at (slot (current t)) t) as [s|] eqn:Hs.
  - apply (encapsulate_with_session _ _ _ _ _ _ _ s) in He as [[s' ->] ->]; [|exact Hs]. rewrite Hq. cbn. lia.
  - revert He. unfold encapsulate. do 2 (erewrite bind_ok by reflexivity).
    cbn [fst]. change (session_at (slot (current (with_packet_queue rest t))) (with_packet_queue rest t))
      with (session_at (slot (current t)) t). rewrite Hs.
    erewrite bind_ok by reflexivity. cbn [fst snd]. set (t1 := queue_packet _ _). intros He.
    assert (Hq1 : t1.(handshake) = t.(handshake) ∧ t1.(current) = t.(current) ∧ t1.(sessions) = t.(sessions))
      by (unfold t1, queue_packet; by case_match).
    destruct Hq1 as (Hh & Hc & Hss). destruct (initiation_starts _ _ _ _ _ _ He) as [Hp Hp'].
    rewrite Hh in Hp. rewrite Hp, Hp'. apply initiation_current in He as Hcur. apply adds_initiation in He.
    unfold current_kept in Hcur. cbn in Hcur, He. rewrite Hcur, Hc. rewrite He; [lia|].
    unfold session_at. by rewrite Hss.
Qed.

Context `{NetTableLaws}.

Lemma call_tunnel_inv peer m s r s' :
  call_tunnel peer m s = Ret (r, s') →
  ∃ p x t' w', s.(heap) !! peer = Some p ∧ m (p.(tunnel), s.(dworld)) = Ret (x, (t', w')) ∧
    r = Ok (tunn_result x) ∧ s' = with_dworld w' (with_heap (<[peer := with_tunnel t' p]> s.(heap)) s).
Proof.
  unfold call_tunnel, on_tunnel, mbind, M_bind. destruct (heap s !! peer) as [p|] eqn:Hp; [|done].
  destruct (m _) as [[x [t' w']]|] eqn:Hm; [|done]. intros [= <- <-]. by eexists _, _, _, _.
Qed.

Lemma d_sys_log c s :
  d_sys (sys_ c) s = Ret (Ok (), with_dos (MkOs (s.(dos).(os_log) ++ [c]) s.(dos).(os_answer)) s).
Proof. unfold d_sys, zoom, sys_, try_, sys, mbind, M_bind. by destruct (os_answer _ _ _). Qed.

Lemma need_bound t : (length t.(packet_queue) ≤ MAX_QUEUE_DEPTH)%nat → (need t ≤ FLUSH_TURNS)%nat.
Proof.
  intros Hq. unfold need, FLUSH_TURNS. destruct (session_at _ _); [lia|]. destruct (is_in_progress _); unfold MAX_QUEUE_DEPTH in *; lia.
Qed.

(** More turns than it takes change nothing. *)
Lemma flush_more n m peer send dst s s' :
  flush n peer send dst s = Ret (Ok true, s') → (n ≤ m)%nat → flush m peer send dst s = Ret (Ok true, s').
Proof.
  revert m s. induction n as [|n IH]; intros m s; cbn [flush]; [done|]. intros (r & s1 & Hr & Hk)%bind_inv Hm.
  destruct m as [|m]; [lia|]. cbn [flush]. erewrite bind_ok by exact Hr. destruct r; try exact Hk.
  apply bind_inv in Hk as (u & s2 & Hs & Hk). erewrite bind_ok by exact Hs. apply IH; [exact Hk|lia].
Qed.

(** The loop stops by itself: it never runs out of turns. *)
Lemma flush_ends n peer send dst s p r s' :
  s.(heap) !! peer = Some p → (need p.(tunnel) ≤ n)%nat →
  flush n peer send dst s = Ret (r, s') → r = Ok true.
Proof.
  revert s p. induction n as [|n IH]; intros s p Hp Hn.
  { exfalso. revert Hn. unfold need. repeat case_match; lia. }
  cbn [flush]. intros Hr. apply bind_any_inv in Hr as [(x & s1 & Hx & Hr)|(e & Hx & _)];
    apply call_tunnel_inv in Hx as (p0 & y & t' & w' & Hp0 & Hm & Hy & ->); simplify_eq.
  destruct (tunn_result y) as [|e|b|b a|b a] eqn:Ht; try (by revert Hr; intros [= <- _]).
  destruct y as [y|y]; cbn in Ht; [subst y|done]. apply flush_step in Hm.
  erewrite bind_ok in Hr by apply d_sys_log.
  eapply IH; [| |exact Hr]; [cbn; apply lookup_insert_eq|cbn; lia].
Qed.
End Flush.

(** ** What is written to the interface *)

(** The packet a call writes to the interface. *)
Definition written (c : syscall) : option bytes :=
  match c with Write4 p | Write6 p => Some p | _ => None end.

Section Quiet.
Context `{Crypto, NetTable, HashOrder}.

(** The calls between two states, none of them a write to the interface. *)
Definition quiet (o o' : os) : Prop :=
  ∃ l, o'.(os_log) = o.(os_log) ++ l ∧ Forall (λ c, written c = None) l.

#[export] Instance quiet_preorder : PreOrder quiet.
Proof.
  split; [intros o; exists []; by rewrite app_nil_r|].
  intros o1 o2 o3 (l1 & L1 & F1) (l2 & L2 & F2). exists (l1 ++ l2). rewrite L2, L1, app_assoc.
  split; [done|by apply Forall_app_2].
Qed.

Definition quiet_d (s s' : dstate) : Prop := quiet s.(dos) s'.(dos).
Definition quiet_p (s s' : Peer * os) : Prop := quiet s.2 s'.2.

#[export] Instance quiet_d_preorder : PreOrder quiet_d.
Proof. split; [intros s; unfold quiet_d; reflexivity|]. intros s1 s2 s3. unfold quiet_d. apply transitivity. Qed.
#[export] Instance quiet_p_preorder : PreOrder quiet_p.
Proof. split; [intros s; unfold quiet_p; reflexivity|]. intros s1 s2 s3. unfold quiet_p. apply transitivity. Qed.

Lemma quiet_snoc c o a : written c = None → quiet o (MkOs (o.(os_log) ++ [c]) a).
Proof. intros Hc. exists [c]. split; [done|]. by constructor. Qed.

Lemma sys_quiet c : written c = None → preserves quiet (sys c).
Proof. intros Hc o r o'. unfold sys. destruct (os_answer _ _ _); intros [= _ <-]; by apply quiet_snoc. Qed.

Lemma sys_unwrap_quiet c : written c = None → preserves quiet (sys_unwrap c).
Proof.
  intros Hc o r o'. unfold sys_unwrap. destruct (sys c o) as [[[v|e] o1]|] eqn:Hs; [|done..].
  intros [= _ <-]. by eapply sys_quiet.
Qed.

Lemma sys__quiet c : written c = None → preserves quiet (sys_ c).
Proof. intros Hc. unfold sys_. pres. by apply sys_quiet. Qed.

Lemma d_sys_quiet {A} (m : M Error os A) : preserves quiet m → preserves quiet_d (d_sys m).
Proof. intros Hm. by apply (pres_zoom_rel _ quiet). Qed.

Lemma p_os_quiet {A} (m : M Error os A) : preserves quiet m → preserves quiet_p (p_os m).
Proof. intros Hm. by apply (pres_zoom_rel _ quiet). Qed.

Lemma p_modify_quiet f : preserves quiet_p (p_modify f).
Proof. apply pres_modify. intros s. unfold quiet_p. cbn. reflexivity. Qed.

Lemma d_modify_quiet f : preserves quiet_d (d_modify f).
Proof. apply pres_modify. intros s. unfold quiet_d. cbn. reflexivity. Qed.

Lemma on_peer_quiet {A} r (m : M Error (Peer * os) A) : preserves quiet_p m → preserves quiet_d (on_peer r m).
Proof.
  intros Hm s x s'. unfold on_peer. destruct (heap s !! r) as [p|]; [|done].
  destruct (m _) as [[y [p' o']]|] eqn:He; [|done]. intros [= _ <-]. by apply Hm in He.
Qed.

Lemma call_tunnel_quiet r m : preserves quiet_d (call_tunnel r m).
Proof.
  unfold call_tunnel. pres. intros s x s'. unfold on_tunnel. destruct (heap s !! r) as [p|]; [|done].
  destruct (m _) as [[y [t' w']]|]; [|done]. intros [= _ <-]. unfold quiet_d. cbn. reflexivity.
Qed.

Lemma on_device_limiter_quiet {E A} l (m : M E (RateLimiter * env) A) : preserves quiet_d (on_device_limiter l m).
Proof.
  intros s x s'. unfold on_device_limiter. destruct (w_limiters _ !! l) as [p|]; [|done].
  destruct (m _) as [[y [t' w']]|]; [|done]. intros [= _ <-]. unfold quiet_d. cbn. reflexivity.
Qed.
End Quiet.

Section Delivery.
Context `{CryptoLaws, NetTableLaws, HashOrder}.

Hint Resolve sys_quiet sys_unwrap_quiet sys__quiet d_sys_quiet p_os_quiet p_modify_quiet d_modify_quiet
  on_peer_quiet call_tunnel_quiet on_device_limiter_quiet : preserves.

Lemma d_gets_quiet {A} (f : Device → A) : preserves quiet_d (d_gets f).
Proof. apply pres_gets, _. Qed.
Lemma p_gets_quiet {A} (f : Peer → A) : preserves quiet_p (p_gets f).
Proof. apply pres_gets, _. Qed.
Lemma peer_gets_quiet {A} r (f : Peer → A) : preserves quiet_d (peer_gets r f).
Proof. apply on_peer_quiet, pres_gets, _. Qed.
Hint Resolve d_gets_quiet p_gets_quiet peer_gets_quiet : preserves.

Lemma shutdown_quiet : preserves quiet_p shutdown_endpoint.
Proof. unfold shutdown_endpoint. pres. Qed.
Lemma set_endpoint_quiet addr : preserves quiet_p (set_endpoint addr).
Proof. unfold set_endpoint. pres. Qed.
Lemma connect_quiet port mark : preserves quiet_p (connect_endpoint port mark).
Proof. unfold connect_endpoint. pres. Qed.
Hint Resolve shutdown_quiet set_endpoint_quiet connect_quiet : preserves.

Lemma follow_quiet peer addr : preserves quiet_d (follow peer addr).
Proof. unfold follow. pres. Qed.

Lemma flush_quiet n peer send dst : (∀ p, written (send p) = None) → preserves quiet_d (flush n peer send dst).
Proof. intros Hs. induction n as [|n IH]; cbn [flush]; pres. Qed.
Hint Resolve follow_quiet flush_quiet : preserves.

Lemma act_on_quiet peer send dst r :
  (∀ p, written (send p) = None) → is_tunnel r = false → preserves quiet_d (act_on peer send dst r).
Proof. intros Hs Hr. destruct r; try done; cbn [act_on]; pres. Qed.

Lemma write_if_allowed peer src c s x s' :
  (allowed ← peer_gets peer (is_allowed_ip src);
   if allowed : bool then d_sys (sys_ c) else mret ()) s = Ret (x, s') →
  quiet_d s s' ∨ ∃ p, s.(heap) !! peer = Some p ∧ is_allowed_ip src p = true ∧
    s'.(dos).(os_log) = s.(dos).(os_log) ++ [c].
Proof.
  unfold peer_gets, on_peer, mbind, M_bind. destruct (heap s !! peer) as [p|]; [|done]. cbn.
  destruct (is_allowed_ip src p) eqn:Ha.
  - rewrite d_sys_log. intros [= _ <-]. right. by exists p.
  - intros [= _ <-]. left. unfold quiet_d. cbn. reflexivity.
Qed.

(** What is written to the interface is what the tunnel gave, for an address
    the peer may use. *)
Lemma act_on_writes peer send dst r s x s' :
  (∀ p, written (send p) = None) → act_on peer send dst r s = Ret (x, s') →
  quiet_d s s' ∨ ∃ ip src c p, r = to_tunnel ip src ∧ s.(heap) !! peer = Some p ∧ is_allowed_ip src p = true ∧
    written c = Some ip ∧ s'.(dos).(os_log) = s.(dos).(os_log) ++ [c].
Proof.
  intros Hs Hr. destruct (is_tunnel r) eqn:Ht; [|left; by eapply act_on_quiet].
  destruct r as [| | |b a|b a]; try done; cbn [act_on] in Hr;
    apply write_if_allowed in Hr as [Hq|(p & Hp & Ha & Hl)]; [by left|right|by left|right].
  - by exists b, (V4 a), (Write4 b), p.
  - by exists b, (V6 a), (Write6 b), p.
Qed.

(** The calls made between two states; those that write to the interface
    satisfy [P]. *)
Definition writes_only (P : bytes → Prop) (s s' : dstate) : Prop :=
  ∃ calls, s'.(dos).(os_log) = s.(dos).(os_log) ++ calls ∧ ∀ c ip, c ∈ calls → written c = Some ip → P ip.

Lemma quiet_writes P s s' : quiet_d s s' → writes_only P s s'.
Proof.
  intros (l & Hl & Hq). exists l. split; [done|]. intros c ip Hc Hw.
  pose proof (proj1 (Forall_forall _ _) Hq c Hc) as Hn. cbn in Hn. congruence.
Qed.

Lemma one_write (P : bytes → Prop) s s' c ip :
  s'.(dos).(os_log) = s.(dos).(os_log) ++ [c] → written c = Some ip → P ip → writes_only P s s'.
Proof. intros Hl Hc HP. exists [c]. split; [done|]. intros c' ip' ->%list_elem_of_singleton Hw. congruence. Qed.

Lemma writes_quiet_after P s s1 s2 : writes_only P s s1 → quiet_d s1 s2 → writes_only P s s2.
Proof.
  intros (l & Hl & HP) (l2 & Hl2 & Hq). exists (l ++ l2). rewrite Hl2, Hl, app_assoc. split; [done|].
  intros c ip [Hc|Hc]%elem_of_app Hw; [eauto|].
  pose proof (proj1 (Forall_forall _ _) Hq c Hc) as Hn. cbn in Hn. congruence.
Qed.

Lemma to_tunnel_inj ip src ip' src' : to_tunnel ip src = to_tunnel ip' src' → ip' = ip ∧ src' = src.
Proof. destruct src, src'; intros [= -> ->]; done. Qed.

Lemma is_tunnel_to ip src : is_tunnel (to_tunnel ip src) = true.
Proof. by destruct src. Qed.

(** A peer that gets something from its tunnel and acts on it. *)
Lemma tunnel_acts Q peer m send dst s r s1 x s2 :
  (∀ t w res s', m (t, w) = Ret (Ok res, s') → is_tunnel res = true →
    ∃ ip src, res = to_tunnel ip src ∧ Q t ip src) →
  (∀ p, written (send p) = None) →
  call_tunnel peer m s = Ret (r, s1) → act_on peer send dst (match r with Ok r => r | Err _ => TDone end) s1 = Ret (x, s2) →
  writes_only (λ ip, ∃ p src, s.(heap) !! peer = Some p ∧ Q p.(tunnel) ip src ∧ is_allowed_ip src p = true) s s2.
Proof.
  intros Hm Hs Hc Ha. apply call_tunnel_inv in Hc as (p & y & t' & w' & Hp & Hy & -> & ->).
  apply act_on_writes in Ha as [Hq|(ip & src & c & p' & Hr & Hp' & Hal & Hw & Hl)]; [by apply quiet_writes| |done].
  destruct y as [res|e]; cbn in Hr; [|by destruct src].
  destruct (Hm _ _ _ _ Hy) as (ip' & src' & He & HQ); [rewrite Hr; apply is_tunnel_to|].
  rewrite Hr in He. apply to_tunnel_inj in He as [-> ->].
  cbn in Hp'. rewrite lookup_insert_eq in Hp'. injection Hp' as <-.
  eapply one_write; [exact Hl|exact Hw|]. by exists p, src.
Qed.

(** A datagram on a listening socket was for a peer of the device. *)
Lemma datagram_writes udp keys rl dst packet addr s r s' :
  (COOKIE_REPLY_SZ ≤ length dst)%nat →
  handle_datagram udp keys rl dst packet addr s = Ret (r, s') →
  writes_only (λ ip, ∃ d peer p src, parse_incoming_packet packet = Ok (PData d) ∧
    s.(dev).(peers_by_idx) !! Z.shiftr d.(pd_receiver_idx) 8 = Some peer ∧ s.(heap) !! peer = Some p ∧
    authentic p.(tunnel) d ip src ∧ is_allowed_ip src p = true) s s'.
Proof.
  intros Hdst. unfold handle_datagram. intros Hr.
  apply bind_any_inv in Hr as [(v & s1 & Hv & Hr)|(e & Hv & _)];
    [|apply quiet_writes; by eapply on_device_limiter_quiet].
  revert Hv. unfold on_device_limiter. destruct (w_limiters _ !! rl) as [lim|]; [|done].
  pose proof (verify_packet_wp (Some (sock_ip addr)) packet dst lim (w_env (dworld s)) Hdst) as Hwp. unfold wp in Hwp.
  destruct (verify_packet _ _ _ _) as [[x [rl' e']]|]; [|done]. destruct Hwp as (_ & _ & Hp). intros [= -> <-].
  set (s1 := with_dworld _ s) in Hr. change (writes_only (λ ip, ∃ d peer p src, parse_incoming_packet packet = Ok (PData d) ∧
    s1.(dev).(peers_by_idx) !! Z.shiftr d.(pd_receiver_idx) 8 = Some peer ∧ s1.(heap) !! peer = Some p ∧
    authentic p.(tunnel) d ip src ∧ is_allowed_ip src p = true) s1 s').
  destruct v as [parsed|er].
  2:{ apply quiet_writes. destruct er; revert Hr; try (by intros [= _ <-]). apply (pres_bind quiet_d); [|intros; pres]. pres. }
  erewrite bind_ok in Hr by reflexivity. destruct (find_peer _ _ _ _) as [peer|] eqn:Hf.
  2:{ apply quiet_writes. by revert Hr; intros [= _ <-]. }
  apply bind_any_inv in Hr as [(res & s2 & Hc & Hr)|(e & Hc & _)]; [|apply quiet_writes; by eapply call_tunnel_quiet].
  pose proof (call_tunnel_quiet peer _ _ _ _ Hc) as Hq2.
  assert (Hrun : quiet_d s1 s' ∨ ∃ x s3, act_on peer (λ p, SendTo udp p addr) dst res s2 = Ret (x, s3) ∧ quiet_d s3 s').
  { destruct res as [|e|b|b a|b a]; [right|left|right..].
    2:{ by revert Hr; intros [= _ <-]. }
    all: apply bind_any_inv in Hr as [([] & s3 & Ha & Hr)|(e & Ha & _)]; [|exists (Err e), s'; split; [exact Ha|reflexivity]];
      exists (Ok ()), s3; (split; [exact Ha|]); revert Hr; apply (pres_bind quiet_d); [apply follow_quiet|intros; pres]. }
  destruct Hrun as [Hq|(x & s3 & Ha & Hq3)]; [by apply quiet_writes|].
  eapply writes_quiet_after; [|exact Hq3].
  eapply (tunnel_acts (λ t ip src, ∃ d, parsed = PData d ∧ authentic t d ip src)) in Hc; [| | |exact Ha].
  - destruct Hc as (calls & Hl & Hw). exists calls. split; [done|]. intros c ip Hci Hwr.
    destruct (Hw c ip Hci Hwr) as (p & src & Hpp & (d & -> & Hau) & Hal). by exists d, peer, p, src.
  - intros t w res' s4 Hv4 Ht. destruct (verified_authentic _ _ _ _ _ _ Hv4 Ht) as (d & ip & src & -> & -> & Hau).
    exists ip, src. eauto.
  - done.
Qed.

(** A datagram on the socket of a peer. *)
Lemma connected_writes peer udp peer_addr dst packet s r s' :
  handle_connected peer udp peer_addr dst packet s = Ret (r, s') →
  writes_only (λ ip, ∃ d p src, parse_incoming_packet packet = Ok (PData d) ∧ s.(heap) !! peer = Some p ∧
    authentic p.(tunnel) d ip src ∧ is_allowed_ip src p = true) s s'.
Proof.
  unfold handle_connected. intros Hr.
  apply bind_any_inv in Hr as [(res & s2 & Hc & Ha)|(e & Hc & _)]; [|apply quiet_writes; by eapply call_tunnel_quiet].
  eapply (tunnel_acts (λ t ip src, ∃ d, parse_incoming_packet packet = Ok (PData d) ∧ authentic t d ip src)) in Hc;
    [| | |exact Ha].
  - destruct Hc as (calls & Hl & Hw). exists calls. split; [done|]. intros c ip Hci Hwr.
    destruct (Hw c ip Hci Hwr) as (p & src & Hpp & (d & Hd & Hau) & Hal). by exists d, p, src.
  - intros t w res' s4 Hv4 Ht. destruct (decapsulate_authentic _ _ _ _ _ _ _ Hv4 Ht) as (d & ip & src & Hd & -> & Hau).
    exists ip, src. eauto.
  - done.
Qed.

(** C24.  Only authentic packets from allowed addresses reach the interface:
    whatever datagram arrives on a listening socket, or on the connected socket
    of a peer, each packet written to the interface is the authenticated
    content of that datagram, under a session of the peer that the datagram's
    receiver index belongs to (or whose socket it is), and the source address
    in its IP header is one that this peer may use. *)
Theorem interface_gets_authentic udp dst packet s r s' :
  (COOKIE_REPLY_SZ ≤ length dst)%nat →
  (∀ keys rl addr, handle_datagram udp keys rl dst packet addr s = Ret (r, s') →
    writes_only (λ ip, ∃ d peer p src, parse_incoming_packet packet = Ok (PData d) ∧
      s.(dev).(peers_by_idx) !! Z.shiftr d.(pd_receiver_idx) 8 = Some peer ∧ s.(heap) !! peer = Some p ∧
      authentic p.(tunnel) d ip src ∧ is_allowed_ip src p = true) s s') ∧
  (∀ peer addr x, handle_connected peer udp addr dst packet s = Ret (x, s') →
    writes_only (λ ip, ∃ d p src, parse_incoming_packet packet = Ok (PData d) ∧ s.(heap) !! peer = Some p ∧
      authentic p.(tunnel) d ip src ∧ is_allowed_ip src p = true) s s').
Proof.
  intros Hdst. split.
  - intros keys rl addr. by apply datagram_writes.
  - intros peer addr x. apply connected_writes.
Qed.

(** A datagram that is not a packet is not counted. *)
Lemma malformed_not_counted udp keys l rl dst packet addr s e :
  s.(dworld).(w_limiters) !! l = Some rl → parse_incoming_packet packet = Err e →
  handle_datagram udp keys l dst packet addr s =
    Ret (Ok false, with_dworld (MkWorld s.(dworld).(w_env) (<[l := rl]> s.(dworld).(w_limiters))) s).
Proof.
  intros Hl Hp. unfold handle_datagram, on_device_limiter, mbind, M_bind. rewrite Hl.
  unfold verify_packet, mbind, M_bind, map_err, lift_result. by rewrite Hp.
Qed.

(** [MAX_ITR] does not bound the datagrams of one call of the handler:
    any number of malformed datagrams is received in one call. *)
Lemma malformed_unbounded udp dst pending s keys l :
  s.(dev).(key_pair) = Some keys → s.(dev).(d_rate_limiter) = Some l →
  is_Some (s.(dworld).(w_limiters) !! l) →
  Forall (λ d, ∃ e, parse_incoming_packet d.1 = Err e) pending →
  ∃ s', udp_handler udp dst pending s = Ret (Ok [], s').
Proof.
  intros Hk Hr Hl Hall. unfold udp_handler. erewrite bind_ok by reflexivity. rewrite Hk.
  do 2 (erewrite bind_ok by reflexivity). rewrite Hr. erewrite bind_ok by reflexivity.
  clear Hk Hr. revert s Hl. induction Hall as [|[packet addr] pending [e He] _ IH]; intros s [rl Hl]; [by eexists|].
  cbn [udp_loop]. erewrite bind_ok by (apply (malformed_not_counted _ _ _ rl _ _ _ _ e); done). apply IH. cbn.
  rewrite lookup_insert_eq. eauto.
Qed.
End Delivery.

Section HandlerWitnesses.
#[local] Existing Instance toy_crypto.
#[local] Existing Instance toy_laws.
#[local] Existing Instance map_table.
#[local] Existing Instance map_table_laws.
#[local] Existing Instance by_key.

(** The responder of the tunnel witnesses as the only peer of a device, which
    may use the network 10.0.0.0/8. *)
Definition ten_net : table () :=
  match new_truncate (v4 10 0 0 0) 8 with
  | Some n => (table_insert n () table_new).2
  | None => table_new
  end.
Definition bob_peer : Peer := {|
  tunnel := bob_tunn;
  p_index := 2;
  p_endpoint := MkEndpoint None None;
  p_allowed_ips := ten_net;
  p_preshared_key := None;
|}.
Definition bob_device : dstate :=
  MkD (with_key_pair (Some (k2, x25519_public k2)) (Some 0%nat)
        (with_peers {[ x25519_public k1 := 5%nat ]} AllowedIps_new {[ 2 := 5%nat ]}
          (Device_new (MkIndexLfsr 1 1 77) false)))
    {[ 5%nat := bob_peer ]} (world_of (x25519_public k2)) test_os.

Definition test_endpoint : SocketAddr := SockV4 ip_source 51820.

Definition log_of {E A} (o : outcome (result E A * dstate)) : list syscall :=
  match o with Ret (_, s) => s.(dos).(os_log) | Panic => [] end.

Lemma bob_dst_long : (COOKIE_REPLY_SZ ≤ length (zeros 148))%nat.
Proof. vm_compute. lia. Qed.

Lemma interface_gets_authentic_witness :
  ∃ r s', handle_datagram 3 (k2, x25519_public k2) 0 (zeros 148) bob_datagram test_endpoint bob_device = Ret (r, s') ∧
    s'.(dos).(os_log) = [Write4 ip_packet] ∧
    writes_only (λ ip, ∃ d peer p src, parse_incoming_packet bob_datagram = Ok (PData d) ∧
      bob_device.(dev).(peers_by_idx) !! Z.shiftr d.(pd_receiver_idx) 8 = Some peer ∧ bob_device.(heap) !! peer = Some p ∧
      authentic p.(tunnel) d ip src ∧ is_allowed_ip src p = true) bob_device s'.
Proof.
  assert (Hlog : log_of (handle_datagram 3 (k2, x25519_public k2) 0 (zeros 148) bob_datagram test_endpoint bob_device) =
    [Write4 ip_packet]) by (vm_compute; reflexivity).
  destruct (handle_datagram 3 (k2, x25519_public k2) 0 (zeros 148) bob_datagram test_endpoint bob_device)
    as [[r s']|] eqn:Hr; [|discriminate Hlog].
  exists r, s'. split; [reflexivity|]. split; [exact Hlog|].
  exact (proj1 (interface_gets_authentic 3 (zeros 148) bob_datagram bob_device r s' bob_dst_long) _ _ _ Hr).
Defined.

End HandlerWitnesses.
