(* ===== verification/ApiServer.v ===== *)
(** * The configuration socket: [api_get] and the handlers of device/api.rs

    [get] prints the device line by line; the handler of a connection reads a
    command, runs it and replies.  What is written is a list of lines, each
    with its newline. *)

From Stdlib Require Import Strings.String.
From S2P Require Import Prelude Errors Time Crypto Packet Session Tai64N Handshake RateLimiter Tunn Tunnel.
From S2P Require Import Lfsr Text Serialization Show AllowedIps Peer Device Api Handlers.
From coqutil Require Import Byte.

(** [writeln!(writer, "key={val}")] *)
Definition line (key : string) (val : bytes) : bytes := str key ++ equals :: val ++ [newline].
Arguments line key%_string_scope val.

(** The line of an optional value. *)
Definition line_of {A} (key : string) (f : A → bytes) (o : option A) : list bytes :=
  match o with Some a => [line key (f a)] | None => [] end.
Arguments line_of {A} key%_string_scope f o.

Section Server.
Context `{Crypto, NetTable, HashOrder, Base64, Hex}.

Abbreviation DM := (M Error dstate).

Definition device_lines (d : Device) : list bytes :=
  line_of "private_key" (λ k, encode_hex k.1) d.(key_pair) ++
  (if d.(listen_port) =? 0 then [] else [line "listen_port" (show_uint 10 d.(listen_port))]) ++
  line_of "fwmark" (show_uint 10) d.(fwmark).

Definition setting_lines (k : bytes) (p : Peer) : list bytes :=
  line "public_key" (encode_hex k) ::
  line_of "preshared_key" encode_hex p.(p_preshared_key) ++
  line_of "persistent_keepalive_interval" (show_uint 10) (persistent_keepalive p.(tunnel)) ++
  line_of "endpoint" show_socket_addr p.(p_endpoint).(ep_addr) ++
  ((λ '(ip, cidr), line "allowed_ip" (show_ip ip ++ str "/" ++ show_uint 10 cidr)) <$> allowed_ips p).

(** The statistics of a peer. *)
Definition counter_lines (peer : nat) : DM (list bytes) :=
  time ← on_tunnel peer last_handshake_time;
  stats ← on_tunnel peer stats;
  mret ((match time with
         | Ok (Some time) =>
           [line "last_handshake_time_sec" (show_uint 10 (as_secs time));
            line "last_handshake_time_nsec" (show_uint 10 (subsec_nanos time))]
         | _ => []
         end) ++
        (match stats with
         | Ok (_, tx_bytes, rx_bytes, _, _) =>
           [line "rx_bytes" (show_uint 10 rx_bytes); line "tx_bytes" (show_uint 10 tx_bytes)]
         | _ => []
         end)).

(** The body of the loop over the peers, with the mutex of the peer. *)
Definition peer_report (k : bytes) (peer : nat) : DM (list bytes) :=
  p ← peer_gets peer id;
  counters ← counter_lines peer;
  mret (setting_lines k p ++ counters).

Fixpoint peers_lines (l : list (bytes * nat)) : DM (list bytes) :=
  match l with
  | [] => mret []
  | (k, peer) :: l => report ← peer_report k peer; rest ← peers_lines l; mret (report ++ rest)
  end.

Definition api_get : DM (list bytes) :=
  d ← d_gets id;
  rest ← peers_lines (entries d.(peers));
  mret (device_lines d ++ rest).

(** The command, and the reply to it. *)
Definition api_command (cmd : bytes) (lines : list (option bytes)) : DM (list bytes) :=
  '(out, status) ←
    (if decide (cmd = str "get=1") then out ← api_get; mret (out, 0)
     else if decide (cmd = str "set=1") then status ← api_set lines; mret ([], status)
     else mret ([], EIO));
  mret (out ++ [line "errno" (show_uint 10 status); [newline]]).

(** The handler of the listening socket; [conn] is what a connection sends,
    or [None] if [accept] fails. *)
Definition api_handler (conn : option (list (option bytes))) : DM (list bytes * Action) :=
  match conn with
  | None | Some (None :: _) => mret ([], Continue)
  | Some [] => out ← api_command (str_pop []) []; mret (out, Continue)
  | Some (Some cmd :: lines) => out ← api_command (str_pop cmd) lines; mret (out, Continue)
  end.

(** The handler of a descriptor that the device was given. *)
Definition api_fd_handler (conn : list (option bytes)) : DM (list bytes * Action) :=
  match conn with
  | None :: _ => _ ← d_sys (sys_ TriggerExit); mret ([], Exit)
  | [] => out ← api_command (str_pop []) []; mret (out, Continue)
  | Some cmd :: lines => out ← api_command (str_pop cmd) lines; mret (out, Continue)
  end.
End Server.

(** ** What [get] prints, [set] reads *)

(** The lines that [set] has no use for. *)
Definition is_counter (l : bytes) : bool :=
  existsb (λ key, bool_decide (take (length key) l = key))
    [str "last_handshake_time_sec="; str "last_handshake_time_nsec="; str "rx_bytes="; str "tx_bytes="].

Definition settings (out : list bytes) : list bytes := List.filter (λ l, negb (is_counter l)) out.

Section ReadBack.
Context `{CryptoLaws, NetTableLaws, HashOrder, Base64, HexLaws}.

Abbreviation DM := (M Error dstate).

(** The values have the widths of their types. *)
Record peer_wf (p : Peer) : Prop := {
  pw_psk k : p.(p_preshared_key) = Some k → length k = KEY_SIZE;
  pw_keepalive n : persistent_keepalive p.(tunnel) = Some n → in_width 16 n;
  pw_endpoint a : p.(p_endpoint).(ep_addr) = Some a → socket_addr_wf a;
}.

Record device_wf (d : Device) : Prop := {
  dw_key k : d.(key_pair) = Some k → length k.1 = KEY_SIZE;
  dw_port : in_width 16 d.(listen_port);
  dw_fwmark m : d.(fwmark) = Some m → in_width 32 m;
}.

(** The variables after the lines of a peer: what it has not comes from before. *)
Definition resume (p : Peer) (c : section) : section :=
  MkSection c.(s_remove) c.(s_replace_ips)
    (match p.(p_endpoint).(ep_addr) with Some a => Some a | None => c.(s_endpoint) end)
    (match persistent_keepalive p.(tunnel) with Some n => Some n | None => c.(s_keepalive) end)
    c.(s_public_key)
    (match p.(p_preshared_key) with Some k => Some k | None => c.(s_preshared_key) end)
    (c.(s_allowed_ips) ++ ((λ '(ip, cidr), MkAllowedIP ip cidr) <$> allowed_ips p)).

Fixpoint restore_peers (c : section) (l : list (bytes * Peer)) : DM Z :=
  _ ← commit c;
  match l with
  | [] => mret 0
  | (k, p) :: l => restore_peers (resume p (with_s_public_key k (with_s_allowed_ips [] c))) l
  end.

(** The configuration operations that give a device the key, port and mark of
    [d] and then its peers, or the error number of the first that fails. *)
Definition restore_device (d : Device) (peers : DM Z) : DM Z :=
  _ ← (match d.(key_pair) with Some k => set_key k.1 | None => mret () end);
  r ← (if d.(listen_port) =? 0 then mret (Ok ()) else try_ (open_listen_socket d.(listen_port)));
  match r with
  | Err _ => mret EADDRINUSE
  | Ok _ =>
    r ← (match d.(fwmark) with Some m => try_ (set_fwmark m) | None => mret (Ok ()) end);
    match r with
    | Err _ => mret EADDRINUSE
    | Ok _ => peers
    end
  end.

(** A device like [d] with the peers of [l], where a peer without a setting
    takes it from the one before. *)
Definition restore (d : Device) (l : list (bytes * Peer)) : DM Z :=
  restore_device d (match l with [] => mret 0 | (k, p) :: l => restore_peers (resume p (new_section k)) l end).

(** A device like [d] with the peers of [l], each with the settings it has and
    no others. *)
Fixpoint restore_own_peers (l : list (bytes * Peer)) : DM Z :=
  match l with
  | [] => mret 0
  | (k, p) :: l => _ ← commit (resume p (new_section k)); restore_own_peers l
  end.

Definition restore_own (d : Device) (l : list (bytes * Peer)) : DM Z := restore_device d (restore_own_peers l).

(** No peer lacks a setting that the one before has. *)
Definition as_complete (p q : Peer) : Prop :=
  (is_Some p.(p_endpoint).(ep_addr) → is_Some q.(p_endpoint).(ep_addr)) ∧
  (is_Some (persistent_keepalive p.(tunnel)) → is_Some (persistent_keepalive q.(tunnel))) ∧
  (is_Some p.(p_preshared_key) → is_Some q.(p_preshared_key)).

Fixpoint no_gaps (l : list (bytes * Peer)) : Prop :=
  match l with
  | (_, p) :: ((_, q) :: _) as l' => as_complete p q ∧ no_gaps l'
  | _ => True
  end.

Lemma resume_complete k k' p q : as_complete p q →
  resume q (with_s_public_key k' (with_s_allowed_ips [] (resume p (new_section k)))) = resume q (new_section k').
Proof.
  assert (Hor : ∀ A (o o' : option A), (is_Some o → is_Some o') →
    match o' with Some a => Some a | None => match o with Some a => Some a | None => None end end =
    match o' with Some a => Some a | None => None end).
  { intros A [a|] [b|] Ho; [done| |done..]. by destruct Ho. }
  intros (He & Hk & Hp). unfold resume, new_section, with_s_public_key, with_s_allowed_ips. cbn.
  by rewrite (Hor _ _ _ He), (Hor _ _ _ Hk), (Hor _ _ _ Hp).
Qed.

Lemma restore_own_run d l s : no_gaps l → restore d l s = restore_own d l s.
Proof.
  intros Hl. unfold restore, restore_own, restore_device. apply bind_ext. intros _ s1. apply bind_ext. intros [] s2; [|done].
  apply bind_ext. intros [] s3; [|done]. clear -Hl. destruct l as [|[k p] l]; [done|]. revert k p s3 Hl.
  induction l as [|[k' q] l IH]; intros k p s; [done|]. intros [Hpq Hl]. cbn [restore_peers restore_own_peers].
  apply bind_ext. intros _ s1. rewrite (resume_complete k k' p q Hpq). by apply IH.
Qed.

Lemma line_peer key val c rest s :
  Forall (λ x, x ≠ equals) (str key) → 
  api_set_peer (Some (line key val) :: rest) c s =
    (r ← peer_line (str key) val c; match r with inl status => mret status | inr c => api_set_peer rest c end) s.
Proof.
  intros Hk. cbn [api_set_peer]. unfold line. rewrite app_comm_cons, app_assoc, str_pop_newline.
  rewrite decide_False by (by destruct (str key)). by rewrite splitn_2_app.
Qed.

Lemma line_device key val rest s :
  Forall (λ x, x ≠ equals) (str key) → Forall (λ x, x ≠ equals) val →
  api_set (Some (line key val) :: rest) s =
    (r ← device_line (str key) val;
     match r with
     | Next => api_set rest
     | Return status => mret status
     | PeerSection k => api_set_peer rest (new_section k)
     end) s.
Proof.
  intros Hk Hv. cbn [api_set]. unfold line. rewrite app_comm_cons, app_assoc, str_pop_newline.
  rewrite decide_False by (by destruct (str key)). by rewrite split_on_app, split_on_none.
Qed.

(** Go to the branch of a key. *)
Ltac pick := repeat first [rewrite decide_True by done | rewrite decide_False by done].

Ltac no_equals := repeat constructor; done.

Lemma line_peer_ok key val c c' rest s :
  Forall (λ x, x ≠ equals) (str key) → peer_line (str key) val c s = Ret (Ok (inr c'), s) →
  api_set_peer (Some (line key val) :: rest) c s = api_set_peer rest c' s.
Proof. intros Hk Hl. rewrite line_peer by done. by erewrite bind_ok by exact Hl. Qed.

Lemma read_preshared p c rest s : peer_wf p →
  api_set_peer ((Some <$> line_of "preshared_key" encode_hex p.(p_preshared_key)) ++ rest) c s =
  api_set_peer rest (with_s_preshared_key (match p.(p_preshared_key) with Some k => Some k | None => c.(s_preshared_key) end) c) s.
Proof.
  intros [Hk _ _]. destruct (p_preshared_key p) as [k|]; cbn [line_of fmap list_fmap app]; [|by destruct c].
  apply line_peer_ok; [no_equals|]. unfold peer_line. pick. rewrite encode_hex_lower.
  by erewrite bind_ok by (apply parse_key_hex; by apply Hk).
Qed.

Lemma read_keepalive p c rest s : peer_wf p →
  api_set_peer ((Some <$> line_of "persistent_keepalive_interval" (show_uint 10) (persistent_keepalive p.(tunnel))) ++ rest) c s =
  api_set_peer rest (with_s_keepalive (match persistent_keepalive p.(tunnel) with Some n => Some n | None => c.(s_keepalive) end) c) s.
Proof.
  intros [_ Hk _]. destruct (persistent_keepalive _) as [n|]; cbn [line_of fmap list_fmap app]; [|by destruct c].
  apply line_peer_ok; [no_equals|]. unfold peer_line. pick. by rewrite parse_uint_show by (by apply Hk).
Qed.

Lemma read_endpoint p c rest s : peer_wf p →
  api_set_peer ((Some <$> line_of "endpoint" show_socket_addr p.(p_endpoint).(ep_addr)) ++ rest) c s =
  api_set_peer rest (with_s_endpoint (match p.(p_endpoint).(ep_addr) with Some a => Some a | None => c.(s_endpoint) end) c) s.
Proof.
  intros [_ _ He]. destruct (ep_addr _) as [a|]; cbn [line_of fmap list_fmap app]; [|by destruct c].
  apply line_peer_ok; [no_equals|]. unfold peer_line. pick. by rewrite parse_socket_addr_show by (by apply He).
Qed.

Lemma slash_not_plain : ¬ plain (byte.of_Z 47).
Proof. unfold plain. change (code (byte.of_Z 47)) with 47. lia. Qed.

Lemma equals_not_plain : ¬ plain equals.
Proof. unfold plain. change (code equals) with 61. lia. Qed.

Lemma ip_wf_addr a : ip_wf a → ip_addr_wf a.
Proof. by destruct a. Qed.

Lemma parse_allowed_ip_show ip cidr : ip_wf ip → 0 ≤ cidr ≤ ip_width ip →
  parse_allowed_ip (show_ip ip ++ str "/" ++ show_uint 10 cidr) = Some (MkAllowedIP ip cidr).
Proof.
  intros Hip%ip_wf_addr Hc. assert (Hw : in_width 8 cidr) by (destruct ip; cbn in Hc; unfold in_width; lia).
  unfold parse_allowed_ip. change (str "/" ++ ?t) with (byte.of_Z 47 :: t).
  rewrite split_on_app by (apply (plain_not _ _ slash_not_plain), show_ip_plain, Hip).
  rewrite split_on_none by (apply (plain_not _ _ slash_not_plain), show_uint_plain; [lia|apply Hw]).
  rewrite parse_ip_show, parse_uint_show by done. destruct ip; cbn in Hc; by rewrite (proj2 (Z.leb_le cidr _)) by lia.
Qed.

Lemma read_allowed_ips l c rest s : Forall (λ e : IpAddr * Z, ip_wf e.1 ∧ 0 ≤ e.2 ≤ ip_width e.1) l →
  api_set_peer ((Some <$> ((λ '(ip, cidr), line "allowed_ip" (show_ip ip ++ str "/" ++ show_uint 10 cidr)) <$> l)) ++ rest) c s =
  api_set_peer rest (with_s_allowed_ips (c.(s_allowed_ips) ++ ((λ '(ip, cidr), MkAllowedIP ip cidr) <$> l)) c) s.
Proof.
  intros Hl. revert c. induction Hl as [|[ip cidr] l [Hip Hc] _ IH]; intros c.
  - cbn. rewrite app_nil_r. by destruct c.
  - cbn [fmap list_fmap app]. erewrite line_peer_ok; [|no_equals|unfold peer_line; pick; by rewrite parse_allowed_ip_show].
    rewrite IH. cbn [with_s_allowed_ips s_allowed_ips]. by rewrite <- app_assoc.
Qed.

(** The networks of a table are well formed. *)
Lemma allowed_ips_wf p : Forall (λ e : IpAddr * Z, ip_wf e.1 ∧ 0 ≤ e.2 ≤ ip_width e.1) (allowed_ips p).
Proof.
  unfold allowed_ips, ips_iter. apply Forall_fmap, Forall_fmap, Forall_true. intros [n d]. cbn. apply network_wf.
Qed.

(** The lines of a peer after its key. *)
Lemma read_settings k p c rest s : peer_wf p →
  api_set_peer ((Some <$> tail (setting_lines k p)) ++ rest) c s = api_set_peer rest (resume p c) s.
Proof.
  intros Hp. unfold setting_lines. cbn [tail]. rewrite !fmap_app, <- !app_assoc.
  rewrite read_preshared, read_keepalive, read_endpoint, read_allowed_ips by (done || apply allowed_ips_wf).
  by destruct c.
Qed.

Definition peer_lines (l : list (bytes * Peer)) : list bytes := l ≫= λ '(k, p), setting_lines k p.

Definition entry_wf (e : bytes * Peer) : Prop := length e.1 = KEY_SIZE ∧ peer_wf e.2.

Lemma read_peers l c s : Forall entry_wf l →
  api_set_peer ((Some <$> peer_lines l) ++ [Some [newline]]) c s = restore_peers c l s.
Proof.
  intros Hl. revert c s. induction Hl as [|[k p] l [Hk Hp] _ IH]; intros c s; [done|].
  change (peer_lines ((k, p) :: l)) with (setting_lines k p ++ peer_lines l).
  rewrite fmap_app, <- app_assoc. cbn [setting_lines fmap list_fmap app]. rewrite line_peer by no_equals.
  unfold peer_line. pick. cbn [restore_peers]. unfold mbind, M_bind.
  destruct (commit c s) as [[[[]|e] s1]|]; [|done..]. rewrite encode_hex_lower, parse_key_hex by done.
  rewrite <- IH, <- (read_settings k p) by done. done.
Qed.

(** The lines of the device. *)
Lemma read_private_key d rest s : device_wf d →
  api_set ((Some <$> line_of "private_key" (λ k, encode_hex k.1) d.(key_pair)) ++ rest) s =
  (_ ← (match d.(key_pair) with Some k => set_key k.1 | None => mret () end); api_set rest) s.
Proof.
  intros [Hk _ _]. destruct (key_pair d) as [k|]; [|done]. cbn [line_of fmap list_fmap app].
  rewrite encode_hex_lower, line_device by (no_equals || apply (plain_not _ _ equals_not_plain), hex_plain).
  unfold device_line. pick. unfold mbind, M_bind. rewrite parse_key_hex by (by apply Hk).
  by destruct (set_key k.1 s) as [[[[]|e] s1]|].
Qed.

Lemma read_listen_port d rest s : device_wf d →
  api_set ((Some <$> (if d.(listen_port) =? 0 then [] else [line "listen_port" (show_uint 10 d.(listen_port))])) ++ rest) s =
  (r ← (if d.(listen_port) =? 0 then mret (Ok ()) else try_ (open_listen_socket d.(listen_port)));
   match r with Err _ => mret EADDRINUSE | Ok _ => api_set rest end) s.
Proof.
  intros [_ Hp _]. destruct (listen_port d =? 0); [done|]. cbn [fmap list_fmap app].
  rewrite line_device by first [no_equals|apply (plain_not _ _ equals_not_plain), show_uint_plain; [lia|apply Hp]].
  unfold device_line. pick. rewrite parse_uint_show by done. unfold mbind, M_bind.
  by destruct (try_ (open_listen_socket _) s) as [[[[[]|e]|e] s1]|].
Qed.

Lemma read_fwmark d rest s : device_wf d →
  api_set ((Some <$> line_of "fwmark" (show_uint 10) d.(fwmark)) ++ rest) s =
  (r ← (match d.(fwmark) with Some m => try_ (set_fwmark m) | None => mret (Ok ()) end);
   match r with Err _ => mret EADDRINUSE | Ok _ => api_set rest end) s.
Proof.
  intros [_ _ Hm]. destruct (fwmark d) as [m|]; [|done]. cbn [line_of fmap list_fmap app]. specialize (Hm m eq_refl).
  rewrite line_device by first [no_equals|apply (plain_not _ _ equals_not_plain), show_uint_plain; [lia|apply Hm]].
  unfold device_line. pick. rewrite parse_uint_show by done. unfold mbind, M_bind.
  by destruct (try_ (set_fwmark _) s) as [[[[[]|e]|e] s1]|].
Qed.

Lemma read_sections l s : Forall entry_wf l →
  api_set ((Some <$> peer_lines l) ++ [Some [newline]]) s =
  match l with [] => mret 0 | (k, p) :: l => restore_peers (resume p (new_section k)) l end s.
Proof.
  intros Hl. destruct Hl as [|[k p] l [Hk Hp] Hl]; [done|].
  change (peer_lines ((k, p) :: l)) with (setting_lines k p ++ peer_lines l).
  rewrite fmap_app, <- app_assoc. cbn [setting_lines fmap list_fmap app].
  rewrite encode_hex_lower, line_device by (no_equals || apply (plain_not _ _ equals_not_plain), hex_plain).
  unfold device_line. pick. unfold mbind, M_bind. rewrite parse_key_hex by done.
  rewrite <- read_peers, <- (read_settings k p) by done. done.
Qed.

(** The settings of a device, as [set] reads them. *)
Lemma read_config d l s : device_wf d → Forall entry_wf l →
  api_set ((Some <$> device_lines d ++ peer_lines l) ++ [Some [newline]]) s = restore d l s.
Proof.
  intros Hd Hl. unfold device_lines, restore, restore_device. rewrite !fmap_app, <- !app_assoc.
  rewrite read_private_key by done. apply bind_ext. intros [] s1.
  rewrite read_listen_port by done. apply bind_ext. intros [[]|e] s2; [|done].
  rewrite read_fwmark by done. apply bind_ext. intros [[]|e] s3; [|done].
  by apply read_sections.
Qed.

(** *** What [get] prints *)

(** The peers, in the order [get] comes to them. *)
Definition peers_at (s : dstate) (l : list (bytes * nat)) : list (bytes * Peer) :=
  omap (λ e : bytes * nat, pair e.1 <$> s.(heap) !! e.2) l.

Lemma settings_app k l : settings (k ++ l) = settings k ++ settings l.
Proof. apply List.filter_app. Qed.

Lemma settings_all l : Forall (λ x, is_counter x = false) l → settings l = l.
Proof. induction 1 as [|x l Hx _ IH]; [done|]. unfold settings in *. cbn [List.filter]. rewrite Hx. cbn [negb]. by f_equal. Qed.

Lemma settings_none l : Forall (λ x, is_counter x = true) l → settings l = [].
Proof. induction 1 as [|x l Hx _ IH]; [done|]. unfold settings in *. cbn [List.filter]. by rewrite Hx. Qed.

Lemma line_of_settings {A} key f (o : option A) :
  (∀ val, is_counter (line key val) = false) → Forall (λ x, is_counter x = false) (line_of key f o).
Proof. intros Hk. destruct o; by constructor. Qed.

Lemma settings_device d : settings (device_lines d) = device_lines d.
Proof.
  apply settings_all. unfold device_lines. repeat apply Forall_app_2; [by apply line_of_settings| |by apply line_of_settings].
  destruct (_ =? 0); by repeat constructor.
Qed.

Lemma settings_setting k p : settings (setting_lines k p) = setting_lines k p.
Proof.
  apply settings_all. unfold setting_lines. constructor; [done|].
  repeat apply Forall_app_2; [by apply line_of_settings..|]. apply Forall_fmap, Forall_true. by intros [].
Qed.

Definition same_tunnel (a b : Tunn * world) : Prop := a.1 = b.1.
#[local] Instance same_tunnel_pre : PreOrder same_tunnel.
Proof. split; [done|]. unfold same_tunnel. intros ? ? ? Ha Hb. by rewrite Ha. Qed.

Lemma t_io_same {A} (m : M WireGuardError env A) : preserves same_tunnel (t_io m).
Proof. intros [t w] r s'. unfold t_io, zoom. by destruct (m _) as [[? ?]|]; intros [= _ <-]. Qed.

Lemma time_same : preserves same_tunnel time_since_last_handshake.
Proof. unfold time_since_last_handshake, since, t_gets. pres; apply t_io_same. Qed.

Lemma handshake_time_same : preserves same_tunnel last_handshake_time.
Proof. unfold last_handshake_time. pres; [apply t_io_same|apply time_same]. Qed.

Lemma stats_same : preserves same_tunnel stats.
Proof. unfold stats, t_gets. pres. apply time_same. Qed.

Lemma on_tunnel_same {A} r (m : M WireGuardError (Tunn * world) A) s x s' :
  preserves same_tunnel m → on_tunnel r m s = Ret (x, s') → s'.(dev) = s.(dev) ∧ s'.(heap) = s.(heap).
Proof.
  intros Hm. unfold on_tunnel. destruct (heap s !! r) as [p|] eqn:Hp; [|done].
  destruct (m _) as [[y [t' w']]|] eqn:Hr; [|done]. intros [= _ <-]. apply Hm in Hr. unfold same_tunnel in Hr. cbn in Hr. subst t'.
  split; [done|]. cbn. apply insert_id. rewrite Hp. by destruct p.
Qed.

Lemma counter_lines_run r s c s' : counter_lines r s = Ret (Ok c, s') →
  s'.(dev) = s.(dev) ∧ s'.(heap) = s.(heap) ∧ settings c = [].
Proof.
  unfold counter_lines. intros (t & s1 & Ht & Hr)%bind_inv. apply bind_inv in Hr as (st & s2 & Hst & [= <- <-]).
  apply on_tunnel_same in Ht as [Hd1 Hh1]; [|apply handshake_time_same].
  apply on_tunnel_same in Hst as [Hd2 Hh2]; [|apply stats_same].
  split_and!; [congruence|congruence|]. apply settings_none, Forall_app_2.
  - destruct t as [[time|]|]; by repeat constructor.
  - destruct st as [[[[[? ?] ?] ?] ?]|]; by repeat constructor.
Qed.

Lemma peer_report_run k r s out s' : peer_report k r s = Ret (Ok out, s') →
  ∃ p, s.(heap) !! r = Some p ∧ s'.(heap) = s.(heap) ∧ settings out = setting_lines k p.
Proof.
  unfold peer_report. intros (p & s1 & Hg & Hr)%bind_inv.
  unfold peer_gets, on_peer, gets in Hg. destruct (heap s !! r) as [q|] eqn:Hq; [|done]. injection Hg as <- <-.
  unfold mbind, M_bind in Hr. destruct (counter_lines r _) as [[[c|e] s2]|] eqn:Hc; [|done..]. injection Hr as Hout <-.
  apply counter_lines_run in Hc as (_ & Hh & Hc). exists q. split; [done|]. split.
  - rewrite Hh. cbn. by rewrite insert_id.
  - change (setting_lines k q ++ c = out) in Hout. by rewrite <- Hout, settings_app, settings_setting, Hc, app_nil_r.
Qed.

Lemma peers_lines_run l s out s' : peers_lines l s = Ret (Ok out, s') → settings out = peer_lines (peers_at s l).
Proof.
  revert s out. induction l as [|[k r] l IH]; intros s out; cbn [peers_lines]; [by intros [= <- <-]|].
  intros (report & s1 & Hg & Hr)%bind_inv. apply bind_inv in Hr as (rest & s2 & Hrest & [= <- <-]).
  apply peer_report_run in Hg as (p & Hp & Hh & Hs). apply IH in Hrest.
  rewrite settings_app, Hs, Hrest. unfold peers_at. rewrite Hh. cbn [omap list_omap fst snd]. rewrite Hp. done.
Qed.

(** C33.  What [get] prints, [set] reads: the output of [get] without the
    statistics, given to [set], runs the configuration operations with the key,
    port and mark of the device it was printed from and then, for each peer in
    turn, with its key and networks and with the preshared key, keepalive and
    endpoint it has, where one that it does not have is taken from the peer before
    ([resume]).  So the settings are exactly those of the device when no peer
    lacks one that the peer before has. *)
Theorem get_reads_back s out s' s2 :
  api_get s = Ret (Ok out, s') → device_wf s.(dev) → Forall entry_wf (peers_at s (entries s.(dev).(peers))) →
  let l := peers_at s (entries s.(dev).(peers)) in
  let read := api_set ((Some <$> settings out) ++ [Some [newline]]) s2 in
  read = restore s.(dev) l s2 ∧ (no_gaps l → read = restore_own s.(dev) l s2).
Proof.
  intros Hg Hd Hl l read. assert (Hread : read = restore s.(dev) l s2); [|split; [done|intros Hl'; by rewrite Hread, restore_own_run]].
  unfold read. clear read. revert Hg. unfold api_get. intros (d & s1 & [= <- <-] & Hr)%bind_inv.
  apply bind_inv in Hr as (rest & s3 & Hrest & [= <- <-]).
  apply peers_lines_run in Hrest. rewrite settings_app, settings_device, Hrest. by apply read_config.
Qed.

(** [cmd.pop()] takes the newline, or whatever comes last: a line that ends
    with the stream loses its last character. *)
Lemma unfinished_line_loses_character l c s :
  code c < 128 → api_set [Some (l ++ [c])] s = api_set [Some (l ++ [newline])] s.
Proof.
  intros Hc. cbn [api_set]. rewrite str_pop_newline. assert (str_pop (l ++ [c]) = l) as ->; [|done].
  unfold str_pop. rewrite rev_app_distr. cbn [rev app drop_last_char].
  rewrite (proj2 (Z.leb_gt 128 _)) by done. apply rev_involutive.
Qed.
End ReadBack.

(** ** Witnesses *)

Section ServerWitnesses.
#[local] Existing Instance toy_crypto.
#[local] Existing Instance toy_laws.
#[local] Existing Instance map_table.
#[local] Existing Instance map_table_laws.
#[local] Existing Instance by_key.
#[local] Existing Instance no_base64.

#[local] Existing Instance lower_hex.
#[local] Existing Instance lower_hex_laws.

(** The device of the handlers' witnesses with a port, a mark and an endpoint. *)
Definition far_endpoint : SocketAddr :=
  SockV6 (byte.of_Z <$> [32; 1; 13; 184; 0; 0; 0; 0; 0; 0; 0; 0; 0; 0; 0; 1]) 51820 3.
Definition shown_peer : Peer := with_endpoint (MkEndpoint (Some far_endpoint) None) bob_peer.
Definition shown_device : dstate :=
  MkD (with_listen_port 51820 (with_fwmark (Some 7) bob_device.(dev))) {[ 5%nat := shown_peer ]}
    bob_device.(dworld) bob_device.(dos).

Lemma shown_peers : peers_at shown_device (entries shown_device.(dev).(peers)) = [(x25519_public k1, shown_peer)].
Proof.
  unfold peers_at. change (entries shown_device.(dev).(peers)) with (map_to_list ({[ x25519_public k1 := 5%nat ]} : gmap bytes nat)).
  rewrite map_to_list_singleton. reflexivity.
Qed.

Lemma shown_device_wf : device_wf shown_device.(dev).
Proof.
  split; [intros ? [= <-]; vm_compute; reflexivity|cbn; unfold in_width; lia|intros ? [= <-]; unfold in_width; lia].
Qed.

Lemma shown_peer_wf : peer_wf shown_peer.
Proof.
  split.
  - intros k Hk. change (None = Some k) in Hk. discriminate.
  - intros n Hn. change (persistent_keepalive bob_tunn = Some n) in Hn.
    assert (Ht : persistent_keepalive bob_tunn = None) by (vm_compute; reflexivity). rewrite Ht in Hn. discriminate.
  - intros a Ha. change (Some far_endpoint = Some a) in Ha. injection Ha as <-.
    split; [reflexivity|]. unfold in_width. lia.
Qed.

Lemma shown_run : ∃ out s', api_get shown_device = Ret (Ok out, s').
Proof. apply is_ok_run. vm_compute. reflexivity. Qed.

Lemma get_reads_back_witness :
  ∃ out s', api_get shown_device = Ret (Ok out, s') ∧
    api_set ((Some <$> settings out) ++ [Some [newline]]) test_device =
    restore_own shown_device.(dev) [(x25519_public k1, shown_peer)] test_device.
Proof.
  destruct shown_run as (out & s' & Hr). exists out, s'. split; [exact Hr|]. rewrite <- shown_peers.
  apply (get_reads_back shown_device out s' test_device Hr); [exact shown_device_wf| |rewrite shown_peers; exact I].
  rewrite shown_peers. apply Forall_singleton. split; [vm_compute; reflexivity|exact shown_peer_wf].
Defined.
End ServerWitnesses.
