(* ===== verification/Startup.v ===== *)
(** * Making a device ([Device::new] of device/mod.rs, with the registrations of
      device/api.rs)

    A new device registers its handlers with the registry of EventPoll.v: the
    configuration socket or descriptor, the monitor of the socket, two signals,
    the interface, the two notifiers and the two timers.  A handler is named by
    what it is for; the answers of the system calls are given. *)

From stdpp Require Import gmultiset.
From Stdlib Require Import Strings.String.
From S2P Require Import Prelude Crypto Packet Tai64N Handshake RateLimiter Tunn Lfsr Text Serialization AllowedIps Peer.
From S2P Require Import Tun Device EventPoll Handlers.
From coqutil Require Import Byte.

Inductive handler : Type :=
| HApi
| HApiFd
| HMonitor
| HSignal (signal : Z)
| HIface
| HYield
| HExit
| HReset
| HPeers.

Definition SIGINT : Z := 2.
Definition SIGTERM : Z := 15.

(** What the operating system answers. *)
Record answers := MkAnswers {
  an_epoll : option Z;
  an_tun : option Z;
  an_tunsetiff : ifreq → bool;
  an_getfl : option Z;
  an_setfl : bool;
  an_socket : option Z;
  an_mtu : ifreq → option Z;
  an_listener : option Z;                       (* [UnixListener::bind] *)
  an_timer : handler → option Z * option Z * bool;
  an_signal : Z → option Z;
  an_eventfd : handler → option Z;
  an_ctl : handler → bool;                      (* [epoll_ctl] *)
}.

(** The parts of the device that its making fills. *)
Record boot := MkBoot {
  b_queue : EventPoll handler;
  b_iface : TunSocket;
  b_mtu : Z;
  b_yield : option Z;
  b_exit : option Z;
  b_paths : list bytes;
}.

Definition with_queue (q : EventPoll handler) (b : boot) : boot :=
  MkBoot q b.(b_iface) b.(b_mtu) b.(b_yield) b.(b_exit) b.(b_paths).
Definition with_notices (y x : option Z) (b : boot) : boot :=
  MkBoot b.(b_queue) b.(b_iface) b.(b_mtu) y x b.(b_paths).
Definition with_paths (l : list bytes) (b : boot) : boot :=
  MkBoot b.(b_queue) b.(b_iface) b.(b_mtu) b.(b_yield) b.(b_exit) l.

Definition with_mtu (m : Z) (b : boot) : boot :=
  MkBoot b.(b_queue) b.(b_iface) m b.(b_yield) b.(b_exit) b.(b_paths).

Abbreviation BM := (M Error boot).

Section Startup.
Context (os : answers).

Definition on_queue {A} (m : M Error (EventPoll handler) A) : BM A := zoom b_queue with_queue m.

(** A periodic event. *)
Definition periodic (h : handler) : BM Z :=
  let '(boottime, monotonic, set) := os.(an_timer) h in
  on_queue (new_periodic_event (os.(an_ctl) h) boottime monotonic set h).

Definition register_monitor : BM () := _ ← periodic HMonitor; mret ().

Definition register_api_signal_handlers : BM () :=
  _ ← on_queue (new_signal_event (os.(an_ctl) (HSignal SIGINT)) (os.(an_signal) SIGINT) (HSignal SIGINT));
  _ ← on_queue (new_signal_event (os.(an_ctl) (HSignal SIGTERM)) (os.(an_signal) SIGTERM) (HSignal SIGTERM));
  mret ().

(** The directory and the old socket are made and removed without looking at
    the outcome. *)
Definition register_api_handler : BM () :=
  iface ← gets b_iface;
  let path := str "/var/run/wireguard/" ++ str "/" ++ name iface ++ str ".sock" in
  match os.(an_listener) with
  | None => throw ApiSocket
  | Some listener =>
    _ ← modify (λ b, with_paths (b.(b_paths) ++ [path]) b);
    _ ← on_queue (new_event (os.(an_ctl) HApi) listener HApi);
    _ ← register_monitor;
    register_api_signal_handlers
  end.

Definition register_api_fd (fd : Z) : BM () := _ ← on_queue (new_event (os.(an_ctl) HApiFd) fd HApiFd); mret ().

Definition register_iface_handler (iface : TunSocket) : BM () :=
  _ ← on_queue (new_event (os.(an_ctl) HIface) iface.(tun_fd) HIface); mret ().

Definition register_notifiers : BM () :=
  yield_ev ← on_queue (new_notifier (os.(an_ctl) HYield) (os.(an_eventfd) HYield) HYield);
  _ ← modify (λ b, with_notices (Some yield_ev) b.(b_exit) b);
  exit_ev ← on_queue (new_notifier (os.(an_ctl) HExit) (os.(an_eventfd) HExit) HExit);
  modify (λ b, with_notices b.(b_yield) (Some exit_ev) b).

Definition register_timers : BM () :=
  _ ← periodic HReset;
  _ ← periodic HPeers;
  mret ().

(** The body of [Device::new] after the struct. *)
Definition register_all (uapi_fd : Z) : BM () :=
  _ ← (if 0 <=? uapi_fd then register_api_fd uapi_fd else register_api_handler);
  iface ← gets b_iface;
  _ ← register_iface_handler iface;
  _ ← register_notifiers;
  register_timers.

(** An error drops the interface. *)
Definition or_drop {A} (iface : TunSocket) (m : OM A) : OM A :=
  r ← try_ m;
  match r with Ok a => mret a | Err e => _ ← tun_drop iface; throw e end.

(** [Device::new], over the descriptors that are open; the rest of the struct
    is [Device_new] of Device.v. *)
Definition make_device (ifname : bytes) (uapi_fd : Z) : OM boot :=
  poll ← lift_result (EventPoll_new os.(an_epoll));
  iface ← TunSocket_new os.(an_tun) os.(an_tunsetiff) ifname;
  iface ← set_non_blocking os.(an_getfl) os.(an_setfl) iface;
  mtu ← or_drop iface (mtu os.(an_socket) os.(an_mtu) iface);
  '(_, b) ← or_drop iface (on_local (MkBoot poll iface mtu None None []) (register_all uapi_fd));
  mret b.
End Startup.

(** [trigger_yield], [trigger_exit] and [cancel_yield] *)
Definition notice_trigger (notice : boot → option Z) : BM () :=
  n ← gets notice; fd ← unwrap n; on_queue (trigger_notification fd).

Definition notice_stop (notice : boot → option Z) : BM () :=
  n ← gets notice; fd ← unwrap n; on_queue (stop_notification fd).

(** The handler of the monitor: [exists_] says whether the socket is still
    there, [mtu] is the answer of the interface. *)
Definition monitor (exists_ : bool) (mtu : result Error Z) : BM Action :=
  if negb exists_ then _ ← notice_trigger b_exit; mret Exit
  else
    _ ← (match mtu with Ok m => modify (with_mtu m) | Err _ => mret () end);
    mret Continue.

(** ** What is registered *)

(** Epoll reports the event again and again. *)
Definition armed {Handler} (q : EventPoll Handler) (fd : Z) (a : nat) (ev : Event Handler) : Prop :=
  Z.testbit ev.(e_events) 30 = false ∧
  ∃ flags, q.(epoll) !! fd = Some (MkInterest flags a true) ∧ Z.testbit flags 30 = false.

(** The event under a descriptor has handler [h]; a notifier is armed. *)
Definition at_fd {Handler} (q : EventPoll Handler) (fd : Z) (h : Handler) (notifier : bool) : Prop :=
  ∃ a ev, q.(events) !! Z.to_nat fd = Some (Some a) ∧ q.(boxes) !! a = Some ev ∧ ev.(e_fd) = fd ∧
    ev.(e_handler) = h ∧ ev.(e_notifier) = notifier ∧ (notifier = true → armed q fd a ev).

Section Registrations.
Context {Handler : Type}.

Lemma at_registered ev (q : EventPoll Handler) g :
  poll_inv q g → (ev.(e_notifier) = true → Z.testbit ev.(e_events) 30 = false) →
  at_fd (registered_at true ev q) ev.(e_fd) ev.(e_handler) ev.(e_notifier).
Proof.
  intros Hinv Hmany. set (a := fresh (dom q.(boxes))). exists a, (pointing a ev). split_and!; try done.
  - apply slot_lookup. by left.
  - cbn. apply (without_old_lookup q g); [done|apply not_elem_of_dom, is_fresh|by left].
  - intros Hn%Hmany. split; [done|]. exists (e_events ev). split; [|done]. cbn. by rewrite lookup_insert_eq.
Qed.

Lemma at_other ok ev (q : EventPoll Handler) g fd h n :
  poll_inv q g → 0 ≤ ev.(e_fd) → 0 ≤ fd → fd ≠ ev.(e_fd) → at_fd q fd h n → at_fd (registered_at ok ev q) fd h n.
Proof.
  intros Hinv He Hfd Hne (b & x & Hs & Hb & Hx & Hh & Hn & Har). exists b, x. split_and!; try done.
  - cbn. apply slot_lookup. right. split; [lia|done].
  - cbn. apply (without_old_lookup q g); [done|apply not_elem_of_dom, is_fresh|]. right.
    split_and!; [|done|].
    + intros ->. apply (is_fresh (dom (boxes q))), elem_of_dom. eauto.
    + intros Hi. destruct (pi_slot _ _ Hinv _ _ Hi) as (y & Hy & Hyf). rewrite Hb in Hy. injection Hy as <-. lia.
  - intros (Hev & flags & Hit & Hfl)%Har. split; [done|]. exists flags. split; [|done]. cbn.
    destruct ok; rewrite ?lookup_insert_ne, lookup_delete_ne; done.
Qed.

(** [new] registers [h]: it answers its descriptor, and the events under other
    descriptors stay. *)
Definition registers_as (fd : option Z) (h : Handler) (n : bool) (new : M Error (EventPoll Handler) Z) : Prop :=
  ∀ q r q', poll_inv q ∅ → (∀ x, fd = Some x → 0 ≤ x) → new q = Ret (Ok r, q') →
    fd = Some r ∧ poll_inv q' ∅ ∧ at_fd q' r h n ∧
    ∀ fd' h' n', 0 ≤ fd' → fd' ≠ r → at_fd q fd' h' n' → at_fd q' fd' h' n'.

Lemma register_as ok ev :
  Z.testbit ev.(e_events) 30 = negb ev.(e_notifier) →
  registers_as (Some ev.(e_fd)) ev.(e_handler) ev.(e_notifier) (register_event (Handler := Handler) ok ev).
Proof.
  intros Hone q r q' Hinv Hfd Hr. specialize (Hfd _ eq_refl). rewrite (register_run ok ev q ∅ Hinv Hfd) in Hr.
  destruct ok; [|done]. injection Hr as <- <-. split_and!; [done| |eapply at_registered; [done|by rewrite Hone; intros ->]|].
  - apply register_inv; [done|done|by rewrite Hone; intros ->|]. intros a _. multiset_solver.
  - intros fd' h' n' H0 Hne Hat. by eapply at_other.
Qed.

Lemma event_as ok fd h : registers_as (Some fd) h false (new_event (Handler := Handler) ok fd h).
Proof. by apply (register_as ok (MkEvent _ 0 fd h false false)). Qed.

Lemma signal_as ok sfd h : registers_as sfd h false (new_signal_event (Handler := Handler) ok sfd h).
Proof. destruct sfd as [fd|]; [|done]. by apply (register_as ok (MkEvent _ 0 fd h false true)). Qed.

Lemma periodic_as ok boottime monotonic set h :
  registers_as (match boottime with Some fd => Some fd | None => monotonic end) h false
    (new_periodic_event (Handler := Handler) ok boottime monotonic set h).
Proof.
  unfold new_periodic_event. destruct (match boottime with Some _ => _ | None => _ end) as [fd|]; [|done].
  destruct set; [|done]. by apply (register_as ok (MkEvent _ 0 fd h false true)).
Qed.

Lemma notifier_as ok efd h : registers_as efd h true (new_notifier (Handler := Handler) ok efd h).
Proof.
  destruct efd as [fd|]; [|done]. intros q r q' Hinv Hfd Hr. unfold new_notifier in Hr.
  erewrite bind_ok in Hr by reflexivity.
  destruct (register_as ok (MkEvent EPOLLIN 0 fd h true false) ltac:(done) _ r q' (inv_counters _ _ _ Hinv) Hfd Hr) as (H1 & H2 & H3 & H4).
  split_and!; [done|done|done|]. intros fd' h' n' H0 Hne Hat. by apply H4.
Qed.
End Registrations.

Section Made.
Context (os : answers) (iface : TunSocket) (uapi_fd : Z).

(** The descriptor that a handler waits for. *)
Definition handler_fd (h : handler) : option Z :=
  match h with
  | HApi => os.(an_listener)
  | HApiFd => if 0 <=? uapi_fd then Some uapi_fd else None
  | HMonitor | HReset | HPeers =>
    let '(boottime, monotonic, _) := os.(an_timer) h in match boottime with Some fd => Some fd | None => monotonic end
  | HSignal signal => os.(an_signal) signal
  | HIface => Some iface.(tun_fd)
  | HYield | HExit => os.(an_eventfd) h
  end.

(** The system gives descriptors that are not negative, and no two that are
    the same. *)
Record answers_ok : Prop := {
  ao_nonneg h fd : handler_fd h = Some fd → 0 ≤ fd;
  ao_distinct h h' fd : handler_fd h = Some fd → handler_fd h' = Some fd → h = h';
}.

Context (Hos : answers_ok).

(** The handlers of [hs] are registered. *)
Record has (hs : list (handler * bool)) (b : boot) : Prop := {
  has_inv : poll_inv b.(b_queue) ∅;
  has_iface : b.(b_iface) = iface;
  has_at h n : (h, n) ∈ hs → ∃ fd, handler_fd h = Some fd ∧ at_fd b.(b_queue) fd h n;
}.

Lemma on_queue_has h n new hs b r b' :
  registers_as (handler_fd h) h n new → h ∉ hs.*1 → has hs b → on_queue new b = Ret (Ok r, b') →
  has ((h, n) :: hs) b' ∧ handler_fd h = Some r ∧ b'.(b_yield) = b.(b_yield) ∧ b'.(b_exit) = b.(b_exit).
Proof.
  intros Hnew Hh Hb. unfold on_queue, zoom. destruct (new (b_queue b)) as [[[r'|e] q']|] eqn:Hr; [|done..].
  intros [= <- <-]. destruct Hb as [Hinv Hi Hat].
  destruct (Hnew _ _ _ Hinv ltac:(apply (ao_nonneg Hos)) Hr) as (Hfd & Hinv' & Hself & Hothers).
  split_and!; [|done..]. split; [done|done|]. cbn. intros h' n' [[= -> ->]|Hin]%elem_of_cons; [eauto|].
  destruct (Hat h' n' Hin) as (fd' & Hfd' & Hat'). exists fd'. split; [done|].
  apply Hothers; [by eapply (ao_nonneg Hos)| |done]. intros ->. apply Hh.
  rewrite (ao_distinct Hos h h' r' Hfd Hfd'). apply list_elem_of_fmap. by exists (h', n').
Qed.

Lemma periodic_has h hs b r b' :
  (match h with HMonitor | HReset | HPeers => True | _ => False end) → h ∉ hs.*1 → has hs b →
  periodic os h b = Ret (Ok r, b') →
  has ((h, false) :: hs) b' ∧ b'.(b_yield) = b.(b_yield) ∧ b'.(b_exit) = b.(b_exit).
Proof.
  intros Hk Hh Hb. unfold periodic. destruct (an_timer os h) as [[bt mt] set] eqn:Ht. intros Hr.
  apply (on_queue_has h false _ hs) in Hr as (Hb' & _ & Hrest); [done| |done|done].
  assert (handler_fd h = match bt with Some fd => Some fd | None => mt end) as ->; [|apply periodic_as].
  by destruct h; try done; cbn; rewrite Ht.
Qed.

Lemma notifiers_has hs b r b' :
  HYield ∉ hs.*1 → HExit ∉ hs.*1 → has hs b → register_notifiers os b = Ret (Ok r, b') →
  has ((HExit, true) :: (HYield, true) :: hs) b' ∧
    b'.(b_yield) = os.(an_eventfd) HYield ∧ b'.(b_exit) = os.(an_eventfd) HExit.
Proof.
  intros Hy Hx Hb. unfold register_notifiers. intros (y & b1 & Hr1 & Hr)%bind_inv.
  apply (on_queue_has HYield true _ hs) in Hr1 as (Hb1 & Hfy & _); [|apply (notifier_as _ (an_eventfd os HYield))|done|done].
  apply bind_inv in Hr as ([] & b2 & [= <-] & Hr). apply bind_inv in Hr as (x & b3 & Hr3 & [= _ <-]).
  apply (on_queue_has HExit true _ ((HYield, true) :: hs)) in Hr3 as (Hb3 & Hfx & Ey & _);
    [|apply (notifier_as _ (an_eventfd os HExit))|set_solver|by destruct Hb1].
  split; [by destruct Hb3|]. cbn in *. split; [by rewrite Ey, <- Hfy|by rewrite <- Hfx].
Qed.

Lemma timers_has hs b r b' :
  HReset ∉ hs.*1 → HPeers ∉ hs.*1 → has hs b → register_timers os b = Ret (Ok r, b') →
  has ((HPeers, false) :: (HReset, false) :: hs) b' ∧ b'.(b_yield) = b.(b_yield) ∧ b'.(b_exit) = b.(b_exit).
Proof.
  intros H1 H2 Hb. unfold register_timers. intros (x & b1 & Hr1 & Hr)%bind_inv.
  apply (periodic_has HReset hs) in Hr1 as (Hb1 & E1 & E2); [|done..].
  apply bind_inv in Hr as (y & b2 & Hr2 & [= _ <-]).
  apply (periodic_has HPeers ((HReset, false) :: hs)) in Hr2 as (Hb2 & E3 & E4); [|done|set_solver|done].
  split; [done|]. by rewrite E3, E4.
Qed.

Definition for_api (h : handler) : bool :=
  match h with HApi | HApiFd | HMonitor | HSignal _ => true | _ => false end.

Lemma api_has b r b' :
  has [] b → (if 0 <=? uapi_fd then register_api_fd os uapi_fd else register_api_handler os) b = Ret (Ok r, b') →
  ∃ hs, has hs b' ∧ Forall (λ e, for_api e.1 = true) hs.
Proof.
  intros Hb. destruct (0 <=? uapi_fd) eqn:Hu.
  - unfold register_api_fd. intros (x & b1 & Hr & [= _ <-])%bind_inv.
    apply (on_queue_has HApiFd false _ []) in Hr as (Hb1 & _);
      [|cbn; rewrite Hu; apply event_as|set_solver|done]. eexists. split; [exact Hb1|by repeat constructor].
  - unfold register_api_handler. intros (i & b1 & [= <- <-] & Hr)%bind_inv.
    destruct (an_listener os) as [l|] eqn:Hl; [|done].
    apply bind_inv in Hr as ([] & b2 & [= <-] & Hr). apply bind_inv in Hr as (x & b3 & H3 & Hr).
    apply (on_queue_has HApi false _ []) in H3 as (Hb3 & _); [|cbn; rewrite Hl; apply event_as|set_solver|by destruct Hb].
    apply bind_inv in Hr as ([] & b4 & H4 & Hr). unfold register_monitor in H4. apply bind_inv in H4 as (y & b5 & H5 & [= <-]).
    apply (periodic_has _ [(HApi, false)]) in H5 as (Hb5 & _); [|done|set_solver|done].
    unfold register_api_signal_handlers in Hr. apply bind_inv in Hr as (z & b6 & H6 & Hr).
    edestruct (on_queue_has (HSignal SIGINT) false) as (Hb6 & _); [apply signal_as| |exact Hb5|exact H6|]; [set_solver|].
    apply bind_inv in Hr as (w & b7 & H7 & [= _ <-]).
    edestruct (on_queue_has (HSignal SIGTERM) false) as (Hb7 & _); [apply signal_as| |exact Hb6|exact H7|]; [set_solver|].
    eexists. split; [exact Hb7|by repeat constructor].
Qed.

(** All that a device waits for is registered. *)
Lemma register_all_has b r b' :
  has [] b → register_all os uapi_fd b = Ret (Ok r, b') →
  ∃ hs, has ((HPeers, false) :: (HReset, false) :: (HExit, true) :: (HYield, true) :: (HIface, false) :: hs) b' ∧
    b'.(b_yield) = os.(an_eventfd) HYield ∧ b'.(b_exit) = os.(an_eventfd) HExit.
Proof.
  intros Hb. unfold register_all. intros (x & b1 & H1 & Hr)%bind_inv.
  destruct (api_has b x b1 Hb H1) as (hs & Hb1 & Hapi).
  assert (Hno : ∀ h, for_api h = false → h ∉ hs.*1).
  { intros h Hh ([h' n] & -> & Hin)%list_elem_of_fmap. rewrite Forall_forall in Hapi. by rewrite (Hapi _ Hin) in Hh. }
  apply bind_inv in Hr as (i & b2 & [= <- <-] & Hr). apply bind_inv in Hr as (y & b3 & H3 & Hr).
  unfold register_iface_handler in H3. apply bind_inv in H3 as (z & b4 & H4 & [= _ <-]). rewrite (has_iface _ _ Hb1) in H4.
  apply (on_queue_has HIface false _ hs) in H4 as (Hb4 & _); [|apply event_as|by apply Hno|done].
  apply bind_inv in Hr as (w & b5 & H5 & Hr).
  apply (notifiers_has ((HIface, false) :: hs)) in H5 as (Hb5 & Ey & Ex); [| | |done].
  2,3: cbn; apply not_elem_of_cons; (split; [done|by apply Hno]).
  apply (timers_has ((HExit, true) :: (HYield, true) :: (HIface, false) :: hs)) in Hr as (Hb6 & Fy & Fx); [| | |done].
  2,3: cbn; rewrite !not_elem_of_cons; (split_and!; [done..|by apply Hno]).
  exists hs. split; [done|]. by rewrite Fy, Fx.
Qed.
End Made.

(** Whatever the device does with the queue that spares a descriptor, the event
    under it stays. *)
Section Spared.
Context {Handler : Type} (fd : Z) (fd_ok : 0 ≤ fd).

Definition spares (op : poll_op (Handler := Handler)) (s : EventPoll Handler * gmultiset nat) : Prop :=
  match op with
  | ONew _ _ fd' _ | OClear fd' => fd' ≠ fd
  | OCancel a | OWritable a _ => s.1.(events) !! Z.to_nat fd ≠ Some (Some a)
  | _ => True
  end.

Fixpoint all_spare (ops : list poll_op) (s : EventPoll Handler * gmultiset nat) : Prop :=
  match ops with
  | [] => True
  | op :: ops => spares op s ∧ ∀ s', run_op op s = Ret s' → all_spare ops s'
  end.

Lemma at_same (q q' : EventPoll Handler) h n :
  q'.(events) = q.(events) → q'.(boxes) = q.(boxes) →
  (∀ a ev, q.(boxes) !! a = Some ev → q.(events) !! Z.to_nat fd = Some (Some a) → armed q fd a ev → armed q' fd a ev) →
  at_fd q fd h n → at_fd q' fd h n.
Proof. intros He Hb Har (a & ev & ? & ? & ? & ? & ? & Ha). exists a, ev. rewrite He, Hb. split_and!; auto. Qed.

Lemma spared_new kind ok fd' h' (q : EventPoll Handler) g r q' h n :
  poll_inv q g → 0 ≤ fd' → fd ≠ fd' → at_fd q fd h n → new_of_kind kind ok fd' h' q = Ret (r, q') → at_fd q' fd h n.
Proof.
  intros Hinv Hfd Hne Hat.
  assert (Hreg : ∀ ev q0, ev.(e_fd) = fd' → poll_inv q0 g → at_fd q0 fd h n → register_event ok ev q0 = Ret (r, q') → at_fd q' fd h n).
  { intros ev q0 Hev Hinv0 Hat0. rewrite (register_run ok ev q0 g Hinv0) by lia. intros [= _ <-].
    apply (at_other ok ev q0 g); [done|lia|done|lia|done]. }
  destruct kind; cbn [new_of_kind]; unfold new_event, new_write_event, new_periodic_event, new_signal_event;
    try (intros Hr; eapply (Hreg _ q); [|exact Hinv|exact Hat|exact Hr]; done).
  unfold new_notifier. erewrite bind_ok by reflexivity. apply Hreg; [done|by apply inv_counters|done].
Qed.

Lemma spared_clear i (q : EventPoll Handler) g r q' h n :
  poll_inv q g → i ≠ fd → at_fd q fd h n → clear_event_by_fd i q = Ret (r, q') → at_fd q' fd h n.
Proof.
  intros Hinv Hne Hat. unfold clear_event_by_fd, assert_. destruct (Z.leb_spec 0 i) as [Hi|]; [|done].
  do 2 (erewrite bind_ok by reflexivity). unfold unwrap. destruct (events q !! Z.to_nat i) as [[b|]|] eqn:Hs; [| |done].
  2:{ erewrite bind_ok by reflexivity. by intros [= _ <-]. }
  unfold drop_box, epoll_del, modify, mbind, M_bind. cbn [mret M_ret]. intros [= _ <-]. destruct Hat as (a & ev & Hsa & Hb & Hx & Hh & Hn & Har).
  exists a, ev. cbn. split_and!; try done.
  - rewrite list_lookup_insert_ne by lia. done.
  - rewrite lookup_delete_ne; [done|]. intros ->. destruct (pi_slot _ _ Hinv _ _ Hs) as (y & Hy & Hyf). rewrite Hb in Hy. injection Hy as <-. lia.
  - intros (Hev & flags & Hit & Hfl)%Har. split; [done|]. exists flags. split; [|done]. cbn. by rewrite lookup_delete_ne.
Qed.

(** A report or a change of flags by a guard leaves a notifier armed. *)
Lemma armed_wait ans (q q1 : EventPoll Handler) r a ev :
  wait ans q = Ret (r, q1) → armed q fd a ev → armed q1 fd a ev.
Proof.
  unfold wait, epoll_wait, mbind, M_bind. destruct ans as [| |i revents]; [by intros [= _ <-]..|].
  destruct (epoll q !! i) as [[flags data []]|] eqn:Hi; [|by intros [= _ <-]..].
  destruct (readable i q); [|by intros [= _ <-]]. unfold deref, gets, unwrap, mbind, M_bind.
  destruct (boxes _ !! data); [|done]. intros [= _ <-] (Hev & fl & Hit & Hfl). split; [done|]. cbn [epoll with_epoll].
  destruct (decide (i = fd)) as [->|Hne].
  - rewrite Hit in Hi. injection Hi as <- <-. exists fl. rewrite lookup_insert_eq. split; [|done].
    do 2 f_equal. change (negb (Z.testbit fl 30) = true). by rewrite Hfl.
  - exists fl. by rewrite lookup_insert_ne.
Qed.

Lemma armed_mod fd' flags' b (q q1 : EventPoll Handler) r a ev :
  (fd' = fd → b = a ∧ Z.testbit flags' 30 = false) →
  epoll_mod fd' flags' b q = Ret (r, q1) → armed q fd a ev → armed q1 fd a ev.
Proof.
  intros Hsame [= _ <-] (Hev & fl & Hit & Hfl). split; [done|]. destruct (decide (fd' = fd)) as [->|Hne].
  - destruct (Hsame eq_refl) as [-> Hf]. rewrite Hit. exists flags'. cbn. by rewrite lookup_insert_eq.
  - exists fl. destruct (epoll q !! fd'); [|done]. cbn. by rewrite lookup_insert_ne.
Qed.

Lemma spared_op op q g q' g' h n :
  poll_inv q g → allowed op (q, g) → spares op (q, g) → at_fd q fd h n → run_op op (q, g) = Ret (q', g') →
  at_fd q' fd h n.
Proof.
  intros Hinv Hal Hsp Hat. destruct op as [kind ok fd' h'|ans|a|a|a b|fd'|fd'|fd']; cbn [run_op allowed spares fst snd] in *.
  - destruct Hal as [Hfd' _]. destruct (new_of_kind kind ok fd' h' q) as [[r q1]|] eqn:Hr; [|done]. intros [= <- <-].
    by eapply spared_new.
  - destruct (wait ans q) as [[r q1]|] eqn:Hr; [|done].
    assert (Hs : q1.(events) = q.(events) ∧ q1.(boxes) = q.(boxes)).
    { revert Hr. unfold wait, epoll_wait, mbind, M_bind. destruct ans as [| |i revents]; [by intros [= _ <-]..|].
      destruct (epoll q !! i) as [[flags data []]|]; [|by intros [= _ <-]..].
      destruct (readable i q); [|by intros [= _ <-]]. unfold deref, gets, unwrap, mbind, M_bind.
      destruct (boxes _ !! data); [|done]. by intros [= _ <-]. }
    intros Hq. assert (q' = q1) as ->. { revert Hq. by destruct r as [[]|]; intros [= <- <-]. } destruct Hs. eapply at_same; [done|done| |exact Hat].
    intros a ev _ _. by eapply armed_wait.
  - destruct (pi_guard _ _ Hinv a Hal) as [ev Hev]. unfold guard_drop. erewrite bind_ok by (by apply deref_run).
    destruct (epoll_mod _ _ _ q) as [[r q1]|] eqn:Hm; [|done]. intros [= <- <-].
    eapply at_same; [..|exact Hat]; [by revert Hm; intros [= _ <-]; destruct (epoll q !! _)..|].
    intros c x Hc Hslot Har. eapply armed_mod; [|exact Hm|exact Har]. intros Heq.
    destruct (pi_box _ _ Hinv _ _ Hev) as (_ & Hs & -> & _). rewrite Heq, Hslot in Hs. injection Hs as ->.
    rewrite Hev in Hc. injection Hc as ->. split; [done|]. apply Har.
  - assert (Ha : a ∈ g) by (apply elem_of_multiplicity; lia). destruct (pi_guard _ _ Hinv a Ha) as [ev Hev].
    unfold cancel. erewrite bind_ok by (by apply deref_run). destruct (clear_event_by_fd _ q) as [[r q1]|] eqn:Hr; [|done].
    intros [= <- <-]. eapply spared_clear; [exact Hinv| |exact Hat|exact Hr]. intros Heq.
    destruct (pi_box _ _ Hinv _ _ Hev) as (_ & Hs & _). by rewrite Heq in Hs.
  - destruct (pi_guard _ _ Hinv a Hal) as [ev Hev]. unfold notify_writable. erewrite bind_ok by (by apply deref_run).
    intros [= <- <-]. destruct Hat as (c & x & Hs & Hb & Hx & Hh & Hn & Har). exists c, x. split_and!; try done.
    cbn. rewrite lookup_insert_ne; [done|]. intros ->. by apply Hsp.
  - destruct (clear_event_by_fd fd' q) as [[r q1]|] eqn:Hr; [|done]. intros [= <- <-]. by eapply spared_clear.
  - destruct Hal as (a & ev & Hs & Hb & Hn). unfold trigger_notification. erewrite bind_ok by (by eapply notifier_run).
    intros [= <- <-]. eapply at_same; [..|exact Hat]; [by case_match..|]. intros c x _ _ Har. by case_match.
  - destruct Hal as (a & ev & Hs & Hb & Hn). unfold stop_notification. erewrite bind_ok by (by eapply notifier_run).
    intros [= <- <-]. by eapply at_same; [..|exact Hat].
Qed.

Lemma spared_ops ops q g q' g' h n :
  poll_inv q g → all_allowed ops (q, g) → all_spare ops (q, g) → at_fd q fd h n → run_ops ops (q, g) = Ret (q', g') →
  at_fd q' fd h n.
Proof.
  revert q g. induction ops as [|op ops IH]; intros q g Hinv; [by intros _ _ Hat [= <- <-]|].
  intros [Hop Hops] [Hsp Hsps] Hat. cbn [run_ops]. destruct (run_op_inv op q g Hinv Hop) as (q1 & g1 & Hr & Hinv1).
  rewrite Hr. apply IH; [done|by apply Hops|by apply Hsps|]. exact (spared_op op q g q1 g1 h n Hinv Hop Hsp Hat Hr).
Qed.
End Spared.

(** A notifier that is there can be triggered and stopped. *)
Lemma notice_works (notice : boot → option Z) (b : boot) q fd h :
  notice (with_queue q b) = Some fd → at_fd q fd h true →
  (∃ b', notice_trigger notice (with_queue q b) = Ret (Ok (), b')) ∧
  ∃ b', notice_stop notice (with_queue q b) = Ret (Ok (), b').
Proof.
  intros Hf (a & ev & Hs & Hb & _ & _ & Hn & _).
  split; unfold notice_trigger, notice_stop; erewrite bind_ok by reflexivity; rewrite Hf; erewrite bind_ok by reflexivity;
    unfold on_queue, zoom, trigger_notification, stop_notification; cbn [b_queue with_queue];
    (erewrite bind_ok by (by eapply notifier_run)); cbn; by eexists.
Qed.

Definition same_iface (a b : boot) : Prop := b.(b_iface) = a.(b_iface).
#[local] Instance same_iface_pre : PreOrder same_iface.
Proof. split; [done|]. unfold same_iface. intros ? ? ? Ha Hb. by rewrite Hb. Qed.

Lemma on_queue_iface {A} (m : M Error (EventPoll handler) A) : preserves same_iface (on_queue m).
Proof. intros b r b'. unfold on_queue, zoom. by destruct (m _) as [[? ?]|]; intros [= _ <-]. Qed.

Lemma modify_iface f : (∀ b, (f b).(b_iface) = b.(b_iface)) → preserves same_iface (modify (E := Error) f).
Proof. intros Hf b r b' [= _ <-]. apply Hf. Qed.

Lemma register_all_iface os uapi_fd : preserves same_iface (register_all os uapi_fd).
Proof.
  unfold register_all, register_api_fd, register_api_handler, register_monitor, register_api_signal_handlers,
    register_iface_handler, register_notifiers, register_timers, periodic.
  pres; first [apply on_queue_iface|by apply modify_iface].
Qed.

Lemma register_all_made os uapi_fd poll iface m b fd :
  EventPoll_new (Some fd) = Ok poll → answers_ok os b.(b_iface) uapi_fd →
  register_all os uapi_fd (MkBoot poll iface m None None []) = Ret (Ok (), b) →
  poll_inv b.(b_queue) ∅ ∧ ∃ y x, b.(b_yield) = Some y ∧ b.(b_exit) = Some x ∧ 0 ≤ y ∧ 0 ≤ x ∧ y ≠ x ∧
    at_fd b.(b_queue) y HYield true ∧ at_fd b.(b_queue) x HExit true.
Proof.
  intros [= <-] Hos Hr. pose proof (register_all_iface _ _ _ _ _ Hr) as Hi. cbn in Hi. rewrite Hi in Hos.
  destruct (register_all_has os iface uapi_fd Hos (MkBoot (MkPoll [] ∅ ∅ ∅) iface m None None []) () b) as (hs & Hb & Ey & Ex); [|done|].
  { split; [|done|by intros h n ?%elem_of_nil]. split; cbn; [done|done|done|multiset_solver|multiset_solver]. }
  destruct (has_at _ _ _ _ _ Hb HYield true) as (y & Hy & Aty); [set_solver|].
  destruct (has_at _ _ _ _ _ Hb HExit true) as (x & Hx & Atx); [set_solver|].
  split; [apply Hb|]. exists y, x. rewrite Ey, Ex. split_and!; try done.
  - by eapply (ao_nonneg _ _ _ Hos HYield).
  - by eapply (ao_nonneg _ _ _ Hos HExit).
  - intros ->. by pose proof (ao_distinct _ _ _ Hos HYield HExit x Hy Hx).
Qed.

(** The registrations of a device that was made, on its interface. *)
Lemma made_registered os nm uapi_fd fds b fds' : make_device os nm uapi_fd fds = Ret (Ok b, fds') →
  ∃ poll iface m fd, EventPoll_new (Some fd) = Ok poll ∧ name iface = nm ∧
    register_all os uapi_fd (MkBoot poll iface m None None []) = Ret (Ok (), b).
Proof.
  unfold make_device, or_drop. intros (p0 & s0 & H0 & Hr)%bind_inv. apply bind_inv in Hr as (i1 & s1 & H1 & Hr).
  apply bind_inv in Hr as (i2 & s2 & H2 & Hr). apply bind_inv in Hr as (m & s3 & _ & Hr).
  apply bind_inv in Hr as ([[] b0] & s4 & Hreg & [= <- <-]). apply bind_inv in Hreg as (r & s5 & Hl & Hr).
  destruct r as [[[] b1]|e]; [|by apply bind_inv in Hr as (? & ? & _ & ?)]. injection Hr as <- <-.
  unfold lift_result in H0. destruct (an_epoll os) as [fd|]; [|done]. injection H0 as Hp _.
  exists p0, i2, m, fd. split; [by rewrite <- Hp|]. split.
  - apply tun_named in H1. apply non_blocking_same in H2. by subst i2.
  - revert Hl. unfold try_, on_local. by destruct (register_all _ _ _) as [[[[]|e] b2]|]; [intros [= ->]|..].
Qed.

(** The two notifiers of a device that could be made are registered under
    different descriptors and armed, and stay so whatever the workers do with
    the queue by its rules, as long as nobody registers, clears or cancels these
    two descriptors themselves or changes their flags. *)
Lemma notifiers_stay os ifname uapi_fd fds b fds' :
  make_device os ifname uapi_fd fds = Ret (Ok b, fds') → answers_ok os b.(b_iface) uapi_fd →
  ∃ y x, b.(b_yield) = Some y ∧ b.(b_exit) = Some x ∧ y ≠ x ∧ 0 ≤ y ∧ 0 ≤ x ∧
    ∀ ops q g, all_allowed ops (b.(b_queue), ∅) → all_spare y ops (b.(b_queue), ∅) → all_spare x ops (b.(b_queue), ∅) →
      run_ops ops (b.(b_queue), ∅) = Ret (q, g) → at_fd q y HYield true ∧ at_fd q x HExit true.
Proof.
  intros Hmake Hos. destruct (made_registered _ _ _ _ _ _ Hmake) as (p0 & i2 & m & fd & Hp & _ & Hreg).
  destruct (register_all_made os uapi_fd p0 i2 m b fd Hp Hos Hreg) as (Hinv & y & x & Ey & Ex & Hy & Hx & Hne & Aty & Atx).
  exists y, x. split_and!; [done..|]. intros ops q g Hal Hsy Hsx Hrun. split.
  - by eapply (spared_ops y Hy).
  - by eapply (spared_ops x Hx).
Qed.

(** So triggering and stopping them finds a notifier and never panics. *)
Lemma notifiers_ready os ifname uapi_fd fds b fds' :
  make_device os ifname uapi_fd fds = Ret (Ok b, fds') → answers_ok os b.(b_iface) uapi_fd →
  ∃ y x, b.(b_yield) = Some y ∧ b.(b_exit) = Some x ∧ y ≠ x ∧
    ∀ ops q g, all_allowed ops (b.(b_queue), ∅) → all_spare y ops (b.(b_queue), ∅) → all_spare x ops (b.(b_queue), ∅) →
      run_ops ops (b.(b_queue), ∅) = Ret (q, g) →
      ∀ notice, notice = b_yield ∨ notice = b_exit →
        (∃ b', notice_trigger notice (with_queue q b) = Ret (Ok (), b')) ∧
        ∃ b', notice_stop notice (with_queue q b) = Ret (Ok (), b').
Proof.
  intros Hmake Hos. destruct (notifiers_stay _ _ _ _ _ _ Hmake Hos) as (y & x & Ey & Ex & Hne & _ & _ & Hstay).
  exists y, x. split_and!; [done..|]. intros ops q g Hal Hsy Hsx Hrun notice Hn.
  destruct (Hstay ops q g Hal Hsy Hsx Hrun) as [Aty Atx]. destruct Hn as [->| ->].
  - by eapply (notice_works b_yield b q y).
  - by eapply (notice_works b_exit b q x).
Qed.

(** Whoever waits after the trigger and is told of the notifier gets its
    handler. *)
Lemma triggered_wait (q q' : EventPoll handler) fd h :
  at_fd q fd h true → trigger_notification fd q = Ret (Ok (), q') → notified fd q' = true →
  ∃ a q'', wait (WaitReady fd EPOLLIN) q' = Ret (Ok (WaitOk a), q'') ∧ guard_handler a q'' = Ret (Ok h, q'').
Proof.
  intros (a & ev & Hs & Hb & _ & Hh & Hn & Har) Ht Hnot. destruct (Har eq_refl) as (_ & flags & Hit & _).
  assert (Hq : q'.(boxes) = q.(boxes) ∧ q'.(epoll) = q.(epoll)).
  { revert Ht. unfold trigger_notification. erewrite bind_ok by (by eapply notifier_run). intros [= <-]. by case_match. }
  destruct Hq as [Eb Ee]. exists a, (with_epoll (<[fd := MkInterest flags a (negb (Z.testbit flags 30))]> q'.(epoll)) q').
  assert (Hr : readable fd q' = true).
  { revert Hnot. unfold notified, readable. by destruct (counters q' !! fd). }
  split.
  - unfold wait. erewrite bind_ok by (unfold epoll_wait; rewrite Ee, Hit, Hr; reflexivity).
    cbn beta iota. erewrite bind_ok; [|apply deref_run; cbn; rewrite Eb; exact Hb]. by rewrite Ee.
  - unfold guard_handler. erewrite bind_ok; [|apply deref_run; cbn; rewrite Eb; exact Hb]. by rewrite Hh.
Qed.

(** ** Witness *)

(** A system that gives every handler its own descriptor. *)
Definition given_timer (h : handler) : option Z * option Z * bool :=
  match h with HMonitor => (Some 11, None, true) | HReset => (None, Some 12, true) | HPeers => (Some 13, None, true) | _ => (None, None, true) end.
Definition given_signal (signal : Z) : option Z :=
  if signal =? SIGINT then Some 14 else if signal =? SIGTERM then Some 15 else None.
Definition given_eventfd (h : handler) : option Z :=
  match h with HYield => Some 16 | HExit => Some 17 | _ => None end.
Definition given : answers :=
  MkAnswers (Some 3) (Some 4) (λ _, true) (Some 2) true (Some 5) (λ _, Some 1420) (Some 10)
    given_timer given_signal given_eventfd (λ _, true).

Lemma given_ok : answers_ok given (MkTun 4 (str "wg0")) (-1).
Proof.
  assert (Hs : ∀ s fd, given_signal s = Some fd → (s = SIGINT ∧ fd = 14) ∨ (s = SIGTERM ∧ fd = 15)).
  { intros s fd. unfold given_signal. destruct (Z.eqb_spec s SIGINT); [|destruct (Z.eqb_spec s SIGTERM)]; naive_solver. }
  split.
  - intros [] fd; cbn; try by intros [= <-]. intros [[_ ->]|[_ ->]]%Hs; lia.
  - intros h h' fd Hh Hh'. destruct h as [| | |s| | | | |], h' as [| | |s'| | | | |]; cbn in *; try congruence;
      repeat match goal with H : given_signal _ = Some _ |- _ => apply Hs in H as [[? ?]|[? ?]] end; congruence.
Qed.

Lemma given_run : ∃ b fds', make_device given (str "wg0") (-1) ∅ = Ret (Ok b, fds') ∧ b.(b_iface) = MkTun 4 (str "wg0").
Proof. eexists _, _. split; [vm_compute; reflexivity|]. reflexivity. Qed.

Lemma notifiers_ready_witness :
  ∃ b fds', make_device given (str "wg0") (-1) ∅ = Ret (Ok b, fds') ∧ ∃ b', notice_trigger b_exit b = Ret (Ok (), b').
Proof.
  destruct given_run as (b & fds' & Hr & Hi). exists b, fds'. split; [exact Hr|].
  destruct (notifiers_ready given (str "wg0") (-1) ∅ b fds' Hr) as (y & x & _ & _ & _ & Hn); [rewrite Hi; exact given_ok|].
  destruct (Hn [] b.(b_queue) ∅ I I I eq_refl b_exit (or_intror eq_refl)) as [Ht _].
  destruct b. exact Ht.
Defined.
