(* ===== verification/Handle.v ===== *)
(** * The handle of a device ([DeviceHandle] of device/mod.rs)

    A handle makes a device, opens its sockets and starts the workers; waiting
    joins them, and dropping it tells them to exit and removes the files.  What
    the workers do is in EventLoop.v; here is how their descriptors are made
    and how they end. *)

From stdpp Require Import gmultiset.
From Stdlib Require Import Strings.String.
From S2P Require Import Prelude Crypto Packet Tai64N Handshake RateLimiter Tunn Lfsr Text Serialization AllowedIps Peer.
From S2P Require Import Tun Device EventPoll Handlers Startup.

Record DeviceConfig := MkConfig {
  n_threads : Z;
  c_use_connected_socket : bool;
  use_multi_queue : bool;
  c_uapi_fd : Z;
}.

Definition default_config : DeviceConfig := MkConfig 4 true true (-1).

(** [r.unwrap()] *)
Definition unwrapped {E S A} (m : M E S A) : M E S A := λ s,
  match m s with Ret (Ok a, s') => Ret (Ok a, s') | _ => Panic end.

(** ** Making a handle *)

Section Making.
Context `{Crypto, NetTable, HashOrder} (os : answers).

(** [DeviceHandle::new]: the device with its sockets, and the number of workers
    that are started. *)
Definition DeviceHandle_new (lfsr : IndexLfsr) (w : world) (o : Peer.os) (name : bytes) (config : DeviceConfig) :
  OM (boot * dstate * Z) :=
  b ← make_device os name config.(c_uapi_fd);
  '(_, d) ← or_drop b.(b_iface) (on_local (MkD (Device_new lfsr config.(c_use_connected_socket)) ∅ w o) (open_listen_socket 0));
  mret (b, d, config.(n_threads)).
End Making.

(** ** The interface of a worker *)

(** The device as far as it is made, and the descriptors that are open. *)
Abbreviation WM := (M Error (boot * gset Z)).

Definition w_boot {A} (m : BM A) : WM A := zoom fst (λ b s, (b, s.2)) m.
Definition w_fds {A} (m : OM A) : WM A := zoom snd (λ f s, (s.1, f)) m.

Section Worker.
(** The answers to making worker [i] a queue of its own. *)
Context (os : answers) (tun : option Z) (tunsetiff : ifreq → bool) (getfl : option Z) (setfl : bool).

Definition worker_iface (i : nat) (multi_queue : bool) : WM TunSocket :=
  iface ← w_boot (gets b_iface);
  if (i =? 0)%nat || negb multi_queue then mret iface
  else
    iface_local ← unwrapped (w_fds (TunSocket_new tun tunsetiff (name iface)));
    iface_local ← unwrapped (w_fds (set_non_blocking getfl setfl iface_local));
    _ ← try_ (w_boot (register_iface_handler os iface_local));
    mret iface_local.
End Worker.

(** ** The end of a handle *)

(** [DeviceHandle::wait]: the workers are joined from the last one; one that
    panicked makes the join an error, which is unwrapped. *)
Definition join_unwrap (thread : outcome ()) : outcome () := match thread with Ret _ => Ret () | Panic => Panic end.

Fixpoint join_all (threads : list (outcome ())) : outcome () :=
  match threads with
  | [] => Ret ()
  | thread :: threads => match join_unwrap thread with Ret _ => join_all threads | Panic => Panic end
  end.

Definition handle_wait (threads : list (outcome ())) : outcome () := join_all (reverse threads).

(** Why a method of a handle does not come to its end: the read lock of the
    device is not granted, and it waits. *)
Inductive Stuck : Type :=
| Waiting
| Failed (e : Error).

(** The device, and the files that there are. *)
Abbreviation FM := (M Stuck (boot * gset bytes)).

Definition on_device_boot {A} (m : BM A) : FM A := λ s,
  match m s.1 with
  | Ret (Ok a, b) => Ret (Ok a, (b, s.2))
  | Ret (Err e, b) => Ret (Err (Failed e), (b, s.2))
  | Panic => Panic
  end.

(** [self.device.read()]; [granted] says whether the lock is given. *)
Definition device_read (granted : bool) : FM () := if granted then mret () else throw Waiting.

(** Whether a file can be removed is up to the system; the error is dropped. *)
Definition remove_file (can_remove : bytes → bool) (path : bytes) : FM () :=
  if can_remove path then modify (λ s, (s.1, s.2 ∖ {[path]})) else mret ().

Definition handle_clean (can_remove : bytes → bool) (granted : bool) : FM () :=
  _ ← device_read granted;
  paths ← gets (λ s, s.1.(b_paths));
  for_each paths (remove_file can_remove).

Definition trigger_exit : FM () := on_device_boot (notice_trigger b_exit).

Definition handle_drop (can_remove : bytes → bool) (granted granted' : bool) : FM () :=
  _ ← device_read granted;
  _ ← trigger_exit;
  handle_clean can_remove granted'.

(** ** Properties *)

(** Waiting returns exactly when no worker panicked. *)
Lemma handle_wait_returns threads : handle_wait threads = Ret () ↔ Forall (λ t, t ≠ Panic) threads.
Proof.
  unfold handle_wait. rewrite <- Forall_reverse. induction (reverse threads) as [|t l IH]; [by split|]. cbn.
  rewrite Forall_cons, <- IH. destruct t as [[]|]; cbn; [|naive_solver]. split; [by intros|by intros [_ ?]].
Qed.

(** The files that a handle made and that can be removed, and no others. *)
Definition removable (can_remove : bytes → bool) (paths : list bytes) : gset bytes :=
  list_to_set (filter (λ path, can_remove path = true) paths).

Lemma remove_files_run can_remove paths b files :
  for_each paths (remove_file can_remove) (b, files) = Ret (Ok (), (b, files ∖ removable can_remove paths)).
Proof.
  assert (Hone : ∀ path fs, remove_file can_remove path (b, fs) =
    Ret (Ok (), (b, if can_remove path then fs ∖ {[path]} else fs))).
  { intros path fs. unfold remove_file. by destruct (can_remove path). }
  revert files. unfold removable. induction paths as [|path paths IH]; intros files; cbn [for_each].
  - rewrite filter_nil. cbn. by rewrite difference_empty_L.
  - rewrite (bind_ok _ _ _ _ _ (Hone path files)), IH, filter_cons. destruct (can_remove path).
    + rewrite decide_True by done. cbn. by rewrite difference_difference_l_L.
    + by rewrite decide_False.
Qed.

(** The counters of the notifiers are not negative. *)
Definition counts (q : EventPoll handler) : Prop := ∀ fd c, q.(counters) !! fd = Some c → 0 ≤ c.

Definition counts_kept (q q' : EventPoll handler) : Prop := counts q → counts q'.

#[local] Instance counts_kept_preorder : PreOrder counts_kept.
Proof. unfold counts_kept. split; [by intros q|intros q1 q2 q3; auto]. Qed.

Lemma counts_same (f : EventPoll handler → EventPoll handler) :
  (∀ q, (f q).(counters) = q.(counters)) → preserves counts_kept (modify (E := Error) f).
Proof. intros Hf. apply pres_modify. intros q Hq fd c. rewrite Hf. apply Hq. Qed.

Lemma counts_insert fd c (q : EventPoll handler) : 0 ≤ c → counts q → counts (with_counters (<[fd := c]> q.(counters)) q).
Proof. intros Hc Hq fd' c'. cbn. intros [[_ <-]|[_ Hl]]%lookup_insert_Some; [done|by eapply Hq]. Qed.

Lemma register_counts ok ev : preserves counts_kept (register_event (Handler := handler) ok ev).
Proof.
  unfold register_event, insert_at, drop_box, epoll_del. pres; try by apply counts_same.
  intros q r q'. unfold epoll_add. destruct (epoll q !! _); [|destruct ok]; intros [= _ <-]; by intros Hq.
Qed.

Lemma new_counts kind ok fd h : preserves counts_kept (new_of_kind (Handler := handler) kind ok fd h).
Proof.
  destruct kind; [apply register_counts|apply register_counts|apply register_counts| |apply register_counts].
  unfold new_of_kind, new_notifier. apply pres_bind; [apply _| |intros _; apply register_counts].
  apply pres_modify. intros q Hq. by apply counts_insert.
Qed.

Lemma op_counts op q g q' g' : run_op op (q, g) = Ret (q', g') → counts_kept q q'.
Proof.
  assert (Hd : ∀ a, preserves counts_kept (deref (Handler := handler) a)) by (intros a; unfold deref; pres).
  assert (Hn : ∀ fd, preserves counts_kept (notifier_event (Handler := handler) fd)) by (intros fd; unfold notifier_event; pres).
  assert (Hc : ∀ fd, preserves counts_kept (clear_event_by_fd (Handler := handler) fd))
    by (intros fd; unfold clear_event_by_fd, drop_box, epoll_del; pres; by apply counts_same).
  destruct op as [kind ok fd h|ans|a|a|a b|fd|fd|fd]; cbn [run_op].
  - destruct (new_of_kind kind ok fd h q) as [[r q1]|] eqn:Hr; [|done]. intros [= <- _]. by apply new_counts in Hr.
  - destruct (wait ans q) as [[r q1]|] eqn:Hr; [|done]. intros Hq. assert (q' = q1) as ->.
    { revert Hq. by destruct r as [[]|]; intros [= <- _]. }
    assert (Hw : preserves counts_kept (wait (Handler := handler) ans)); [|by apply Hw in Hr]. unfold wait. pres; try apply Hd.
    intros p x p'. unfold epoll_wait. destruct ans as [| |i e]; [by intros [= _ <-]..|].
    destruct (epoll p !! i) as [[fl da []]|]; [|by intros [= _ <-]..]. destruct (readable i p); intros [= _ <-]; by intros Hp.
  - destruct (guard_drop a q) as [[r q1]|] eqn:Hr; [|done]. intros [= <- _]. revert Hr. unfold guard_drop, epoll_mod.
    intros [(ev & q2 & H1 & H2)|(e & H1 & _)]%bind_any_inv; apply Hd in H1; [|done]. revert H2. unfold modify. intros [= _ <-].
    intros Hq%H1. by destruct (epoll q2 !! _).
  - destruct (cancel a q) as [[r q1]|] eqn:Hr; [|done]. intros [= <- _]. assert (Hx : preserves counts_kept (cancel (Handler := handler) a));
      [|by apply Hx in Hr]. unfold cancel. pres; first [apply Hd|apply Hc].
  - destruct (notify_writable a b q) as [[r q1]|] eqn:Hr; [|done]. intros [= <- _].
    assert (Hx : preserves counts_kept (notify_writable (Handler := handler) a b)); [|by apply Hx in Hr].
    unfold notify_writable. pres; first [apply Hd|by apply counts_same].
  - destruct (clear_event_by_fd fd q) as [[r q1]|] eqn:Hr; [|done]. intros [= <- _]. by apply Hc in Hr.
  - destruct (trigger_notification fd q) as [[r q1]|] eqn:Hr; [|done]. intros [= <- _].
    assert (Hx : preserves counts_kept (trigger_notification (Handler := handler) fd)); [|by apply Hx in Hr].
    unfold trigger_notification, eventfd_write. pres; try apply Hn. apply pres_modify. intros p Hp.
    destruct (_ <=? _); [|done]. apply counts_insert; [|done]. unfold U64_MAX.
    destruct (counters p !! fd) as [c|] eqn:E; cbn; [apply Hp in E|]; lia.
  - destruct (stop_notification fd q) as [[r q1]|] eqn:Hr; [|done]. intros [= <- _].
    assert (Hx : preserves counts_kept (stop_notification (Handler := handler) fd)); [|by apply Hx in Hr].
    unfold stop_notification, eventfd_read. pres; try apply Hn. apply pres_modify. intros p Hp. by apply counts_insert.
Qed.

Lemma ops_counts ops q g q' g' : run_ops ops (q, g) = Ret (q', g') → counts_kept q q'.
Proof.
  revert q g. induction ops as [|op ops IH]; intros q g; cbn [run_ops]; [by intros [= <- _]|].
  destruct (run_op op (q, g)) as [[q1 g1]|] eqn:Hr; [|done]. intros Hrun Hq. eapply IH; [exact Hrun|]. by eapply op_counts.
Qed.

Definition boot_counts (a b : boot) : Prop := counts_kept a.(b_queue) b.(b_queue).

#[local] Instance boot_counts_preorder : PreOrder boot_counts.
Proof. unfold boot_counts. split; [intros b; reflexivity|intros a b c; by transitivity (b_queue b)]. Qed.

Lemma on_queue_counts {A} (m : M Error (EventPoll handler) A) : preserves counts_kept m → preserves boot_counts (on_queue m).
Proof. intros Hm. unfold on_queue. by apply (pres_zoom_rel boot_counts counts_kept b_queue with_queue m). Qed.

Lemma modify_counts f : (∀ b, (f b).(b_queue) = b.(b_queue)) → preserves boot_counts (modify (E := Error) f).
Proof. intros Hf. apply pres_modify. intros b. unfold boot_counts. by rewrite Hf. Qed.

Lemma periodic_counts os h : preserves boot_counts (periodic os h).
Proof.
  unfold periodic. destruct (an_timer os h) as [[bt mt] set]. apply on_queue_counts. unfold new_periodic_event.
  destruct (match bt with Some _ => _ | None => _ end); [|apply pres_throw, _]. destruct set; [apply register_counts|]. apply pres_throw, _.
Qed.

Lemma notifier_counts ok efd h : preserves counts_kept (new_notifier (Handler := handler) ok efd h).
Proof. destruct efd as [fd|]; [exact (new_counts KNotifier ok fd h)|]. apply pres_throw, _. Qed.

Lemma signal_counts ok sfd h : preserves counts_kept (new_signal_event (Handler := handler) ok sfd h).
Proof. destruct sfd as [fd|]; [exact (new_counts KSignal ok fd h)|]. apply pres_throw, _. Qed.

Lemma event_counts ok fd h : preserves counts_kept (new_event (Handler := handler) ok fd h).
Proof. exact (new_counts KRead ok fd h). Qed.

Lemma register_all_counts os uapi_fd : preserves boot_counts (register_all os uapi_fd).
Proof.
  unfold register_all, register_api_fd, register_api_handler, register_monitor, register_api_signal_handlers,
    register_iface_handler, register_notifiers, register_timers.
  pres; match goal with
  | |- preserves _ (modify _) => by apply modify_counts
  | |- preserves _ (periodic _ _) => apply periodic_counts
  | |- preserves _ (on_queue (new_notifier _ _ _)) => apply on_queue_counts, notifier_counts
  | |- preserves _ (on_queue (new_signal_event _ _ _)) => apply on_queue_counts, signal_counts
  | |- preserves _ (on_queue (new_event _ _ _)) => apply on_queue_counts, event_counts
  end.
Qed.

(** A device that was made has counters that are not negative. *)
Lemma made_counts os nm uapi_fd fds b fds' : make_device os nm uapi_fd fds = Ret (Ok b, fds') → counts b.(b_queue).
Proof.
  intros (p0 & i & m & fd & [= <-] & _ & Hreg)%made_registered.
  apply register_all_counts in Hreg. by apply Hreg.
Qed.

(** ** Dropping a handle *)

Section Dropping.
Context `{Crypto, NetTable, HashOrder}.

(** Raising the exit notifier of a device whose queue is used by its rules. *)
Lemma trigger_exit_run os nm uapi_fd fds b fds' :
  make_device os nm uapi_fd fds = Ret (Ok b, fds') → answers_ok os b.(b_iface) uapi_fd →
  ∃ y x, b.(b_yield) = Some y ∧ b.(b_exit) = Some x ∧
    ∀ ops q g files, all_allowed ops (b.(b_queue), ∅) → all_spare y ops (b.(b_queue), ∅) → all_spare x ops (b.(b_queue), ∅) →
      run_ops ops (b.(b_queue), ∅) = Ret (q, g) →
      ∃ b', trigger_exit (with_queue q b, files) = Ret (Ok (), (b', files)) ∧ b'.(b_paths) = b.(b_paths) ∧
        ∃ a q', wait (WaitReady x EPOLLIN) b'.(b_queue) = Ret (Ok (WaitOk a), q') ∧ guard_handler a q' = Ret (Ok HExit, q').
Proof.
  intros Hmake Hos. destruct (notifiers_stay _ _ _ _ _ _ Hmake Hos) as (y & x & Ey & Ex & _ & _ & _ & Hstay).
  exists y, x. split; [done|]. split; [done|]. intros ops q g files Hal Hsy Hsx Hrun.
  destruct (Hstay ops q g Hal Hsy Hsx Hrun) as [_ Hat].
  pose proof (ops_counts _ _ _ _ _ Hrun (made_counts _ _ _ _ _ _ Hmake)) as Hc.
  destruct (notice_works b_exit b q x HExit Ex Hat) as [[b' Ht] _]. exists b'.
  split; [unfold trigger_exit, on_device_boot; cbn [fst snd]; by rewrite Ht|].
  revert Ht. unfold notice_trigger. erewrite bind_ok by reflexivity. cbn [b_exit with_queue]. rewrite Ex. erewrite bind_ok by reflexivity.
  unfold on_queue, zoom. cbn [b_queue with_queue]. destruct (trigger_notification x q) as [[[[]|e] q1]|] eqn:Htr; [|done..].
  intros [= <-]. split; [done|]. eapply triggered_wait; [exact Hat|exact Htr|].
  eapply trigger_notifies; [|exact Htr]. intros c. apply Hc.
Qed.

(** C35.  Dropping a handle.  Whatever its workers have done with the queue by
    its rules, short of registering or clearing the two notifiers or changing
    their flags, dropping the handle of a device that could be made does not
    panic.  It waits for the read lock twice: when the first is not granted,
    nothing happens; when it is, the exit notifier is raised, and whoever waits
    and is told of its descriptor gets the handler that exits; when the second
    is granted too, the drop returns, and of the files those that the device
    made and that can be removed are gone, and no others. *)
Theorem handle_drops os lfsr w o nm config fds b d n fds' :
  DeviceHandle_new os lfsr w o nm config fds = Ret (Ok (b, d, n), fds') → answers_ok os b.(b_iface) config.(c_uapi_fd) →
  ∃ y x, b.(b_yield) = Some y ∧ b.(b_exit) = Some x ∧
    ∀ ops q g can_remove files, all_allowed ops (b.(b_queue), ∅) →
      all_spare y ops (b.(b_queue), ∅) → all_spare x ops (b.(b_queue), ∅) →
      run_ops ops (b.(b_queue), ∅) = Ret (q, g) →
      let drop := λ granted granted', handle_drop can_remove granted granted' (with_queue q b, files) in
      (∀ granted', drop false granted' = Ret (Err Waiting, (with_queue q b, files))) ∧
      ∃ b', drop true false = Ret (Err Waiting, (b', files)) ∧
        drop true true = Ret (Ok (), (b', files ∖ removable can_remove b.(b_paths))) ∧
        ∃ a q', wait (WaitReady x EPOLLIN) b'.(b_queue) = Ret (Ok (WaitOk a), q') ∧
          guard_handler a q' = Ret (Ok HExit, q').
Proof.
  unfold DeviceHandle_new. intros (b0 & s0 & Hmake & Hr)%bind_inv Hos.
  assert (b0 = b) as ->. { by apply bind_inv in Hr as ([? ?] & ? & _ & [= <- _ _ _]). }
  destruct (trigger_exit_run os nm _ fds b s0 Hmake Hos) as (y & x & Ey & Ex & Hexit).
  exists y, x. split; [done|]. split; [done|]. intros ops q g can_remove files Hal Hsy Hsx Hrun. split; [done|].
  destruct (Hexit ops q g files Hal Hsy Hsx Hrun) as (b' & Ht & Hp & Hw). exists b'.
  unfold handle_drop. rewrite !(bind_ok _ _ _ _ _ (eq_refl : device_read true (with_queue q b, files) = Ret (Ok (), _))).
  rewrite !(bind_ok _ _ _ _ _ Ht). split_and!; [done| |done].
  unfold handle_clean. erewrite bind_ok by reflexivity. erewrite bind_ok by reflexivity. cbn [fst]. rewrite Hp. apply remove_files_run.
Qed.
End Dropping.

(** The first worker, or every worker without multiple queues, reads the
    interface of the device.  Another worker gets a queue of its own under the
    same name: its descriptor is registered for the interface, and the events
    that were registered under other descriptors stay. *)
Lemma worker_queue os fd tunsetiff fl i b fds :
  poll_inv b.(b_queue) ∅ → 0 ≤ fd → i ≠ 0%nat → iface_name b.(b_iface).(tun_name) →
  (∀ r, tunsetiff r = true) → os.(an_ctl) HIface = true →
  ∃ b', worker_iface os (Some fd) tunsetiff (Some fl) true i true (b, fds) =
      Ret (Ok (MkTun fd b.(b_iface).(tun_name)), (b', {[fd]} ∪ fds)) ∧
    poll_inv b'.(b_queue) ∅ ∧ at_fd b'.(b_queue) fd HIface false ∧
    ∀ fd' h n, 0 ≤ fd' → fd' ≠ fd → at_fd b.(b_queue) fd' h n → at_fd b'.(b_queue) fd' h n.
Proof.
  intros Hinv Hfd Hi Hname Hset Hctl. unfold worker_iface, name. erewrite bind_ok by reflexivity. cbn [fst].
  rewrite (proj2 (Nat.eqb_neq _ _) Hi). cbn [orb negb].
  erewrite bind_ok; [|unfold unwrapped, w_fds, zoom; cbn [snd]; rewrite new_run by done; rewrite Hset; reflexivity].
  erewrite bind_ok by reflexivity. cbn [fst snd].
  set (ev := MkEvent (Z.lor EPOLLIN EPOLLONESHOT) 0 fd HIface false false).
  assert (Hreg : new_event true fd HIface b.(b_queue) = Ret (Ok fd, registered_at true ev b.(b_queue)))
    by exact (register_run true ev _ ∅ Hinv Hfd).
  exists (with_queue (registered_at true ev b.(b_queue)) b). split.
  - unfold try_, w_boot, zoom, register_iface_handler, on_queue, zoom, mbind, M_bind. cbn [fst snd tun_fd b_queue].
    rewrite Hctl, Hreg. reflexivity.
  - destruct (event_as true fd HIface b.(b_queue) fd _ Hinv ltac:(by intros ? [= <-]) Hreg) as (_ & Hinv' & Hat & Hothers). eauto.
Qed.

(** ** Witness *)

Section HandleWitness.
#[local] Existing Instance toy_crypto.
#[local] Existing Instance map_table.
#[local] Existing Instance by_key.

Definition test_handle : outcome (result Error (boot * dstate * Z) * gset Z) :=
  DeviceHandle_new given (MkIndexLfsr 1 1 77) (MkWorld test_env ∅) test_os (str "wg0") default_config ∅.

Lemma test_handle_run : ∃ b d n fds', test_handle = Ret (Ok (b, d, n), fds') ∧ b.(b_iface) = MkTun 4 (str "wg0").
Proof.
  destruct (is_ok_run test_handle) as ([[b d] n] & fds' & Hr); [by vm_compute|]. exists b, d, n, fds'. split; [exact Hr|].
  unfold test_handle, DeviceHandle_new in Hr. apply bind_inv in Hr as (b0 & s0 & Hmake & Hr).
  apply bind_inv in Hr as ([? ?] & ? & _ & [= <- _ _ _]). destruct given_run as (b1 & fds1 & Hm & Hi).
  assert (Heq : Ret (Ok b1, fds1) = Ret (Ok b0, s0) :> outcome (result Error boot * gset Z)) by (rewrite <- Hm; exact Hmake).
  by injection Heq as <- _.
Qed.

(** A worker is told to yield; the socket of the configuration can be removed,
    another file is not touched. *)
Definition drop_ops : list (poll_op (Handler := handler)) := [OTrigger 16; OWait (WaitReady 16 1)].
Definition drop_files : gset bytes := {[str "/var/run/wireguard//wg0.sock"; str "/etc/passwd"]}.

Definition test_boot : boot :=
  match make_device given (str "wg0") (-1) ∅ with
  | Ret (Ok b, _) => b
  | _ => MkBoot (MkPoll [] ∅ ∅ ∅) (MkTun 0 []) 0 None None []
  end.

Lemma test_handle_boot b d n fds' : test_handle = Ret (Ok (b, d, n), fds') → b = test_boot.
Proof.
  unfold test_handle, DeviceHandle_new. intros (b0 & s0 & Hmake & Hr)%bind_inv.
  apply bind_inv in Hr as ([? ?] & ? & _ & [= <- _ _ _]). cbn [c_uapi_fd default_config] in Hmake.
  unfold test_boot. by rewrite Hmake.
Qed.

Ltac ops_fit :=
  repeat match goal with
  | |- _ [] _ => exact I
  | |- _ (_ :: _) _ => split; [|intros s Hs; vm_compute in Hs; injection Hs as <-]
  end; try exact I; by eexists _, _.

Definition test_queue : EventPoll handler := Eval vm_compute in test_boot.(b_queue).

Lemma test_boot_queue : test_boot.(b_queue) = test_queue.
Proof. vm_compute. reflexivity. Qed.

Lemma test_boot_paths : test_boot.(b_paths) = [str "/var/run/wireguard//wg0.sock"].
Proof. vm_compute. reflexivity. Qed.

Lemma drop_allowed : all_allowed drop_ops (test_queue, ∅).
Proof. unfold drop_ops. ops_fit. Qed.

Lemma drop_spares fd : all_spare fd drop_ops (test_queue, ∅).
Proof. unfold drop_ops. ops_fit. Qed.

Lemma drop_runs : is_Some (match run_ops drop_ops (test_queue, ∅) with Ret s => Some s | Panic => None end).
Proof. vm_compute. eauto. Qed.

Lemma remove_one (path other : bytes) : path ≠ other →
  ({[path; other]} : gset bytes) ∖ removable (λ _, true) [path] = {[other]}.
Proof. intros ?. unfold removable. rewrite filter_cons_True by done. rewrite filter_nil. set_solver. Qed.

Lemma handle_drops_witness :
  ∃ b d n fds' b' a q', test_handle = Ret (Ok (b, d, n), fds') ∧
    (∃ q g, run_ops drop_ops (b.(b_queue), ∅) = Ret (q, g) ∧
      handle_drop (λ _, true) true true (with_queue q b, drop_files) = Ret (Ok (), (b', {[str "/etc/passwd"]}))) ∧
    wait (WaitReady 17 EPOLLIN) b'.(b_queue) = Ret (Ok (WaitOk a), q') ∧ guard_handler a q' = Ret (Ok HExit, q').
Proof.
  destruct test_handle_run as (b & d & n & fds' & Hr & Hi). pose proof (test_handle_boot _ _ _ _ Hr) as Hb.
  pose proof Hr as Hr'. unfold test_handle in Hr'.
  destruct (handle_drops given (MkIndexLfsr 1 1 77) (MkWorld test_env ∅) test_os (str "wg0") default_config ∅ b d n fds' Hr') as (y & x & _ & Hx & Hdrop);
    [rewrite Hi; exact given_ok|].
  rewrite Hb in Hdrop, Hx. rewrite test_boot_queue in Hdrop. destruct drop_runs as [[q g] Hq].
  destruct (run_ops drop_ops (test_queue, ∅)) as [s|] eqn:Hrun; [|done]. injection Hq as ->.
  destruct (Hdrop drop_ops q g (λ _, true) drop_files drop_allowed (drop_spares y) (drop_spares x) Hrun)
    as (_ & b' & _ & Hd & a & q' & Hw & Hg).
  assert (x = 17) as -> by (vm_compute in Hx; by injection Hx).
  exists b, d, n, fds', b', a, q'. split; [exact Hr|]. split; [|split; [exact Hw|exact Hg]].
  rewrite Hb. exists q, g. split; [rewrite test_boot_queue; exact Hrun|].
  rewrite test_boot_paths in Hd. unfold drop_files in *. by rewrite remove_one in Hd.
Defined.
End HandleWitness.
