(* ===== verification/IntegrationTests.v ===== *)
(** * The integration tests (device/integration_tests/mod.rs)

    The tests make a device and talk to its configuration socket.  Here is
    their client: the requests it writes, as text, and the replies it reads
    until the server closes the connection; and the tests that need no
    container. *)

From Stdlib Require Import Strings.String.
From stdpp Require Import gmultiset.
From S2P Require Import Prelude Errors Time Crypto Packet Session Tai64N Handshake RateLimiter Tunn Tunnel.
From S2P Require Import Lfsr Text Serialization Show AllowedIps Peer Tun Device EventPoll Api Handlers ApiServer Startup Handle.
From coqutil Require Import Byte.

(** ** Reading lines *)

(** The lines of a stream, each with its newline; the last one may lack it. *)
Fixpoint split_lines (acc s : bytes) : list bytes :=
  match s with
  | [] => match acc with [] => [] | _ => [rev acc] end
  | b :: s => if decide (b = newline) then rev (b :: acc) :: split_lines [] s else split_lines (b :: acc) s
  end.

(** What [read_line] answers, again and again. *)
Definition read_lines (stream : bytes) : list (option bytes) :=
  (λ l, if is_utf8 l then Some l else None) <$> split_lines [] stream.

(** A path with several slashes in a row is the path with one. *)
Definition slash : byte := byte.of_Z 47.
Fixpoint squash (path : bytes) : bytes :=
  match path with
  | a :: ((b :: _) as rest) => if decide (a = slash ∧ b = slash) then squash rest else a :: squash rest
  | _ => path
  end.

(** ** The client *)

Record TestPeer := MkTestPeer {
  tp_key : bytes;
  tp_endpoint : SocketAddr;
  tp_allowed_ips : list AllowedIP;
  tp_container_name : option bytes;
}.

Record WGHandle := MkWG {
  wg_device : boot;
  wg_name : bytes;
  wg_addr_v4 : IpAddr;
  wg_addr_v6 : IpAddr;
  wg_started : bool;
  wg_peers : list TestPeer;
}.

Definition with_wg_peers (l : list TestPeer) (wg : WGHandle) : WGHandle :=
  MkWG wg.(wg_device) wg.(wg_name) wg.(wg_addr_v4) wg.(wg_addr_v6) wg.(wg_started) l.

(** The counters that the tests share. *)
Record statics := MkStatics {
  NEXT_IFACE_IDX : Z;
  NEXT_PORT : Z;
  NEXT_IP : Z;
  NEXT_IP_V6 : Z;
}.

Definition initial_statics : statics := MkStatics 100 61111 0xc0000200 0.

(** [fetch_add(1)], with the values cut to their types by [as]. *)
Definition next_ip (c : statics) : IpAddr * statics :=
  (V4 (to_be_bytes 4 (wrap 32 c.(NEXT_IP))),
   MkStatics c.(NEXT_IFACE_IDX) c.(NEXT_PORT) (wrap 64 (c.(NEXT_IP) + 1)) c.(NEXT_IP_V6)).
Definition next_ip_v6 (c : statics) : IpAddr * statics :=
  (V6 (to_be_bytes 16 (0x20010db8000000000000000000000000 + wrap 32 c.(NEXT_IP_V6))),
   MkStatics c.(NEXT_IFACE_IDX) c.(NEXT_PORT) c.(NEXT_IP) (wrap 64 (c.(NEXT_IP_V6) + 1))).
Definition next_port (c : statics) : Z * statics :=
  (wrap 16 c.(NEXT_PORT), MkStatics c.(NEXT_IFACE_IDX) (wrap 64 (c.(NEXT_PORT) + 1)) c.(NEXT_IP) c.(NEXT_IP_V6)).

Section Client.
Context `{Crypto, NetTable, HashOrder, Base64, Hex}.

Abbreviation DM := (M Error dstate).

(** Connect to the socket of the device, write a request and read the reply. *)
Definition exchange (wg : WGHandle) (request : bytes) : DM bytes :=
  let path := str "/var/run/wireguard/" ++ wg.(wg_name) ++ str ".sock" in
  _ ← assert_ (bool_decide (path ∈ squash <$> wg.(wg_device).(b_paths)));
  '(out, _) ← api_handler (Some (read_lines request));
  let ret := concat out in
  _ ← assert_ (is_utf8 ret);
  mret ret.

Definition wg_get (wg : WGHandle) : DM bytes := exchange wg (str "get=1" ++ [newline; newline]).

Definition wg_set (wg : WGHandle) (setting : bytes) : DM bytes :=
  exchange wg (str "set=1" ++ newline :: setting ++ [newline; newline]).

Definition wg_set_port (wg : WGHandle) (port : Z) : DM bytes :=
  wg_set wg (str "listen_port=" ++ show_uint 10 port).

Definition wg_set_key (wg : WGHandle) (key : bytes) : DM bytes :=
  wg_set wg (str "private_key=" ++ encode_hex key).

Definition allowed_ip_line (a : AllowedIP) : bytes :=
  newline :: str "allowed_ip=" ++ show_ip a.(ai_addr) ++ str "/" ++ show_uint 10 a.(ai_cidr).

Definition wg_set_peer (wg : WGHandle) (key : bytes) (ep : SocketAddr) (allowed_ips : list AllowedIP) : DM bytes :=
  wg_set wg (str "public_key=" ++ encode_hex key ++ newline :: str "endpoint=" ++ show_socket_addr ep ++
    concat (allowed_ip_line <$> allowed_ips)).

Definition add_peer (wg : WGHandle) (peer : TestPeer) : DM WGHandle :=
  _ ← wg_set_peer wg (x25519_public peer.(tp_key)) peer.(tp_endpoint) peer.(tp_allowed_ips);
  mret (with_wg_peers (wg.(wg_peers) ++ [peer]) wg).

(** ** Making the interface *)

Definition init_with_config (os : answers) (lfsr : IndexLfsr) (w : world) (o : Peer.os) (idx : Z) (addr_v4 addr_v6 : IpAddr)
    (config : DeviceConfig) : OM (WGHandle * dstate) :=
  let name := str "utun" ++ show_uint 10 idx in
  '(b, d, _) ← unwrapped (DeviceHandle_new os lfsr w o name config);
  mret (MkWG b name addr_v4 addr_v6 false [], d).

Definition test_config : DeviceConfig := MkConfig 2 true true (-1).

Definition init (os : answers) (lfsr : IndexLfsr) (w : world) (o : Peer.os) (idx : Z) (addr_v4 addr_v6 : IpAddr) :
    OM (WGHandle * dstate) :=
  init_with_config os lfsr w o idx addr_v4 addr_v6 test_config.

(** ** The tests *)

Definition ok_reply : bytes := str "errno=0" ++ [newline; newline].

(** [s.ends_with(suffix)] *)
Definition ends_with (s suffix : bytes) : bool :=
  bool_decide (drop (length s - length suffix) s = suffix).

Definition assert_eq (a b : bytes) : DM () := assert_ (bool_decide (a = b)).

Definition test_wireguard_get (wg : WGHandle) : DM () :=
  response ← wg_get wg;
  assert_ (ends_with response ok_reply).

Definition test_endpoint_ : SocketAddr := SockV4 (byte.of_Z <$> [172; 0; 0; 1]) 50001.
Definition test_allowed_ips : list AllowedIP :=
  [MkAllowedIP (v4 172 0 0 2) 32; MkAllowedIP (V6 ([0xf120; 0; 0; 2; 2; 2; 0; 0] ≫= to_be_bytes 2)) 100].

Definition test_wireguard_set (port : Z) (private_key peer_key : bytes) (wg : WGHandle) : DM () :=
  let device_text := line "private_key" (encode_hex private_key) ++ line "listen_port" (show_uint 10 port) in
  let ip_text a := line "allowed_ip" (show_ip a.(ai_addr) ++ str "/" ++ show_uint 10 a.(ai_cidr)) in
  response ← wg_get wg;
  _ ← assert_ (ends_with response ok_reply);
  response ← wg_set_port wg port;
  _ ← assert_eq response ok_reply;
  response ← wg_set_key wg private_key;
  _ ← assert_eq response ok_reply;
  response ← wg_get wg;
  _ ← assert_eq response (device_text ++ ok_reply);
  let peer_pub_key := x25519_public peer_key in
  response ← wg_set_peer wg peer_pub_key test_endpoint_ test_allowed_ips;
  _ ← assert_eq response ok_reply;
  response ← wg_get wg;
  assert_eq response (device_text ++ line "public_key" (encode_hex peer_pub_key) ++
    line "endpoint" (show_socket_addr test_endpoint_) ++ concat (ip_text <$> test_allowed_ips) ++
    line "rx_bytes" (str "0") ++ line "tx_bytes" (str "0") ++ ok_reply).
End Client.

(** ** What the client asks for, the server does *)

Definition printable (b : byte) : Prop := 32 < code b < 127.

Lemma plain_printable s : Forall plain s → Forall printable s.
Proof. intros Hs. eapply Forall_impl; [exact Hs|]. unfold plain, printable. lia. Qed.

Lemma str_printable (s : string) : forallb (λ b, (32 <? code b) && (code b <? 127)) (str s) = true → Forall printable (str s).
Proof.
  intros Hs. apply List.Forall_forall. intros b Hb. pose proof (proj1 (forallb_forall _ _) Hs b Hb) as [Hl Hu]%andb_prop.
  apply Z.ltb_lt in Hl. apply Z.ltb_lt in Hu. by split.
Qed.

Lemma show_ip_printable a : ip_addr_wf a → Forall printable (show_ip a).
Proof. intros Ha. by apply plain_printable, show_ip_plain. Qed.

Lemma uint_printable n : 0 ≤ n → Forall printable (show_uint 10 n).
Proof. intros Hn. apply plain_printable, show_uint_plain; lia. Qed.

Lemma sock_printable a : socket_addr_wf a → Forall printable (show_socket_addr a).
Proof.
  destruct a as [ip port|ip port scope]; cbn [socket_addr_wf show_socket_addr].
  - intros [Hip Hp]. apply Forall_app_2; [apply plain_printable, show_ipv4_plain|].
    apply Forall_app_2; [by apply str_printable|apply uint_printable, Hp].
  - intros (Hip & Hp & Hs). repeat apply Forall_app_2; try (by apply str_printable).
    + exact (show_ip_printable (V6 ip) Hip).
    + destruct (scope =? 0); [constructor|]. apply Forall_app_2; [by apply str_printable|apply uint_printable, Hs].
    + apply uint_printable, Hp.
Qed.

Lemma split_lines_line acc l rest : Forall (λ b, b ≠ newline) l →
  split_lines acc (l ++ newline :: rest) = (rev acc ++ l ++ [newline]) :: split_lines [] rest.
Proof.
  intros Hl. revert acc. induction Hl as [|b l Hb _ IH]; intros acc; cbn [app split_lines].
  - by rewrite decide_True.
  - rewrite decide_False by done. rewrite IH. cbn [rev]. by rewrite <- app_assoc.
Qed.

(** A printable line is read as it is. *)
Lemma read_lines_line l rest : Forall printable l → read_lines (l ++ newline :: rest) = Some (l ++ [newline]) :: read_lines rest.
Proof.
  intros Hl. unfold read_lines. rewrite split_lines_line; [|eapply Forall_impl; [exact Hl|]; intros b [Hb _] ->; vm_compute in Hb; done].
  cbn [rev app fmap list_fmap]. rewrite ascii_utf8; [done|]. apply Forall_app_2; [|by repeat constructor].
  eapply Forall_impl; [exact Hl|]. unfold printable. lia.
Qed.

Lemma read_lines_empty rest : read_lines (newline :: rest) = Some [newline] :: read_lines rest.
Proof. by apply (read_lines_line []). Qed.

Section Understood.
Context `{CryptoLaws, NetTableLaws, HashOrder, Base64, HexLaws}.

Abbreviation DM := (M Error dstate).

(** The reply with a status. *)
Definition reply (status : Z) : bytes := line "errno" (show_uint 10 status) ++ [newline].

(** The client finds the socket of the device. *)
Definition connects (wg : WGHandle) : Prop :=
  str "/var/run/wireguard/" ++ wg.(wg_name) ++ str ".sock" ∈ squash <$> wg.(wg_device).(b_paths).

Lemma reply_utf8 status : 0 ≤ status → is_utf8 (reply status) = true.
Proof.
  intros Hs. apply ascii_utf8. unfold reply, line. repeat apply Forall_app_2; try by repeat constructor.
  constructor; [done|]. apply Forall_app_2; [|by repeat constructor].
  eapply Forall_impl; [by apply uint_printable|]. unfold printable. lia.
Qed.

(** A [set] request: the lines of the setting, and the empty line. *)
Lemma wg_set_run wg setting lines (m : DM Z) s : connects wg →
  read_lines (setting ++ [newline; newline]) = lines → (∀ s, api_set lines s = m s) → yields (λ z, 0 ≤ z) m →
  wg_set wg setting s = (status ← m; mret (reply status)) s.
Proof.
  intros Hc Hl Hm Hy. unfold wg_set, exchange. rewrite bool_decide_eq_true_2 by done. erewrite bind_ok by reflexivity.
  rewrite read_lines_line by (by apply str_printable). rewrite Hl. cbn [api_handler]. rewrite str_pop_newline.
  unfold api_command. rewrite decide_False, decide_True by done. unfold mbind, M_bind. rewrite Hm.
  destruct (m s) as [[[status|e] s']|] eqn:Hr; [|done..]. cbn [mret M_ret app concat].
  assert (Hz : 0 ≤ status) by (by eapply Hy).
  change (line "errno" (show_uint 10 status) ++ [newline]) with (reply status). by rewrite reply_utf8.
Qed.

Lemma set_port_lines port : in_width 16 port →
  read_lines ((str "listen_port=" ++ show_uint 10 port) ++ [newline; newline]) =
    [Some (line "listen_port" (show_uint 10 port)); Some [newline]].
Proof.
  intros Hp. rewrite read_lines_line, read_lines_empty; [|apply Forall_app_2; [by apply str_printable|apply uint_printable, Hp]].
  by rewrite <- app_assoc.
Qed.

Lemma set_key_lines k :
  read_lines ((str "private_key=" ++ encode_hex k) ++ [newline; newline]) = [Some (line "private_key" (encode_hex k)); Some [newline]].
Proof.
  rewrite read_lines_line, read_lines_empty; [by rewrite <- app_assoc|].
  apply Forall_app_2; [by apply str_printable|]. rewrite encode_hex_lower. apply plain_printable, hex_plain.
Qed.

Definition ip_line (a : AllowedIP) : bytes := line "allowed_ip" (show_ip a.(ai_addr) ++ str "/" ++ show_uint 10 a.(ai_cidr)).

Definition network_ok (a : AllowedIP) : Prop := ip_wf a.(ai_addr) ∧ 0 ≤ a.(ai_cidr) ≤ ip_width a.(ai_addr).

Lemma allowed_lines l pre : Forall network_ok l → Forall printable pre →
  read_lines (pre ++ concat (allowed_ip_line <$> l) ++ [newline; newline]) =
    Some (pre ++ [newline]) :: (Some <$> (ip_line <$> l)) ++ [Some [newline]].
Proof.
  intros Hl. revert pre. induction Hl as [|a l [Ha Hc] _ IH]; intros pre Hpre; cbn [fmap list_fmap concat app].
  - by rewrite read_lines_line, read_lines_empty.
  - unfold allowed_ip_line at 1. rewrite <- app_comm_cons, <- app_comm_cons, read_lines_line, <- app_assoc by done. f_equal. rewrite IH; [done|].
    repeat apply Forall_app_2; try (by apply str_printable).
    + by apply show_ip_printable, ip_wf_addr.
    + apply uint_printable, Hc.
Qed.

Lemma set_peer_lines k ep l : socket_addr_wf ep → Forall network_ok l →
  read_lines ((str "public_key=" ++ encode_hex k ++ newline :: str "endpoint=" ++ show_socket_addr ep ++
    concat (allowed_ip_line <$> l)) ++ [newline; newline]) =
  Some (line "public_key" (encode_hex k)) :: Some (line "endpoint" (show_socket_addr ep)) ::
    (Some <$> (ip_line <$> l)) ++ [Some [newline]].
Proof.
  intros Hep Hl. rewrite app_assoc, <- app_assoc, <- app_comm_cons, read_lines_line; [|apply Forall_app_2; [by apply str_printable|]].
  - rewrite <- app_assoc. f_equal. rewrite app_assoc, <- app_assoc. rewrite allowed_lines; [|done|].
    + by rewrite <- app_assoc.
    + apply Forall_app_2; [by apply str_printable|by apply sock_printable].
  - rewrite encode_hex_lower. apply plain_printable, hex_plain.
Qed.

Lemma set_port_done port s : in_width 16 port →
  api_set [Some (line "listen_port" (show_uint 10 port)); Some [newline]] s =
  (r ← try_ (open_listen_socket port); mret (match r with Ok _ => 0 | Err _ => EADDRINUSE end)) s.
Proof.
  intros Hp. rewrite line_device by first [repeat constructor; done|apply (plain_not _ _ equals_not_plain), show_uint_plain; [lia|apply Hp]].
  unfold device_line. rewrite decide_False by done. rewrite decide_True by done. rewrite parse_uint_show by done.
  unfold mbind, M_bind. by destruct (try_ (open_listen_socket port) s) as [[[[[]|e]|e] s1]|].
Qed.

Lemma set_key_done k s : length k = KEY_SIZE →
  api_set [Some (line "private_key" (encode_hex k)); Some [newline]] s = (_ ← set_key k; mret 0) s.
Proof.
  intros Hk. rewrite encode_hex_lower, line_device by (first [repeat constructor; done|apply (plain_not _ _ equals_not_plain), hex_plain]).
  unfold device_line. rewrite decide_True by done. unfold mbind, M_bind. rewrite parse_key_hex by done.
  by destruct (set_key k s) as [[[[]|e] s1]|].
Qed.

Lemma ip_line_pair (l : list AllowedIP) : ip_line <$> l =
  (λ '(ip, cidr), line "allowed_ip" (show_ip ip ++ str "/" ++ show_uint 10 cidr)) <$> ((λ a, (a.(ai_addr), a.(ai_cidr))) <$> l).
Proof. rewrite <- list_fmap_compose. by apply list_fmap_ext. Qed.

Lemma set_peer_done k ep l s : length k = KEY_SIZE → socket_addr_wf ep → Forall network_ok l →
  api_set (Some (line "public_key" (encode_hex k)) :: Some (line "endpoint" (show_socket_addr ep)) ::
    (Some <$> (ip_line <$> l)) ++ [Some [newline]]) s =
  (_ ← update_peer k false false (Some ep) l None None; mret 0) s.
Proof.
  intros Hk Hep Hl. rewrite encode_hex_lower, line_device by (first [repeat constructor; done|apply (plain_not _ _ equals_not_plain), hex_plain]).
  unfold device_line. do 4 rewrite decide_False by done. rewrite decide_True by done. unfold mbind, M_bind.
  rewrite parse_key_hex by done. cbn [mret M_ret].
  erewrite line_peer_ok; [|by repeat constructor|unfold peer_line; do 2 rewrite decide_False by done; rewrite decide_True by done;
    by rewrite parse_socket_addr_show].
  rewrite ip_line_pair, read_allowed_ips; [|rewrite Forall_fmap; exact Hl].
  assert (Hpairs : (λ '(ip, cidr), MkAllowedIP ip cidr) <$> ((λ a, (a.(ai_addr), a.(ai_cidr))) <$> l) = l).
  { rewrite <- list_fmap_compose. rewrite <- (list_fmap_id l) at 2. apply list_fmap_ext. by intros i [? ?]. }
  rewrite Hpairs. done.
Qed.

(** C34.  What the client writes as text is what the server does: a request
    for a port, a private key or a peer runs the configuration operation with
    that port, that key, or that key, endpoint and networks, and answers with
    status zero, or with [EADDRINUSE] when the sockets cannot be opened. *)
Theorem requests_understood wg s : connects wg →
  (∀ port, in_width 16 port →
     wg_set_port wg port s =
     (r ← try_ (open_listen_socket port); mret (reply (match r with Ok _ => 0 | Err _ => EADDRINUSE end))) s) ∧
  (∀ k, length k = KEY_SIZE → wg_set_key wg k s = (_ ← set_key k; mret (reply 0)) s) ∧
  (∀ k ep l, length k = KEY_SIZE → socket_addr_wf ep → Forall network_ok l →
     wg_set_peer wg k ep l s = (_ ← update_peer k false false (Some ep) l None None; mret (reply 0)) s).
Proof.
  intros Hc. split; [|split].
  - intros port Hp. unfold wg_set_port. erewrite wg_set_run; [|done|by apply set_port_lines|intros s1; by apply set_port_done|].
    + unfold mbind, M_bind. by destruct (try_ _ s) as [[[[[]|e]|e] s1]|].
    + apply yields_then. intros r. apply yields_ret. by destruct r.
  - intros k Hk. unfold wg_set_key. erewrite wg_set_run; [|done|apply set_key_lines|intros s1; by apply set_key_done|].
    + unfold mbind, M_bind. by destruct (set_key k s) as [[[[]|e] s1]|].
    + apply yields_then. intros []. by apply yields_ret.
  - intros k ep l Hk Hep Hl. unfold wg_set_peer.
    erewrite wg_set_run; [|done|by apply set_peer_lines|intros s1; by apply set_peer_done|].
    + unfold mbind, M_bind. by destruct (update_peer k false false (Some ep) l None None s) as [[[[]|e] s1]|].
    + apply yields_then. intros []. by apply yields_ret.
Qed.
End Understood.

(** ** A device that was made answers *)

Lemma squash_step a b s : squash (a :: b :: s) = if decide (a = slash ∧ b = slash) then squash (b :: s) else a :: squash (b :: s).
Proof. done. Qed.

Lemma squash_no_slash c s : Forall (λ b, b ≠ slash) s → squash (c :: s) = c :: s.
Proof.
  intros Hs. revert c. induction Hs as [|b s Hb _ IH]; intros c; [done|]. rewrite squash_step, decide_False by (by intros [_ ?]).
  by rewrite IH.
Qed.

Lemma squash_app p c s : c ≠ slash → squash (p ++ c :: s) = squash p ++ squash (c :: s).
Proof.
  intros Hc. induction p as [|a [|b p] IH]; [done| |].
  - cbn [app]. by rewrite squash_step, decide_False by (by intros [_ ?]).
  - change ((a :: b :: p) ++ c :: s) with (a :: b :: p ++ c :: s). rewrite !squash_step. case_decide; [exact IH|].
    change (b :: p ++ c :: s) with ((b :: p) ++ c :: s). by rewrite IH.
Qed.

(** The device has a double slash in its path, the client has not. *)
Lemma path_squashed c nm : c ≠ slash → Forall (λ b, b ≠ slash) nm →
  squash (str "/var/run/wireguard/" ++ str "/" ++ c :: nm) = str "/var/run/wireguard/" ++ c :: nm.
Proof.
  intros Hc Hn. rewrite app_assoc, squash_app, squash_no_slash by done.
  by replace (squash (str "/var/run/wireguard/" ++ str "/")) with (str "/var/run/wireguard/") by (vm_compute; reflexivity).
Qed.

Section Made.
Context `{CryptoLaws, NetTableLaws, HashOrder, Base64, HexLaws} (os : answers).

Definition paths_kept (a b : boot) : Prop := a.(b_paths) ⊆ b.(b_paths) ∧ b.(b_iface) = a.(b_iface).
#[local] Instance paths_kept_pre : PreOrder paths_kept.
Proof. split; [by split|]. intros a b c [P1 I1] [P2 I2]. split; [set_solver|congruence]. Qed.

Lemma queue_paths {A} (m : M Error (EventPoll handler) A) : preserves paths_kept (on_queue m).
Proof. intros b r b'. unfold on_queue, zoom. by destruct (m _) as [[? ?]|]; intros [= _ <-]. Qed.

Lemma modify_paths f : (∀ b, paths_kept b (f b)) → preserves paths_kept (modify (E := Error) f).
Proof. intros Hf b r b' [= _ <-]. apply Hf. Qed.
Hint Resolve queue_paths : preserves.

(** The socket is among the paths of the device. *)
Lemma api_handler_path b r b' : register_api_handler os b = Ret (Ok r, b') →
  str "/var/run/wireguard/" ++ str "/" ++ Tun.name b.(b_iface) ++ str ".sock" ∈ b'.(b_paths) ∧ b'.(b_iface) = b.(b_iface).
Proof.
  unfold register_api_handler. intros (iface & b1 & [= <- <-] & Hr)%bind_inv. destruct (an_listener os); [|done].
  apply bind_inv in Hr as (? & b1 & [= <- <-] & Hr).
  assert (Hk : preserves paths_kept (_ ← on_queue (new_event (an_ctl os HApi) z HApi); _ ← register_monitor os; register_api_signal_handlers os)).
  { unfold register_monitor, register_api_signal_handlers, periodic. pres. }
  apply Hk in Hr as [Hp Hi]. split; [apply Hp; cbn; set_solver|done].
Qed.

(** A client finds the socket of a device that it made. *)
Lemma made_connects lfsr w o idx addr_v4 addr_v6 config fds wg d fds' :
  config.(c_uapi_fd) < 0 → 0 ≤ idx →
  init_with_config os lfsr w o idx addr_v4 addr_v6 config fds = Ret (Ok (wg, d), fds') → connects wg.
Proof.
  intros Hfd Hidx. unfold init_with_config. intros ([[b d'] n] & s1 & Hnew & [= <- <- <-])%bind_inv.
  unfold unwrapped in Hnew. destruct (DeviceHandle_new os lfsr w o _ config fds) as [[[[[b' d''] n']|e] s2]|] eqn:Hd; [|done..].
  injection Hnew as -> -> -> ->. unfold DeviceHandle_new in Hd. apply bind_inv in Hd as (b0 & s0 & Hmake & Hr).
  apply bind_inv in Hr as ([? ?] & ? & _ & [= -> _ _ _]).
  destruct (made_registered _ _ _ _ _ _ Hmake) as (p0 & iface & m & fd & _ & Hnm & Hreg).
  unfold register_all in Hreg. rewrite (proj2 (Z.leb_gt _ _)) in Hreg by done.
  apply bind_inv in Hreg as (u0 & b1 & Hapi & Hreg). apply api_handler_path in Hapi as [Hpath _]. cbn in Hpath. rewrite Hnm in Hpath.
  assert (Hk : preserves paths_kept (iface ← gets b_iface; _ ← register_iface_handler os iface; _ ← register_notifiers os; register_timers os)).
  { unfold register_iface_handler, register_notifiers, register_timers, periodic. pres; by apply modify_paths. }
  apply Hk in Hreg as [Hp _]. apply Hp in Hpath. unfold connects. cbn [wg_name wg_device].
  apply list_elem_of_fmap. eexists. split; [|exact Hpath]. symmetry.
  apply (path_squashed (byte.of_Z 117) ((str "tun" ++ show_uint 10 idx) ++ str ".sock")); [done|].
  apply Forall_app_2; [apply Forall_app_2|]; [by repeat constructor| |by repeat constructor].
  apply (plain_not _ _ slash_not_plain), show_uint_plain; lia.
Qed.
End Made.

(** ** The tests pass *)

Section Passing.
#[local] Existing Instance toy_crypto.
#[local] Existing Instance toy_laws.
#[local] Existing Instance map_table.
#[local] Existing Instance map_table_laws.
#[local] Existing Instance by_key.
#[local] Existing Instance no_base64.
#[local] Existing Instance lower_hex.
#[local] Existing Instance lower_hex_laws.

Definition made : outcome (result Error (WGHandle * dstate) * gset Z) :=
  init given (MkIndexLfsr 1 1 77) (MkWorld test_env ∅) test_os initial_statics.(NEXT_IFACE_IDX)
    (v4 192 0 2 0) (V6 (zeros 15 ++ [byte.of_Z 2])) ∅.

Definition passes_on_made (test : WGHandle → M Error dstate ()) : bool :=
  match made with Ret (Ok (wg, d), _) => is_ok (test wg d) | _ => false end.

(** [test_wireguard_get] and [test_wireguard_set], with the next port. *)
Lemma integration_tests_pass :
  passes_on_made test_wireguard_get = true ∧
  passes_on_made (test_wireguard_set (next_port initial_statics).1 k1 k2) = true.
Proof. split; vm_compute; reflexivity. Qed.

Lemma requests_understood_witness :
  ∃ wg d, wg_set_peer wg k2 (SockV4 ip_source 51820) [MkAllowedIP (v4 10 0 0 0) 8] d =
    (_ ← update_peer k2 false false (Some (SockV4 ip_source 51820)) [MkAllowedIP (v4 10 0 0 0) 8] None None; mret (reply 0)) d.
Proof.
  destruct (is_ok_run made) as ([wg d] & fds & Hm); [by vm_compute|].
  assert (Hc : connects wg).
  { unfold made, init in Hm. apply made_connects in Hm; [exact Hm|vm_compute; reflexivity|vm_compute; discriminate]. }
  clear Hm.
  exists wg, d. destruct (requests_understood wg d Hc) as (_ & _ & Hp).
  refine (Hp k2 (SockV4 ip_source 51820) [MkAllowedIP (v4 10 0 0 0) 8] eq_refl (conj eq_refl _) _); [done|].
  constructor; [|constructor]. split; [reflexivity|]. split; vm_compute; discriminate.
Defined.
End Passing.
