(* ===== verification/TestPeers.v ===== *)
(** * The peers of the integration tests (device/integration_tests/mod.rs)

    The tests start their peers in containers, each with a WireGuard interface
    and a web server that answers with the public key of the peer, and ask the
    servers through the tunnel.  Here are the configurations that the tests
    write, the commands that they run, their HTTP client as a function of the
    bytes that a server sends, and the tests.  What a server answers is a
    parameter. *)

From Stdlib Require Import Strings.String.
From S2P Require Import Prelude Errors Time Crypto Packet Session Tai64N Handshake RateLimiter Tunn Tunnel.
From S2P Require Import Lfsr Text Serialization Base64Text Show AllowedIps Peer Tun Device EventPoll Api Handlers ApiServer.
From S2P Require Import Startup Handle IntegrationTests.
From coqutil Require Import Byte.

(** ** Trimming *)

(** The characters with the property White_Space, in UTF-8. *)
Definition white_space : list bytes :=
  map (map byte.of_Z)
    ([[9]; [10]; [11]; [12]; [13]; [32]; [0xc2; 0x85]; [0xc2; 0xa0]; [0xe1; 0x9a; 0x80]] ++
     map (λ n, [0xe2; 0x80; n]) (seqZ 0x80 11 ++ [0xa8; 0xa9; 0xaf]) ++ [[0xe2; 0x81; 0x9f]; [0xe3; 0x80; 0x80]]).

Fixpoint strip (fuel : nat) (chars : list bytes) (s : bytes) : bytes :=
  match fuel with
  | O => s
  | S fuel =>
    match List.find (λ w, bool_decide (take (length w) s = w)) chars with
    | Some w => strip fuel chars (drop (length w) s)
    | None => s
    end
  end.

(** [s.trim()] *)
Definition trim (s : bytes) : bytes :=
  let s := strip (length s) white_space s in
  rev (strip (length s) (map (@rev byte) white_space) (rev s)).

(** [s.to_lowercase()], when it is compared with ASCII text without a k: no
    other character than a letter of ASCII has a letter of ASCII other than k as
    its lower case. *)
Definition to_lowercase (s : bytes) : bytes :=
  (λ b, if (65 <=? code b) && (code b <=? 90) then byte.of_Z (code b + 32) else b) <$> s.

(** ** The HTTP client *)

(** What the server sends, and whether it closes the connection then; if not,
    the next read times out. *)
Record connection := MkConn {
  sent : bytes;
  closes : bool;
}.

Definition with_sent (s : bytes) (c : connection) : connection := MkConn s c.(closes).

(** [read_line]: up to a newline or the end; an error when it times out, or when
    the line is not UTF-8. *)
Fixpoint take_line (s : bytes) : bytes * bytes :=
  match s with
  | [] => ([], [])
  | b :: s => if decide (b = newline) then ([b], s) else let '(l, rest) := take_line s in (b :: l, rest)
  end.

Definition read_line (c : connection) : option bytes * connection :=
  let '(l, rest) := take_line c.(sent) in
  (if (c.(closes) || bool_decide (last l = Some newline)) && is_utf8 l then Some l else None, with_sent rest c).

(** The loop over the headers, which changes [len]; [None] is the return of the
    response, empty so far.  A turn that goes on has read a line, so there are
    no more of them than bytes. *)
Fixpoint read_headers (fuel : nat) (len : Z) (c : connection) : option (Z * connection) :=
  match fuel with
  | O => None
  | S fuel =>
    let '(l, c) := read_line c in
    match l with
    | None => Some (len, c)
    | Some line =>
      if decide (trim line = []) then Some (len, c)
      else
        match split_on colon line with
        | key :: val :: _ =>
          if decide (to_lowercase key = str "content-length") then
            match parse_uint 64 (trim val) with
            | None => None
            | Some len => read_headers fuel len c
            end
          else read_headers fuel len c
        | _ => None
        end
    end
  end.

(** The loop over the body, in pieces of 256 bytes. *)
Fixpoint read_body (fuel : nat) (len : Z) (c : connection) (response : bytes) : bytes :=
  match fuel with
  | O => response
  | S fuel =>
    if 0 <? len then
      let to_read := Z.to_nat (Z.min len 256) in
      if decide (length c.(sent) < to_read)%nat then response
      else read_body fuel (len - Z.of_nat to_read) (with_sent (drop to_read c.(sent)) c)
             (response ++ from_utf8_lossy (take to_read c.(sent)))
    else response
  end.

Definition read_response (c : connection) : bytes :=
  let '(l, c) := read_line c in
  let refused := match l with Some line => negb (starts_with (str "HTTP/1.1 200") line) | None => false end in
  if refused then []
  else
    match read_headers (S (length c.(sent))) 0 c with
    | None => []
    | Some (len, c) => read_body (S (length c.(sent))) len c []
    end.

(** Five attempts, of which the first that succeeds counts; the request is
    written, as text that does not depend on the peer. *)
Fixpoint connect {E S} (tries : nat) (attempts : nat → option connection) (i : nat) : M E S connection :=
  match tries with
  | O => panic
  | S tries =>
    match attempts i with
    | Some c => mret c
    | None => connect tries attempts (i + 1)%nat
    end
  end.

Definition get_request {E S} (peer : TestPeer) (attempts : nat → option connection) : M E S bytes :=
  _ ← unwrap (peer.(tp_allowed_ips) !! 0%nat);
  c ← connect 5 attempts 0;
  mret (read_response c).

(** ** The host *)

(** The files that the tests write, the commands that they run, the counters
    and random bytes that they take, and the open descriptors. *)
Record host := MkHost {
  h_files : gmap bytes bytes;
  h_commands : list (list bytes);
  h_statics : statics;
  h_env : env;
  h_fds : gset Z;
}.

Definition with_files (f : gmap bytes bytes) (h : host) : host := MkHost f h.(h_commands) h.(h_statics) h.(h_env) h.(h_fds).
Definition with_commands (l : list (list bytes)) (h : host) : host := MkHost h.(h_files) l h.(h_statics) h.(h_env) h.(h_fds).
Definition with_statics (c : statics) (h : host) : host := MkHost h.(h_files) h.(h_commands) c h.(h_env) h.(h_fds).
Definition with_h_env (e : env) (h : host) : host := MkHost h.(h_files) h.(h_commands) h.(h_statics) e h.(h_fds).
Definition with_h_fds (f : gset Z) (h : host) : host := MkHost h.(h_files) h.(h_commands) h.(h_statics) h.(h_env) f.

Abbreviation HM := (M Error host).

Definition counter {A} (next : statics → A * statics) : HM A := λ h,
  let '(a, c) := next h.(h_statics) in Ret (Ok a, with_statics c h).

(** [Command::new(..).args(..).status()], which succeeds when the program can be
    started, and is logged then. *)
Definition command (can_run : list bytes → bool) (args : list bytes) : HM bool :=
  if can_run args then _ ← modify (λ h, with_commands (h.(h_commands) ++ [args]) h); mret true else mret false.

(** [std::fs::write(..).unwrap()] *)
Definition write_file (can_write : bytes → bool) (path contents : bytes) : HM () :=
  _ ← assert_ (can_write path);
  modify (λ h, with_files (<[path := contents]> h.(h_files)) h).

Definition delete_file (path : bytes) : HM () := modify (λ h, with_files (delete path h.(h_files)) h).

Section Peers.
Context `{Crypto, Base64, Hex} (can_run : list bytes → bool) (can_write : bytes → bool).

(** The name of a new file: 32 random bytes. *)
Definition temp_path : HM bytes :=
  buf ← zoom h_env with_h_env (fill_bytes 32);
  mret (str "/tmp/" ++ encode_hex buf).

Definition TestPeer_new (endpoint : SocketAddr) (allowed_ips : list AllowedIP) : HM TestPeer :=
  key ← zoom h_env with_h_env (fill_bytes 32);
  mret (MkTestPeer key endpoint allowed_ips None).

Definition sock_port (a : SocketAddr) : Z := match a with SockV4 _ port => port | SockV6 _ port _ => port end.

Definition gen_wg_conf (self : TestPeer) (local_key : bytes) (local_addr : IpAddr) (local_port : Z) : bytes :=
  str "[Interface]" ++ newline ::
  concat ((λ ip, str "Address = " ++ show_ip ip.(ai_addr) ++ str "/" ++ show_uint 10 ip.(ai_cidr) ++ [newline]) <$>
    self.(tp_allowed_ips)) ++
  str "ListenPort = " ++ show_uint 10 (sock_port self.(tp_endpoint)) ++ newline ::
  str "PrivateKey = " ++ base64_encode self.(tp_key) ++ newline ::
  str "[Peer]" ++ newline ::
  str "PublicKey = " ++ base64_encode local_key ++ newline ::
  str "AllowedIPs = " ++ show_ip local_addr ++ newline ::
  str "Endpoint = 127.0.0.1:" ++ show_uint 10 local_port.

Definition gen_nginx_conf (self : TestPeer) : bytes :=
  str "server {" ++ newline ::
  str "listen 80;" ++ newline ::
  str "listen [::]:80;" ++ newline ::
  str "location / {" ++ newline ::
  str "return 200 '" ++ encode_hex (x25519_public self.(tp_key)) ++ str "';" ++ newline ::
  str "}" ++ newline ::
  str "}".

Definition docker_run (port : Z) (peer_config_file nginx_config_file name : bytes) : list bytes :=
  [str "docker"; str "run"; str "-d"; str "--cap-add=NET_ADMIN"; str "--device=/dev/net/tun";
   str "--sysctl"; str "net.ipv6.conf.all.disable_ipv6=0"; str "--sysctl"; str "net.ipv6.conf.default.disable_ipv6=0";
   str "-p"; show_uint 10 port ++ str ":" ++ show_uint 10 port ++ str "/udp";
   str "-v"; peer_config_file ++ str ":/wireguard/wg.conf";
   str "-v"; nginx_config_file ++ str ":/etc/nginx/conf.d/default.conf";
   str "--rm"; str "--name"; name; str "vkrasnov/wireguard-test"].

Definition start_in_container (self : TestPeer) (local_key : bytes) (local_addr : IpAddr) (local_port : Z) : HM TestPeer :=
  peer_config_file ← temp_path;
  _ ← write_file can_write peer_config_file (gen_wg_conf self local_key local_addr local_port);
  let nginx_config_file := peer_config_file ++ str ".ngx" in
  _ ← write_file can_write nginx_config_file (gen_nginx_conf self);
  name ← str_slice 5 (length peer_config_file) peer_config_file;
  ran ← command can_run (docker_run (sock_port self.(tp_endpoint)) peer_config_file nginx_config_file name);
  _ ← assert_ ran;
  mret (MkTestPeer self.(tp_key) self.(tp_endpoint) self.(tp_allowed_ips) (Some peer_config_file)).

(** [drop] of a peer. *)
Definition TestPeer_drop (self : TestPeer) : HM () :=
  match self.(tp_container_name) with
  | None => mret ()
  | Some name =>
    short ← str_slice 5 (length name) name;
    _ ← command can_run [str "docker"; str "stop"; short];
    _ ← delete_file name;
    delete_file (name ++ str ".ngx")
  end.

(** ** Starting the interface, on Linux *)

Definition ip_command (args : list bytes) : HM () :=
  ran ← command can_run (str "ip" :: args);
  assert_ ran.

Definition wg_start (wg : WGHandle) : HM WGHandle :=
  _ ← ip_command [str "address"; str "add"; show_ip wg.(wg_addr_v4); str "dev"; wg.(wg_name)];
  _ ← ip_command [str "address"; str "add"; show_ip wg.(wg_addr_v6); str "dev"; wg.(wg_name)];
  _ ← ip_command [str "link"; str "set"; str "mtu"; str "1400"; str "up"; str "dev"; wg.(wg_name)];
  _ ← for_each wg.(wg_peers) (λ p, for_each p.(tp_allowed_ips) (λ r,
    ip_command [str "route"; str "add"; show_ip r.(ai_addr) ++ str "/" ++ show_uint 10 r.(ai_cidr); str "dev"; wg.(wg_name)]));
  mret (MkWG wg.(wg_device) wg.(wg_name) wg.(wg_addr_v4) wg.(wg_addr_v6) true wg.(wg_peers)).
End Peers.

(** ** The tests *)

Section Tests.
Context `{Crypto, NetTable, HashOrder, Base64, Hex}.
Context (os : answers) (lfsr : IndexLfsr) (w : world) (o : Peer.os) (can_run : list bytes → bool) (can_write : bytes → bool).

(** What the server of a peer answers to an attempt to connect, for the request
    of a number, with the files of the host. *)
Context (serve : gmap bytes bytes → TestPeer → nat → nat → option connection).

Definition on_device {A} (m : M Error dstate A) (d : dstate) : HM (A * dstate) := λ h,
  match m d with
  | Ret (Ok a, d) => Ret (Ok (a, d), h)
  | Ret (Err e, _) => Ret (Err e, h)
  | Panic => Panic
  end.

Definition next_iface (c : statics) : Z * statics :=
  (c.(NEXT_IFACE_IDX), MkStatics (wrap 64 (c.(NEXT_IFACE_IDX) + 1)) c.(NEXT_PORT) c.(NEXT_IP) c.(NEXT_IP_V6)).

(** The first half of a test: a device with a port and a key. *)
Definition configured_device (config : DeviceConfig) : HM (WGHandle * dstate * Z * bytes) :=
  port ← counter next_port;
  private_key ← zoom h_env with_h_env (fill_bytes 32);
  let public_key := x25519_public private_key in
  addr_v4 ← counter next_ip;
  addr_v6 ← counter next_ip_v6;
  idx ← counter next_iface;
  '(wg, d) ← zoom h_fds with_h_fds (init_with_config os lfsr w o idx addr_v4 addr_v6 config);
  '(reply, d) ← on_device (wg_set_port wg port) d;
  _ ← assert_ (bool_decide (reply = ok_reply));
  '(reply, d) ← on_device (wg_set_key wg private_key) d;
  _ ← assert_ (bool_decide (reply = ok_reply));
  mret (wg, d, port, public_key).

Definition socket_addr (ip : IpAddr) (port : Z) : SocketAddr :=
  match ip with V4 b => SockV4 b port | V6 b => SockV6 b port 0 end.

(** A new peer with an address of its own in the tunnel, of IPv6 or not, which
    is started and made known to the device. *)
Definition join_peer (endpoint_ip : IpAddr) (ipv6 : bool) (wg : WGHandle) (d : dstate) (port : Z) (public_key : bytes) :
    HM (TestPeer * WGHandle * dstate) :=
  peer_port ← counter next_port;
  ip ← counter (if ipv6 then next_ip_v6 else next_ip);
  peer ← TestPeer_new (socket_addr endpoint_ip peer_port) [MkAllowedIP ip (if ipv6 then 128 else 32)];
  peer ← start_in_container can_run can_write peer public_key (if ipv6 then wg.(wg_addr_v6) else wg.(wg_addr_v4)) port;
  '(wg, d) ← on_device (add_peer wg peer) d;
  mret (peer, wg, d).

(** A request, and the key that has to come back. *)
Definition request_and_check (peer : TestPeer) (n : nat) : HM () :=
  files ← gets h_files;
  response ← get_request peer (serve files peer n);
  assert_ (bool_decide (response = encode_hex (x25519_public peer.(tp_key)))).

Definition start_test (config : DeviceConfig) (endpoint_ip : IpAddr) (ipv6 : bool) : HM () :=
  '(wg, d, port, public_key) ← configured_device config;
  '(peer, wg, d) ← join_peer endpoint_ip ipv6 wg d port public_key;
  wg ← wg_start can_run wg;
  _ ← request_and_check peer 0;
  for_each wg.(wg_peers) (TestPeer_drop can_run).

Definition not_connected : DeviceConfig := MkConfig 2 false true (-1).
Definition localhost_v4 : IpAddr := v4 127 0 0 1.
Definition localhost_v6 : IpAddr := V6 ([0; 0; 0; 0; 0; 0; 0; 1] ≫= to_be_bytes 2).

Definition test_wg_start_ipv4_non_connected : HM () := start_test not_connected localhost_v4 false.
Definition test_wg_start_ipv4 : HM () := start_test test_config localhost_v4 false.
Definition test_wg_start_ipv6 : HM () := start_test test_config localhost_v4 true.
Definition test_wg_start_ipv6_endpoint : HM () := start_test test_config localhost_v6 true.
Definition test_wg_start_ipv6_endpoint_not_connected : HM () := start_test not_connected localhost_v6 true.

Fixpoint join_peers (n : nat) (ipv6 : bool) (wg : WGHandle) (d : dstate) (port : Z) (public_key : bytes) : HM (WGHandle * dstate) :=
  match n with
  | O => mret (wg, d)
  | S n =>
    '(_, wg, d) ← join_peer localhost_v4 ipv6 wg d port public_key;
    join_peers n ipv6 wg d port public_key
  end.

(** The thread of a peer: a hundred requests.  The threads change nothing that
    another one reads, so they run one after the other here. *)
Definition peer_thread (p : TestPeer) : HM () :=
  _ ← for_each (seq 0 100) (request_and_check p);
  TestPeer_drop can_run p.

Definition concurrent_test (ipv6 : bool) : HM () :=
  '(wg, d, port, public_key) ← configured_device test_config;
  '(wg, d) ← join_peers 5 ipv6 wg d port public_key;
  wg ← wg_start can_run wg;
  for_each wg.(wg_peers) peer_thread.

Definition test_wg_concurrent : HM () := concurrent_test false.
Definition test_wg_concurrent_v6 : HM () := concurrent_test true.
End Tests.

(** ** What the client reads *)

Definition crlf : bytes := [byte.of_Z 13; newline].
Definition space : byte := byte.of_Z 32.

(** Characters that are no white space. *)
Definition blanks (chars : list bytes) : Prop :=
  Forall (λ w, w ≠ [] ∧ Forall (λ b, ¬ printable b) w) chars.

Lemma white_space_check : forallb (λ w, negb (bool_decide (w = [])) &&
  forallb (λ b, negb ((32 <? code b) && (code b <? 127))) w) white_space = true.
Proof. vm_compute. reflexivity. Qed.

Lemma white_space_blanks : blanks white_space ∧ blanks (map (@rev byte) white_space).
Proof.
  assert (Hb : blanks white_space).
  { apply List.Forall_forall. intros w Hw.
    pose proof (proj1 (forallb_forall _ _) white_space_check w Hw) as [Hne Hall]%andb_prop.
    rewrite negb_true_iff, bool_decide_eq_false in Hne. split; [done|]. apply List.Forall_forall. intros b Hb [Hlo Hhi].
    pose proof (proj1 (forallb_forall _ _) Hall b Hb) as Ho. cbv beta in Ho.
    by rewrite (proj2 (Z.ltb_lt _ _) Hlo), (proj2 (Z.ltb_lt _ _) Hhi) in Ho. }
  split; [done|]. apply Forall_map. eapply Forall_impl; [exact Hb|]. intros w [Hne Hw]. split.
  - intros Hr. apply Hne. by rewrite <- (rev_involutive w), Hr.
  - by apply Forall_rev.
Qed.

Lemma strip_printable fuel chars b s : blanks chars → printable b → strip fuel chars (b :: s) = b :: s.
Proof.
  intros Hc Hb. destruct fuel as [|fuel]; [done|]. cbn [strip].
  destruct (List.find _ chars) as [w|] eqn:Hf; [|done]. apply find_some in Hf as [Hin Ht].
  apply bool_decide_eq_true in Ht. destruct (proj1 (List.Forall_forall _ _) Hc w Hin) as [Hne Hw].
  destruct w as [|c w]; [done|]. cbn in Ht. injection Ht as <- _. by inversion Hw.
Qed.

(** What is no white space at the end stays. *)
Lemma strip_keeps fuel chars l b : blanks chars → printable b → ∃ l', strip fuel chars (l ++ [b]) = l' ++ [b].
Proof.
  intros Hc Hb. revert l. induction fuel as [|fuel IH]; intros l; cbn [strip]; [by exists l|].
  destruct (List.find _ chars) as [w|] eqn:Hf; [|by exists l]. apply find_some in Hf as [Hin Ht].
  apply bool_decide_eq_true in Ht. destruct (proj1 (List.Forall_forall _ _) Hc w Hin) as [_ Hw].
  destruct (decide (length w ≤ length l)%nat) as [Hle|Hgt]; [rewrite drop_app_le by done; apply IH|].
  exfalso. rewrite take_ge in Ht by (rewrite length_app; cbn; lia). rewrite <- Ht in Hw.
  apply Forall_app in Hw as [_ Hw]. by inversion Hw.
Qed.

Lemma trim_not_blank b s : printable b → trim (b :: s) ≠ [].
Proof.
  intros Hb. unfold trim. rewrite strip_printable by (apply white_space_blanks || done). cbn [rev].
  destruct (strip_keeps (length (b :: s)) (map (@rev byte) white_space) (rev s) b) as [l' ->];
    [apply white_space_blanks|done|]. rewrite rev_app_distr. done.
Qed.

(** The value of a header: after a space, before the end of the line. *)
Lemma trim_value s : s ≠ [] → Forall printable s → trim (space :: s ++ crlf) = s.
Proof.
  intros Hne Hs. destruct white_space_blanks as [Hw Hr]. unfold trim.
  change (strip (length (space :: s ++ crlf)) white_space (space :: s ++ crlf)) with
    (strip (length (s ++ crlf)) white_space (s ++ crlf)).
  destruct s as [|b s]; [done|]. inversion Hs as [|?? Hb Hs']; subst. cbn [app].
  rewrite strip_printable by done. change (b :: s ++ crlf) with ((b :: s) ++ crlf).
  rewrite rev_app_distr, length_app, Nat.add_comm.
  change (strip (length crlf + length (b :: s)) (map (@rev byte) white_space) (rev crlf ++ rev (b :: s))) with
    (strip (length (b :: s)) (map (@rev byte) white_space) (rev (b :: s))).
  apply Forall_rev in Hs. rewrite <- (rev_involutive (b :: s)) at 3.
  destruct (rev (b :: s)) as [|c l] eqn:Hl; [done|]. inversion Hs; subst. by rewrite strip_printable.
Qed.

(** Text within a line. *)
Definition in_line (b : byte) : Prop := code b < 128 ∧ b ≠ newline.

Lemma take_line_line l rest : Forall in_line l → take_line (l ++ newline :: rest) = (l ++ [newline], rest).
Proof.
  induction 1 as [|b l [_ Hb] _ IH]; cbn [app take_line]; [by rewrite decide_True|].
  by rewrite decide_False, IH by done.
Qed.

Lemma read_line_line l rest k : Forall in_line l →
  read_line (MkConn (l ++ newline :: rest) k) = (Some (l ++ [newline]), MkConn rest k).
Proof.
  intros Hl. unfold read_line. cbn [sent closes with_sent]. rewrite take_line_line by done. rewrite last_snoc.
  rewrite bool_decide_eq_true_2, orb_true_r by done. rewrite ascii_utf8; [done|].
  apply Forall_app_2; [|by repeat constructor]. eapply Forall_impl; [exact Hl|]. by intros b [? _].
Qed.

(** A header: a name without colon or white space, and a value. *)
Record header_ok (h : bytes * bytes) : Prop := {
  ho_named : h.1 ≠ [];
  ho_name : Forall (λ b, printable b ∧ b ≠ colon) h.1;
  ho_value : Forall in_line h.2;
}.

Definition header_text (h : bytes * bytes) : bytes := h.1 ++ colon :: h.2 ++ crlf.

Definition is_length (h : bytes * bytes) : Prop := to_lowercase h.1 = str "content-length".

Lemma header_read h rest k : header_ok h →
  read_line (MkConn (header_text h ++ rest) k) = (Some (header_text h), MkConn rest k).
Proof.
  intros [_ Hn Hv]. unfold header_text, crlf.
  replace (h.1 ++ colon :: h.2 ++ [byte.of_Z 13; newline]) with ((h.1 ++ colon :: h.2 ++ [byte.of_Z 13]) ++ [newline])
    by (by rewrite <- app_assoc, <- app_comm_cons, <- app_assoc).
  rewrite <- (app_assoc _ [newline]). cbn [app]. apply read_line_line. apply Forall_app_2.
  - eapply Forall_impl; [exact Hn|]. intros b [[Hl Hu] _]. split; [lia|]. intros ->. by vm_compute in Hl.
  - constructor; [done|]. apply Forall_app_2; [done|]. by repeat constructor.
Qed.

Lemma header_not_blank h : header_ok h → trim (header_text h) ≠ [].
Proof.
  intros [Hne Hn _]. unfold header_text. destruct h as [[|b n] v]; [done|]. cbn [fst snd app] in *.
  inversion Hn as [|?? [Hb _] _]; subst. by apply trim_not_blank.
Qed.

Lemma header_split h : header_ok h → split_on colon (header_text h) = h.1 :: split_on colon (h.2 ++ crlf).
Proof. intros [_ Hn _]. apply split_on_app. eapply Forall_impl; [exact Hn|]. by intros b [_ ?]. Qed.

Lemma split_on_some c s : ∃ v vs, split_on c s = v :: vs.
Proof. destruct s as [|b s]; cbn; [eauto|]. case_decide; [eauto|]. destruct (split_on c s); eauto. Qed.

(** The headers other than the length are passed over. *)
Lemma headers_passed hs fuel len rest k : Forall (λ h, header_ok h ∧ ¬ is_length h) hs →
  read_headers (length hs + fuel) len (MkConn (concat (header_text <$> hs) ++ rest) k) = read_headers fuel len (MkConn rest k).
Proof.
  induction 1 as [|h hs [Hh Hl] _ IH]; [done|]. cbn [length Nat.add fmap list_fmap concat read_headers].
  rewrite <- app_assoc, header_read by done. rewrite decide_False by (by apply header_not_blank).
  rewrite header_split by done. destruct (split_on_some colon (h.2 ++ crlf)) as (v & vs & ->).
  by rewrite decide_False.
Qed.

Lemma show_uint_digits n : 0 ≤ n → show_uint 10 n ≠ [] ∧ Forall (λ b, 48 ≤ code b ≤ 57) (show_uint 10 n).
Proof.
  intros Hn. unfold show_uint. destruct (digits_of_spec 10 ltac:(lia) n Hn) as (d & l & -> & Hd & _).
  split; [done|]. apply Forall_fmap. eapply Forall_impl; [exact Hd|]. intros x Hx. cbv beta in Hx. change (48 ≤ code (to_char x) ≤ 57). rewrite to_char_code by lia.
  case_match eqn:Hc; [apply Z.ltb_lt in Hc|apply Z.ltb_ge in Hc]; lia.
Qed.

Definition length_header (name : bytes) (n : Z) : bytes * bytes := (name, space :: show_uint 10 n).

Lemma length_header_ok name n : 0 ≤ n → to_lowercase name = str "content-length" → header_ok (length_header name n).
Proof.
  intros Hn Hl. split; cbn [length_header fst snd]; [by intros ->| |].
  - assert (Hall : Forall (λ b, printable b ∧ b ≠ colon) (to_lowercase name)).
    { rewrite Hl. apply List.Forall_forall. apply (proj1 (List.Forall_forall _ _)).
      repeat (apply List.Forall_cons; [split; [split; vm_compute; reflexivity|done]|]). apply List.Forall_nil. }
    unfold to_lowercase in Hall. rewrite Forall_fmap in Hall. eapply Forall_impl; [exact Hall|]. intros b. cbn.
    case_match eqn:Hc; [|done]. apply andb_prop in Hc as [H1%Z.leb_le H2%Z.leb_le]. intros _. unfold printable.
    split; [lia|]. intros ->. by vm_compute in H1, H2.
  - constructor; [done|]. destruct (show_uint_digits n Hn) as [_ Hd]. eapply Forall_impl; [exact Hd|].
    intros b Hb. cbn in Hb. split; [lia|]. intros ->. vm_compute in Hb. by destruct Hb.
Qed.

Lemma length_read name n fuel len rest k : in_width 64 n → to_lowercase name = str "content-length" →
  read_headers (S fuel) len (MkConn (header_text (length_header name n) ++ rest) k) = read_headers fuel n (MkConn rest k).
Proof.
  intros Hn Hl. assert (Hh : header_ok (length_header name n)) by (apply length_header_ok; [apply Hn|done]).
  cbn [read_headers]. rewrite header_read by done. rewrite decide_False by (by apply header_not_blank).
  rewrite header_split by done. destruct (show_uint_digits n (proj1 Hn)) as [Hne Hd].
  cbn [length_header fst snd]. rewrite split_on_none.
  - rewrite decide_True by done. cbn [app]. rewrite trim_value; [by rewrite parse_uint_show|done|].
    eapply Forall_impl; [exact Hd|]. unfold printable. lia.
  - constructor; [done|]. apply Forall_app_2; [|by repeat constructor]. eapply Forall_impl; [exact Hd|].
    intros b Hb ->. vm_compute in Hb. by destruct Hb.
Qed.

Lemma headers_end fuel len rest k : read_headers (S fuel) len (MkConn (crlf ++ rest) k) = Some (len, MkConn rest k).
Proof.
  cbn [read_headers]. change (crlf ++ rest) with ([byte.of_Z 13] ++ newline :: rest). rewrite read_line_line by (by repeat constructor).
  by rewrite decide_True.
Qed.

Lemma body_read fuel body tail k acc : ascii body → (length body < fuel)%nat →
  read_body fuel (Z.of_nat (length body)) (MkConn (body ++ tail) k) acc = acc ++ body.
Proof.
  revert body acc. induction fuel as [|fuel IH]; intros body acc Ha Hf; [lia|]. cbn [read_body sent].
  destruct (Z.ltb_spec 0 (Z.of_nat (length body))) as [Hpos|Hz].
  - set (r := Z.to_nat (Z.min (Z.of_nat (length body)) 256)). assert (Hr : (0 < r ≤ length body)%nat) by lia.
    rewrite decide_False by (rewrite length_app; lia). rewrite take_app_le, drop_app_le by lia.
    assert (Hs : ascii (take r body ++ drop r body)) by (by rewrite take_drop). apply Forall_app in Hs as [Ht Hd].
    rewrite lossy_utf8 by (by apply ascii_utf8). unfold with_sent. cbn [closes].
    replace (Z.of_nat (length body) - Z.of_nat r) with (Z.of_nat (length (drop r body))) by (rewrite length_drop; lia).
    rewrite IH; [by rewrite <- app_assoc, take_drop|done|rewrite length_drop; lia].
  - destruct body; [by rewrite app_nil_r|cbn in Hz; lia].
Qed.

Lemma header_some h : (0 < length (header_text h))%nat.
Proof. unfold header_text. rewrite length_app. cbn [length]. lia. Qed.

Lemma headers_many hs : (length hs ≤ length (concat (header_text <$> hs)))%nat.
Proof.
  induction hs as [|h hs IH]; [done|]. cbn [fmap list_fmap concat length]. rewrite length_app.
  pose proof (header_some h). lia.
Qed.

(** A successful response with a length and a body of ASCII text is read as its
    body, whatever the other headers are, and whatever comes after it. *)
Lemma response_read reason hs1 name hs2 body tail k :
  Forall in_line reason → Forall (λ h, header_ok h ∧ ¬ is_length h) (hs1 ++ hs2) →
  to_lowercase name = str "content-length" → ascii body → Z.of_nat (length body) < 2 ^ 64 →
  read_response (MkConn (str "HTTP/1.1 200" ++ reason ++ crlf ++ concat (header_text <$> hs1) ++
    header_text (length_header name (Z.of_nat (length body))) ++ concat (header_text <$> hs2) ++ crlf ++ body ++ tail) k) = body.
Proof.
  intros Hreason [Hs1 Hs2]%Forall_app Hname Hbody Hlen. unfold read_response.
  assert (Hstatus : ∀ rest, read_line (MkConn (str "HTTP/1.1 200" ++ reason ++ crlf ++ rest) k) =
    (Some (str "HTTP/1.1 200" ++ reason ++ crlf), MkConn rest k)).
  { intros rest. pose proof (read_line_line (str "HTTP/1.1 200" ++ reason ++ [byte.of_Z 13]) rest k) as Hr.
    rewrite <- !app_assoc in Hr. apply Hr. apply Forall_app_2; [by repeat constructor|].
    apply Forall_app_2; [done|by repeat constructor]. }
  rewrite Hstatus. cbn [sent]. unfold starts_with. rewrite bool_decide_eq_true_2 by done. cbn [negb].
  set (rest := header_text _ ++ concat (header_text <$> hs2) ++ crlf ++ body ++ tail).
  set (n := length (concat (header_text <$> hs1) ++ rest)).
  assert (Hn : ∃ f, S n = (length hs1 + S (length hs2 + S f))%nat).
  { exists (n - length hs1 - S (length hs2))%nat. unfold n, rest. rewrite !length_app.
    pose proof (headers_many hs1). pose proof (headers_many hs2).
    pose proof (header_some (length_header name (Z.of_nat (length body)))). lia. }
  destruct Hn as [f ->]. rewrite headers_passed by done. unfold rest. rewrite length_read by (done || (split; lia)).
  rewrite headers_passed, headers_end by done. cbn [sent]. apply body_read; [done|]. rewrite length_app. lia.
Qed.

(** A character of two bytes at the end of the first 256 is lost. *)
Lemma split_character_lost :
  let body := replicate 255 (byte.of_Z 97) ++ [byte.of_Z 195; byte.of_Z 169] in
  is_utf8 body = true ∧
  read_response (MkConn (str "HTTP/1.1 200 OK" ++ crlf ++ str "Content-Length: 257" ++ crlf ++ crlf ++ body) true) =
    replicate 255 (byte.of_Z 97) ++ replacement ++ replacement.
Proof. split; vm_compute; reflexivity. Qed.

Lemma connect_later {E S} tries skip (attempts : nat → option connection) i c (s : S) :
  (∀ j, (i ≤ j < i + skip)%nat → attempts j = None) → attempts (i + skip)%nat = Some c → (skip < tries)%nat →
  @connect E S tries attempts i s = Ret (Ok c, s).
Proof.
  revert tries i. induction skip as [|skip IH]; intros [|tries] i Hn Hc Ht; [lia| |lia|]; cbn [connect].
  - rewrite Nat.add_0_r in Hc. by rewrite Hc.
  - rewrite (Hn i) by lia. apply IH; [intros j Hj; apply Hn; lia|by rewrite <- Hc; f_equal; lia|lia].
Qed.

(** The requests of a thread pass when each is answered, at one of the first
    five attempts, with the key of the peer. *)
Lemma requests_pass `{Crypto, HexLaws} serve (peer : TestPeer) ns h reason hs name tail k :
  peer.(tp_allowed_ips) ≠ [] → length (x25519_public peer.(tp_key)) = KEY_SIZE →
  Forall in_line reason → Forall (λ x, header_ok x ∧ ¬ is_length x) hs → to_lowercase name = str "content-length" →
  let body := encode_hex (x25519_public peer.(tp_key)) in
  (∀ n, ∃ skip, (skip < 5)%nat ∧ (∀ j, (j < skip)%nat → serve h.(h_files) peer n j = None) ∧
    serve h.(h_files) peer n skip = Some (MkConn (str "HTTP/1.1 200" ++ reason ++ crlf ++ concat (header_text <$> hs) ++
      header_text (length_header name (Z.of_nat (length body))) ++ crlf ++ body ++ tail) k)) →
  for_each ns (request_and_check serve peer) h = Ret (Ok (), h).
Proof.
  intros Hips Hpub Hreason Hhs Hname body Hserve. induction ns as [|n ns IH]; [done|]. cbn [for_each].
  destruct (Hserve n) as (skip & Hskip & Hnone & Hsome). destruct peer.(tp_allowed_ips) as [|ip ips] eqn:Hip; [done|].
  assert (Hget : get_request (E := Error) peer (serve h.(h_files) peer n) h = Ret (Ok body, h)).
  { unfold get_request. rewrite Hip. cbn [lookup list_lookup]. erewrite bind_ok by reflexivity. cbv beta.
    erewrite bind_ok by (apply (connect_later _ skip); [intros j Hj; apply Hnone; lia|exact Hsome|done]).
    cbv beta. unfold mret, M_ret. do 3 f_equal.
    pose proof (response_read reason hs name [] body tail k) as Hr. cbn [fmap list_fmap concat app] in Hr.
    unfold body in *. apply Hr; [done|by rewrite app_nil_r|done|rewrite encode_hex_lower; apply hex_ascii|].
    rewrite encode_hex_lower, length_hex, Hpub. done. }
  erewrite bind_ok; [exact IH|]. unfold request_and_check. erewrite bind_ok by reflexivity. cbv beta.
  erewrite bind_ok by exact Hget. cbv beta. unfold body. by rewrite bool_decide_eq_true_2.
Qed.

(** ** Containers *)

Section Containers.
Context `{Crypto, Base64, HexLaws} (can_run : list bytes → bool) (can_write : bytes → bool).

Lemma temp_path_run h : ∃ name h', temp_path h = Ret (Ok (str "/tmp/" ++ name), h') ∧ ascii name ∧
  h'.(h_files) = h.(h_files) ∧ h'.(h_commands) = h.(h_commands).
Proof. eexists _, _. split; [reflexivity|]. split; [rewrite encode_hex_lower; apply hex_ascii|done]. Qed.

(** The part of a name after [/tmp/]. *)
Lemma short_name {E S} name (s : S) : ascii name →
  @str_slice E S 5 (length (str "/tmp/" ++ name)) (str "/tmp/" ++ name) s = Ret (Ok name, s).
Proof.
  intros Hn. assert (Ha : ascii (str "/tmp/" ++ name)) by (apply Forall_app_2; [by repeat constructor|done]).
  rewrite str_slice_ascii; [|done|rewrite length_app; cbn; lia].
  do 3 f_equal. unfold slice. rewrite length_app. change (drop 5 (str "/tmp/" ++ name)) with name.
  apply take_ge. cbn. lia.
Qed.

Definition stopped (name : bytes) : list (list bytes) :=
  let args := [str "docker"; str "stop"; name] in if can_run args then [args] else [].

Lemma peer_dropped peer name h : ascii name → peer.(tp_container_name) = Some (str "/tmp/" ++ name) →
  ∃ h', TestPeer_drop can_run peer h = Ret (Ok (), h') ∧
    h'.(h_files) = delete ((str "/tmp/" ++ name) ++ str ".ngx") (delete (str "/tmp/" ++ name) h.(h_files)) ∧
    h'.(h_commands) = h.(h_commands) ++ stopped name.
Proof.
  intros Ha Hp. unfold TestPeer_drop, stopped. rewrite Hp. erewrite bind_ok by (by apply short_name). unfold command.
  destruct (can_run _); repeat (erewrite bind_ok by reflexivity; cbv beta);
    (eexists; split; [reflexivity|]); cbn [h_files h_commands with_files with_commands]; by rewrite ?app_nil_r.
Qed.

(** What starting a peer leaves on the host, dropping it takes away: the two
    files, and the container, which is stopped under the name it was given. *)
Lemma container_cleaned self local_key local_addr local_port h peer h' :
  start_in_container can_run can_write self local_key local_addr local_port h = Ret (Ok peer, h') →
  ∃ path name h'',
    peer = MkTestPeer self.(tp_key) self.(tp_endpoint) self.(tp_allowed_ips) (Some path) ∧
    h'.(h_files) = <[path ++ str ".ngx" := gen_nginx_conf self]>
      (<[path := gen_wg_conf self local_key local_addr local_port]> h.(h_files)) ∧
    h'.(h_commands) = h.(h_commands) ++ [docker_run (sock_port self.(tp_endpoint)) path (path ++ str ".ngx") name] ∧
    TestPeer_drop can_run peer h' = Ret (Ok (), h'') ∧
    h''.(h_files) = delete (path ++ str ".ngx") (delete path h.(h_files)) ∧
    h''.(h_commands) = h'.(h_commands) ++ stopped name.
Proof.
  unfold start_in_container. destruct (temp_path_run h) as (name & h1 & Hp & Ha & Hf1 & Hc1).
  erewrite bind_ok by exact Hp. remember (str "/tmp/" ++ name) as path eqn:Hpath.
  assert (Hshort : ∀ s : host, @str_slice Error host 5 (length path) path s = Ret (Ok name, s))
    by (intros s; rewrite Hpath; by apply short_name).
  unfold write_file. destruct (can_write path); [|done]. destruct (can_write (path ++ str ".ngx")); [|done].
  unfold assert_. repeat (erewrite bind_ok by reflexivity; cbv beta).
  erewrite bind_ok by apply Hshort. unfold command. destruct (can_run (docker_run _ _ _ _)); [|done].
  repeat (erewrite bind_ok by reflexivity; cbv beta). intros [= <- <-]. exists path, name.
  destruct (peer_dropped (MkTestPeer self.(tp_key) self.(tp_endpoint) self.(tp_allowed_ips) (Some path)) name
    (with_commands (h1.(h_commands) ++ [docker_run (sock_port self.(tp_endpoint)) path (path ++ str ".ngx") name])
      (with_files (<[path ++ str ".ngx" := gen_nginx_conf self]> (<[path := gen_wg_conf self local_key local_addr local_port]> h1.(h_files))) h1)))
    as (h'' & Hd & Hf & Hc); [done|by rewrite Hpath|].
  exists h''. rewrite <- Hpath in Hf. cbn [h_files h_commands with_files with_commands] in *. rewrite Hf, Hf1, Hc1.
  split_and!; [done|done|done|rewrite Hf1, Hc1 in Hd; exact Hd| |by rewrite Hc, Hc1].
  rewrite (delete_insert_ne _ path), delete_insert_eq by (intros Hq%(f_equal length); rewrite length_app in Hq; cbn in Hq; lia).
  by rewrite delete_insert_eq.
Qed.
End Containers.

(** ** The configuration of a peer *)

Section Configuration.
Context `{Crypto, Base64Laws}.

Lemma split_on_lines ls rest : Forall (Forall (λ b, b ≠ newline)) ls →
  split_on newline (concat ((λ l, l ++ [newline]) <$> ls) ++ rest) = ls ++ split_on newline rest.
Proof.
  induction 1 as [|l ls Hl _ IH]; [done|]. cbn [fmap list_fmap concat]. rewrite <- !app_assoc. cbn [app].
  by rewrite split_on_app, IH.
Qed.

Lemma printable_in_line s : Forall printable s → Forall (λ b, b ≠ newline) s.
Proof. intros Hs. eapply Forall_impl; [exact Hs|]. intros b [Hb _] ->. by vm_compute in Hb. Qed.

Lemma base64_in_line k : Forall (λ b, b ≠ newline) (base64_encode k).
Proof. eapply Forall_impl; [apply base64_alphabet|]. intros b Hb ->. vm_compute in Hb. by destruct Hb. Qed.

Definition address_line (a : AllowedIP) : bytes := str "Address = " ++ show_ip a.(ai_addr) ++ str "/" ++ show_uint 10 a.(ai_cidr).

(** The configuration is the lines that it is meant to be: nothing that is
    printed into a line ends it, and the keys in it read back. *)
Lemma conf_lines self local_key local_addr local_port :
  Forall network_ok self.(tp_allowed_ips) → ip_addr_wf local_addr → 0 ≤ local_port → 0 ≤ sock_port self.(tp_endpoint) →
  length self.(tp_key) = KEY_SIZE → length local_key = KEY_SIZE →
  ∃ own peer,
    split_on newline (gen_wg_conf self local_key local_addr local_port) =
      str "[Interface]" :: (address_line <$> self.(tp_allowed_ips)) ++
      [str "ListenPort = " ++ show_uint 10 (sock_port self.(tp_endpoint)); str "PrivateKey = " ++ own; str "[Peer]";
       str "PublicKey = " ++ peer; str "AllowedIPs = " ++ show_ip local_addr;
       str "Endpoint = 127.0.0.1:" ++ show_uint 10 local_port] ∧
    key_from_str own () = Ret (Ok self.(tp_key), ()) ∧ key_from_str peer () = Ret (Ok local_key, ()).
Proof.
  intros Hips Haddr Hlp Hp Hk Hlk. exists (base64_encode self.(tp_key)), (base64_encode local_key).
  split; [|split; by apply key_from_base64].
  assert (Hnum : ∀ n, 0 ≤ n → Forall (λ b, b ≠ newline) (show_uint 10 n)) by (intros n Hn; by apply printable_in_line, uint_printable).
  assert (Happ : ∀ s t, forallb (λ b, bool_decide (b ≠ newline)) (str s) = true → Forall (λ b, b ≠ newline) t →
    Forall (λ b, b ≠ newline) (str s ++ t)).
  { intros s t Hs Ht. apply Forall_app_2; [|done]. apply List.Forall_forall. intros b Hb.
    by apply (proj1 (forallb_forall _ _) Hs) in Hb as ?%bool_decide_eq_true. }
  unfold gen_wg_conf. rewrite split_on_app by (by repeat constructor). f_equal.
  assert (Hrows : (λ ip, str "Address = " ++ show_ip ip.(ai_addr) ++ str "/" ++ show_uint 10 ip.(ai_cidr) ++ [newline]) <$>
    self.(tp_allowed_ips) = (λ l, l ++ [newline]) <$> (address_line <$> self.(tp_allowed_ips))).
  { rewrite <- list_fmap_compose. apply list_fmap_ext. intros i a _.
    transitivity (address_line a ++ [newline]); [|done]. unfold address_line. by rewrite <- !app_assoc. }
  rewrite Hrows, split_on_lines.
  - f_equal. do 2 (rewrite app_assoc, split_on_app by auto using base64_in_line; f_equal).
    rewrite split_on_app by (by repeat constructor). f_equal.
    rewrite app_assoc, split_on_app by auto using base64_in_line. f_equal.
    rewrite app_assoc, split_on_app by (apply Happ; [done|by apply printable_in_line, show_ip_printable]). f_equal.
    by rewrite split_on_none by auto.
  - rewrite Forall_fmap. eapply Forall_impl; [exact Hips|]. intros a [Ha Hc]. apply Happ; [done|].
    apply Forall_app_2; [by apply printable_in_line, show_ip_printable, ip_wf_addr|]. apply Happ; [done|]. apply Hnum, Hc.
Qed.
End Configuration.

(** ** The tests pass *)

Section Passing.
#[local] Existing Instance toy_crypto.
#[local] Existing Instance toy_laws.
#[local] Existing Instance map_table.
#[local] Existing Instance map_table_laws.
#[local] Existing Instance by_key.
#[local] Existing Instance standard_base64.
#[local] Existing Instance standard_base64_laws.
#[local] Existing Instance lower_hex.
#[local] Existing Instance lower_hex_laws.

(** A web server that answers with what its configuration has in quotes; the
    first attempt to connect fails. *)
Definition quote : byte := byte.of_Z 39.

Definition nginx (files : gmap bytes bytes) (peer : TestPeer) (n i : nat) : option connection :=
  name ← peer.(tp_container_name);
  conf ← files !! (name ++ str ".ngx");
  match split_on quote conf with
  | _ :: body :: _ =>
    if decide (i = 0%nat) then None
    else Some (MkConn (str "HTTP/1.1 200 OK" ++ crlf ++ str "Server: nginx" ++ crlf ++ str "Content-Length: " ++
                 show_uint 10 (Z.of_nat (length body)) ++ crlf ++ crlf ++ body) true)
  | _ => None
  end.

(** Random bytes that do not repeat too soon. *)
Definition host_env : env :=
  Env test_env.(e_clock) test_env.(e_system) 0 (λ n, byte.of_Z (Z.of_nat n + Z.of_nat n / 32)) 0.

Definition test_host : host := MkHost ∅ [] initial_statics host_env ∅.

Definition run_test (test : ∀ (os : answers) (lfsr : IndexLfsr) (w : world) (o : Peer.os) (can_run : list bytes → bool)
    (can_write : bytes → bool) (serve : gmap bytes bytes → TestPeer → nat → nat → option connection), HM ()) :
    option (list bytes * nat) :=
  match test given (MkIndexLfsr 1 1 77) (MkWorld test_env ∅) test_os (λ _, true) (λ _, true) nginx test_host with
  | Ret (Ok _, h) => Some ((map_to_list h.(h_files)).*1, length h.(h_commands))
  | _ => None
  end.

(** The tests with one peer pass, and leave no file: they run docker, three
    commands for the interface, one for the route, and docker again. *)
Lemma container_tests_pass :
  run_test (λ a b c d e f g, test_wg_start_ipv4_non_connected a b c d e f g) = Some ([], 6%nat) ∧
  run_test (λ a b c d e f g, test_wg_start_ipv4 a b c d e f g) = Some ([], 6%nat) ∧
  run_test (λ a b c d e f g, test_wg_start_ipv6 a b c d e f g) = Some ([], 6%nat) ∧
  run_test (λ a b c d e f g, test_wg_start_ipv6_endpoint a b c d e f g) = Some ([], 6%nat) ∧
  run_test (λ a b c d e f g, test_wg_start_ipv6_endpoint_not_connected a b c d e f g) = Some ([], 6%nat).
Proof. split_and!; vm_compute; reflexivity. Qed.
End Passing.
