(* ===== verification/Cli.v ===== *)
(** * The command line (boringtun-cli/src/main.rs)

    What [main] makes of its arguments, and how it starts: in the background
    [Daemonize] forks, and a pair of sockets tells the process that the user
    started how it went.  The arguments come from [clap], which gives every
    argument a value of the type it is defined with; forking comes from
    [daemonize], of which it matters which process runs the action it is
    given. *)

From Stdlib Require Import Strings.String.
From S2P Require Import Prelude Crypto Packet Tai64N Handshake RateLimiter Tunn Lfsr Text Serialization Show AllowedIps Peer.
From S2P Require Import Privileges Tun BsdTun Device EventPoll Handlers Startup Handle.

(** ** Arguments *)

Inductive arg_type : Type := TFlag | TString | TI32 | TIsize | TUsize.

Inductive arg_value : Type :=
| AFlag (b : bool)
| AString (s : bytes)
| AI32 (n : Z)
| AIsize (n : Z)
| AUsize (n : Z).

#[global] Instance arg_type_eq_dec : EqDecision arg_type.
Proof. solve_decision. Defined.

Definition type_of (v : arg_value) : arg_type :=
  match v with AFlag _ => TFlag | AString _ => TString | AI32 _ => TI32 | AIsize _ => TIsize | AUsize _ => TUsize end.

(** The arguments that are defined, with the types of their parsers. *)
Definition defined_args : list (string * arg_type) :=
  [("INTERFACE_NAME", TString); ("foreground", TFlag); ("threads", TUsize); ("verbosity", TString); ("uapi-fd", TI32);
   ("tun-fd", TIsize); ("log", TString); ("disable-drop-privileges", TFlag); ("disable-connected-udp", TFlag);
   ("disable-multi-queue", TFlag)]%string.

Definition verbosities : list bytes := [str "error"; str "info"; str "debug"; str "trace"].

Definition arg_matches : Type := string → option arg_value.

(** Every argument is required, a flag, or has a default: it has a value of its
    type, and a verbosity that may be given. *)
Record clap_gives (m : arg_matches) : Prop := {
  cg_typed id t : (id, t) ∈ defined_args → ∃ v, m id = Some v ∧ type_of v = t;
  cg_verbosity s : m "verbosity"%string = Some (AString s) → s ∈ verbosities;
}.

(** [get_one::<T>(id).unwrap()] panics when [T] is not the type of the value. *)
Definition get_one (m : arg_matches) (t : arg_type) (id : string) : outcome arg_value :=
  match m id with
  | Some v => if decide (type_of v = t) then Ret v else Panic
  | None => Panic
  end.

Definition obind {A B} (o : outcome A) (k : A → outcome B) : outcome B := match o with Ret a => k a | Panic => Panic end.

Definition get_flag (m : arg_matches) (id : string) : outcome bool :=
  obind (get_one m TFlag id) (λ v, match v with AFlag b => Ret b | _ => Panic end).
Definition get_string (m : arg_matches) (id : string) : outcome bytes :=
  obind (get_one m TString id) (λ v, match v with AString s => Ret s | _ => Panic end).
Definition get_number (m : arg_matches) (t : arg_type) (id : string) : outcome Z :=
  obind (get_one m t id) (λ v, match v with AI32 n | AIsize n | AUsize n => Ret n | _ => Panic end).

(** On macOS a name has to be one that can be had. *)
Definition check_tun_name (macos : bool) (v : bytes) : outcome (option bytes) :=
  if macos then
    match Darwin.parse_utun_name (S := ()) true v () with
    | Ret (Ok _, _) => Ret (Some v)
    | Ret (Err _, _) => Ret None
    | Panic => Panic
    end
  else Ret (Some v).

(** What [main] reads before it starts anything. *)
Record settings := MkSettings {
  s_background : bool;
  s_tun_name : bytes;
  s_config : DeviceConfig;
  s_keep_privileges : bool;
}.

Definition read_settings (level_from_str : bytes → bool) (m : arg_matches) : outcome settings :=
  obind (get_flag m "foreground") (λ foreground,
  obind (get_number m TI32 "uapi-fd") (λ uapi_fd,
  obind (get_number m TIsize "tun-fd") (λ tun_fd,
  obind (get_string m "INTERFACE_NAME") (λ tun_name,
  obind (if 0 <=? tun_fd then get_string m "tun-fd" else Ret tun_name) (λ tun_name,
  obind (get_number m TUsize "threads") (λ n_threads,
  obind (get_string m "verbosity") (λ log_level,
  obind (if level_from_str log_level then Ret () else Panic) (λ _,
  obind (get_flag m "disable-connected-udp") (λ no_connected,
  obind (get_flag m "disable-multi-queue") (λ no_multi,
  obind (get_flag m "disable-drop-privileges") (λ keep,
  Ret (MkSettings (negb foreground) tun_name (MkConfig n_threads (negb no_connected) (negb no_multi) uapi_fd) keep)))))))))))).
Arguments get_flag m id%_string_scope.
Arguments get_string m id%_string_scope.
Arguments get_number m t id%_string_scope.

(** *** Properties *)

Lemma get_typed m id t : clap_gives m → (id, t) ∈ defined_args → ∃ v, get_one m t id = Ret v ∧ m id = Some v ∧ type_of v = t.
Proof.
  intros Hm Hid. destruct (cg_typed _ Hm id t Hid) as (v & Hv & Ht). exists v. unfold get_one. rewrite Hv, decide_True by done. done.
Qed.

Lemma flag_given m id : clap_gives m → (id, TFlag) ∈ defined_args → ∃ b, get_flag m id = Ret b ∧ m id = Some (AFlag b).
Proof.
  intros Hm Hid. destruct (get_typed m id TFlag Hm Hid) as (v & Hg & Hv & Ht). unfold get_flag. rewrite Hg.
  destruct v as [b| | | |]; try done. by exists b.
Qed.

Lemma string_given m id : clap_gives m → (id, TString) ∈ defined_args → ∃ s, get_string m id = Ret s ∧ m id = Some (AString s).
Proof.
  intros Hm Hid. destruct (get_typed m id TString Hm Hid) as (v & Hg & Hv & Ht). unfold get_string. rewrite Hg.
  destruct v as [|s| | |]; try done. by exists s.
Qed.

Lemma i32_given m id : clap_gives m → (id, TI32) ∈ defined_args → ∃ n, get_number m TI32 id = Ret n ∧ m id = Some (AI32 n).
Proof.
  intros Hm Hid. destruct (get_typed m id TI32 Hm Hid) as (v & Hg & Hv & Ht). unfold get_number. rewrite Hg.
  destruct v as [| |n| |]; try done. by exists n.
Qed.

Lemma isize_given m id : clap_gives m → (id, TIsize) ∈ defined_args → ∃ n, get_number m TIsize id = Ret n ∧ m id = Some (AIsize n).
Proof.
  intros Hm Hid. destruct (get_typed m id TIsize Hm Hid) as (v & Hg & Hv & Ht). unfold get_number. rewrite Hg.
  destruct v as [| | |n|]; try done. by exists n.
Qed.

Lemma usize_given m id : clap_gives m → (id, TUsize) ∈ defined_args → ∃ n, get_number m TUsize id = Ret n ∧ m id = Some (AUsize n).
Proof.
  intros Hm Hid. destruct (get_typed m id TUsize Hm Hid) as (v & Hg & Hv & Ht). unfold get_number. rewrite Hg.
  destruct v as [| | | |n]; try done. by exists n.
Qed.

(** With no descriptor for the interface the arguments are read. *)
Lemma settings_read_ok level_from_str m tfd :
  clap_gives m → (∀ s, s ∈ verbosities → level_from_str s = true) → m "tun-fd"%string = Some (AIsize tfd) → tfd < 0 →
  ∃ f name threads uapi c q k, read_settings level_from_str m =
      Ret (MkSettings (negb f) name (MkConfig threads (negb c) (negb q) uapi) k) ∧
    m "foreground"%string = Some (AFlag f) ∧ m "INTERFACE_NAME"%string = Some (AString name) ∧
    m "threads"%string = Some (AUsize threads) ∧ m "uapi-fd"%string = Some (AI32 uapi) ∧
    m "disable-connected-udp"%string = Some (AFlag c) ∧ m "disable-multi-queue"%string = Some (AFlag q) ∧
    m "disable-drop-privileges"%string = Some (AFlag k).
Proof.
  intros Hm Hlevel Htm Hlt. unfold read_settings.
  destruct (flag_given m "foreground" Hm) as (f & -> & Hf); [set_solver|]. cbn [obind].
  destruct (i32_given m "uapi-fd" Hm) as (uapi & -> & Hu); [set_solver|]. cbn [obind].
  destruct (isize_given m "tun-fd" Hm) as (tfd' & -> & Htm'); [set_solver|]. rewrite Htm in Htm'. injection Htm' as <-. cbn [obind].
  destruct (string_given m "INTERFACE_NAME" Hm) as (nm & -> & Hn); [set_solver|]. cbn [obind].
  rewrite (proj2 (Z.leb_gt _ _)) by done. cbn [obind].
  destruct (usize_given m "threads" Hm) as (th & -> & Hth); [set_solver|]. cbn [obind].
  destruct (string_given m "verbosity" Hm) as (lv & -> & Hlv); [set_solver|]. cbn [obind].
  rewrite (Hlevel lv) by (by apply (cg_verbosity _ Hm)). cbn [obind].
  destruct (flag_given m "disable-connected-udp" Hm) as (c & -> & Hc); [set_solver|]. cbn [obind].
  destruct (flag_given m "disable-multi-queue" Hm) as (q & -> & Hq); [set_solver|]. cbn [obind].
  destruct (flag_given m "disable-drop-privileges" Hm) as (k & -> & Hk); [set_solver|]. cbn [obind].
  exists f, nm, th, uapi, c, q, k. done.
Qed.

(** Every argument is read with the type it is defined with, but one: with
    a descriptor for the interface, [--tun-fd] at least zero, [main] reads the
    same argument again as a string and panics.  Otherwise reading the
    arguments never panics, and gives the configuration that they say. *)
Theorem settings_read level_from_str m :
  clap_gives m → (∀ s, s ∈ verbosities → level_from_str s = true) →
  (∃ n, m "tun-fd"%string = Some (AIsize n) ∧ 0 ≤ n ∧ read_settings level_from_str m = Panic) ∨
  ∃ f name threads uapi c q k, read_settings level_from_str m =
      Ret (MkSettings (negb f) name (MkConfig threads (negb c) (negb q) uapi) k) ∧
    m "foreground"%string = Some (AFlag f) ∧ m "INTERFACE_NAME"%string = Some (AString name) ∧
    m "threads"%string = Some (AUsize threads) ∧ m "uapi-fd"%string = Some (AI32 uapi) ∧
    m "disable-connected-udp"%string = Some (AFlag c) ∧ m "disable-multi-queue"%string = Some (AFlag q) ∧
    m "disable-drop-privileges"%string = Some (AFlag k).
Proof.
  intros Hm Hlevel. destruct (isize_given m "tun-fd" Hm) as (tfd & Hg & Htm); [set_solver|].
  destruct (Z.leb_spec 0 tfd) as [Hge|Hlt]; [|right; by eapply settings_read_ok].
  left. exists tfd. split_and!; [done|done|]. unfold read_settings.
  destruct (flag_given m "foreground" Hm) as (f & -> & Hf); [set_solver|]. cbn [obind].
  destruct (i32_given m "uapi-fd" Hm) as (uapi & -> & Hu); [set_solver|]. cbn [obind].
  rewrite Hg. destruct (string_given m "INTERFACE_NAME" Hm) as (nm & -> & Hn); [set_solver|]. cbn [obind].
  rewrite (proj2 (Z.leb_le _ _)) by done. unfold get_string at 1, get_one. by rewrite Htm, decide_False.
Qed.

(** ** Launching *)

(** The open descriptors and the credentials of the process. *)
Abbreviation LM := (M Error (gset Z * cred)).

Section Launch.
Context `{Crypto, NetTable, HashOrder} (os : answers) (lfsr : IndexLfsr) (w : world) (o : Peer.os).
Context (getlogin : option bytes) (getpwnam : bytes → option (Z * Z)).

(** What [main] does once it is the process that serves: the byte it sends, and
    the handle that it waits for; without one it exits with the code 1. *)
Definition launch (s : settings) : LM (Z * option (boot * dstate * Z)) :=
  made ← attempt (zoom fst (λ f p, (f, p.2)) (DeviceHandle_new os lfsr w o s.(s_tun_name) s.(s_config)));
  match made with
  | Err _ => mret (0, None)
  | Ok handle =>
    dropped ← (if s.(s_keep_privileges) then mret (Ok ())
               else attempt (zoom snd (λ c p, (p.1, c)) (drop_privileges getlogin getpwnam)));
    match dropped with
    | Err _ => mret (0, None)
    | Ok _ => mret (1, Some handle)
    end
  end.

(** What is told is what happened: the byte is 1 exactly when the process goes
    on to serve, and then it made the device and, unless told to keep them, has
    left the privileges of the superuser for good. *)
Lemma launch_told s fds c r p :
  launch s (fds, c) = Ret (r, p) →
  ∃ b h, r = Ok (b, h) ∧ (b = 1 ∧ is_Some h ∨ b = 0 ∧ h = None) ∧
    (∀ x, h = Some x → DeviceHandle_new os lfsr w o s.(s_tun_name) s.(s_config) fds = Ret (Ok x, p.1) ∧
      (s.(s_keep_privileges) = true → p.2 = c) ∧
      (s.(s_keep_privileges) = false → root c → ∃ uid gid, uid ≠ 0 ∧ gid ≠ 0 ∧ ∀ xs, is_user uid gid (after_calls xs p.2))).
Proof.
  unfold launch, attempt, zoom, mbind, M_bind, mret, M_ret. cbn [fst snd].
  destruct (DeviceHandle_new os lfsr w o s.(s_tun_name) s.(s_config) fds) as [[[x|e] fds']|]; [| |done].
  2:{ intros [= <- <-]. exists 0, None. split; [done|]. split; [by right|done]. }
  destruct s.(s_keep_privileges).
  { intros [= <- <-]. exists 1, (Some x). split; [done|]. split; [by left|]. intros y [= <-]. done. }
  cbn [fst snd]. destruct (drop_privileges getlogin getpwnam c) as [[[[]|e] c']|] eqn:Hd; [| |done]; intros [= <- <-].
  - exists 1, (Some x). split; [done|]. split; [by left|]. intros y [= <-]. split_and!; [done..|]. intros _ Hroot.
    destruct (proj1 (privileges_dropped getlogin getpwnam c Hroot) c' Hd) as (un & uid & gid & _ & _ & Hu & Hg & Hxs).
    exists uid, gid. split_and!; [done..|]. intros xs. apply Hxs.
  - exists 0, None. split; [done|]. split; [by right|done].
Qed.

(** ** The foreground *)

(** Where the log goes. *)
Inductive log_target : Type :=
| LogFile (log : bytes)
| Terminal.

(** The pair of sockets, and the log: a file that cannot be created is a panic. *)
Definition prepare (pair : bool) (create : bytes → bool) (m : arg_matches) (background : bool) : outcome log_target :=
  if pair then
    if background then obind (get_string m "log") (λ log, if create log then Ret (LogFile log) else Panic)
    else Ret Terminal
  else Panic.

(** How [main] ends up: waiting for the workers, or gone. *)
Inductive ending : Type :=
| Serves (handle : boot * dstate * Z)
| Exits (code : Z).

(** [main] with [--foreground]: no process is forked, and the bytes that are
    sent on the pair are not read. *)
Definition main_foreground (level_from_str : bytes → bool) (pair : bool) (create : bytes → bool) (m : arg_matches)
    (p : gset Z * cred) : outcome (ending * (gset Z * cred)) :=
  obind (read_settings level_from_str m) (λ s,
  obind (prepare pair create m s.(s_background)) (λ _,
  match launch s p with
  | Ret (Ok (_, Some handle), p') => Ret (Serves handle, p')
  | Ret (Ok (_, None), p') => Ret (Exits 1, p')
  | _ => Panic
  end)).

(** In the foreground [main] serves the device that its arguments ask for, with
    the privileges dropped unless it was told to keep them, or exits with the
    code 1.  It needs no log file, and panics only where making the device or
    dropping the privileges does. *)
Lemma foreground_serves level_from_str create m fds c tfd :
  clap_gives m → (∀ s, s ∈ verbosities → level_from_str s = true) →
  m "foreground"%string = Some (AFlag true) → m "tun-fd"%string = Some (AIsize tfd) → tfd < 0 →
  ∃ s, read_settings level_from_str m = Ret s ∧ s.(s_background) = false ∧
    match main_foreground level_from_str true create m (fds, c) with
    | Ret (Serves h, p') => DeviceHandle_new os lfsr w o s.(s_tun_name) s.(s_config) fds = Ret (Ok h, p'.1) ∧
        (s.(s_keep_privileges) = false → root c → ∃ uid gid, uid ≠ 0 ∧ gid ≠ 0 ∧ ∀ xs, is_user uid gid (after_calls xs p'.2))
    | Ret (Exits code, _) => code = 1
    | Panic => launch s (fds, c) = Panic
    end.
Proof.
  intros Hm Hl Hf Ht Hneg. destruct (settings_read_ok level_from_str m tfd Hm Hl Ht Hneg) as (f & nm & th & u & cn & q & k & Hr & Hf' & _).
  rewrite Hf in Hf'. injection Hf' as <-. eexists. split; [exact Hr|]. split; [done|].
  unfold main_foreground, prepare. rewrite Hr. cbn [obind s_background negb].
  match goal with |- context [launch ?x ?y] => destruct (launch x y) as [[r p']|] eqn:Hlaunch; [|done] end.
  destruct (launch_told _ _ _ _ _ Hlaunch) as (b & h & -> & _ & Hh). destruct h as [h|]; [|done].
  destruct (Hh h eq_refl) as (Hnew & _ & Hdrop). by split.
Qed.
End Launch.

(** ** Starting in the background *)

(** [start] of [Daemonize] forks, and returns in the daemon.  The process that
    the user started is the starter. *)
Inductive process : Type := Starter | Daemon.

#[global] Instance process_eq_dec : EqDecision process.
Proof. solve_decision. Defined.

(** Where a process is: in the action it gave to [Daemonize], which waits for a
    byte on the second socket; making the device; dropping the privileges;
    sending a byte on the first socket; serving; or gone. *)
Inductive phase : Type :=
| PAction
| PMake
| PDrop
| PTell (b : Z)
| PServe
| PExit (code : Z).

Inductive said : Type := Started | Failed.

(** The bytes that were sent and not received; a pair of sockets outlives a
    fork in both processes. *)
Record start := MkStart {
  st_bytes : list Z;
  st_starter : phase;
  st_daemon : phase;
  st_said : list said;
}.

Definition phase_of (p : process) (s : start) : phase := match p with Starter => s.(st_starter) | Daemon => s.(st_daemon) end.
Definition goes (p : process) (ph : phase) (s : start) : start :=
  match p with
  | Starter => MkStart s.(st_bytes) ph s.(st_daemon) s.(st_said)
  | Daemon => MkStart s.(st_bytes) s.(st_starter) ph s.(st_said)
  end.
Definition with_bytes (l : list Z) (s : start) : start := MkStart l s.(st_starter) s.(st_daemon) s.(st_said).
Definition says (x : said) (s : start) : start := MkStart s.(st_bytes) s.(st_starter) s.(st_daemon) (s.(st_said) ++ [x]).

Section Background.
(** [runs] is the process in which [Daemonize] runs the action; [made] and
    [dropped] say whether [DeviceHandle::new] and [drop_privileges] succeed,
    [keep] is the flag that keeps the privileges. *)
Context (runs : process) (made dropped keep : bool).

(** After the fork the starter has nothing left to do but the action, if it is
    the one to run it; the daemon goes on once [start] returns. *)
Definition forked : start :=
  match runs with
  | Starter => MkStart [] PAction PMake []
  | Daemon => MkStart [] (PExit 0) PAction []
  end.

(** A step of a process, [None] where it waits or is at its end. *)
Definition start_step (p : process) (s : start) : option start :=
  match phase_of p s with
  | PAction =>
    match s.(st_bytes) with
    | [] => None
    | b :: l =>
      if b =? 1 then Some (says Started (goes p (if decide (p = Starter) then PExit 0 else PMake) (with_bytes l s)))
      else Some (says Failed (goes p (PExit 1) (with_bytes l s)))
    end
  | PMake => Some (goes p (if made then PDrop else PTell 0) s)
  | PDrop => Some (goes p (if keep || dropped then PTell 1 else PTell 0) s)
  | PTell b => Some (goes p (if b =? 1 then PServe else PExit 1) (with_bytes (s.(st_bytes) ++ [b]) s))
  | PServe | PExit _ => None
  end.

Inductive start_steps : start → start → Prop :=
| steps_refl s : start_steps s s
| steps_trans p s s' s'' : start_step p s = Some s' → start_steps s' s'' → start_steps s s''.

(** In the background nothing ever starts.  [Daemonize] runs a privileged
    action in the daemon before [start] returns there, and this action waits for
    a byte that only the daemon sends, after [start] has returned.  So the
    process that the user started is gone with success, the daemon waits for
    ever, and no device is made. *)
Lemma background_never_starts s :
  runs = Daemon → start_steps forked s → s = forked ∧ s.(st_starter) = PExit 0 ∧ s.(st_daemon) = PAction ∧
    s.(st_said) = [] ∧ ∀ p, start_step p s = None.
Proof.
  intros Hr. unfold forked. rewrite Hr. assert (Hstuck : ∀ p, start_step p (MkStart [] (PExit 0) PAction []) = None) by (by intros []).
  intros Hs. remember (MkStart [] (PExit 0) PAction []) as s0 eqn:E. destruct Hs as [|p s s' s'' Hstep _]; subst; [done|].
  by rewrite Hstuck in Hstep.
Qed.

(** Were the action run in the starter, the protocol would be right: every run
    ends, and then the starter has said, and told by its code, whether the
    device was made and the privileges dropped. *)
Definition well : bool := made && (keep || dropped).

Definition verdict (s : start) : Prop :=
  if well then s = MkStart [] (PExit 0) PServe [Started] else s = MkStart [] (PExit 1) (PExit 1) [Failed].

(** The states on the way. *)
Inductive on_way : start → Prop :=
| way_make : on_way (MkStart [] PAction PMake [])
| way_drop : made = true → on_way (MkStart [] PAction PDrop [])
| way_tell b : b = (if well then 1 else 0) → on_way (MkStart [] PAction (PTell b) [])
| way_told b : b = (if well then 1 else 0) → on_way (MkStart [b] PAction (if b =? 1 then PServe else PExit 1) [])
| way_done s : verdict s → on_way s.

Lemma on_way_step p s s' : on_way s → start_step p s = Some s' → on_way s'.
Proof.
  unfold well. intros [|Hm|b Hb|b Hb|s0 Hv].
  - destruct p; cbn; [done|]. intros [= <-]. destruct made eqn:Hm; [by apply way_drop|]. apply way_tell. unfold well. by rewrite Hm.
  - destruct p; cbn; [done|]. intros [= <-]. assert (Hw : well = keep || dropped) by (unfold well; by rewrite Hm).
    destruct (keep || dropped); apply way_tell; by rewrite Hw.
  - destruct p; cbn; [done|]. intros [= <-]. by apply way_told.
  - destruct p; cbn.
    + rewrite Hb. unfold well. intros Hs. apply way_done. unfold verdict, well. destruct (made && (keep || dropped)); cbn in Hs; by injection Hs as <-.
    + by destruct (b =? 1).
  - unfold verdict in Hv. destruct well; subst s0; by destruct p.
Qed.

Lemma starter_is_told s :
  runs = Starter → start_steps forked s → (∀ p, start_step p s = None) → verdict s.
Proof.
  intros Hr Hs Hend. assert (Hw : on_way s).
  { assert (H0 : on_way forked) by (unfold forked; rewrite Hr; apply way_make). induction Hs as [|p s1 s2 s3 Hstep _ IH]; [done|].
    apply IH; [done|]. by eapply on_way_step. }
  destruct Hw as [|Hm|b Hb|b Hb|s0 Hv]; [by specialize (Hend Daemon)..| |done].
  specialize (Hend Starter). cbn in Hend. by destruct (b =? 1).
Qed.
End Background.

(** ** Witnesses *)

Definition given_args : arg_matches := λ id,
  if (id =? "INTERFACE_NAME")%string then Some (AString (str "wg0"))
  else if (id =? "threads")%string then Some (AUsize 2)
  else if (id =? "verbosity")%string then Some (AString (str "info"))
  else if (id =? "uapi-fd")%string then Some (AI32 (-1))
  else if (id =? "tun-fd")%string then Some (AIsize (-1))
  else if (id =? "log")%string then Some (AString (str "/tmp/boringtun.out"))
  else Some (AFlag false).

Lemma given_args_ok : clap_gives given_args.
Proof.
  split.
  - intros id t Hid. unfold defined_args in Hid. rewrite !elem_of_cons, elem_of_nil in Hid.
    destruct_or! Hid; try injection Hid as -> ->; try done; by eexists.
  - intros s [= <-]. unfold verbosities. set_solver.
Qed.

Lemma settings_read_witness :
  read_settings (λ _, true) given_args = Ret (MkSettings true (str "wg0") (MkConfig 2 true true (-1)) false).
Proof.
  destruct (settings_read (λ _, true) given_args given_args_ok ltac:(done)) as [(n & Hn & H0 & _)|(f & nm & th & u & c & q & k & Hr & Hf & Hn & Ht & Hu & Hc & Hq & Hk)].
  - injection Hn as <-. by destruct H0.
  - rewrite Hr. injection Hf as <-. injection Hn as <-. injection Ht as <-. injection Hu as <-. injection Hc as <-. injection Hq as <-.
    injection Hk as <-. reflexivity.
Defined.

Lemma background_never_starts_witness : ∃ s, start_steps true true false (forked Daemon) s ∧ s.(st_daemon) = PAction.
Proof.
  exists (forked Daemon). split; [constructor|].
  exact (proj1 (proj2 (proj2 (background_never_starts Daemon true true false _ eq_refl (steps_refl true true false _))))).
Defined.
