(* ===== verification/DevLock.v ===== *)
(** * The lock of a device and its threads (device/dev_lock.rs, device/mod.rs)

    The workers of a device share it behind a [Lock]: a reader-writer lock
    with a flag [wants_write] beside it, by which a reader that wants to write
    makes the others give up their guards.  Each worker runs the event loop
    with a guard that it keeps from one event to the next.

    A thread is where it is in the code; [step] runs one thread up to its next
    operation on something shared.  The mutex, the condition variable and the
    reader-writer lock are those of parking_lot: the mutex and the write lock
    exclude, waiting gives up the mutex until it is notified, and a read lock
    is granted when nobody has or waits for the write lock.  Whether it is
    granted while somebody waits is the policy of the lock, a parameter. *)

From S2P Require Import Prelude Handlers.
From stdpp Require Import gmap.

#[local] Set Warnings "-clear-no-such-hyp,-register-all".

(** ** Threads *)

(** What a handler does, section by section: it ends; it runs something that
    no other thread can see half done (a method of a peer under its mutex, an
    operation on the limiter); or it calls [try_writeable].  A section may
    panic. *)
Inductive prog (T : Type) : Type :=
| PDone (a : Action)
| PSect (m : T → option (T * prog T))
| PWrite (mut_func : T → option (T * prog T)).
Arguments PDone {T} a.
Arguments PSect {T} m.
Arguments PWrite {T} mut_func.

(** Who calls [read]: a worker for its interface, for the descriptor of the
    configuration, and for the loop; the handle of the device when it is
    dropped, to stop the workers and to clean up. *)
Inductive reason : Type := ForIface | ForUapi | ForLoop | ForExit | ForClean.

Inductive pc (T : Type) : Type :=
(* read *)
| RLock (r : reason)
| RCheck (r : reason)
| RWait (r : reason)
| RWoken (r : reason)
| RInner (r : reason)
(* with a guard *)
| Holding (r : reason)
| Polling
| Handling (p : prog T)
(* try_writeable *)
| WLock (f : T → option (T * prog T))
| WUnlock (f : T → option (T * prog T))
| WCheck (f : T → option (T * prog T))
| WWait (f : T → option (T * prog T))
| WWoken (f : T → option (T * prog T))
| WSet (f : T → option (T * prog T))
| WRelock (f : T → option (T * prog T))
| WPrep (f : T → option (T * prog T))
| WRelease (f : T → option (T * prog T))
| WWrite (f : T → option (T * prog T))
| WMut (f : T → option (T * prog T))
| WReacquire (p : prog T)
| WSignal (p : prog T)
| WClear (p : prog T)
(* gone: [mut_func] panicked, a handler panicked, or it returned *)
| WUnwind
| Crashed
| Panicked
| Stopped.
Arguments RLock {T} r.
Arguments RCheck {T} r.
Arguments RWait {T} r.
Arguments RWoken {T} r.
Arguments RInner {T} r.
Arguments Holding {T} r.
Arguments Polling {T}.
Arguments Handling {T} p.
Arguments WLock {T} f.
Arguments WUnlock {T} f.
Arguments WCheck {T} f.
Arguments WWait {T} f.
Arguments WWoken {T} f.
Arguments WSet {T} f.
Arguments WRelock {T} f.
Arguments WPrep {T} f.
Arguments WRelease {T} f.
Arguments WWrite {T} f.
Arguments WMut {T} f.
Arguments WReacquire {T} p.
Arguments WSignal {T} p.
Arguments WClear {T} p.
Arguments WUnwind {T}.
Arguments Crashed {T}.
Arguments Panicked {T}.
Arguments Stopped {T}.

(** The lock, what it protects, the two notifiers and the threads. *)
Record shared (T : Type) := Shared {
  wants_mutex : option nat;
  wants_write : bool;
  inner_readers : gset nat;
  inner_writer : option nat;
  locked : T;
  yield_notice : bool;
  exit_notice : bool;
  threads : list (pc T);
}.
Arguments Shared {T} _ _ _ _ _ _ _ _.
Arguments wants_mutex {T} _.
Arguments wants_write {T} _.
Arguments inner_readers {T} _.
Arguments inner_writer {T} _.
Arguments locked {T} _.
Arguments yield_notice {T} _.
Arguments exit_notice {T} _.
Arguments threads {T} _.

(** What [queue.wait()] gives a worker: a handler, one of the notifiers, the
    end of a file (of the configuration descriptor or not), or an error. *)
Inductive poll_event (T : Type) : Type :=
| EvRun (p : prog T)
| EvYield
| EvExit
| EvEof (uapi : bool)
| EvError.
Arguments EvRun {T} p.
Arguments EvYield {T}.
Arguments EvExit {T}.
Arguments EvEof {T} uapi.
Arguments EvError {T}.

Section Steps.
Context {T : Type} (barging : gset nat → bool).

Abbreviation sys := (shared T).

Definition set_mutex (o : option nat) (s : sys) : sys :=
  Shared o s.(wants_write) s.(inner_readers) s.(inner_writer) s.(locked) s.(yield_notice) s.(exit_notice) s.(threads).
Definition set_wants (b : bool) (s : sys) : sys :=
  Shared s.(wants_mutex) b s.(inner_readers) s.(inner_writer) s.(locked) s.(yield_notice) s.(exit_notice) s.(threads).
Definition set_readers (r : gset nat) (s : sys) : sys :=
  Shared s.(wants_mutex) s.(wants_write) r s.(inner_writer) s.(locked) s.(yield_notice) s.(exit_notice) s.(threads).
Definition set_writer (o : option nat) (s : sys) : sys :=
  Shared s.(wants_mutex) s.(wants_write) s.(inner_readers) o s.(locked) s.(yield_notice) s.(exit_notice) s.(threads).
Definition set_locked (d : T) (s : sys) : sys :=
  Shared s.(wants_mutex) s.(wants_write) s.(inner_readers) s.(inner_writer) d s.(yield_notice) s.(exit_notice) s.(threads).
Definition set_yield (b : bool) (s : sys) : sys :=
  Shared s.(wants_mutex) s.(wants_write) s.(inner_readers) s.(inner_writer) s.(locked) b s.(exit_notice) s.(threads).
Definition set_exit (b : bool) (s : sys) : sys :=
  Shared s.(wants_mutex) s.(wants_write) s.(inner_readers) s.(inner_writer) s.(locked) s.(yield_notice) b s.(threads).
Definition set_threads (l : list (pc T)) (s : sys) : sys :=
  Shared s.(wants_mutex) s.(wants_write) s.(inner_readers) s.(inner_writer) s.(locked) s.(yield_notice) s.(exit_notice) l.

(** Thread [i] goes on at [p]. *)
Definition goto (i : nat) (p : pc T) (s : sys) : sys := set_threads (<[i := p]> s.(threads)) s.

(** ** The primitives *)

(** [lock.lock()]: blocks while somebody has the mutex. *)
Definition take_mutex (i : nat) (s : sys) : option sys :=
  match s.(wants_mutex) with None => Some (set_mutex (Some i) s) | Some _ => None end.

Definition drop_mutex : sys → sys := set_mutex None.

Definition waits_to_write (p : pc T) : bool := match p with WWrite _ => true | _ => false end.

(** [inner.read()]. *)
Definition take_read (i : nat) (s : sys) : option sys :=
  match s.(inner_writer) with
  | Some _ => None
  | None =>
    if existsb waits_to_write s.(threads) && negb (barging s.(inner_readers)) then None
    else Some (set_readers ({[i]} ∪ s.(inner_readers)) s)
  end.

Definition drop_read (i : nat) (s : sys) : sys := set_readers (s.(inner_readers) ∖ {[i]}) s.

(** [inner.write()]. *)
Definition take_write (i : nat) (s : sys) : option sys :=
  match s.(inner_writer) with
  | Some _ => None
  | None => if bool_decide (s.(inner_readers) = ∅) then Some (set_writer (Some i) s) else None
  end.

Definition drop_write : sys → sys := set_writer None.

(** [cvar.notify_all()]. *)
Definition wake (p : pc T) : pc T :=
  match p with RWait r => RWoken r | WWait f => WWoken f | p => p end.

Definition notify_all (s : sys) : sys := set_threads (wake <$> s.(threads)) s.

Definition trigger_yield : sys → sys := set_yield true.
Definition cancel_yield : sys → sys := set_yield false.
Definition trigger_exit : sys → sys := set_exit true.

(** ** The code *)

(** With a guard, a thread at [r] gives it up and goes on. *)
Definition after_use (i : nat) (r : reason) (s : sys) : sys :=
  match r with
  | ForIface => goto i (RLock ForUapi) (drop_read i s)
  | ForUapi => goto i (RLock ForLoop) (drop_read i s)
  | ForLoop => goto i Polling s
  | ForExit => goto i (RLock ForClean) (drop_read i (trigger_exit s))
  | ForClean => goto i Stopped (drop_read i s)
  end.

(** [Lock::read]. *)
Definition step_read (i : nat) (p : pc T) (s : sys) : option sys :=
  match p with
  | RLock r => goto i (RCheck r) <$> take_mutex i s
  | RCheck r => Some (if s.(wants_write) then goto i (RWait r) (drop_mutex s) else goto i (RInner r) s)
  | RWoken r => goto i (RCheck r) <$> take_mutex i s
  | RInner r => (λ s', goto i (Holding r) (drop_mutex s')) <$> take_read i s
  | _ => None
  end.

(** [LockReadGuard::try_writeable] with [trigger_yield]; [mut_func] starts
    with [cancel_yield]. *)
Definition step_write (i : nat) (p : pc T) (s : sys) : option sys :=
  match p with
  | WLock f => goto i (WUnlock f) <$> take_mutex i s
  | WUnlock f => Some (goto i (WCheck f) (drop_read i s))
  | WCheck f => Some (if s.(wants_write) then goto i (WWait f) (drop_mutex s) else goto i (WSet f) s)
  | WWoken f => goto i (WCheck f) <$> take_mutex i s
  | WSet f => Some (goto i (WRelock f) (drop_mutex (set_wants true s)))
  | WRelock f => goto i (WPrep f) <$> take_read i s
  | WPrep f => Some (goto i (WRelease f) (trigger_yield s))
  | WRelease f => Some (goto i (WWrite f) (drop_read i s))
  | WWrite f => goto i (WMut f) <$> take_write i s
  | WMut f =>
    Some (match f s.(locked) with
          | Some (d, p) => goto i (WReacquire p) (drop_write (set_locked d (cancel_yield s)))
          | None => goto i WUnwind (drop_write (cancel_yield s))
          end)
  | WReacquire p => goto i (WSignal p) <$> take_read i s
  | WSignal p => goto i (WClear p) <$> take_mutex i s
  | WClear p => Some (goto i (Handling p) (drop_mutex (notify_all (set_wants false s))))
  | WUnwind => (λ s', goto i Crashed (drop_read i s')) <$> take_read i s
  | _ => None
  end.

(** The body of [DeviceHandle::event_loop]. *)
Definition step_loop (i : nat) (p : pc T) (e : poll_event T) (s : sys) : option sys :=
  match p with
  | Holding r => Some (after_use i r s)
  | Polling =>
    match e with
    | EvRun p => Some (goto i (Handling p) s)
    | EvYield => if s.(yield_notice) then Some (goto i (Handling (PDone Yield)) s) else None
    | EvExit => if s.(exit_notice) then Some (goto i (Handling (PDone Exit)) s) else None
    | EvEof true => Some (goto i Stopped (drop_read i (trigger_exit s)))
    | EvEof false | EvError => Some s
    end
  | Handling (PDone Continue) => Some (goto i Polling s)
  | Handling (PDone Yield) => Some (goto i (RLock ForLoop) (drop_read i s))
  | Handling (PDone Exit) => Some (goto i Stopped (drop_read i (trigger_exit s)))
  | Handling (PSect m) =>
    Some (match m s.(locked) with
          | Some (d, p) => goto i (Handling p) (set_locked d s)
          | None => goto i Panicked (drop_read i s)
          end)
  | Handling (PWrite f) => Some (goto i (WLock f) s)
  | _ => None
  end.

(** One step of thread [i]; [e] is what the poll gives if it is polling. *)
Definition step (i : nat) (e : poll_event T) (s : sys) : option sys :=
  p ← s.(threads) !! i;
  match p with
  | RLock _ | RCheck _ | RWait _ | RWoken _ | RInner _ => step_read i p s
  | Holding _ | Polling | Handling _ => step_loop i p e s
  | _ => step_write i p s
  end.

(** [DeviceHandle::new]: [n] workers, and the handle that is dropped some time. *)
Definition start (n : nat) (d : T) : sys :=
  Shared None false ∅ None d false false (replicate n (RLock ForIface) ++ [RLock ForExit]).
End Steps.

(** ** The invariant *)

Section Invariant.
Context {T : Type} (barging : gset nat → bool).

Abbreviation sys := (shared T).

Definition has_mutex (p : pc T) : bool :=
  match p with RCheck _ | RInner _ | WUnlock _ | WCheck _ | WSet _ | WClear _ => true | _ => false end.

Definition has_read (p : pc T) : bool :=
  match p with
  | Holding _ | Polling | Handling _ | WLock _ | WUnlock _ | WPrep _ | WRelease _ | WSignal _ | WClear _ => true
  | _ => false
  end.

Definition has_write (p : pc T) : bool := match p with WMut _ => true | _ => false end.

(** The thread that set [wants_write]. *)
Definition owns (p : pc T) : bool :=
  match p with
  | WRelock _ | WPrep _ | WRelease _ | WWrite _ | WMut _ | WReacquire _ | WSignal _ | WClear _ | WUnwind | Crashed => true
  | _ => false
  end.

(** It has got the write lock. *)
Definition alone (p : pc T) : bool :=
  match p with WMut _ | WReacquire _ | WSignal _ | WClear _ | WUnwind | Crashed => true | _ => false end.

Definition parked (p : pc T) : bool := match p with RWait _ | WWait _ => true | _ => false end.

(** It has seen that nobody wants to write. *)
Definition checked (p : pc T) : bool := match p with RInner _ | WSet _ => true | _ => false end.

(** It has told the others to yield. *)
Definition announced (p : pc T) : bool := match p with WRelease _ | WWrite _ => true | _ => false end.

Record ok_at (s : sys) (owner : option nat) (i : nat) (p : pc T) : Prop := {
  oa_mutex : has_mutex p = true ↔ s.(wants_mutex) = Some i;
  oa_read : has_read p = true ↔ i ∈ s.(inner_readers);
  oa_write : has_write p = true ↔ s.(inner_writer) = Some i;
  oa_owns : owns p = true ↔ owner = Some i;
  oa_parked : parked p = true → s.(wants_write) = true;
  oa_checked : checked p = true → s.(wants_write) = false;
  oa_announced : announced p = true → s.(yield_notice) = true;
  oa_alone : alone p = true → ∀ j, j ∈ s.(inner_readers) → j = i;
}.

Record lock_inv (owner : option nat) (s : sys) : Prop := {
  li_thread i p : s.(threads) !! i = Some p → ok_at s owner i p;
  li_wants : s.(wants_write) = true ↔ is_Some owner;
  li_mutex i : s.(wants_mutex) = Some i → (i < length s.(threads))%nat;
  li_readers i : i ∈ s.(inner_readers) → (i < length s.(threads))%nat;
  li_writer i : s.(inner_writer) = Some i → (i < length s.(threads))%nat;
  li_owner i : owner = Some i → (i < length s.(threads))%nat;
}.

Lemma start_inv n d : lock_inv None (start n d).
Proof.
  split; cbn; [|by split; [|intros [? ?]]|done|set_solver|done|done].
  intros i p Hp. assert (∃ r, p = RLock r) as [r ->].
  { apply lookup_app_Some in Hp as [[-> _]%lookup_replicate|[_ Hp]]; [eauto|].
    apply list_lookup_singleton_Some in Hp as [_ <-]. eauto. }
  split; cbn; done || set_solver.
Qed.

(** [a] and [b] name the same thread unless it is [i]. *)
Definition agree (i : nat) (a b : option nat) : Prop := ∀ k, k ≠ i → a = Some k ↔ b = Some k.

Lemma agree_refl i a : agree i a a.
Proof. done. Qed.

Lemma agree_take i : agree i None (Some i).
Proof. intros k Hk. split; [done|]. by intros [= ->]. Qed.

Lemma agree_drop i : agree i (Some i) None.
Proof. intros k Hk. split; [|done]. by intros [= ->]. Qed.

(** What a step of [i] does to the others. *)
Lemma ok_other i j p (s s' : sys) o o' :
  j ≠ i → ok_at s o j p → agree i s.(wants_mutex) s'.(wants_mutex) →
  (∀ k, k ≠ i → k ∈ s.(inner_readers) ↔ k ∈ s'.(inner_readers)) →
  agree i s.(inner_writer) s'.(inner_writer) → agree i o o' →
  (parked p = true → s.(wants_write) = true → s'.(wants_write) = true) →
  (checked p = true → s.(wants_write) = false → s'.(wants_write) = false) →
  (announced p = true → s.(yield_notice) = true → s'.(yield_notice) = true) →
  (alone p = true → i ∉ s'.(inner_readers)) → ok_at s' o' j p.
Proof.
  intros Hj [Hm Hr Hw Ho Hp Hc Ha Hl] Am Ar Aw Ao Bp Bc Ba Bl. split; auto.
  - etransitivity; [exact Hm|by apply Am].
  - etransitivity; [exact Hr|by apply Ar].
  - etransitivity; [exact Hw|by apply Aw].
  - etransitivity; [exact Ho|by apply Ao].
  - intros Hal k Hk. destruct (decide (k = i)) as [->|]; [by destruct (Bl Hal)|]. apply Hl; [done|]. by apply Ar.
Qed.

(** A step that changes only the place of [i], and nothing that the others
    rely on, keeps the invariant. *)
Lemma move i p q (s s' : sys) o o' :
  lock_inv o s → s.(threads) !! i = Some p → s'.(threads) = <[i := q]> s.(threads) →
  agree i s.(wants_mutex) s'.(wants_mutex) →
  (∀ k, k ≠ i → k ∈ s.(inner_readers) ↔ k ∈ s'.(inner_readers)) →
  agree i s.(inner_writer) s'.(inner_writer) → agree i o o' →
  (∀ j pj, j ≠ i → s.(threads) !! j = Some pj → ok_at s o j pj →
    (parked pj = true → s.(wants_write) = true → s'.(wants_write) = true) ∧
    (checked pj = true → s.(wants_write) = false → s'.(wants_write) = false) ∧
    (announced pj = true → s.(yield_notice) = true → s'.(yield_notice) = true) ∧
    (alone pj = true → i ∉ s'.(inner_readers))) →
  (s'.(wants_write) = true ↔ is_Some o') → ok_at s' o' i q → lock_inv o' s'.
Proof.
  intros [Ht Hwt Hm Hr Hw Ho] Hi Hth Am Ar Aw Ao Hot Hwt' Hq. pose proof (lookup_lt_Some _ _ _ Hi) as Hlt.
  split; rewrite ?Hth, ?length_insert; try done.
  - intros j pj Hj. destruct (decide (j = i)) as [->|Hne].
    + rewrite list_lookup_insert_eq in Hj by done. by injection Hj as <-.
    + rewrite list_lookup_insert_ne in Hj by done. specialize (Hot j pj Hne Hj (Ht j pj Hj)) as (? & ? & ? & ?).
      by apply (ok_other i j pj s s' o o'); auto.
  - intros k Hk. destruct (decide (k = i)) as [->|Hne]; [done|]. by apply Hm, Am.
  - intros k Hk. destruct (decide (k = i)) as [->|Hne]; [done|]. by apply Hr, Ar.
  - intros k Hk. destruct (decide (k = i)) as [->|Hne]; [done|]. by apply Hw, Aw.
  - intros k Hk. destruct (decide (k = i)) as [->|Hne]; [done|]. by apply Ho, Ao.
Qed.
End Invariant.
#[export] Hint Resolve agree_refl agree_take agree_drop : core.

Section Takes.
Context {T : Type} (barging : gset nat → bool).

Abbreviation sys := (shared T).

Lemma alone_owns (p : pc T) : alone p = true → owns p = true.
Proof. by destruct p. Qed.

Lemma alone_apart (s : sys) o i j p : ok_at s o j p → j ≠ i → alone p = true → i ∉ s.(inner_readers).
Proof. intros Hok Hj Ha Hi. apply Hj. symmetry. by apply (oa_alone _ _ _ _ Hok). Qed.

Lemma take_mutex_some i (s s' : sys) : take_mutex i s = Some s' → s.(wants_mutex) = None ∧ s' = set_mutex (Some i) s.
Proof. unfold take_mutex. destruct (wants_mutex s); [done|]. by intros [= <-]. Qed.

Lemma take_read_some i (s s' : sys) :
  take_read barging i s = Some s' → s.(inner_writer) = None ∧ s' = set_readers ({[i]} ∪ s.(inner_readers)) s.
Proof. unfold take_read. destruct (inner_writer s); [done|]. case_match; [done|]. by intros [= <-]. Qed.

Lemma take_write_some i (s s' : sys) :
  take_write i s = Some s' → s.(inner_writer) = None ∧ s.(inner_readers) = ∅ ∧ s' = set_writer (Some i) s.
Proof. unfold take_write. destruct (inner_writer s); [done|]. case_bool_decide; [|done]. by intros [= <-]. Qed.

End Takes.

Ltac take H :=
  apply fmap_Some in H as (? & H & ->);
  first [ apply take_mutex_some in H as [? ->]
        | apply take_read_some in H as [? ->]
        | apply take_write_some in H as (? & ? & ->) ].

(** What the place of a thread says about the lock. *)
Ltac facts :=
  repeat match goal with
  | H : true = true ↔ _ |- _ => apply proj1 in H; specialize (H eq_refl)
  | H : false = true ↔ ?P |- _ => apply proj2 in H; assert (¬ P) by (by intros ?%H); clear H
  | H : false = true → _ |- _ => clear H
  | H : true = true → _ |- _ => specialize (H eq_refl)
  end.

Ltac agreed :=
  first [ done | intros k Hk; set_solver
        | intros k Hk; repeat match goal with H : _ = None |- _ => rewrite H | H : _ = Some _ |- _ => rewrite H end;
          split; congruence ].

(** The owner is the only thread past its mark. *)
Ltac others :=
  intros j pj Hj Hat Hpj; pose proof (alone_apart _ _ _ _ _ Hpj Hj) as Hap;
  destruct Hpj as [Bm Br Bw Bo Bp Bc Ba Bl]; cbn in *; split_and!;
  first [ done | by intros _ | intros Hx; apply alone_owns, Bo in Hx; congruence
        | intros Hx%Hap; clear - Hx; set_solver | destruct pj; cbn in *; facts; congruence ].

Ltac place := split; cbn in *; first [done | set_solver | split; congruence | naive_solver].

Ltac moves o' :=
  lazymatch goal with
  | Hinv : lock_inv ?o ?s, Hi : threads ?s !! ?i = Some ?p |- lock_inv _ ?s' =>
    eapply (move i p _ s _ o o'); [exact Hinv|exact Hi|reflexivity|..]; cbn in *;
    [agreed|agreed|agreed|agreed|others| |place]
  end.

Section Preserved.
Context {T : Type} (barging : gset nat → bool).

Abbreviation sys := (shared T).

Lemma step_read_inv i p (s s' : sys) o :
  lock_inv o s → s.(threads) !! i = Some p → step_read barging i p s = Some s' → lock_inv o s'.
Proof.
  intros Hinv Hi. pose proof (li_thread _ _ Hinv _ _ Hi) as [Hm Hr Hw Ho Hp Hc Ha Hl].
  pose proof (li_wants _ _ Hinv) as Hwt.
  destruct p as [r|r|r|r|r|r| |p|f|f|f|f|f|f|f|f|f|f|f|p|p|p| | | |]; try done; cbn in *; intros Hs; facts.
  - take Hs. moves o. done.
  - injection Hs as <-. destruct (wants_write s) eqn:Hwa; moves o; by rewrite Hwa.
  - take Hs. moves o. done.
  - assert (o = None) by (destruct o; [|done]; destruct Hwt as [_ Hwt]; rewrite Hwt in Hc; done).
    take Hs. moves o. done.
Qed.

Lemma step_loop_inv i p e (s s' : sys) o :
  lock_inv o s → s.(threads) !! i = Some p → step_loop i p e s = Some s' → lock_inv o s'.
Proof.
  intros Hinv Hi. pose proof (li_thread _ _ Hinv _ _ Hi) as [Hm Hr Hw Ho Hp Hc Ha Hl].
  pose proof (li_wants _ _ Hinv) as Hwt.
  destruct p as [r|r|r|r|r|r| |p|f|f|f|f|f|f|f|f|f|f|f|p|p|p| | | |]; try done; cbn in *; intros Hs; facts.
  - injection Hs as <-. destruct r; cbn; moves o; done.
  - destruct e as [p| | |[]|]; [|destruct (yield_notice s); [|done]|destruct (exit_notice s); [|done]|..];
      injection Hs as <-; try exact Hinv; moves o; done.
  - destruct p as [[]|m|f]; cbn in Hs; injection Hs as <-; [moves o; done..| |moves o; done].
    destruct (m _) as [[d p]|]; moves o; done.
Qed.

Lemma owner_set (s : sys) o i : lock_inv o s → (s.(wants_write) = false → o = None) ∧ (o = Some i → s.(wants_write) = true).
Proof.
  intros Hinv. pose proof (li_wants _ _ Hinv) as [Ha Hb]. split; [|intros ->; apply Hb; eauto].
  intros Hf. destruct o; [|done]. rewrite Hb in Hf; [done|eauto].
Qed.

Lemma wake_class (p : pc T) :
  has_mutex (wake p) = has_mutex p ∧ has_read (wake p) = has_read p ∧ has_write (wake p) = has_write p ∧
  owns (wake p) = owns p ∧ parked (wake p) = false ∧ checked (wake p) = checked p ∧
  announced (wake p) = announced p ∧ alone (wake p) = alone p.
Proof. by destruct p. Qed.

Lemma notify_inv (s : sys) o : lock_inv o s → lock_inv o (notify_all s).
Proof.
  intros [Ht Hwt Hm Hr Hw Ho]. split; cbn; rewrite ?length_fmap; try done.
  intros j pj (q & -> & Hq)%list_lookup_fmap_Some. destruct (wake_class q) as (E1 & E2 & E3 & E4 & E5 & E6 & E7 & E8).
  destruct (Ht j q Hq). split; cbn; rewrite ?E1, ?E2, ?E3, ?E4, ?E5, ?E6, ?E7, ?E8; done.
Qed.

(** The end of [try_writeable]. *)
Lemma clear_inv i p (s : sys) o :
  lock_inv o s → s.(threads) !! i = Some (WClear p) →
  lock_inv None (goto i (Handling p) (drop_mutex (notify_all (set_wants false s)))).
Proof.
  intros Hinv%notify_inv Hi.
  assert (Hi1 : (notify_all s).(threads) !! i = Some (WClear p)) by (cbn; by rewrite list_lookup_fmap, Hi).
  pose proof (li_thread _ _ Hinv _ _ Hi1) as [Hm Hr Hw Ho Hp Hc Ha Hl]. cbn in *. facts.
  eapply (move i (WClear p) _ (notify_all s) _ o None); [exact Hinv|exact Hi1|reflexivity|..]; cbn in *;
    [agreed|agreed|agreed|agreed| |by split; [|intros [? ?]]|place].
  intros j pj Hj (q & -> & Hq)%list_lookup_fmap_Some Hpj. destruct (wake_class q) as (_ & _ & _ & _ & -> & _).
  split_and!; [done|done|done|]. intros Hal%alone_owns. apply (oa_owns _ _ _ _ Hpj) in Hal. congruence.
Qed.

Lemma step_write_inv i p (s s' : sys) o :
  lock_inv o s → s.(threads) !! i = Some p → step_write barging i p s = Some s' → ∃ o', lock_inv o' s'.
Proof.
  intros Hinv Hi. pose proof (li_thread _ _ Hinv _ _ Hi) as [Hm Hr Hw Ho Hp Hc Ha Hl].
  pose proof (li_wants _ _ Hinv) as Hwt. destruct (owner_set _ _ i Hinv) as [Hf Ht].
  destruct p as [r|r|r|r|r|r| |p|f|f|f|f|f|f|f|f|f|f|f|p|p|p| | | |]; try done; cbn in *; intros Hs; facts.
  - exists o. take Hs. moves o. done.
  - exists o. injection Hs as <-. moves o. done.
  - exists o. injection Hs as <-. destruct (wants_write s) eqn:Hwa; moves o; by rewrite Hwa.
  - exists o. take Hs. moves o. done.
  - exists (Some i). injection Hs as <-. specialize (Hf Hc). moves (Some i). by split; eauto.
  - exists o. take Hs. moves o. done.
  - exists o. injection Hs as <-. moves o. done.
  - exists o. injection Hs as <-. moves o. done.
  - exists o. take Hs. moves o. done.
  - exists o. injection Hs as <-. destruct (f _) as [[d p]|]; moves o; done.
  - exists o. take Hs. moves o. done.
  - exists o. take Hs. moves o. done.
  - exists None. injection Hs as <-. by apply (clear_inv _ _ _ o).
  - exists o. take Hs. moves o. done.
Qed.

Lemma step_inv i e (s s' : sys) o : lock_inv o s → step barging i e s = Some s' → ∃ o', lock_inv o' s'.
Proof.
  intros Hinv. unfold step. destruct (threads s !! i) as [p|] eqn:Hi; [|done]. cbn [mbind option_bind].
  destruct p; intros Hs; first [exists o; by eapply step_read_inv | exists o; by eapply step_loop_inv | by eapply step_write_inv].
Qed.
End Preserved.

(** ** Runs *)

Section Runs.
Context {T : Type} (barging : gset nat → bool).

Abbreviation sys := (shared T).

(** A schedule: which thread goes next, and what it gets if it polls. *)
Fixpoint run (ls : list (nat * poll_event T)) (s : sys) : option sys :=
  match ls with
  | [] => Some s
  | (i, e) :: ls => s' ← step barging i e s; run ls s'
  end.

(** A schedule all of whose steps are made while a writer is waiting. *)
Fixpoint run_pending (ls : list (nat * poll_event T)) (s : sys) : option sys :=
  match ls with
  | [] => Some s
  | (i, e) :: ls => if s.(wants_write) then s' ← step barging i e s; run_pending ls s' else None
  end.

(** A worker takes an event that does not make it give up its guard. *)
Definition takes_event (i : nat) (e : poll_event T) (s : sys) : bool :=
  match s.(threads) !! i with
  | Some Polling => match e with EvYield | EvExit | EvEof true => false | _ => true end
  | _ => false
  end.

(** It is busy when it does, or runs a section of a handler. *)
Definition busy (i : nat) (e : poll_event T) (s : sys) : bool :=
  takes_event i e s || match s.(threads) !! i with Some (Handling (PSect _)) => true | _ => false end.

Fixpoint busy_steps (ls : list (nat * poll_event T)) (s : sys) : nat :=
  match ls with
  | [] => 0
  | (i, e) :: ls =>
    Nat.b2n (busy i e s) + match step barging i e s with Some s' => busy_steps ls s' | None => 0 end
  end.

Lemma run_inv ls (s s' : sys) o : lock_inv o s → run ls s = Some s' → ∃ o', lock_inv o' s'.
Proof.
  revert s o. induction ls as [|[i e] ls IH]; intros s o Hinv; cbn; [intros [= <-]; eauto|].
  destruct (step barging i e s) as [s1|] eqn:Hs; [|done]. cbn. intros Hr.
  destruct (step_inv _ _ _ _ _ _ Hinv Hs) as [o1 H1]. by eapply IH.
Qed.

Lemma run_app l1 l2 (s : sys) : run (l1 ++ l2) s = s' ← run l1 s; run l2 s'.
Proof.
  revert s. induction l1 as [|[i e] l1 IH]; intros s; [done|]. cbn. by destruct (step barging i e s); cbn.
Qed.

(** ** Exclusion *)

Lemma mut_alone (s : sys) o i f j p :
  lock_inv o s → s.(threads) !! i = Some (WMut f) → j ≠ i → s.(threads) !! j = Some p →
  has_read p = false ∧ has_write p = false ∧ owns p = false.
Proof.
  intros Hinv Hi Hj Hp. pose proof (li_thread _ _ Hinv _ _ Hi) as [_ _ Aw Ao _ _ _ Al].
  pose proof (li_thread _ _ Hinv _ _ Hp) as [_ Br Bw Bo _ _ _ _]. cbn in *. split_and!; apply not_true_is_false.
  - intros Hr%Br. by apply Hj, Al.
  - intros Hr%Bw. destruct Aw as [Aw _]. specialize (Aw eq_refl). congruence.
  - intros Hr%Bo. destruct Ao as [Ao _]. specialize (Ao eq_refl). congruence.
Qed.

(** ** Progress *)

(** Who has the mutex while a writer waits can go on. *)
Lemma mutex_moves (s : sys) o j :
  lock_inv o s → s.(wants_write) = true → s.(wants_mutex) = Some j →
  ∃ s', step barging j EvError s = Some s' ∧ takes_event j EvError s = false.
Proof.
  intros Hinv Hw Hm. destruct (lookup_lt_is_Some_2 _ _ (li_mutex _ _ Hinv _ Hm)) as [p Hp].
  pose proof (li_thread _ _ Hinv _ _ Hp) as [Am _ _ _ _ Ac _ _]. apply Am in Hm as Hh. unfold step, takes_event. rewrite Hp.
  destruct p; try done; cbn in *; try by eexists. all: by rewrite Ac in Hw.
Qed.

(** A thread that waits for the mutex can go on, or who has it can. *)
Lemma mutex_or (s : sys) o i (Q : sys → sys) :
  lock_inv o s → s.(wants_write) = true → (∀ s1, take_mutex i s = Some s1 → step barging i EvError s = Some (Q s1)) →
  takes_event i EvError s = false → ∃ j s', step barging j EvError s = Some s' ∧ takes_event j EvError s = false.
Proof.
  intros Hinv Hw Hs Hb. destruct (wants_mutex s) as [j|] eqn:Hm.
  - destruct (mutex_moves _ _ _ Hinv Hw Hm) as (s' & ? & ?). eauto.
  - exists i. eexists. split; [apply Hs; unfold take_mutex; by rewrite Hm|done].
Qed.

Lemma no_other_writer (s : sys) i p :
  lock_inv (Some i) s → s.(threads) !! i = Some p → has_write p = false → s.(inner_writer) = None.
Proof.
  intros Hinv Hi Hp. destruct (inner_writer s) as [j|] eqn:Hw; [|done].
  destruct (lookup_lt_is_Some_2 _ _ (li_writer _ _ Hinv _ Hw)) as [q Hq].
  pose proof (li_thread _ _ Hinv _ _ Hq) as [_ _ Bw Bo _ _ _ _]. apply Bw in Hw as Hh.
  assert (owns q = true) as Ho%Bo by (by destruct q). injection Ho as ->. congruence.
Qed.

(** The owner gets the read lock. *)
Lemma owner_reads (s : sys) i p :
  lock_inv (Some i) s → s.(threads) !! i = Some p → has_write p = false → waits_to_write p = false →
  take_read barging i s = Some (set_readers ({[i]} ∪ s.(inner_readers)) s).
Proof.
  intros Hinv Hi Hw Hp. unfold take_read. rewrite (no_other_writer _ _ _ Hinv Hi Hw).
  destruct (existsb waits_to_write (threads s)) eqn:He; [|done].
  apply existsb_exists in He as (q & (j & Hq)%list_elem_of_In%list_elem_of_lookup & Hwq).
  pose proof (li_thread _ _ Hinv _ _ Hq) as Bq. assert (owns q = true) as Ho%(oa_owns _ _ _ _ Bq) by (by destruct q).
  injection Ho as ->. congruence.
Qed.

(** A thread with a guard can go on while the owner waits for the write lock. *)
Lemma reader_moves (s : sys) i f j p :
  lock_inv (Some i) s → s.(threads) !! i = Some (WWrite f) → s.(threads) !! j = Some p → has_read p = true →
  ∃ k e s', step barging k e s = Some s' ∧ takes_event k e s = false.
Proof.
  intros Hinv Hi Hj Hp. assert (Hw : s.(wants_write) = true) by (apply (li_wants _ _ Hinv); eauto).
  pose proof (oa_announced _ _ _ _ (li_thread _ _ Hinv _ _ Hi) eq_refl) as Hy.
  pose proof (li_thread _ _ Hinv _ _ Hj) as Bj.
  assert (Hne : owns p = true → False).
  { intros Ho%(oa_owns _ _ _ _ Bj). injection Ho as ->. rewrite Hi in Hj. by injection Hj as <-. }
  unfold step, takes_event. destruct p as [r|r|r|r|r|r| |p|f'|f'|f'|f'|f'|f'|f'|f'|f'|f'|f'|p|p|p| | | |]; try done; try by destruct Hne.
  - exists j, EvError. rewrite Hj. by eexists.
  - exists j, EvYield. rewrite Hj. cbn. rewrite Hy. by eexists.
  - exists j, EvError. rewrite Hj. destruct p as [[]|m|g]; cbn; by eexists.
  - destruct (mutex_or s (Some i) j (goto j (WUnlock f')) Hinv Hw) as (k & s' & Hk & Hb).
    + intros s1 Hs1. unfold step. rewrite Hj. cbn. by rewrite Hs1.
    + unfold takes_event. by rewrite Hj.
    + exists k, EvError, s'. split; [exact Hk|exact Hb].
  - exists j, EvError. rewrite Hj. by eexists.
Qed.

(** Nothing is stuck while a writer waits, unless it panicked. *)
Lemma someone_moves (s : sys) o :
  lock_inv o s → s.(wants_write) = true → (∀ i, s.(threads) !! i ≠ Some Crashed) →
  ∃ i e s', step barging i e s = Some s' ∧ takes_event i e s = false.
Proof.
  intros Hinv Hw Hc. destruct (proj1 (li_wants _ _ Hinv) Hw) as [i ->].
  destruct (lookup_lt_is_Some_2 _ _ (li_owner _ _ Hinv _ eq_refl)) as [p Hi].
  pose proof (proj2 (oa_owns _ _ _ _ (li_thread _ _ Hinv _ _ Hi)) eq_refl) as Ho.
  assert (Hread : has_write p = false → waits_to_write p = false → is_Some (take_read barging i s)).
  { intros H1 H2. rewrite (owner_reads _ _ _ Hinv Hi H1 H2). eauto. }
  destruct p as [r|r|r|r|r|r| |p|f|f|f|f|f|f|f|f|f|f|f|p|p|p| | | |]; try done;
    try (destruct Hread as [s1 Hs1]; [done|done|]);
    try (exists i, EvError; unfold step, takes_event; rewrite Hi; cbn; rewrite ?Hs1; by eexists).
  - destruct (decide (s.(inner_readers) = ∅)) as [He|(j & Hr)%set_choose_L].
    + exists i, EvError. unfold step, takes_event. rewrite Hi. cbn. unfold take_write.
      rewrite (no_other_writer _ _ _ Hinv Hi eq_refl), bool_decide_eq_true_2 by done. by eexists.
    + destruct (lookup_lt_is_Some_2 _ _ (li_readers _ _ Hinv _ Hr)) as [q Hq].
      apply (reader_moves s i f j q); [done..|]. by apply (oa_read _ _ _ _ (li_thread _ _ Hinv _ _ Hq)).
  - destruct (mutex_or s (Some i) i (goto i (WClear p)) Hinv Hw) as (k & s' & Hk & Hb); [|unfold takes_event; by rewrite Hi|].
    + intros s2 Hs2. unfold step. rewrite Hi. cbn. by rewrite Hs2.
    + exists k, EvError, s'. split; [exact Hk|exact Hb].
  - by destruct (Hc i).
Qed.

(** ** How long a writer waits *)

Definition rank (p : pc T) : nat :=
  match p with
  | RLock _ | RWoken _ => 2 | RCheck _ => 1
  | Holding ForLoop => 6 | Holding _ => 3 | Polling => 5
  | Handling (PDone Yield) | Handling (PDone Exit) => 4 | Handling _ => 6
  | WLock _ => 3 | WUnlock _ | WWoken _ => 2 | WCheck _ => 1
  | WRelock _ => 8 | WPrep _ => 7 | WRelease _ => 6 | WWrite _ => 5 | WMut _ => 4 | WReacquire _ => 3 | WSignal _ => 2
  | WClear _ | WUnwind => 1
  | _ => 0
  end.

Definition total_rank (s : sys) : nat := sum_list_with rank s.(threads).

Lemma rank_le (p : pc T) : (rank p ≤ 8)%nat.
Proof. destruct p as [r|r|r|r|r|[]| |[[]| |]|f|f|f|f|f|f|f|f|f|f|f|p|p|p| | | |]; cbn; lia. Qed.

Lemma total_rank_le (s : sys) : (total_rank s ≤ 8 * length s.(threads))%nat.
Proof.
  unfold total_rank. induction (threads s) as [|p l IH]; cbn [sum_list_with length]; [done|].
  pose proof (rank_le p). lia.
Qed.

Lemma rank_goto (l : list (pc T)) i p q :
  l !! i = Some p → (sum_list_with rank (<[i := q]> l) + rank p = sum_list_with rank l + rank q)%nat.
Proof.
  revert i. induction l as [|x l IH]; intros [|i] Hi; [done|done|..].
  - injection Hi as ->. cbn. lia.
  - specialize (IH i Hi). change (<[S i := q]> (x :: l)) with (x :: <[i := q]> l). cbn [sum_list_with]. lia.
Qed.

(** Each step that is not a busy one brings the writer closer. *)
Lemma step_rank i e (s s' : sys) o :
  lock_inv o s → s.(wants_write) = true → step barging i e s = Some s' → s'.(wants_write) = true →
  (total_rank s' + 1 ≤ total_rank s + 2 * Nat.b2n (busy i e s))%nat.
Proof.
  intros Hinv Hw. unfold step, busy, takes_event, total_rank. destruct (threads s !! i) as [p|] eqn:Hi; [|done].
  pose proof (oa_checked _ _ _ _ (li_thread _ _ Hinv _ _ Hi)) as Hc. cbn [mbind option_bind].
  assert (Hgo : ∀ q, (rank q + 1 ≤ rank p → sum_list_with rank (<[i := q]> s.(threads)) + 1 ≤ sum_list_with rank s.(threads))%nat).
  { intros q Hq. pose proof (rank_goto _ _ _ q Hi). lia. }
  assert (Hbusy : ∀ q, (rank q ≤ rank p + 1 → sum_list_with rank (<[i := q]> s.(threads)) + 1 ≤ sum_list_with rank s.(threads) + 2)%nat).
  { intros q Hq. pose proof (rank_goto _ _ _ q Hi). lia. }
  destruct p as [r|r|r|r|r|r| |p|f|f|f|f|f|f|f|f|f|f|f|p|p|p| | | |]; cbn in *; intros Hs Hw'; try done;
    try (by rewrite Hc in Hw); first [take Hs | rewrite ?Hw in Hs; try injection Hs as <-]; cbn in *;
    try (rewrite Nat.add_0_r; apply Hgo; cbn; lia); try done.
  - destruct r; rewrite Nat.add_0_r; apply Hgo; cbn; lia.
  - destruct e as [p| | |[]|]; cbn; [|destruct (yield_notice s); [|done]|destruct (exit_notice s); [|done]|..];
      injection Hs as <-; cbn; rewrite ?Nat.add_0_r; try (apply Hgo; cbn; lia); try lia.
    apply Hbusy. destruct p as [[]| |]; cbn; lia.
  - destruct p as [[]|m|f]; injection Hs as <-; cbn; rewrite ?Nat.add_0_r; try (apply Hgo; cbn; lia).
    destruct (m _) as [[d p]|]; apply Hbusy; [destruct p as [[]| |]|]; cbn; lia.
  - destruct (f _) as [[d p]|]; rewrite Nat.add_0_r; apply Hgo; cbn; lia.
Qed.

Lemma pending_length ls (s s' : sys) o :
  lock_inv o s → run_pending ls s = Some s' → (length ls ≤ 1 + total_rank s + 2 * busy_steps ls s)%nat.
Proof.
  revert s o. induction ls as [|[i e] ls IH]; intros s o Hinv; cbn [run_pending busy_steps length]; [lia|].
  destruct (wants_write s) eqn:Hw; [|done]. destruct (step barging i e s) as [s1|] eqn:Hs; [|done]. cbn [mbind option_bind].
  intros Hr. destruct (step_inv _ _ _ _ _ _ Hinv Hs) as [o1 H1]. specialize (IH s1 o1 H1 Hr).
  destruct (wants_write s1) eqn:Hw1.
  - pose proof (step_rank _ _ _ _ _ Hinv Hw Hs Hw1). lia.
  - destruct ls as [|[i' e'] ls]; cbn in *; [lia|]. by rewrite Hw1 in Hr.
Qed.

(** ** After a panic *)

(** A step moves its own thread, and wakes those that wait. *)
Lemma step_shape i e (s s' : sys) :
  step barging i e s = Some s' →
  s'.(threads) = s.(threads) ∨
  ∃ q, s'.(threads) = <[i := q]> s.(threads) ∨ s'.(threads) = <[i := q]> (wake <$> s.(threads)).
Proof.
  unfold step. destruct (threads s !! i) as [p|]; [|done]. cbn [mbind option_bind]. intros Hs.
  destruct p as [r|r|r|r|r|r| |p|f|f|f|f|f|f|f|f|f|f|f|p|p|p| | | |]; cbn in Hs;
    first [done | take Hs | injection Hs as <- | idtac]; try (right; eexists; left; reflexivity).
  - destruct (wants_write s); right; eexists; by left.
  - destruct r; right; eexists; by left.
  - destruct e as [p| | |[]|]; [|destruct (yield_notice s); [|done]|destruct (exit_notice s); [|done]|..];
      injection Hs as <-; try (by left); right; eexists; by left.
  - destruct p as [[]|m|f]; injection Hs as <-; try (right; eexists; by left).
    destruct (m _) as [[d p]|]; right; eexists; by left.
  - destruct (wants_write s); right; eexists; by left.
  - destruct (f _) as [[d p]|]; right; eexists; by left.
  - right. eexists. by right.
Qed.

Lemma step_others i e (s s' : sys) j :
  step barging i e s = Some s' → j ≠ i →
  s'.(threads) !! j = s.(threads) !! j ∨ s'.(threads) !! j = wake <$> s.(threads) !! j.
Proof.
  intros [->|(q & [->| ->])]%step_shape Hj; rewrite ?list_lookup_insert_ne, ?list_lookup_fmap by done; auto.
Qed.

Lemma step_length i e (s s' : sys) : step barging i e s = Some s' → length s'.(threads) = length s.(threads).
Proof. intros [->|(q & [->| ->])]%step_shape; by rewrite ?length_insert, ?length_fmap. Qed.

Lemma run_length ls (s s' : sys) : run ls s = Some s' → length s'.(threads) = length s.(threads).
Proof.
  revert s. induction ls as [|[i e] ls IH]; intros s; cbn; [by intros [= <-]|].
  destruct (step barging i e s) as [s1|] eqn:Hs; [|done]. intros Hr. rewrite (IH s1 Hr). by eapply step_length.
Qed.

(** The panic of [mut_func] unwinds, and the thread is gone. *)
Definition unwound (p : pc T) : bool := match p with WUnwind | Crashed => true | _ => false end.

Lemma unwound_stays i e (s s' : sys) j p :
  step barging i e s = Some s' → s.(threads) !! j = Some p → unwound p = true →
  ∃ p', s'.(threads) !! j = Some p' ∧ unwound p' = true.
Proof.
  intros Hs Hj Hu. destruct (decide (j = i)) as [->|Hne].
  - revert Hs. unfold step. rewrite Hj. destruct p; try done. cbn. intros Hs. take Hs. exists Crashed. split; [|done].
    cbn. apply list_lookup_insert_eq. by eapply lookup_lt_Some.
  - destruct (step_others _ _ _ _ _ Hs Hne) as [->| ->]; rewrite Hj; [eauto|]. exists (wake p). by destruct p.
Qed.

Lemma unwound_run ls (s s' : sys) j p :
  run ls s = Some s' → s.(threads) !! j = Some p → unwound p = true →
  ∃ p', s'.(threads) !! j = Some p' ∧ unwound p' = true.
Proof.
  revert s p. induction ls as [|[i e] ls IH]; intros s p; cbn; [intros [= <-]; eauto|].
  destruct (step barging i e s) as [s1|] eqn:Hs; [|done]. intros Hr Hj Hu.
  destruct (unwound_stays _ _ _ _ _ _ Hs Hj Hu) as (p1 & Hj1 & Hu1). by eapply IH.
Qed.

Lemma unwound_alone (s : sys) o i q j p :
  lock_inv o s → s.(threads) !! i = Some q → unwound q = true → s.(threads) !! j = Some p → has_read p = false.
Proof.
  intros Hinv Hi Hu Hj. apply not_true_is_false. intros Hr%(oa_read _ _ _ _ (li_thread _ _ Hinv _ _ Hj)).
  pose proof (li_thread _ _ Hinv _ _ Hi) as [_ Ar _ _ _ _ _ Al]. assert (alone q = true) as Hal by (by destruct q).
  pose proof (Al Hal _ Hr) as ->. apply Ar in Hr. by destruct q.
Qed.

(** A panic during a write that unwinds stops the device: no thread has a guard
    and none ever gets one again.  What the function did to the device before it
    panicked is of no account, since nobody looks at the device again. *)
Lemma panic_while_writing_blocks n d ls (s : sys) i q ls' s' j p :
  run ls (start n d) = Some s → s.(threads) !! i = Some q → unwound q = true →
  run ls' s = Some s' → s'.(threads) !! j = Some p → has_read p = false.
Proof.
  intros Hr Hi Hu Hr' Hp. destruct (run_inv _ _ _ _ (start_inv n d) Hr) as [o Hinv].
  destruct (run_inv _ _ _ _ Hinv Hr') as [o' Hinv']. destruct (unwound_run _ _ _ _ _ Hr' Hi Hu) as (q' & Hi' & Hu').
  by eapply unwound_alone.
Qed.

(** ** What a panic does to the process

    A panic unwinds its thread, or it ends the process, as the profile of the
    build has it ([panic = "abort"] of the release profile in Cargo.toml). *)

Inductive strategy : Type := Unwind | Abort.

Inductive process : Type :=
| Running (s : sys)
| Aborted.

Definition panicking (p : option (pc T)) : bool :=
  match p with Some Panicked | Some WUnwind => true | _ => false end.

Definition process_step (how : strategy) (i : nat) (e : poll_event T) (x : process) : option process :=
  match x with
  | Running s =>
    s' ← step barging i e s;
    Some (match how with
          | Abort => if panicking (s'.(threads) !! i) then Aborted else Running s'
          | Unwind => Running s'
          end)
  | Aborted => None
  end.

Fixpoint process_run (how : strategy) (ls : list (nat * poll_event T)) (x : process) : option process :=
  match ls with
  | [] => Some x
  | (i, e) :: ls => x' ← process_step how i e x; process_run how ls x'
  end.

Lemma process_run_run how ls (s s' : sys) :
  process_run how ls (Running s) = Some (Running s') → run ls s = Some s'.
Proof.
  revert s. induction ls as [|[i e] ls IH]; intros s; cbn; [by intros [= <-]|].
  destruct (step barging i e s) as [s1|]; [|done]. cbn. destruct how; [apply IH|].
  destruct (panicking _); [|apply IH]. by destruct ls as [|[]].
Qed.

Lemma unwind_run ls (s : sys) x :
  process_run Unwind ls (Running s) = Some x → ∃ s', x = Running s' ∧ run ls s = Some s'.
Proof.
  revert s. induction ls as [|[i e] ls IH]; intros s; cbn; [intros [= <-]; by exists s|].
  destruct (step barging i e s) as [s1|]; [|done]. apply IH.
Qed.
End Runs.
Arguments Running {T} s.
Arguments Aborted {T}.

(** ** Handlers among each other *)

(** What the sections of the handlers keep, [rel], and what the writers keep,
    [ok].  A program is safe from [d] if its sections return whatever the
    sections of the other threads have done in between, or have an excuse not
    to. *)
Section Interference.
Context {T : Type} (barging : gset nat → bool).
Context (ok : T → Prop) (rel : T → T → Prop) `{!PreOrder rel} (rel_ok : ∀ d d', ok d → rel d d' → ok d').
Context (excuse : prog T → T → Prop).

Abbreviation sys := (shared T).

Fixpoint csafe (p : prog T) (d : T) : Prop :=
  match p with
  | PDone _ => True
  | PSect m =>
    ∀ d1, rel d d1 → match m d1 with Some (d2, p) => rel d1 d2 ∧ csafe p d2 | None => excuse (PSect m) d1 end
  | PWrite f => ∀ d1, ok d1 → match f d1 with Some (d2, p) => ok d2 ∧ csafe p d2 | None => excuse (PWrite f) d1 end
  end.

Definition wsafe (f : T → option (T * prog T)) : Prop :=
  ∀ d1, ok d1 → match f d1 with Some (d2, p) => ok d2 ∧ csafe p d2 | None => excuse (PWrite f) d1 end.

Lemma csafe_mono p d d' : rel d d' → csafe p d → csafe p d'.
Proof.
  intros Hr. destruct p as [a|m|f]; cbn; [done| |done]. intros Hm d1 H1. apply Hm. by etransitivity.
Qed.

Definition safe_at (d : T) (p : pc T) : Prop :=
  match p with
  | Handling p | WReacquire p | WSignal p | WClear p => csafe p d
  | WLock f | WUnlock f | WCheck f | WWait f | WWoken f | WSet f
  | WRelock f | WPrep f | WRelease f | WWrite f | WMut f => wsafe f
  | _ => True
  end.

Record all_safe (s : sys) : Prop := {
  as_lock : ∃ o, lock_inv o s;
  as_ok : ok s.(locked);
  as_at i p : s.(threads) !! i = Some p → safe_at s.(locked) p;
}.

(** A step that leaves what is locked, or changes it as sections do. *)
Lemma safe_goto i q d' (s : sys) (l : list (pc T)) :
  (∀ i p, s.(threads) !! i = Some p → safe_at s.(locked) p) → rel s.(locked) d' → safe_at d' q →
  (∀ j, j ≠ i → l !! j = s.(threads) !! j ∨ l !! j = wake <$> s.(threads) !! j) → (∀ p, l !! i = Some p → p = q) →
  ∀ j p, l !! j = Some p → safe_at d' p.
Proof.
  intros Hat Hr Hq Hl Hi j p Hp. destruct (decide (j = i)) as [->|Hne]; [by rewrite (Hi _ Hp)|].
  assert (Hm : ∀ p, s.(threads) !! j = Some p → safe_at d' p).
  { intros p0 Hp0. specialize (Hat _ _ Hp0). destruct p0; cbn in *; try done; by eapply csafe_mono. }
  destruct (Hl j Hne) as [E|E]; rewrite E in Hp; [by apply Hm|].
  apply fmap_Some in Hp as (p0 & Hp0 & ->). specialize (Hm _ Hp0). by destruct p0.
Qed.

Lemma step_at i e (s s' : sys) q :
  step barging i e s = Some s' → all_safe s → rel s.(locked) s'.(locked) → safe_at s'.(locked) q →
  (∀ p, s'.(threads) !! i = Some p → p = q) → all_safe s'.
Proof.
  intros Hs [[o Hl] Ho Hat] Hr Hq Hi. split; [by eapply step_inv|by eapply rel_ok|].
  apply (safe_goto i q _ s); [done|done|done| |done]. intros j Hj. by apply (step_others barging i e).
Qed.

Lemma insert_there (l : list (pc T)) i q p : <[i := q]> l !! i = Some p → p = q.
Proof. intros [(_ & <- & _)|[? _]]%list_lookup_insert_Some; done. Qed.

(** The write itself: nobody else has a guard. *)
Lemma mut_safe i f d p (s : sys) :
  all_safe s → s.(threads) !! i = Some (WMut f) → f s.(locked) = Some (d, p) →
  (∃ o, lock_inv o (goto i (WReacquire p) (drop_write (set_locked d (cancel_yield s))))) →
  all_safe (goto i (WReacquire p) (drop_write (set_locked d (cancel_yield s)))).
Proof.
  intros [[o Hl] Ho Hat] Hi Hf Hinv. specialize (Hat _ _ Hi) as Hw. cbn in Hw. specialize (Hw _ Ho). rewrite Hf in Hw.
  destruct Hw as [Hd Hp]. split; [done|done|]. cbn. intros j q Hq.
  apply list_lookup_insert_Some in Hq as [(<- & <- & _)|[Hne Hq]]; [done|].
  destruct (mut_alone _ _ _ _ _ _ Hl Hi (not_eq_sym Hne) Hq) as (Hr & _ & Hown). specialize (Hat _ _ Hq).
  by destruct q.
Qed.

Lemma step_safe i e (s s' : sys) :
  all_safe s → step barging i e s = Some s' → (∀ p, e = EvRun p → csafe p s.(locked)) → all_safe s'.
Proof.
  intros Hall Hs He. pose proof Hs as Hs0. revert Hs. unfold step. destruct (threads s !! i) as [p|] eqn:Hi; [|done].
  cbn [mbind option_bind]. pose proof (as_at _ Hall _ _ Hi) as Hat. intros Hs.
  assert (Hgo : ∀ q, locked s' = locked s → threads s' !! i = Some q → safe_at s.(locked) q → all_safe s').
  { intros q Hlk Hq Hsafe. eapply step_at; [exact Hs0|exact Hall|by rewrite Hlk|by rewrite Hlk|].
    intros p' Hp'. congruence. }
  pose proof (lookup_lt_Some _ _ _ Hi) as Hlt.
  assert (Hthere : ∀ (l : list (pc T)) q, length l = length s.(threads) → <[i := q]> l !! i = Some q)
    by (intros; apply list_lookup_insert_eq; congruence).
  destruct p as [r|r|r|r|r|r| |p|f|f|f|f|f|f|f|f|f|f|f|p|p|p| | | |]; cbn in Hs; try done;
    first [take Hs | injection Hs as <- | idtac];
    try (eapply Hgo; [reflexivity|by apply Hthere|exact Hat || exact I]).
  - destruct (wants_write s); (eapply Hgo; [reflexivity|by apply Hthere|exact I]).
  - destruct r; (eapply Hgo; [reflexivity|by apply Hthere|exact I]).
  - destruct e as [p| | |[]|]; [|destruct (yield_notice s); [|done]|destruct (exit_notice s); [|done]|..];
      injection Hs as <-; try exact Hall; (eapply Hgo; [reflexivity|by apply Hthere|]); try exact I. by apply He.
  - destruct p as [[]|m|f]; injection Hs as <-; try (eapply Hgo; [reflexivity|by apply Hthere|exact I || exact Hat]).
    specialize (Hat (locked s) (reflexivity _)). destruct (m _) as [[d p]|]; [|eapply Hgo; [reflexivity|by apply Hthere|exact I]].
    destruct Hat as [Hr Hp]. eapply (step_at i e s _ (Handling p)); [exact Hs0|exact Hall|exact Hr|exact Hp|]. intros q Hq. by apply insert_there in Hq.
  - destruct (wants_write s); (eapply Hgo; [reflexivity|by apply Hthere|exact Hat]).
  - destruct (f _) as [[d p]|] eqn:Hf; [|eapply Hgo; [reflexivity|by apply Hthere|exact I]].
    apply (mut_safe i f); [done..|]. destruct (as_lock _ Hall) as [o Hl]. by eapply step_inv.
  - eapply Hgo; [reflexivity|apply Hthere; cbn; by rewrite length_fmap|exact Hat].
Qed.

(** Where a thread panics: in a section of a handler, or in a write. *)
Lemma panics_where i e (s s' : sys) :
  step barging i e s = Some s' → panicking (s'.(threads) !! i) = true →
  (∃ m, s'.(threads) !! i = Some Panicked ∧ s.(threads) !! i = Some (Handling (PSect m)) ∧ m s.(locked) = None) ∨
  (∃ f, s'.(threads) !! i = Some WUnwind ∧ s.(threads) !! i = Some (WMut f) ∧ f s.(locked) = None).
Proof.
  unfold step. destruct (threads s !! i) as [p|] eqn:Hi; [|done]. cbn [mbind option_bind]. intros Hs Hp.
  assert (Hno : ∀ (l : list (pc T)) q, panicking (Some q) = false → panicking (<[i := q]> l !! i) = true → False).
  { intros l q Hq. destruct (<[i := q]> l !! i) as [q'|] eqn:E; [|done]. apply insert_there in E as ->. by rewrite Hq. }
  assert (Hthere : ∀ q, <[i := q]> s.(threads) !! i = Some q)
    by (intros q; apply list_lookup_insert_eq; by eapply lookup_lt_Some).
  destruct p as [r|r|r|r|r|r| |p|f|f|f|f|f|f|f|f|f|f|f|p|p|p| | | |]; cbn in Hs; try done;
    first [take Hs | injection Hs as <- | idtac]; try (by apply Hno in Hp).
  - destruct (wants_write s); by apply Hno in Hp.
  - destruct r; by apply Hno in Hp.
  - destruct e as [p| | |[]|]; [|destruct (yield_notice s); [|done]|destruct (exit_notice s); [|done]|..];
      injection Hs as <-; first [by apply Hno in Hp | by rewrite Hi in Hp].
  - destruct p as [[]|m|f]; injection Hs as <-; try (by apply Hno in Hp).
    left. exists m. destruct (m _) as [[d p]|]; [by apply Hno in Hp|]. split; [apply Hthere|done].
  - destruct (wants_write s); by apply Hno in Hp.
  - right. exists f. destruct (f _) as [[d p]|]; [by apply Hno in Hp|]. split; [apply Hthere|done].
Qed.

(** Both have an excuse. *)
Lemma panics_excused i e (s s' : sys) :
  all_safe s → step barging i e s = Some s' → panicking (s'.(threads) !! i) = true →
  (∃ m, s.(threads) !! i = Some (Handling (PSect m)) ∧ excuse (PSect m) s.(locked)) ∨
  (∃ f, s.(threads) !! i = Some (WMut f) ∧ excuse (PWrite f) s.(locked)).
Proof.
  intros Hall Hs Hp. destruct (panics_where _ _ _ _ Hs Hp) as [(m & _ & Hi & Hm)|(f & _ & Hi & Hf)].
  - left. exists m. split; [done|]. pose proof (as_at _ Hall _ _ Hi (locked s) (reflexivity _)) as Hat. by rewrite Hm in Hat.
  - right. exists f. split; [done|]. pose proof (as_at _ Hall _ _ Hi _ (as_ok _ Hall)) as Hat. by rewrite Hf in Hat.
Qed.

(** Runs in which the poll gives handlers that are safe where they start. *)
Inductive reach (starts : T → prog T → Prop) (s0 : sys) : sys → Prop :=
| reach_refl : reach starts s0 s0
| reach_step i e s s' : reach starts s0 s → (∀ p, e = EvRun p → starts s.(locked) p) →
    step barging i e s = Some s' → reach starts s0 s'.

Lemma start_safe n d : ok d → all_safe (start n d).
Proof.
  intros Hd. split; [exists None; apply start_inv|done|]. cbn. intros i p Hp.
  apply lookup_app_Some in Hp as [[-> _]%lookup_replicate|[_ [_ <-]%list_lookup_singleton_Some]]; done.
Qed.

Lemma reach_safe starts n d s :
  ok d → (∀ d p, ok d → starts d p → csafe p d) → reach starts (start n d) s → all_safe s.
Proof.
  intros Hd Hst. induction 1 as [|i e s s' _ IH He Hs]; [by apply start_safe|].
  apply (step_safe i e s); [exact IH|exact Hs|]. intros p Hp. apply Hst; [apply (as_ok _ IH)|by apply He].
Qed.
End Interference.

(** ** The theorems *)

Section Theorems.
Context {T : Type} (barging : gset nat → bool).

(** C26.  Writing is exclusive: in every state that [n] workers and the handle
    of a device can get into, while one thread runs the function it gave to
    [try_writeable], no other thread has a guard, so no handler runs, and no
    other thread has marked its wish to write, so nothing is changed between a
    thread's own mark and its write. *)
Theorem write_is_exclusive n (d : T) ls s i f j p :
  run barging ls (start n d) = Some s → s.(threads) !! i = Some (WMut f) → j ≠ i → s.(threads) !! j = Some p →
  has_read p = false ∧ has_write p = false ∧ owns p = false.
Proof.
  intros Hr Hi Hj Hp. destruct (run_inv _ _ _ _ _ (start_inv n d) Hr) as [o Hinv]. by eapply mut_alone.
Qed.

(** C27.  Who wants to write gets to write: while a thread wants to write and
    none has panicked in its write, some thread can go on without taking a new
    event; and the steps made while a writer waits are at most nine for every
    worker, nine for the handle, and two for every event taken and section of a
    handler run in the meantime.  So nothing deadlocks, and a writer waits only
    as long as the workers are kept busy. *)
Theorem writer_gets_through n (d : T) ls s :
  run barging ls (start n d) = Some s →
  (s.(wants_write) = true → (∀ i, s.(threads) !! i ≠ Some Crashed) →
    ∃ i e s', step barging i e s = Some s' ∧ takes_event i e s = false) ∧
  (∀ ls' s', run_pending barging ls' s = Some s' →
    (length ls' ≤ 9 * (n + 1) + 2 * busy_steps barging ls' s)%nat).
Proof.
  intros Hr. destruct (run_inv _ _ _ _ _ (start_inv n d) Hr) as [o Hinv]. split.
  - intros Hw Hc. by eapply someone_moves.
  - intros ls' s' Hp. pose proof (pending_length _ _ _ _ _ Hinv Hp). pose proof (total_rank_le s).
    assert (length s.(threads) = n + 1)%nat by (rewrite (run_length _ _ _ _ Hr); cbn; rewrite length_app, length_replicate; done).
    lia.
Qed.
End Theorems.

(** ** Witnesses *)

Section LockWitnesses.

(** A lock that keeps readers out while somebody waits to write. *)
Definition fair (readers : gset nat) : bool := false.

(** The schedule by which the first of two workers comes to write: it reads
    three times, polls, and calls [try_writeable] while the second has not
    started. *)
Definition to_write {T} (f : T → option (T * prog T)) : list (nat * poll_event T) :=
  replicate 12 (0%nat, EvError) ++ [(0%nat, EvRun (PWrite f))] ++ replicate 9 (0%nat, EvError).

Lemma to_write_run {T} (f : T → option (T * prog T)) (d : T) :
  run fair (to_write f) (start 2 d) =
    Some (Shared None true ∅ (Some 0%nat) d true false [WMut f; RLock ForIface; RLock ForExit]).
Proof. vm_compute. reflexivity. Qed.

Lemma to_write_process {T} how (f : T → option (T * prog T)) (d : T) :
  process_run fair how (to_write f) (Running (start 2 d)) =
    Some (Running (Shared None true ∅ (Some 0%nat) d true false [WMut f; RLock ForIface; RLock ForExit])).
Proof. destruct how; vm_compute; reflexivity. Qed.

(** A write that counts. *)
Definition count : nat → option (nat * prog nat) := λ n, Some (S n, PDone Continue).

Lemma write_is_exclusive_witness :
  ∃ s, run fair (to_write count) (start 2 0%nat) = Some s ∧ s.(threads) !! 0%nat = Some (WMut count) ∧
    has_read (T := nat) (RLock ForIface) = false ∧ has_write (T := nat) (RLock ForIface) = false ∧
    owns (T := nat) (RLock ForIface) = false.
Proof.
  eexists. split; [apply to_write_run|]. split; [reflexivity|].
  exact (write_is_exclusive fair 2 0%nat (to_write count) _ 0 count 1 _ (to_write_run count 0%nat) eq_refl (Nat.neq_succ_0 0) eq_refl).
Defined.

(** The state before the write lock is taken. *)
Lemma writer_gets_through_witness :
  ∃ s, run fair (take 20 (to_write count)) (start 2 0%nat) = Some s ∧ s.(wants_write) = true ∧
    (∃ i e s', step fair i e s = Some s' ∧ takes_event i e s = false) ∧
    (5 ≤ 9 * (2 + 1) + 2 * busy_steps fair (replicate 5 (0%nat, EvError)) s)%nat.
Proof.
  destruct (run fair (take 20 (to_write count)) (start 2 0%nat)) as [s|] eqn:Hr; [|vm_compute in Hr; discriminate Hr].
  exists s. split; [reflexivity|]. destruct (writer_gets_through fair 2 0%nat _ s Hr) as [Hmove Hlen].
  vm_compute in Hr. injection Hr as Hr. split; [by rewrite <- Hr|]. split.
  - apply Hmove; [by rewrite <- Hr|]. rewrite <- Hr. intros [|[|[|i]]]; done.
  - destruct (run_pending fair (replicate 5 (0%nat, EvError)) s) as [s'|] eqn:Hp;
      [|rewrite <- Hr in Hp; vm_compute in Hp; discriminate Hp].
    exact (Hlen (replicate 5 (0%nat, EvError)) s' Hp).
Defined.
End LockWitnesses.
