(* ===== verification/DeviceSafe.v ===== *)
(** * The handlers of a device do not panic

    The invariant of a device with all its tunnels, that every handler keeps
    it and returns, and that the configuration operations keep it. *)

From Stdlib Require Import Strings.String.
From S2P Require Import Prelude Errors ReplayWindow Time Crypto Packet Session Tai64N Handshake.
From S2P Require Import RateLimiter Tunn Tunnel TunnTimers Frame Lfsr Text Serialization AllowedIps Peer Device Handlers ApiServer.
From coqutil Require Import Byte.

(** The calls whose errors the code unwraps. *)
Definition unwrapped (c : syscall) : bool :=
  match c with ShutdownBoth _ | TryClone _ | RegisterConn _ _ _ => true | _ => false end.

(** The operating system does not fail these. *)
Definition os_ok (o : os) : Prop := ∀ n c, unwrapped c = true → is_Some (o.(os_answer) n c).

Section DeviceOk.
Context `{CryptoLaws, NetTableLaws, HashOrder} (buf : nat).

Record device_ok (s : dstate) : Prop := {
  do_maps : device_inv s;
  do_env : steady s.(dworld).(w_env);
  do_tunnels : ∀ r p, s.(heap) !! r = Some p → tunn_inv buf p.(p_index) (p.(tunnel), s.(dworld));
  do_key : is_Some s.(dev).(key_pair) → is_Some s.(dev).(d_rate_limiter);
  do_limiter : ∀ l, s.(dev).(d_rate_limiter) = Some l → is_Some (s.(dworld).(w_limiters) !! l);
  do_os : os_ok s.(dos);
}.

(** A handler leaves the device itself alone. *)
Record settled (s s' : dstate) : Prop := {
  se_ok : device_ok s';
  se_dev : s'.(dev) = s.(dev);
  se_heap : heap_le s.(heap) s'.(heap);
  se_world : world_le s.(dworld) s'.(dworld);
}.

Lemma settled_refl s : device_ok s → settled s s.
Proof. intros. by split. Qed.

Lemma settled_trans s1 s2 s3 : settled s1 s2 → settled s2 s3 → settled s1 s3.
Proof. intros [_ D1 Ha W1] [K D2 Hb W2]. split; [done|congruence|by etransitivity|by etransitivity]. Qed.

(** [m] returns a value that satisfies [P] and keeps the device in order. *)
Definition safe {A} (P : A → Prop) (m : M Error dstate A) (s : dstate) : Prop :=
  wp m (λ r s', settled s s' ∧ ∃ x, r = Ok x ∧ P x) s.

Lemma safe_ret {A} (P : A → Prop) a s : device_ok s → P a → safe P (mret a) s.
Proof. intros Hs Ha. split; [by apply settled_refl|eauto]. Qed.

Lemma safe_bind {A B} (Q : A → Prop) (P : B → Prop) (m : M Error dstate A) k s :
  safe Q m s → (∀ a s', settled s s' → Q a → safe P (k a) s') → safe P (m ≫= k) s.
Proof.
  intros Hm Hk. apply wp_bind. eapply wp_mono; [exact Hm|]. intros r s1 [Hs1 (a & -> & Ha)].
  eapply wp_mono; [by apply Hk|]. intros r s2 [Hs2 Hr]. split; [by eapply settled_trans|done].
Qed.

Lemma safe_after {A} (P : A → Prop) (m : M Error dstate A) s s' :
  settled s s' → safe P m s' → wp m (λ r s'', settled s s'' ∧ ∃ x, r = Ok x ∧ P x) s'.
Proof. intros Hs Hm. eapply wp_mono; [exact Hm|]. intros r s2 [Hs2 Hr]. split; [by eapply settled_trans|done]. Qed.

Lemma safe_d_gets {A} (f : Device → A) s : device_ok s → safe (λ x, x = f s.(dev)) (d_gets f) s.
Proof. intros Hs. split; [by apply settled_refl|eauto]. Qed.

(** ** System calls *)

Definition same_os (o o' : os) : Prop := o'.(os_answer) = o.(os_answer).

#[local] Instance same_os_preorder : PreOrder same_os.
Proof. split; [done|]. intros ???. unfold same_os. congruence. Qed.

Lemma sys_same c : preserves same_os (sys c).
Proof. intros o r o'. unfold sys. destruct (os_answer _ _ _); by intros [= _ <-]. Qed.

Lemma sys_unwrap_same c : preserves same_os (sys_unwrap c).
Proof.
  intros o r o'. unfold sys_unwrap. destruct (sys c o) as [[[v|e] o1]|] eqn:Hs; [|done..].
  intros [= _ <-]. by eapply sys_same.
Qed.
Hint Resolve sys_same sys_unwrap_same : preserves.

Lemma sys__same c : preserves same_os (sys_ c).
Proof. unfold sys_. pres. Qed.
Hint Resolve sys__same : preserves.

Lemma os_ok_same o o' : same_os o o' → os_ok o → os_ok o'.
Proof. unfold same_os, os_ok. by intros ->. Qed.

Lemma settled_dos s o : device_ok s → same_os s.(dos) o → settled s (with_dos o s).
Proof.
  intros [[K1 K2 K3 K4] E T K L O] Ho. split; [|done|reflexivity|reflexivity].
  split; [by split|done|done|done|done|by eapply os_ok_same].
Qed.

Lemma safe_sys_ c s : device_ok s → safe (λ _, True) (d_sys (sys_ c)) s.
Proof.
  intros Hs. unfold safe, wp. rewrite d_sys_log. split; [by apply settled_dos|eauto].
Qed.

Lemma safe_sys_unwrap c s : device_ok s → unwrapped c = true → safe (λ _, True) (d_sys (sys_unwrap c)) s.
Proof.
  intros Hs Hc. destruct (do_os _ Hs (length s.(dos).(os_log)) c Hc) as [v Hv].
  unfold safe, wp, d_sys, zoom, sys_unwrap, sys. rewrite Hv. split; [by apply settled_dos|eauto].
Qed.

(** ** Calls of a peer and of its tunnel *)

Lemma ok_world s w : device_ok s → world_le s.(dworld) w → settled s (with_dworld w s).
Proof.
  intros [[K1 K2 K3 K4] E T K L O] [He Hl]. split; [|done|reflexivity|by split]. split; [by split|by eapply steady_le| |done| |done].
  - intros r p Hp. eapply tunn_inv_world; [exact (T r p Hp)|by split].
  - intros l Hd. by apply Hl, L.
Qed.

Lemma ok_peer s r p p' :
  device_ok s → s.(heap) !! r = Some p → same_peer p p' → tunn_inv buf p.(p_index) (p'.(tunnel), s.(dworld)) →
  settled s (with_heap (<[r := p']> s.(heap)) s).
Proof.
  intros Hs Hr Hp Ht. assert (Hh : heap_le s.(heap) (<[r := p']> s.(heap))) by (by eapply heap_le_insert).
  split; [|done|done|reflexivity]. destruct Hs as [Hm E T K L O]. split; [|done| |done|done|done].
  - eapply device_inv_keeps; [|exact Hm]. by split.
  - intros q x. cbn. rewrite lookup_insert_Some. intros [[_ <-]|[_ Hq]]; [|exact (T q x Hq)].
    destruct Hp as (-> & _). done.
Qed.

Lemma safe_on_tunnel {A} (P : A → Prop) r p (m : M WireGuardError (Tunn * world) A) s :
  device_ok s → s.(heap) !! r = Some p → preserves tunn_frame m →
  yields P m →
  wp m (λ x s', tunn_inv buf p.(p_index) s' ∧ ∃ v, x = Ok v) (p.(tunnel), s.(dworld)) →
  safe (λ x, ∃ v, x = Ok v ∧ P v) (on_tunnel r m) s.
Proof.
  intros Hs Hr Hf Hy Hm. unfold safe, wp, on_tunnel in *. rewrite Hr.
  destruct (m (tunnel p, dworld s)) as [[x [t' w']]|] eqn:He; [|done]. destruct Hm as [Hi [v ->]].
  pose proof (Hf _ _ _ He) as [Hw Hp]. cbn in Hw, Hp. split; [|eexists; split; [done|exists v; split; [done|by eapply Hy]]].
  pose proof (ok_world s w' Hs Hw) as Hs1. eapply settled_trans; [exact Hs1|].
  apply (ok_peer (with_dworld w' s) r p (with_tunnel t' p)); [apply Hs1|done| |exact Hi].
  split; [done|]. split; [|done]. unfold peer_key. cbn. by rewrite Hp.
Qed.

Lemma safe_call_tunnel (P : TunnResult → Prop) r p m s :
  device_ok s → s.(heap) !! r = Some p → preserves tunn_frame m →
  yields P m →
  wp m (λ x s', tunn_inv buf p.(p_index) s' ∧ ∃ v, x = Ok v) (p.(tunnel), s.(dworld)) →
  safe P (call_tunnel r m) s.
Proof.
  intros Hs Hr Hf Hy Hm. unfold call_tunnel. eapply safe_bind; [by eapply safe_on_tunnel|].
  intros x s1 Hs1 (v & -> & Hv). by apply safe_ret; [apply Hs1|].
Qed.

(** Methods of a peer that leave its tunnel alone. *)
Definition peer_frame (s s' : Peer * os) : Prop :=
  s'.1.(tunnel) = s.1.(tunnel) ∧ same_peer s.1 s'.1 ∧ same_os s.2 s'.2.

Lemma wp_on_peer {A} (P : A → Peer → Prop) r p (m : M Error (Peer * os) A) s :
  device_ok s → s.(heap) !! r = Some p → preserves peer_frame m →
  wp m (λ x s', ∃ v, x = Ok v ∧ P v s'.1) (p, s.(dos)) →
  wp (on_peer r m) (λ x s', settled s s' ∧ ∃ v p', x = Ok v ∧ s'.(heap) !! r = Some p' ∧ P v p') s.
Proof.
  intros Hs Hr Hf Hm. unfold wp, on_peer in *. rewrite Hr.
  destruct (m (p, dos s)) as [[x [p' o']]|] eqn:He; [|done]. destruct Hm as (v & -> & Hv).
  apply Hf in He as (Ht & Hp & Ho). cbn in Ht, Hp, Ho.
  split; [|exists v, p'; split; [done|]; split; [apply lookup_insert_eq|done]].
  assert (Hs1 : settled s (with_heap (<[r := p']> s.(heap)) s)).
  { apply (ok_peer s r p p'); [done|done|done|]. rewrite Ht. by apply do_tunnels with r. }
  eapply settled_trans; [exact Hs1|]. apply settled_dos; [apply Hs1|done].
Qed.

Lemma safe_on_peer {A} (P : A → Prop) r p (m : M Error (Peer * os) A) s :
  device_ok s → s.(heap) !! r = Some p → preserves peer_frame m →
  wp m (λ x _, ∃ v, x = Ok v ∧ P v) (p, s.(dos)) → safe P (on_peer r m) s.
Proof.
  intros Hs Hr Hf Hm. eapply wp_mono; [by apply (wp_on_peer (λ v _, P v) r p)|].
  intros x s' [Hs' (v & p' & -> & _ & Hv)]. split; [done|eauto].
Qed.

Lemma try_on_peer {A} r (m : M Error (Peer * os) A) s : try_ (on_peer r m) s = on_peer r (try_ m) s.
Proof. unfold try_, on_peer. destruct (heap s !! r) as [q|]; [|done]. by destruct (m _) as [[x [? ?]]|]. Qed.

#[local] Instance peer_frame_preorder : PreOrder peer_frame.
Proof.
  split; [by intros [p o]|]. intros s1 s2 s3 (T1 & P1 & O1) (T2 & P2 & O2).
  split; [congruence|]. split; by etransitivity.
Qed.

Lemma safe_peer_gets {A} r p (f : Peer → A) s :
  device_ok s → s.(heap) !! r = Some p → safe (λ x, x = f p) (peer_gets r f) s.
Proof. intros Hs Hr. apply (safe_on_peer _ r p); [done|done|apply pres_gets, _|]. by eexists. Qed.

Lemma p_os_frame {A} (m : M Error os A) : preserves same_os m → preserves peer_frame (p_os m).
Proof. intros Hm. apply (pres_zoom_rel _ same_os); [done|]. by intros [p o] o' Ho. Qed.

Lemma with_endpoint_frame e : preserves peer_frame (p_modify (with_endpoint e)).
Proof. apply pres_modify. by intros [p o]. Qed.

Lemma p_gets_frame {A} (f : Peer → A) : preserves peer_frame (p_gets f).
Proof. apply pres_gets, _. Qed.
Hint Resolve p_os_frame with_endpoint_frame p_gets_frame : preserves.

Lemma shutdown_frame : preserves peer_frame shutdown_endpoint.
Proof. unfold shutdown_endpoint. pres. Qed.
Lemma set_endpoint_frame addr : preserves peer_frame (set_endpoint addr).
Proof. unfold set_endpoint. pres. Qed.
Lemma connect_frame port mark : preserves peer_frame (connect_endpoint port mark).
Proof. unfold connect_endpoint. pres. Qed.

Lemma wp_unwrapped c (Q : result Error Z → os → Prop) o :
  os_ok o → unwrapped c = true → (∀ v o', same_os o o' → Q (Ok v) o') → wp (sys_unwrap c) Q o.
Proof.
  intros Ho Hc HQ. destruct (Ho (length o.(os_log)) c Hc) as [v Hv]. unfold wp, sys_unwrap, sys. rewrite Hv. by apply HQ.
Qed.

Lemma wp_call c (Q : result Error Z → os → Prop) o :
  (∀ r o', same_os o o' → Q r o') → wp (sys c) Q o.
Proof. intros HQ. unfold wp, sys. destruct (os_answer _ _ _); by apply HQ. Qed.

Lemma shutdown_returns p o : os_ok o → wp shutdown_endpoint (λ x _, ∃ v, x = Ok v ∧ True) (p, o).
Proof.
  intros Ho. unfold shutdown_endpoint. apply wp_bind, wp_gets. cbn [fst]. destruct (ep_conn _); [|by eexists].
  apply wp_bind, wp_modify, wp_bind, wp_zoom. apply wp_unwrapped; [done|done|]. by eexists.
Qed.

(** After [set_endpoint] the endpoint has the address. *)
Lemma set_endpoint_returns addr p o :
  os_ok o → wp (set_endpoint addr) (λ x s', ∃ b, x = Ok b ∧ s'.1.(p_endpoint).(ep_addr) = Some addr) (p, o).
Proof.
  intros Ho. unfold set_endpoint. apply wp_bind, wp_gets. cbn [fst].
  destruct (decide (ep_addr (p_endpoint p) = Some addr)) as [Ha|Ha]; [rewrite decide_False by tauto; by eexists|].
  rewrite decide_True by done. apply wp_bind. destruct (ep_conn _).
  - apply wp_bind, wp_modify, wp_bind, wp_zoom. apply wp_unwrapped; [done|done|]. intros v o' Hs. apply wp_ret.
    apply wp_bind, wp_modify, wp_ret. by eexists.
  - apply wp_ret, wp_bind, wp_modify, wp_ret. by eexists.
Qed.

(** With an address, connecting may fail but does not panic. *)
Lemma connect_returns port mark p o :
  os_ok o → is_Some p.(p_endpoint).(ep_addr) → wp (try_ (connect_endpoint port mark)) (λ x _, ∃ v, x = Ok v ∧ True) (p, o).
Proof.
  intros Ho [addr Ha]. apply wp_try. unfold connect_endpoint. apply wp_bind, wp_gets. cbn [fst].
  destruct (ep_conn _); [by eexists|]. apply wp_bind. eapply wp_unwrap; [exact Ha|].
  do 5 (apply wp_bind, wp_zoom, wp_call; intros [?|?] ? ?; cbn [fst snd] in *; [|by eexists]).
  apply wp_bind. assert (∀ o', same_os o o' → os_ok o') as Hsame by (intros; by eapply os_ok_same).
  destruct mark as [mark|].
  - apply wp_bind, wp_zoom, wp_call. intros [?|?] ? ?; cbn [fst snd] in *; [|by eexists]. apply wp_ret.
    apply wp_bind, wp_zoom. apply wp_unwrapped; [apply Hsame; cbn; unfold same_os in *; congruence|done|]. by eexists.
  - apply wp_ret, wp_bind, wp_zoom. apply wp_unwrapped; [apply Hsame; cbn; unfold same_os in *; congruence|done|]. by eexists.
Qed.

(** ** The parts of the handlers *)

(** A result for the network, if any. *)
Definition to_network (r : TunnResult) : Prop :=
  match r with TDone | TErr _ | WriteToNetwork _ => True | _ => False end.

Lemma start_network dst force : yields to_network (tunn_format_handshake_initiation dst force).
Proof.
  unfold tunn_format_handshake_initiation. apply yields_then. intros h. case_match; [by apply yields_ret|].
  do 2 (apply yields_then; intros ?). case_match; [|by apply yields_ret]. do 2 (apply yields_then; intros ?). by apply yields_ret.
Qed.

Lemma encapsulate_network src dst : yields to_network (encapsulate src dst).
Proof.
  unfold encapsulate. do 2 (apply yields_then; intros ?). case_match; [|apply yields_then; intros _; apply start_network].
  do 4 (apply yields_then; intros ?). by apply yields_ret.
Qed.

Lemma timers_network dst : yields to_network (update_timers dst).
Proof.
  unfold update_timers. do 7 (apply yields_then; intros ?). unfold act_on_timers. do 2 (apply yields_then; intros ?).
  case_match; [by apply yields_ret|]. do 3 (apply yields_then; intros ?).
  case_match; [do 2 (apply yields_then; intros ?); by apply yields_ret|].
  do 2 (apply yields_then; intros ?). repeat case_match; try by apply yields_ret.
  - apply start_network.
  - apply encapsulate_network.
Qed.

(** A peer that is there stays there. *)
Lemma settled_peer s s' r p : settled s s' → s.(heap) !! r = Some p → ∃ p', s'.(heap) !! r = Some p' ∧ same_peer p p'.
Proof. intros Hs. apply (se_heap _ _ Hs). Qed.

Lemma flush_safe n peer p send dst s :
  device_ok s → s.(heap) !! peer = Some p → (buf ≤ length dst)%nat → (COOKIE_REPLY_SZ ≤ length dst)%nat →
  safe (λ _, True) (flush n peer send dst) s.
Proof.
  intros Hs Hp Hb Hc. revert s p Hs Hp. induction n as [|n IH]; intros s p Hs Hp; cbn [flush]; [by apply safe_ret|].
  eapply (safe_bind (λ _, True)).
  - apply (safe_call_tunnel _ peer p); [done|done|apply decapsulate_frame|done|].
    apply decapsulate_safe; [by apply do_tunnels with peer|done|cbn; lia|done].
  - intros r s1 Hs1 _. destruct (settled_peer _ _ _ _ Hs1 Hp) as (p1 & Hp1 & _). pose proof (se_ok _ _ Hs1) as Hok.
    destruct r; try by apply safe_ret. eapply safe_bind; [by apply safe_sys_|]. intros [] s2 Hs2 _.
    destruct (settled_peer _ _ _ _ Hs2 Hp1) as (p2 & Hp2 & _). eapply IH; [apply Hs2|exact Hp2].
Qed.

Lemma write_safe peer p src c s :
  device_ok s → s.(heap) !! peer = Some p →
  safe (λ _, True) (allowed ← peer_gets peer (is_allowed_ip src);
    if allowed : bool then d_sys (sys_ c) else mret ()) s.
Proof.
  intros Hs Hp. eapply safe_bind; [by apply (safe_peer_gets peer p)|]. intros b s1 Hs1 _.
  destruct b; [apply safe_sys_, Hs1|apply safe_ret; [apply Hs1|done]].
Qed.

Lemma act_on_safe peer p send dst r s :
  device_ok s → s.(heap) !! peer = Some p → (buf ≤ length dst)%nat → (COOKIE_REPLY_SZ ≤ length dst)%nat →
  safe (λ _, True) (act_on peer send dst r) s.
Proof.
  intros Hs Hp Hb Hc. destruct r; cbn [act_on]; try by apply safe_ret.
  - eapply safe_bind; [by apply safe_sys_|]. intros [] s1 Hs1 _. destruct (settled_peer _ _ _ _ Hs1 Hp) as (p1 & Hp1 & _).
    eapply safe_bind; [apply (flush_safe _ _ p1); [apply Hs1|done..]|]. intros b s2 Hs2 _. apply safe_ret; [apply Hs2|done].
  - by apply (write_safe _ p).
  - by apply (write_safe _ p).
Qed.

Lemma follow_safe peer p addr s :
  device_ok s → s.(heap) !! peer = Some p → safe (λ _, True) (follow peer addr) s.
Proof.
  intros Hs Hp. unfold follow. eapply safe_bind; [by apply safe_d_gets|]. intros d s1 Hs1 ->.
  destruct (settled_peer _ _ _ _ Hs1 Hp) as (p1 & Hp1 & _).
  pose proof (se_ok _ _ Hs1) as Hok. apply wp_bind.
  eapply wp_mono; [apply (wp_on_peer (λ _ p', p'.(p_endpoint).(ep_addr) = Some addr) peer p1);
    [done|done|apply set_endpoint_frame|by apply set_endpoint_returns, do_os]|].
  intros ? s2 [Hs2 (b & p2 & -> & Hp2 & Ha)]. eapply safe_after; [exact Hs2|].
  pose proof (se_ok _ _ Hs2) as Hok2. apply wp_bind.
  eapply wp_mono; [apply (wp_on_peer (λ _ p', p' = p2) peer p2); [done|done|apply pres_gets, _|by eexists]|].
  intros ? s3 [Hs3 (e & p3 & -> & Hp3 & ->)]. eapply safe_after; [exact Hs3|].
  pose proof (se_ok _ _ Hs3) as Hok3. destruct (_ && _); [|by apply safe_ret].
  eapply (safe_bind (λ _, True)).
  - unfold safe, wp. rewrite try_on_peer. apply (safe_on_peer _ peer p2); [done|done|apply pres_try, connect_frame|].
    apply connect_returns; [by apply do_os|by rewrite Ha].
  - intros [sock|e'] s4 Hs4 _; [|apply safe_ret; [apply Hs4|done]].
    eapply safe_bind; [apply safe_sys_unwrap; [apply Hs4|done]|]. intros v s5 Hs5 _. apply safe_ret; [apply Hs5|done].
Qed.

(** ** The handlers *)

Lemma on_device_limiter_safe {E A} (P : result E A → Prop) l (m : M E (RateLimiter * env) A) s :
  device_ok s → is_Some (s.(dworld).(w_limiters) !! l) →
  (∀ rl, wp m (λ r s', env_le s.(dworld).(w_env) s'.2 ∧ P r) (rl, s.(dworld).(w_env))) →
  safe P (on_device_limiter l m) s.
Proof.
  intros Hs [rl Hl] Hm. specialize (Hm rl). unfold safe, wp, on_device_limiter in *. rewrite Hl.
  destruct (m _) as [[r [rl' e']]|]; [|done]. destruct Hm as [He HP]. split; [|eauto].
  apply ok_world; [done|]. split; [done|]. intros k Hk. cbn. destruct (decide (k = l)) as [->|].
  - rewrite lookup_insert_eq. eauto.
  - by rewrite lookup_insert_ne.
Qed.

(** The peer that is found for a packet is one of the device's. *)
Lemma find_peer_there sk pk packet s r :
  device_ok s → find_peer sk pk packet s.(dev) = Some r → ∃ p, s.(heap) !! r = Some p.
Proof.
  intros [[Hk Hi _ _] _ _ _ _ _] Hf. assert (∀ i, s.(dev).(peers_by_idx) !! i = Some r → ∃ p, s.(heap) !! r = Some p) as Hidx.
  { intros i Hir. destruct (Hi i r Hir) as (k & p & _ & Hp & _). eauto. }
  destruct packet; cbn [find_peer] in Hf; [|eauto..]. destruct (parse_handshake_anon _ _ _); [|done].
  destruct (Hk _ r Hf) as (q & Hq & _). eauto.
Qed.

Lemma handle_datagram_safe udp keys l dst packet addr s :
  device_ok s → is_Some (s.(dworld).(w_limiters) !! l) → (buf ≤ length dst)%nat →
  (COOKIE_REPLY_SZ ≤ length dst)%nat → (length packet ≤ length dst)%nat →
  safe (λ _, True) (handle_datagram udp keys l dst packet addr) s.
Proof.
  intros Hs Hl Hb Hc Hp. unfold handle_datagram. eapply safe_bind.
  { apply (on_device_limiter_safe (λ r, match r with Ok p => parse_incoming_packet packet = Ok p | Err _ => True end));
      [done|done|]. intros rl. eapply wp_mono; [by apply verify_packet_wp|]. intros r [rl' e'] (_ & He & Hr).
    split; [done|]. destruct r; done. }
  intros [p|e] s1 Hs1 Hpk; pose proof (se_ok _ _ Hs1) as Hok.
  2:{ destruct e; try by apply safe_ret. eapply safe_bind; [by apply safe_sys_|]. intros [] s2 Hs2 _.
      apply safe_ret; [apply Hs2|done]. }
  eapply safe_bind; [by apply safe_d_gets|]. intros d s2 Hs2 ->. pose proof (se_ok _ _ Hs2) as Hok2.
  rewrite <- (se_dev _ _ Hs2). destruct (find_peer _ _ _ _) as [peer|] eqn:Hf; [|by apply safe_ret].
  destruct (find_peer_there _ _ _ _ _ Hok2 Hf) as [q Hq].
  destruct (parse_sound _ _ Hpk) as (Hwf & macs & Hm & ->). rewrite length_encode in Hp by done.
  eapply (safe_bind (λ _, True)).
  { apply (safe_call_tunnel _ peer q); [done|done|apply verified_frame|done|].
    apply handle_verified_safe; [by apply do_tunnels with peer|done|unfold COOKIE_REPLY_SZ, DATA_OVERHEAD_SZ in *; lia|].
    destruct p; try done. lia. }
  intros r s3 Hs3 _. pose proof (se_ok _ _ Hs3) as Hok3. destruct (settled_peer _ _ _ _ Hs3 Hq) as (q3 & Hq3 & _).
  assert (Hgo : safe (λ _, True) (_ ← act_on peer (λ p, SendTo udp p addr) dst r; _ ← follow peer addr; mret true) s3).
  { eapply safe_bind; [by apply (act_on_safe peer q3)|]. intros [] s4 Hs4 _.
    destruct (settled_peer _ _ _ _ Hs4 Hq3) as (q4 & Hq4 & _).
    eapply safe_bind; [apply (follow_safe peer q4); [apply Hs4|done]|]. intros [] s5 Hs5 _. apply safe_ret; [apply Hs5|done]. }
  destruct r; try exact Hgo. by apply safe_ret.
Qed.

Lemma settled_limiter s s' l :
  settled s s' → is_Some (s.(dworld).(w_limiters) !! l) → is_Some (s'.(dworld).(w_limiters) !! l).
Proof. intros Hs. apply (wl_limiters _ _ (se_world _ _ Hs)). Qed.

Lemma udp_loop_safe udp keys l dst iter pending s :
  device_ok s → is_Some (s.(dworld).(w_limiters) !! l) → (buf ≤ length dst)%nat →
  (COOKIE_REPLY_SZ ≤ length dst)%nat → Forall (λ d, length d.1 ≤ length dst)%nat pending →
  safe (λ _, True) (udp_loop udp keys l dst iter pending) s.
Proof.
  intros Hs Hl Hb Hc Hp. revert iter s Hs Hl. induction Hp as [|[packet addr] pending Hd Hp IH]; intros iter s Hs Hl;
    cbn [udp_loop]; [by apply safe_ret|].
  eapply safe_bind; [by apply handle_datagram_safe|]. intros b s1 Hs1 _.
  pose proof (se_ok _ _ Hs1) as Hok. pose proof (settled_limiter _ _ _ Hs1 Hl) as Hl1.
  destruct b; [|by apply IH]. destruct iter as [|[|n]]; [by apply safe_ret..|]. by apply IH.
Qed.

Lemma handle_connected_safe peer p udp addr dst packet s :
  device_ok s → s.(heap) !! peer = Some p → (buf ≤ length dst)%nat → (COOKIE_REPLY_SZ ≤ length dst)%nat →
  (length packet ≤ length dst)%nat → safe (λ _, True) (handle_connected peer udp addr dst packet) s.
Proof.
  intros Hs Hp Hb Hc Hl. unfold handle_connected. eapply (safe_bind (λ _, True)).
  { apply (safe_call_tunnel _ peer p); [done|done|apply decapsulate_frame|done|].
    apply decapsulate_safe; [by apply do_tunnels with peer|done..]. }
  intros r s1 Hs1 _. destruct (settled_peer _ _ _ _ Hs1 Hp) as (p1 & Hp1 & _).
  apply (act_on_safe peer p1); [apply Hs1|done..].
Qed.

Lemma conn_loop_safe peer p udp addr dst iter pending s :
  device_ok s → s.(heap) !! peer = Some p → (buf ≤ length dst)%nat → (COOKIE_REPLY_SZ ≤ length dst)%nat →
  Forall (λ d, length d ≤ length dst)%nat pending → safe (λ _, True) (conn_loop peer udp addr dst iter pending) s.
Proof.
  intros Hs Hp Hb Hc Hl. revert iter s p Hs Hp. induction Hl as [|packet pending Hd Hl IH]; intros [|iter] s p Hs Hp;
    cbn [conn_loop]; try by apply safe_ret.
  eapply safe_bind; [by apply (handle_connected_safe peer p)|]. intros [] s1 Hs1 _.
  destruct (settled_peer _ _ _ _ Hs1 Hp) as (p1 & Hp1 & _). eapply IH; [apply Hs1|exact Hp1].
Qed.

Lemma send_to_endpoint_safe u4 u6 e packet s :
  device_ok s → safe (λ _, True) (send_to_endpoint u4 u6 e packet) s.
Proof.
  intros Hs. unfold send_to_endpoint. repeat case_match; try apply safe_sys_; try apply safe_ret; done.
Qed.

(** A peer that is found by an address is one of the device's. *)
Lemma routed_there s a r : device_ok s → ip_wf a → find s.(dev).(peers_by_ip) a = Some r → ∃ p, s.(heap) !! r = Some p.
Proof.
  intros [[Hk _ Hn _] _ _ _ _ _] Ha Hf. unfold find in Hf.
  destruct (longest_match _ _) as [[n d]|] eqn:Hl; [|done]. injection Hf as ->. apply longest_match_some in Hl as (He & _); [|done].
  destruct (Hn n r He) as [k Hkr]. destruct (Hk k r Hkr) as (p & Hp & _). eauto.
Qed.

Lemma dst_address_wf src a : dst_address src = Some a → ip_wf a.
Proof.
  unfold dst_address. destruct (ip_version src) as [v|]; [|done].
  repeat case_match; try done; intros [= <-]; unfold ip_wf; cbn; rewrite length_slice;
    match goal with H : (_ && _) = true |- _ => apply andb_prop in H as [_ H%Nat.leb_le] end;
    unfold IPV4_MIN_HEADER_SIZE, IPV6_MIN_HEADER_SIZE, IPV4_DST_IP_OFF, IPV6_DST_IP_OFF, IPV4_IP_SZ, IPV6_IP_SZ in *; lia.
Qed.

Lemma handle_outgoing_safe u4 u6 dst src s :
  device_ok s → (length src + DATA_OVERHEAD_SZ ≤ buf)%nat → (buf ≤ length dst)%nat →
  safe (λ _, True) (handle_outgoing u4 u6 dst src) s.
Proof.
  intros Hs Hl Hb. unfold handle_outgoing. destruct (dst_address src) as [a|] eqn:Ha; [|by apply safe_ret].
  apply dst_address_wf in Ha. eapply safe_bind; [by apply safe_d_gets|]. intros d s1 Hs1 ->.
  pose proof (se_ok _ _ Hs1) as Hok. rewrite <- (se_dev _ _ Hs1).
  destruct (find _ a) as [peer|] eqn:Hf; [|by apply safe_ret].
  destruct (routed_there _ _ _ Hok Ha Hf) as [p Hp].
  eapply (safe_bind to_network).
  { apply (safe_call_tunnel _ peer p); [done|done|apply encapsulate_frame|apply encapsulate_network|].
    apply encapsulate_safe; [by apply do_tunnels with peer|lia|done]. }
  intros r s2 Hs2 Hr. pose proof (se_ok _ _ Hs2) as Hok2. destruct (settled_peer _ _ _ _ Hs2 Hp) as (p2 & Hp2 & _).
  destruct r; try done; try by apply safe_ret.
  eapply safe_bind; [by apply (safe_peer_gets peer p2)|]. intros e s3 Hs3 _. apply send_to_endpoint_safe, Hs3.
Qed.

Lemma iface_loop_safe u4 u6 mtu dst reads todo i s :
  device_ok s → (buf ≤ length dst)%nat → mtu ≤ Z.of_nat (length dst) → (∀ n src, reads n = Ok src → length src + DATA_OVERHEAD_SZ ≤ buf)%nat →
  safe (λ _, True) (iface_loop u4 u6 mtu dst reads todo i) s.
Proof.
  intros Hs Hb Hm Hr. revert i s Hs. induction todo as [|todo IH]; intros i s Hs; cbn [iface_loop]; [by apply safe_ret|].
  rewrite (proj2 (Z.leb_le _ _) Hm). eapply (safe_bind (λ _, True)); [by apply safe_ret|]. intros [] s0 Hs0 _.
  pose proof (se_ok _ _ Hs0) as Hok0.
  destruct (reads i) as [src|e] eqn:He; [|by repeat case_match; apply safe_ret].
  eapply safe_bind; [apply handle_outgoing_safe; [done|by eapply Hr|done]|]. intros [] s1 Hs1 _. apply IH, Hs1.
Qed.

Lemma reset_timer_safe s : device_ok s → safe (λ _, True) reset_timer s.
Proof.
  intros Hs. unfold reset_timer. eapply safe_bind; [by apply safe_d_gets|]. intros rl s1 Hs1 ->.
  pose proof (se_ok _ _ Hs1) as Hok. destruct (d_rate_limiter _) as [l|] eqn:Hl; [|by apply safe_ret].
  pose proof (do_limiter _ Hs l Hl) as Hsome.
  eapply (safe_bind (λ _, True)).
  { apply on_device_limiter_safe; [done|by apply (settled_limiter s)|]. intros r.
    unfold reset_count, rl_io. apply wp_bind, wp_zoom, wp_Instant_now. intros e' Hle _. apply wp_bind, wp_gets.
    apply wp_when; intros _; [apply wp_modify|]; split; done. }
  intros r s2 Hs2 _. apply safe_ret; [apply Hs2|done].
Qed.

Lemma peer_timer_safe u4 u6 dst peer p s :
  device_ok s → s.(heap) !! peer = Some p → (DATA_OVERHEAD_SZ ≤ length dst)%nat → (DATA_OVERHEAD_SZ ≤ buf)%nat →
  safe (λ _, True) (peer_timer u4 u6 dst peer) s.
Proof.
  intros Hs Hp Hd Hb. unfold peer_timer. eapply safe_bind; [by apply (safe_peer_gets peer p)|]. intros e s1 Hs1 ->.
  pose proof (se_ok _ _ Hs1) as Hok. destruct (settled_peer _ _ _ _ Hs1 Hp) as (p1 & Hp1 & _).
  destruct (ep_addr _); [|by apply safe_ret].
  eapply (safe_bind to_network).
  { apply (safe_call_tunnel _ peer p1); [done|done|apply update_timers_frame|apply timers_network|].
    apply update_timers_safe; [by apply do_tunnels with peer|done..]. }
  intros r s2 Hs2 Hr. pose proof (se_ok _ _ Hs2) as Hok2. destruct (settled_peer _ _ _ _ Hs2 Hp1) as (p2 & Hp2 & _).
  destruct r as [|e| | |]; try done; [by apply safe_ret| |by apply safe_sys_].
  destruct e; try by apply safe_ret. apply (safe_on_peer _ peer p2); [done|done|apply shutdown_frame|].
  by apply shutdown_returns, do_os.
Qed.

(** The peers of a device, in the order of iteration. *)
Lemma values_there s r : device_ok s → r ∈ values s.(dev).(peers) → ∃ p, s.(heap) !! r = Some p.
Proof.
  intros [[Hk _ _ _] _ _ _ _ _]. rewrite values_perm. intros ([k r'] & -> & Hin)%list_elem_of_fmap.
  apply elem_of_map_to_list in Hin. destruct (Hk _ _ Hin) as (p & Hp & _). eauto.
Qed.

(** The report of a peer. *)
Lemma peer_report_safe `{Hex} k r p s : device_ok s → s.(heap) !! r = Some p → safe (λ _, True) (peer_report k r) s.
Proof.
  intros Hs Hr. unfold peer_report, counter_lines.
  eapply safe_bind; [by apply (safe_peer_gets r p)|]. intros q s1 Hs1 _. destruct (settled_peer _ _ _ _ Hs1 Hr) as (p1 & Hp1 & _).
  assert (Htun : ∀ s' p', settled s1 s' → s'.(heap) !! r = Some p' → tunn_inv buf p'.(p_index) (p'.(tunnel), s'.(dworld))).
  { intros s' p' Hs' Hp'. apply (do_tunnels _ (se_ok _ _ Hs') _ _ Hp'). }
  apply (safe_bind (λ _, True)); [|by intros c s2 Hs2 _; apply safe_ret; [apply Hs2|]].
  eapply safe_bind; [eapply (safe_on_tunnel (λ _, True)); [apply Hs1|exact Hp1|apply handshake_time_frame|done|]|].
  { apply handshake_time_safe, Htun; [apply settled_refl, Hs1|done]. }
  intros t s2 Hs2 _. destruct (settled_peer _ _ _ _ Hs2 Hp1) as (p2 & Hp2 & _).
  eapply safe_bind; [eapply (safe_on_tunnel (λ _, True)); [apply Hs2|exact Hp2|apply stats_frame|done|]|].
  { by apply stats_safe, Htun. }
  intros st s3 Hs3 _. apply safe_ret; [apply Hs3|done].
Qed.

Lemma peers_timer_safe dst s :
  device_ok s → (DATA_OVERHEAD_SZ ≤ length dst)%nat → (DATA_OVERHEAD_SZ ≤ buf)%nat →
  safe (λ _, True) (peers_timer dst) s.
Proof.
  intros Hs Hd Hb. unfold peers_timer. eapply safe_bind; [by apply safe_d_gets|]. intros d s1 Hs1 ->.
  pose proof (se_ok _ _ Hs1) as Hok. rewrite <- (se_dev _ _ Hs1).
  destruct (udp4 _) as [u4|]; [|by apply safe_ret]. destruct (udp6 _) as [u6|]; [|by apply safe_ret].
  eapply (safe_bind (λ _, True)); [|intros [] s2 Hs2 _; apply safe_ret; [apply Hs2|done]].
  cbn [id]. eapply wp_mono.
  - apply (wp_for_each (settled s1)); [by apply settled_refl|]. intros r s2 Hr Hs2.
    destruct (values_there _ _ Hok Hr) as [p Hp]. destruct (settled_peer _ _ _ _ Hs2 Hp) as (p2 & Hp2 & _).
    eapply wp_mono; [apply (peer_timer_safe u4 u6 dst r p2); [apply Hs2|done..]|].
    intros x s3 [Hs3 ([] & -> & _)]. split; [done|by eapply settled_trans].
  - intros x s2 [-> Hs2]. split; [done|eauto].
Qed.

(** ** Configuration *)

(** [device_ok] without the maps. *)
Record tunnels_ok (s : dstate) : Prop := {
  to_env : steady s.(dworld).(w_env);
  to_tunnels : ∀ r p, s.(heap) !! r = Some p → tunn_inv buf p.(p_index) (p.(tunnel), s.(dworld));
  to_key : is_Some s.(dev).(key_pair) → is_Some s.(dev).(d_rate_limiter);
  to_limiter : ∀ l, s.(dev).(d_rate_limiter) = Some l → is_Some (s.(dworld).(w_limiters) !! l);
  to_os : os_ok s.(dos);
}.

Lemma device_ok_split s : device_ok s ↔ device_inv s ∧ tunnels_ok s.
Proof. split; [intros []; split; [done|by split]|intros [? []]; by split]. Qed.

Definition tunnels_kept (s s' : dstate) : Prop := tunnels_ok s → tunnels_ok s'.

#[local] Instance tunnels_kept_preorder : PreOrder tunnels_kept.
Proof. split; [by intros s Hs|]. intros s1 s2 s3 Ha Hb Hs. by apply Hb, Ha. Qed.

Lemma d_gets_kept {A} (f : Device → A) : preserves tunnels_kept (d_gets f).
Proof. apply pres_gets, _. Qed.

Lemma d_sys_kept {A} (m : M Error os A) : preserves same_os m → preserves tunnels_kept (d_sys m).
Proof.
  intros Hm. apply (pres_zoom_rel _ same_os); [done|]. intros s o Ho [E T K L O].
  split; [done|done|done|done|by eapply os_ok_same].
Qed.

Lemma d_modify_kept f :
  (∀ d, (f d).(key_pair) = d.(key_pair) ∧ (f d).(d_rate_limiter) = d.(d_rate_limiter)) →
  preserves tunnels_kept (d_modify f).
Proof.
  intros Hf. apply pres_modify. intros s [E T K L O]. destruct (Hf s.(dev)) as [Hk Hl].
  split; [done|done| | |done]; cbn; by rewrite ?Hk, Hl.
Qed.

Lemma on_peer_kept {A} r (m : M Error (Peer * os) A) : preserves peer_frame m → preserves tunnels_kept (on_peer r m).
Proof.
  intros Hm s x s'. unfold on_peer. destruct (heap s !! r) as [p|] eqn:Hp; [|done].
  destruct (m (p, dos s)) as [[y [p' o']]|] eqn:He; [|done]. intros [= <- <-] [E T K L O].
  apply Hm in He as (Ht & (Hi & _) & Ho). cbn in Ht, Hi, Ho. split; [done| |done|done|by eapply os_ok_same].
  intros q z. cbn. rewrite lookup_insert_Some. intros [[_ <-]|[_ Hq]]; [|exact (T q z Hq)].
  rewrite Ht, Hi. exact (T r p Hp).
Qed.

Hint Resolve d_gets_kept d_sys_kept on_peer_kept shutdown_frame : preserves.
Hint Extern 1 (preserves tunnels_kept (d_modify _)) => apply d_modify_kept; by intros [] : preserves.

Lemma open_listen_kept port : preserves tunnels_kept (open_listen_socket port).
Proof. unfold open_listen_socket, listen_on, register_udp_handler. pres. Qed.

Lemma peer_gets_kept {A} r (f : Peer → A) : preserves tunnels_kept (peer_gets r f).
Proof. apply on_peer_kept, pres_gets, _. Qed.
Hint Resolve peer_gets_kept : preserves.

Lemma set_fwmark_kept mark : preserves tunnels_kept (set_fwmark mark).
Proof. unfold set_fwmark. pres. Qed.

Lemma clear_peers_kept : preserves tunnels_kept clear_peers.
Proof. unfold clear_peers. pres. Qed.

Lemma remove_peer_kept k : preserves tunnels_kept (remove_peer k).
Proof. unfold remove_peer. pres. Qed.

(** A change of key keeps the invariant of a tunnel. *)
Lemma set_static_params {E} sk p :
  params_wf p → ∃ p', @NoiseParams_set_static_private _ E sk (x25519_public sk) p = Ret (Ok (), p') ∧ params_wf p'.
Proof.
  intros [Q1 Q2 Q3 Q4]. unfold NoiseParams_set_static_private, mbind, M_bind, assert_.
  rewrite bool_decide_eq_true_2 by done. eexists. split; [reflexivity|]. by split.
Qed.

Lemma set_static_inv g sk l t w r s' :
  tunn_inv buf g (t, w) → is_Some (w.(w_limiters) !! l) →
  tunn_set_static_private sk (x25519_public sk) (Some l) (t, w) = Ret (r, s') → tunn_inv buf g s' ∧ s'.2 = w.
Proof.
  intros [[Hp Hw Hg Hst Hpr] Hc Hs Hring Hq Hf [T1 T2 T3 T4 T5] Hl] Hlim.
  destruct (@set_static_params WireGuardError sk _ Hp) as (p' & Hrun & Hp').
  unfold tunn_set_static_private. do 3 (erewrite bind_ok by reflexivity).
  erewrite bind_ok by (apply zoom_run; unfold set_static_private; apply zoom_run; exact Hrun).
  intros [= _ <-]. cbn in *. split; [|done]. split; cbn; try done; try by split. by apply ring_clear.
Qed.

Lemma on_tunnel_static s sk l r x s' :
  tunnels_ok s → is_Some (s.(dworld).(w_limiters) !! l) →
  on_tunnel r (tunn_set_static_private sk (x25519_public sk) (Some l)) s = Ret (x, s') →
  tunnels_ok s' ∧ s'.(dworld) = s.(dworld) ∧ s'.(dev) = s.(dev).
Proof.
  intros [E T K L O] Hl. unfold on_tunnel. destruct (heap s !! r) as [p|] eqn:Hp; [|done].
  destruct (tunn_set_static_private _ _ _ _) as [[y [t' w']]|] eqn:He; [|done]. intros [= _ <-].
  apply (set_static_inv (p_index p)) in He as [Hi Hw]; [|exact (T r p Hp)|done]. cbn in Hw. subst w'.
  split; [|done]. split; cbn; [done| |done|done|done].
  intros q z. rewrite lookup_insert_Some. intros [[_ <-]|[_ Hq]]; [exact Hi|exact (T q z Hq)].
Qed.

Lemma set_key_kept sk : preserves tunnels_kept (set_key sk).
Proof.
  intros s r s'. unfold set_key. erewrite bind_ok by reflexivity. case_decide; [intros [= _ <-]; by intros ?|].
  intros Hr Hs. unfold device_limiter in Hr. erewrite (bind_ok _ _ s) in Hr by reflexivity.
  erewrite bind_ok in Hr by reflexivity. cbn in Hr. set (l := fresh _) in Hr. set (s1 := with_dworld _ _) in Hr.
  assert (Hw : world_le s.(dworld) s1.(dworld)).
  { split; [split; cbn; auto; lia|]. intros k Hk. cbn. rewrite lookup_insert_ne; [done|].
    intros <-. apply elem_of_dom in Hk. revert Hk. apply is_fresh. }
  assert (Hl : is_Some (s1.(dworld).(w_limiters) !! l)) by (cbn; rewrite lookup_insert_eq; eauto).
  assert (Hs1 : tunnels_ok s1).
  { destruct Hs as [E T K L O]. split; [by eapply steady_le, E; apply Hw| |done| |done].
    - intros q p Hp. eapply tunn_inv_world; [exact (T q p Hp)|done].
    - intros k Hk. by apply (wl_limiters _ _ Hw), L. }
  clearbody s1 l.
  assert (Hall : preserves (λ a b, tunnels_ok a ∧ is_Some (a.(dworld).(w_limiters) !! l) →
      tunnels_ok b ∧ is_Some (b.(dworld).(w_limiters) !! l))
    (for_each (values (dev s).(peers)) (λ peer,
       _ ← on_tunnel peer (tunn_set_static_private sk (x25519_public sk) (Some l)); mret ()))).
  { apply pres_for_each; [split; [by intros ? ?|intros ???; tauto]|]. intros q.
    apply pres_bind; [split; [by intros ? ?|intros ???; tauto]| |intros; apply pres_ret; split; [by intros ? ?|intros ???; tauto]].
    intros a x b Hon [Ha Hla]. destruct (on_tunnel_static _ _ _ _ _ _ Ha Hla Hon) as (Hb & Hw' & _). by rewrite Hw'. }
  apply bind_any_inv in Hr as [([] & s2 & Hf & Hr)|(e & Hf & _)]; destruct (Hall _ _ _ Hf (conj Hs1 Hl)) as [Hs2 Hl2]; [|exact Hs2].
  revert Hr. intros [= _ <-]. destruct Hs2 as [E T K L O]. split; cbn; [done|done|by eauto| |done]. by intros k [= <-].
Qed.

Lemma tunnels_ok_world s w d :
  tunnels_ok s → world_le s.(dworld) w → d.(key_pair) = s.(dev).(key_pair) →
  d.(d_rate_limiter) = s.(dev).(d_rate_limiter) → tunnels_ok (with_dworld w (with_dev d s)).
Proof.
  intros [E T K L O] Hw Hk Hl. split; cbn; [eapply steady_le; [apply Hw|done]| |by rewrite Hk, Hl| |done].
  - intros q p Hp. eapply tunn_inv_world; [exact (T q p Hp)|done].
  - rewrite Hl. intros k Hd. by apply (wl_limiters _ _ Hw), L.
Qed.

Lemma insert_ip_kept ip (q : nat) :
  preserves tunnels_kept (zoom (λ s, s.(dev).(peers_by_ip))
    (λ t s, with_dev (with_peers s.(dev).(peers) t s.(dev).(peers_by_idx) s.(dev)) s)
    (@ips_insert _ nat Error ip.(ai_addr) ip.(ai_cidr) q)).
Proof. apply pres_zoom. by intros s t [E T K L O]. Qed.

Lemma update_peer_kept k rm rep ep ips ka psk s r s' :
  update_peer k rm rep ep ips ka psk s = Ret (r, s') → device_ok s → tunnels_ok s'.
Proof.
  unfold update_peer. intros Hrun [Hinv Hs]%device_ok_split. destruct rm; [by eapply remove_peer_kept|].
  erewrite bind_ok in Hrun by reflexivity. unfold assert_ in Hrun. destruct (bool_decide _); [|done].
  erewrite bind_ok in Hrun by reflexivity. destruct (di_lfsr _ Hinv) as (n & Hat & Hold).
  apply bind_any_inv in Hrun as [(i & s1 & Hi & Hrun)|(e & Hi & _)];
    destruct (next_index_fresh n _ _ _ Hat Hold Hi) as (l & -> & He & Hat' & _); simplify_eq.
  assert (Hi24 : 0 ≤ index_at l n < 2 ^ 24) by (eapply index_at_range; exact Hat').
  erewrite bind_ok in Hrun by reflexivity. cbn in Hrun. destruct (key_pair (dev s)) as [kp|].
  2:{ revert Hrun. intros [= _ <-]. by apply (tunnels_ok_world s (dworld s) (with_lfsr l (dev s))). }
  destruct (steady_start _ (to_env _ Hs)) as [d Hd].
  destruct (@tunn_new_inv _ Error buf kp.1 k psk ka (index_at l n) None (dworld s) d Hd Hi24 I)
    as (t & w & Ht & Htinv & _).
  pose proof (tunn_new_frame _ _ _ _ _ _ _ _ _ Ht) as Hw.
  erewrite bind_ok in Hrun by (apply zoom_run; exact Ht). cbn beta in Hrun.
  set (s2 := with_dworld w _) in Hrun.
  assert (Hs2 : tunnels_ok s2) by (by apply tunnels_ok_world).
  apply bind_any_inv in Hrun as [(p & s3 & Hp & Hrun)|(e & Hp & _)].
  2:{ revert Hp. unfold Peer_new, on_local, mbind, M_bind.
      destruct (from_iter _ _) as [[[[]|e'] tb]|]; [done| |done]. by intros [= _ <-]. }
  apply Peer_new_parts in Hp as (-> & Hpt & Hpi). erewrite bind_ok in Hrun by reflexivity.
  set (s3 := with_heap _ s2) in Hrun.
  assert (Hs3 : tunnels_ok s3).
  { destruct Hs2 as [E T K L O]. split; [done| |done|done|done]. intros q x. cbn. rewrite lookup_insert_Some.
    intros [[_ <-]|[_ Hq]]; [by rewrite Hpt, Hpi|exact (T q x Hq)]. }
  clearbody s3. revert Hs3. match type of Hrun with ?m s3 = _ => assert (Hp : preserves tunnels_kept m) end.
  { pres. apply insert_ip_kept. }
  by eapply Hp.
Qed.

Lemma configure_ok op s r s' : configure op s = Ret (r, s') → device_ok s → device_ok s'.
Proof.
  intros Hr Hok. pose proof (proj1 (device_ok_split s) Hok) as [Hinv Hs]. apply device_ok_split.
  split; [by eapply configure_inv|]. destruct op; cbn [configure] in Hr.
  - by eapply set_key_kept.
  - by eapply open_listen_kept.
  - by eapply set_fwmark_kept.
  - by eapply clear_peers_kept.
  - by eapply update_peer_kept.
Qed.

Lemma device_new_ok l b w o : lfsr_new l → steady w.(w_env) → os_ok o → device_ok (MkD (Device_new l b) ∅ w o).
Proof.
  intros Hl Hw Ho. split; [by apply device_new_inv|done| |by intros []|done|done]. intros r p Hp. cbn in Hp. by rewrite lookup_empty in Hp.
Qed.
End DeviceOk.

(** ** Runs of a device *)

(** What the event loop calls: a handler, with what its descriptor gives. *)
Inductive dev_event : Type :=
| EvUdp (udp : Z) (pending : list (bytes * SocketAddr))
| EvConn (peer : nat) (udp : Z) (addr : IpAddr) (pending : list bytes)
| EvIface (mtu : Z) (reads : nat → result Error bytes)
| EvReset
| EvTimers.

Section Runs.
Context `{CryptoLaws, NetTableLaws, HashOrder}.

Definition handle_event (dst : bytes) (ev : dev_event) : M Error dstate () :=
  match ev with
  | EvUdp udp pending => _ ← udp_handler udp dst pending; mret ()
  | EvConn peer udp addr pending => _ ← conn_handler peer udp addr dst pending; mret ()
  | EvIface mtu reads => _ ← iface_handler mtu dst reads; mret ()
  | EvReset => _ ← reset_timer; mret ()
  | EvTimers => _ ← peers_timer dst; mret ()
  end.

(** What a handler reads fits the buffers, and a handler for a peer was
    registered with that peer.  A read of the interface gives no more than the
    [mtu] bytes it was given room for, and the buffers have room for a packet of
    that size with its header. *)
Definition event_fits (dst : bytes) (s : dstate) (ev : dev_event) : Prop :=
  match ev with
  | EvUdp _ pending => Forall (λ d, length d.1 ≤ length dst)%nat pending
  | EvConn peer _ _ pending => is_Some (s.(heap) !! peer) ∧ Forall (λ d, length d ≤ length dst)%nat pending
  | EvIface mtu reads => mtu + Z.of_nat DATA_OVERHEAD_SZ ≤ Z.of_nat (length dst) ∧
      ∀ n src, reads n = Ok src → Z.of_nat (length src) ≤ mtu
  | EvReset | EvTimers => True
  end.

(** The handlers on the listening sockets and on the interface panic without a
    key, and without open sockets. *)
Definition event_unready (s : dstate) (ev : dev_event) : Prop :=
  match ev with
  | EvUdp _ _ => s.(dev).(key_pair) = None
  | EvIface _ _ => s.(dev).(udp4) = None ∨ s.(dev).(udp6) = None
  | _ => False
  end.

(** The states of a device: it is made, configured, and handles events. *)
Inductive reachable (dst : bytes) : dstate → Prop :=
| reach_new l b w o : lfsr_new l → steady w.(w_env) → os_ok o → reachable dst (MkD (Device_new l b) ∅ w o)
| reach_config op s r s' : reachable dst s → configure op s = Ret (r, s') → reachable dst s'
| reach_event ev s r s' : reachable dst s → event_fits dst s ev → handle_event dst ev s = Ret (r, s') →
    reachable dst s'.

Lemma handle_event_safe dst ev s :
  device_ok (length dst) s → (HANDSHAKE_INIT_SZ ≤ length dst)%nat → event_fits dst s ev → ¬ event_unready s ev →
  safe (length dst) (λ _, True) (handle_event dst ev) s.
Proof.
  unfold HANDSHAKE_INIT_SZ. intros Hs Hd Hev Hready.
  assert (Hc : (COOKIE_REPLY_SZ ≤ length dst)%nat) by (unfold COOKIE_REPLY_SZ; lia).
  assert (Ho : (DATA_OVERHEAD_SZ ≤ length dst)%nat) by (unfold DATA_OVERHEAD_SZ; lia).
  assert (Hthen : ∀ A (m : M Error dstate A), safe (length dst) (λ _, True) m s →
    safe (length dst) (λ _, True) (_ ← m; mret ()) s).
  { intros A m Hm. eapply safe_bind; [exact Hm|]. intros a s1 Hs1 _. apply safe_ret; [apply Hs1|done]. }
  destruct ev as [udp pending|peer udp addr pending|mtu reads| |]; cbn [handle_event event_fits event_unready] in *; apply Hthen.
  - rename Hev into Hp. destruct (key_pair (dev s)) as [kp|] eqn:Hkp; [|done]. destruct (do_key _ _ Hs (ex_intro _ kp Hkp)) as [l Hl].
    unfold udp_handler. eapply safe_bind; [by apply safe_d_gets|]. intros ? s1 Hs1 ->. rewrite Hkp.
    eapply (safe_bind _ (λ k, k = kp)); [apply safe_ret; [apply Hs1|done]|]. intros ? s2 Hs2 ->.
    eapply safe_bind; [apply safe_d_gets, Hs2|]. intros ? s3 Hs3 ->.
    rewrite (se_dev _ _ _ Hs2), (se_dev _ _ _ Hs1), Hl.
    eapply (safe_bind _ (λ k, k = l)); [apply safe_ret; [apply Hs3|done]|]. intros ? s4 Hs4 ->.
    apply udp_loop_safe; [apply Hs4| |done|done|done].
    apply (do_limiter _ _ (se_ok _ _ _ Hs4)). by rewrite (se_dev _ _ _ Hs4), (se_dev _ _ _ Hs3), (se_dev _ _ _ Hs2), (se_dev _ _ _ Hs1).
  - destruct Hev as [[p Hp] Hl]. by apply (conn_loop_safe _ peer p).
  - destruct Hev as [Hm Hr]. destruct (udp4 (dev s)) as [u4|] eqn:H4; [|tauto]. destruct (udp6 (dev s)) as [u6|] eqn:H6; [|tauto].
    unfold iface_handler. eapply safe_bind; [by apply safe_d_gets|]. intros ? s1 Hs1 ->. unfold id. rewrite H4, H6.
    eapply (safe_bind _ (λ k, k = u4)); [apply safe_ret; [apply Hs1|done]|]. intros ? s2 Hs2 ->.
    eapply (safe_bind _ (λ k, k = u6)); [apply safe_ret; [apply Hs2|done]|]. intros ? s3 Hs3 ->.
    apply iface_loop_safe; [apply Hs3|done|lia|]. intros n src Hn%Hr. lia.
  - by apply reset_timer_safe.
  - by apply peers_timer_safe.
Qed.

Lemma unready_panics dst ev s : event_unready s ev → handle_event dst ev s = Panic.
Proof.
  destruct ev as [udp pending|peer udp addr pending|mtu reads| |]; cbn [event_unready handle_event]; try done.
  - intros Hk. unfold udp_handler, mbind, M_bind. cbn. by rewrite Hk.
  - intros Hu. unfold iface_handler, mbind, M_bind. cbn. destruct (udp4 _) as [u4|]; [|done]. cbn.
    destruct (udp6 _) as [u6|]; [|done]. by destruct Hu.
Qed.

Lemma event_unready_dec s ev : event_unready s ev ∨ ¬ event_unready s ev.
Proof. destruct ev; cbn; try tauto; destruct (key_pair (dev s)), (udp4 (dev s)), (udp6 (dev s)); naive_solver. Qed.

Lemma reachable_ok dst s : (HANDSHAKE_INIT_SZ ≤ length dst)%nat → reachable dst s → device_ok (length dst) s.
Proof.
  intros Hd. induction 1 as [l b w o Hl Hw Ho|op s r s' _ IH Hc|ev s r s' _ IH Hev He].
  - by apply device_new_ok.
  - by eapply configure_ok.
  - destruct (event_unready_dec s ev) as [Hu|Hu]; [by rewrite (unready_panics dst _ _ Hu) in He|].
    pose proof (handle_event_safe dst ev s IH Hd Hev Hu) as Hs. unfold safe, wp in Hs. rewrite He in Hs. apply Hs.
Qed.

(** The handlers of a device never panic: in every state that making a
    device, any configuration and any events lead to, a handler that has the key
    and the sockets it needs returns, whatever datagrams arrive and whatever the
    interface gives, and leaves the configuration of the device as it was.  The buffers are those of the code
    with room for the packets, the clocks are sane, and the operating system
    does not fail the calls whose errors the code unwraps. *)
Lemma handlers_never_panic dst s ev :
  reachable dst s → (HANDSHAKE_INIT_SZ ≤ length dst)%nat → event_fits dst s ev → ¬ event_unready s ev →
  ∃ s', handle_event dst ev s = Ret (Ok (), s') ∧ s'.(dev) = s.(dev) ∧ device_ok (length dst) s'.
Proof.
  intros Hr Hd Hev Hu. apply reachable_ok in Hr; [|done].
  destruct (wp_elim _ _ _ (handle_event_safe dst ev s Hr Hd Hev Hu)) as (r & s' & He & Hs & [] & -> & _).
  exists s'. split; [done|]. split; apply Hs.
Qed.

(** C36.  The flush of a peer's queue always ends.  In every state that making a
    device, any configuration and any events lead to, the loop that asks the
    tunnel for the next queued packet and sends it, until there is none, returns
    by itself: however many turns beyond [FLUSH_TURNS] it is given, it takes the
    same turns, and it leaves the configuration of the device as it was. *)
Theorem flush_terminates peer p send dst s :
  reachable dst s → (HANDSHAKE_INIT_SZ ≤ length dst)%nat → s.(heap) !! peer = Some p →
  ∃ s', (∀ turns, (FLUSH_TURNS ≤ turns)%nat → flush turns peer send dst s = Ret (Ok true, s')) ∧
    s'.(dev) = s.(dev) ∧ device_ok (length dst) s'.
Proof.
  intros Hr Hd Hp. apply reachable_ok in Hr; [|done].
  assert (Hf : safe (length dst) (λ _, True) (flush FLUSH_TURNS peer send dst) s)
    by (apply (flush_safe _ _ _ p); [done|done|done|unfold COOKIE_REPLY_SZ, HANDSHAKE_INIT_SZ in *; lia]).
  destruct (wp_elim _ _ _ Hf) as (r & s' & He & Hs & b & -> & _).
  assert (Hb : Ok b = Ok true :> result Error bool).
  { eapply flush_ends; [exact Hp|apply need_bound|exact He]. exact (ti_queue _ _ _ (do_tunnels _ _ Hr peer p Hp)). }
  injection Hb as ->. exists s'. split; [intros turns; by apply flush_more|]. split; apply Hs.
Qed.

(** A datagram that arrives before a key is set kills its worker: the
    listening sockets are open and registered before the first configuration,
    and the handler on them panics as long as there is no key. *)
Lemma datagram_before_key_panics l b w o port s udp dst pending :
  open_listen_socket port (MkD (Device_new l b) ∅ w o) = Ret (Ok (), s) →
  is_Some s.(dev).(udp4) ∧ is_Some s.(dev).(udp6) ∧ udp_handler udp dst pending s = Panic.
Proof.
  intros Hr. assert (Hk : s.(dev).(key_pair) = None).
  { assert (Hp : preserves (λ s s' : dstate, s'.(dev).(key_pair) = s.(dev).(key_pair)) (open_listen_socket port));
      [|by apply Hp in Hr].
    assert (PreOrder (λ s s' : dstate, s'.(dev).(key_pair) = s.(dev).(key_pair))) by (split; [done|intros ???; congruence]).
    unfold open_listen_socket, listen_on, register_udp_handler, d_sys, d_gets, d_modify. pres;
      try (apply pres_modify || apply pres_zoom); try by intros.
    intros s1 y s2. unfold on_peer. destruct (heap s1 !! _); [|done]. destruct (shutdown_endpoint _) as [[? [? ?]]|]; [|done].
    by intros [= _ <-]. }
  unfold open_listen_socket in Hr. do 13 (apply bind_inv in Hr as (? & ? & _ & Hr)).
  apply bind_inv in Hr as ([] & s1 & [= <-] & [= <-]). cbn in *. split; [by eauto|]. split; [by eauto|].
  unfold udp_handler. erewrite bind_ok by reflexivity. cbn. by rewrite Hk.
Qed.
End Runs.

(** ** Witnesses *)

Section DeviceSafeWitnesses.
#[local] Existing Instance toy_crypto.
#[local] Existing Instance toy_laws.
#[local] Existing Instance map_table.
#[local] Existing Instance map_table_laws.
#[local] Existing Instance by_key.

Lemma test_reachable : reachable (zeros 148) test_device.
Proof. apply reach_new; [by split|exact test_steady|by eexists]. Qed.

(** A device with a key and a peer. *)
Definition keyed : outcome (result Error () * dstate) := configure (OpKey k2) test_device.
Definition keyed_device : dstate := match keyed with Ret (_, s) => s | Panic => test_device end.

Lemma keyed_reachable : reachable (zeros 148) keyed_device.
Proof.
  apply (reach_config _ (OpKey k2) test_device (Ok ()) keyed_device test_reachable).
  change (keyed = Ret (Ok (), keyed_device)). destruct (is_ok_run keyed) as ([] & s & Hs); [by vm_compute|].
  unfold keyed_device. by rewrite Hs.
Qed.

(** And a peer. *)
Definition peered : outcome (result Error () * dstate) :=
  configure (OpPeer (x25519_public k1) false false None [MkAllowedIP (v4 10 0 0 0) 8] None None) keyed_device.
Definition peered_device : dstate := match peered with Ret (_, s) => s | Panic => keyed_device end.

Lemma flush_terminates_witness :
  ∃ peer s', flush FLUSH_TURNS peer (λ b, Write4 b) (zeros 148) peered_device = Ret (Ok true, s').
Proof.
  assert (Hr : reachable (zeros 148) peered_device).
  { apply (reach_config _ (OpPeer (x25519_public k1) false false None [MkAllowedIP (v4 10 0 0 0) 8] None None)
      keyed_device (Ok ()) peered_device keyed_reachable).
    change (peered = Ret (Ok (), peered_device)). destruct (is_ok_run peered) as ([] & s & Hs); [by vm_compute|].
    unfold peered_device. by rewrite Hs. }
  assert (Hp : ∃ peer p, peered_device.(heap) !! peer = Some p).
  { destruct (map_to_list peered_device.(heap)) as [|[peer p] l] eqn:Hl.
    - exfalso. assert (Hn : negb (bool_decide (map_to_list peered_device.(heap) = [])) = true) by (vm_compute; reflexivity).
      by rewrite Hl in Hn.
    - exists peer, p. apply elem_of_map_to_list. rewrite Hl. left. }
  destruct Hp as (peer & p & Hp). exists peer.
  destruct (flush_terminates peer p (λ b, Write4 b) (zeros 148) peered_device Hr ltac:(vm_compute; lia) Hp) as (s' & Hf & _).
  exists s'. exact (Hf FLUSH_TURNS (le_n _)).
Defined.

Lemma datagram_before_key_panics_witness :
  ∃ s, open_listen_socket 0 test_device = Ret (Ok (), s) ∧ udp_handler 7 (zeros 148) [(hello, test_endpoint)] s = Panic.
Proof.
  destruct (is_ok_run (open_listen_socket 0 test_device)) as ([] & s & Hr); [by vm_compute|].
  exists s. split; [exact Hr|].
  destruct (datagram_before_key_panics (MkIndexLfsr 1 1 77) true (MkWorld test_env ∅) test_os 0 s 7 (zeros 148)
    [(hello, test_endpoint)] Hr) as (_ & _ & Hp). exact Hp.
Defined.
End DeviceSafeWitnesses.
