(* ===== verification/DeviceDelivery.v ===== *)
(** * A packet from one device to another

    The composition of the parts: the handler of an interface hands a packet to
    the tunnel of the peer that the routing table names, the datagrams that the
    two devices then send are carried to each other's sockets, their handlers
    find the peer, complete the handshake, and the packet is written to the
    interface of the other device. *)

From S2P Require Import Prelude Errors ReplayWindow Time Crypto Packet Session Tai64N Handshake.
From S2P Require Import RateLimiter Tunn Tunnel Frame Lfsr Text AllowedIps Peer Device Handlers DeviceSafe.

(** ** What a device sends and writes *)

Inductive traffic : Type := Sent (packet : bytes) | Written (packet : bytes).

Definition carried (c : syscall) : option traffic :=
  match c with
  | SendTo _ p _ | SendConn _ p => Some (Sent p)
  | Write4 p | Write6 p => Some (Written p)
  | _ => None
  end.

(** The traffic of the calls made since. *)
Definition traffic_of (o o' : os) (ts : list traffic) : Prop :=
  ∃ l, o'.(os_log) = o.(os_log) ++ l ∧ omap carried l = ts.

Lemma traffic_refl o : traffic_of o o [].
Proof. exists []. by rewrite app_nil_r. Qed.

Lemma traffic_trans o1 o2 o3 ts us : traffic_of o1 o2 ts → traffic_of o2 o3 us → traffic_of o1 o3 (ts ++ us).
Proof.
  intros (l & Hl & <-) (m & Hm & <-). exists (l ++ m). split; [by rewrite Hm, Hl, app_assoc|by rewrite omap_app].
Qed.

Lemma traffic_call o c : traffic_of o (MkOs (o.(os_log) ++ [c]) o.(os_answer)) (option_list (carried c)).
Proof. exists [c]. split; [done|]. cbn. by destruct (carried c). Qed.

Section Silent.
Context `{Crypto, NetTable, HashOrder}.

Definition silent (o o' : os) : Prop := traffic_of o o' [].

#[local] Instance silent_preorder : PreOrder silent.
Proof. split; [exact traffic_refl|]. intros o1 o2 o3 Ho Ho'. exact (traffic_trans _ _ _ [] [] Ho Ho'). Qed.

Lemma sys_silent c : carried c = None → preserves silent (sys c).
Proof.
  intros Hc o r o'. pose proof (traffic_call o c) as Ht. rewrite Hc in Ht.
  unfold sys. destruct (os_answer _ _ _); intros [= _ <-]; exact Ht.
Qed.

Lemma sys_unwrap_silent c : carried c = None → preserves silent (sys_unwrap c).
Proof.
  intros Hc o r o'. unfold sys_unwrap. destruct (sys c o) as [[[v|e] o1]|] eqn:Hs; [|done..].
  intros [= _ <-]. by eapply sys_silent.
Qed.
Hint Resolve sys_silent sys_unwrap_silent : preserves.

(** A method of a peer that touches only its endpoint. *)
Definition silent_peer (s s' : Peer * os) : Prop :=
  s'.1.(tunnel) = s.1.(tunnel) ∧ same_peer s.1 s'.1 ∧ silent s.2 s'.2.

#[local] Instance silent_peer_preorder : PreOrder silent_peer.
Proof.
  split; [intros [p o]; split_and!; [done|done|reflexivity]|].
  intros s1 s2 s3 (T1 & P1 & O1) (T2 & P2 & O2). split; [congruence|]. split; by etransitivity.
Qed.

Lemma p_os_silent {A} (m : M Error os A) : preserves silent m → preserves silent_peer (p_os m).
Proof. intros Hm. apply (pres_zoom_rel _ silent); [done|]. by intros [p o] o' Ho. Qed.

Lemma with_endpoint_silent e : preserves silent_peer (p_modify (with_endpoint e)).
Proof. apply pres_modify. intros [p o]. split_and!; [done|done|cbn; reflexivity]. Qed.

Lemma p_gets_silent {A} (f : Peer → A) : preserves silent_peer (p_gets f).
Proof. apply pres_gets, _. Qed.
Hint Resolve p_os_silent with_endpoint_silent p_gets_silent : preserves.

Lemma set_endpoint_silent addr : preserves silent_peer (set_endpoint addr).
Proof. unfold set_endpoint. pres. Qed.

Lemma connect_silent port mark : preserves silent_peer (connect_endpoint port mark).
Proof. unfold connect_endpoint. pres. Qed.

(** The peers are where they were, with the tunnels they had. *)
Definition same_tunnels (h h' : gmap nat Peer) : Prop :=
  ∀ r p, h !! r = Some p → ∃ p', h' !! r = Some p' ∧ p'.(tunnel) = p.(tunnel) ∧ same_peer p p'.

Record unmoved (s s' : dstate) : Prop := {
  un_dev : s'.(dev) = s.(dev);
  un_world : s'.(dworld) = s.(dworld);
  un_heap : same_tunnels s.(heap) s'.(heap);
  un_os : silent s.(dos) s'.(dos);
}.

#[local] Instance unmoved_preorder : PreOrder unmoved.
Proof.
  split; [intros s; split; [done|done|intros r p Hp; by exists p|reflexivity]|].
  intros s1 s2 s3 [D1 W1 H1' O1] [D2 W2 H2' O2]. split; [congruence|congruence| |by etransitivity].
  intros r p Hp. destruct (H1' r p Hp) as (p1 & Hp1 & Ht1 & Hs1). destruct (H2' r p1 Hp1) as (p2 & Hp2 & Ht2 & Hs2).
  exists p2. split; [done|]. split; [congruence|by etransitivity].
Qed.

Lemma on_peer_unmoved {A} r (m : M Error (Peer * os) A) : preserves silent_peer m → preserves unmoved (on_peer r m).
Proof.
  intros Hm s x s'. unfold on_peer. destruct (heap s !! r) as [p|] eqn:Hp; [|done].
  destruct (m _) as [[y [p' o']]|] eqn:He; [|done]. intros [= _ <-]. apply Hm in He as (Ht & Hs & Ho). split; [done|done| |done].
  intros q z Hz. cbn in *. destruct (decide (q = r)) as [->|]; [|exists z; by rewrite lookup_insert_ne].
  exists p'. rewrite lookup_insert_eq. by simplify_eq.
Qed.

Lemma d_sys_unmoved {A} (m : M Error os A) : preserves silent m → preserves unmoved (d_sys m).
Proof.
  intros Hm. apply (pres_zoom_rel _ silent); [done|]. intros s o Ho. split; [done|done|intros r p Hp; by exists p|done].
Qed.

Lemma d_gets_unmoved {A} (f : Device → A) : preserves unmoved (d_gets f).
Proof. apply pres_gets, _. Qed.

Lemma peer_gets_unmoved {A} r (f : Peer → A) : preserves unmoved (peer_gets r f).
Proof. apply on_peer_unmoved, pres_gets, _. Qed.
Hint Resolve set_endpoint_silent connect_silent on_peer_unmoved d_sys_unmoved d_gets_unmoved peer_gets_unmoved : preserves.

(** Following the address of a peer moves nothing else. *)
Lemma follow_unmoved peer addr : preserves unmoved (follow peer addr).
Proof. unfold follow. pres. Qed.
End Silent.

(** ** One datagram *)

Section Datagram.
Context `{CryptoLaws, NetTableLaws, HashOrder} (dst : bytes) (Hdst : (HANDSHAKE_INIT_SZ ≤ length dst)%nat).

(** The device after a call of the tunnel of peer [r]. *)
Definition moved (s : dstate) (r : nat) (p : Peer) (t : Tunn) (w : world) : dstate :=
  MkD s.(dev) (<[r := with_tunnel t p]> s.(heap)) w s.(dos).

Lemma call_tunnel_run r m s p x t' w' :
  s.(heap) !! r = Some p → m (p.(tunnel), s.(dworld)) = Ret (Ok x, (t', w')) →
  call_tunnel r m s = Ret (Ok x, moved s r p t' w').
Proof. intros Hp Hm. unfold call_tunnel, on_tunnel, mbind, M_bind. by rewrite Hp, Hm. Qed.

(** The world in which the limiter has verified a packet. *)
Definition verified_in (w : world) (l : nat) (rl : RateLimiter) : world := MkWorld w.(w_env) (<[l := rl]> w.(w_limiters)).

Lemma datagram_done udp keys l b addr s rl rl' parsed r p res t' w' s1 :
  device_ok (length dst) s → (length b ≤ length dst)%nat →
  s.(dworld).(w_limiters) !! l = Some rl →
  verify_packet (Some (sock_ip addr)) b dst (rl, s.(dworld).(w_env)) = Ret (Ok parsed, (rl', s.(dworld).(w_env))) →
  find_peer keys.1 keys.2 parsed s.(dev) = Some r → s.(heap) !! r = Some p →
  handle_verified_packet parsed dst (p.(tunnel), verified_in s.(dworld) l rl') = Ret (Ok res, (t', w')) →
  (∀ e, res ≠ TErr e) →
  act_on r (λ b, SendTo udp b addr) dst res (moved s r p t' w') = Ret (Ok (), s1) →
  ∃ s2, handle_datagram udp keys l dst b addr s = Ret (Ok true, s2) ∧ device_ok (length dst) s2 ∧ unmoved s1 s2.
Proof.
  intros Hok Hb Hl Hv Hf Hp Ht Hres Hact.
  assert (Hsafe : safe (length dst) (λ _, True) (handle_datagram udp keys l dst b addr) s).
  { apply handle_datagram_safe; [done|by eexists|done| |done]. unfold COOKIE_REPLY_SZ, HANDSHAKE_INIT_SZ in *. lia. }
  destruct (wp_elim _ _ _ Hsafe) as (x & s2 & Hrun & Hs2 & v & -> & _). exists s2.
  assert (Hrest : (_ ← follow r addr; mret true) s1 = Ret (Ok v, s2)).
  { revert Hrun. unfold handle_datagram.
    erewrite bind_ok by (unfold on_device_limiter; rewrite Hl, Hv; reflexivity). cbv match.
    erewrite bind_ok by reflexivity. cbn [id dev with_dworld]. rewrite Hf.
    erewrite bind_ok by (apply (call_tunnel_run _ _ _ p res t' w'); [exact Hp|exact Ht]).
    destruct res as [|e|q|q a|q a]; [|by destruct (Hres e)|..]; (erewrite bind_ok by exact Hact); exact id. }
  apply bind_inv in Hrest as ([] & s3 & Hfol & [= <- <-]). split; [done|]. split; [apply Hs2|].
  by eapply follow_unmoved.
Qed.

(** Calling the tunnel again while its queue lasts. *)
Lemma flush_empty addr t w : t.(packet_queue) = [] → decapsulate addr [] dst (t, w) = Ret (Ok TDone, (t, w)).
Proof.
  intros Hq. unfold decapsulate. rewrite bool_decide_eq_true_2 by done. unfold send_queued_packet.
  by erewrite bind_ok by (unfold dequeue_packet; run_ok; cbn [fst]; rewrite Hq; reflexivity).
Qed.

Lemma sealed_length h p : packet_wf p → macs_len p = 32%nat → (length (sealed h p) ≤ 148)%nat.
Proof.
  intros Hp Hm. unfold sealed. rewrite length_encode; [|done|by rewrite length_app, length_mac1_of, length_mac2_of].
  destruct p; try done; unfold HANDSHAKE_INIT_SZ, HANDSHAKE_RESP_SZ; lia.
Qed.

(** The device around the tunnel of a peer: the peer is found by its key, and
    the keys of the device are those of the tunnel. *)
Record around (s : dstate) (l r : nat) (p : Peer) : Prop := {
  ar_ok : device_ok (length dst) s;
  ar_peer : s.(heap) !! r = Some p;
  ar_key : s.(dev).(peers) !! peer_key p = Some r;
  ar_keys : s.(dev).(key_pair) = Some (p.(tunnel).(handshake).(params).(static_private), p.(tunnel).(handshake).(params).(static_public));
  ar_limiter : s.(dev).(d_rate_limiter) = Some l;
}.

Lemma around_index s l r p i :
  around s l r p → in_width 32 i → i / 256 = p.(p_index) → s.(dev).(peers_by_idx) !! Z.shiftr i 8 = Some r.
Proof.
  intros Ha Hi Hp. rewrite Z.shiftr_div_pow2 by done. change (2 ^ 8) with 256. rewrite Hp.
  destruct (di_key _ (do_maps _ _ (ar_ok _ _ _ _ Ha)) _ _ (ar_key _ _ _ _ Ha)) as (p' & Hp' & _ & Hx).
  rewrite (ar_peer _ _ _ _ Ha) in Hp'. by injection Hp' as <-.
Qed.

(** The same device later. *)
Record since (s : dstate) (r : nat) (p : Peer) (s' : dstate) (p' : Peer) (ts : list traffic) : Prop := {
  si_ok : device_ok (length dst) s';
  si_dev : s'.(dev) = s.(dev);
  si_peer : s'.(heap) !! r = Some p';
  si_same : same_peer p p';
  si_params : p'.(tunnel).(handshake).(params) = p.(tunnel).(handshake).(params);
  si_traffic : traffic_of s.(dos) s'.(dos) ts;
}.

Lemma around_since s l r p s' p' ts : around s l r p → since s r p s' p' ts → around s' l r p'.
Proof.
  intros [Ho Hp Hk Hks Hl] [So Sd Sp (Si & Sk & Sa) Spar St]. split; [done|done|by rewrite Sd, Sk|by rewrite Sd, Spar|by rewrite Sd].
Qed.

Lemma since_allowed s r p s' p' ts a : since s r p s' p' ts → is_allowed_ip a p' = is_allowed_ip a p.
Proof. intros [_ _ _ (_ & _ & Hips) _ _]. unfold is_allowed_ip. by rewrite Hips. Qed.

Lemma since_index s r p s' p' ts i : since s r p s' p' ts → in_width 32 i → i / 256 = p.(p_index) → incremented i / 256 = p'.(p_index).
Proof. intros [_ _ _ (Hx & _ & _) _ _] Hi Hg. rewrite Hx, <- Hg. by apply incremented_group. Qed.

(** From the end of the acts on a result to the end of the handler. *)
Lemma unmoved_since s r p s1 p1 s2 ts :
  s1.(dev) = s.(dev) → s1.(heap) !! r = Some p1 → same_peer p p1 →
  p1.(tunnel).(handshake).(params) = p.(tunnel).(handshake).(params) → traffic_of s.(dos) s1.(dos) ts →
  device_ok (length dst) s2 → unmoved s1 s2 → ∃ p2, since s r p s2 p2 ts ∧ p2.(tunnel) = p1.(tunnel).
Proof.
  intros Hd Hp Hs Hpar Ht Ho [Ud Uw Uh Uo]. destruct (Uh r p1 Hp) as (p2 & Hp2 & Ht2 & Hs2). exists p2. split; [|done].
  split; [done|congruence|done|by etransitivity|congruence|]. pose proof (traffic_trans _ _ _ _ _ Ht Uo) as Hx.
  by rewrite app_nil_r in Hx.
Qed.

(** ** Acting on the result of a tunnel *)

Lemma act_send udp addr r msg s p :
  s.(heap) !! r = Some p → p.(tunnel).(packet_queue) = [] →
  ∃ s1, act_on r (λ b, SendTo udp b addr) dst (WriteToNetwork msg) s = Ret (Ok (), s1) ∧ s1.(dev) = s.(dev) ∧
    s1.(heap) !! r = Some p ∧ traffic_of s.(dos) s1.(dos) [Sent msg].
Proof.
  intros Hp Hq. set (s0 := with_dos (MkOs (s.(dos).(os_log) ++ [SendTo udp msg addr]) s.(dos).(os_answer)) s).
  assert (Hf : flush FLUSH_TURNS r (λ b, SendTo udp b addr) dst s0 = Ret (Ok true, moved s0 r p p.(tunnel) s0.(dworld))).
  { change FLUSH_TURNS with (S 258). cbn [flush].
    by erewrite bind_ok by (apply (call_tunnel_run r _ s0 p TDone); [exact Hp|by apply flush_empty]). }
  exists (moved s0 r p p.(tunnel) s0.(dworld)). split.
  { cbn [act_on]. erewrite bind_ok by apply d_sys_log. by erewrite bind_ok by exact Hf. }
  split; [done|]. split; [cbn; rewrite lookup_insert_eq; by destruct p|]. apply (traffic_call s.(dos) (SendTo udp msg addr)).
Qed.

Lemma act_send_queued udp addr r msg s p packet sess :
  s.(heap) !! r = Some p → p.(tunnel).(packet_queue) = [packet] →
  session_at (slot p.(tunnel).(current)) p.(tunnel) = Some sess → (length packet + DATA_OVERHEAD_SZ ≤ length dst)%nat →
  ∃ s1 t1, act_on r (λ b, SendTo udp b addr) dst (WriteToNetwork msg) s = Ret (Ok (), s1) ∧ s1.(dev) = s.(dev) ∧
    s1.(heap) !! r = Some (with_tunnel t1 p) ∧ t1.(handshake) = p.(tunnel).(handshake) ∧
    traffic_of s.(dos) s1.(dos) [Sent msg; Sent (encode (data_packet sess packet) [])].
Proof.
  intros Hp Hq Hs Hlen. set (s0 := with_dos (MkOs (s.(dos).(os_log) ++ [SendTo udp msg addr]) s.(dos).(os_answer)) s).
  destruct (flush_queue None dst p.(tunnel) s0.(dworld) sess packet [] Hq Hs Hlen) as (t1 & Hf1 & Hq1 & Hh1).
  set (d := encode (data_packet sess packet) []) in *. set (s1 := moved s0 r p t1 s0.(dworld)).
  set (s2 := with_dos (MkOs (s1.(dos).(os_log) ++ [SendTo udp d addr]) s1.(dos).(os_answer)) s1).
  assert (Hp2 : s2.(heap) !! r = Some (with_tunnel t1 p)) by (cbn; apply lookup_insert_eq).
  assert (Hf : flush FLUSH_TURNS r (λ b, SendTo udp b addr) dst s0 = Ret (Ok true, moved s2 r (with_tunnel t1 p) t1 s2.(dworld))).
  { change FLUSH_TURNS with (S (S 257)). cbn [flush].
    erewrite bind_ok by (apply (call_tunnel_run r _ s0 p (WriteToNetwork d)); [exact Hp|exact Hf1]).
    cbv match. erewrite bind_ok by apply d_sys_log. fold s1. fold s2.
    by erewrite bind_ok by (apply (call_tunnel_run r _ s2 (with_tunnel t1 p) TDone); [exact Hp2|by apply flush_empty]). }
  eexists _, t1. split; [cbn [act_on]; erewrite bind_ok by apply d_sys_log; by erewrite bind_ok by exact Hf|].
  split; [done|]. split; [cbn; by rewrite lookup_insert_eq|]. split; [done|].
  apply (traffic_trans s.(dos) s0.(dos) _ [Sent msg] [Sent d]); [apply (traffic_call s.(dos) (SendTo udp msg addr))|].
  apply (traffic_call s0.(dos) (SendTo udp d addr)).
Qed.

(** What a peer may send is written. *)
Lemma act_write send r packet src s p :
  s.(heap) !! r = Some p → is_allowed_ip src p = true →
  ∃ s1, act_on r send dst (to_tunnel packet src) s = Ret (Ok (), s1) ∧ s1.(dev) = s.(dev) ∧
    s1.(heap) !! r = Some p ∧ traffic_of s.(dos) s1.(dos) [Written packet].
Proof.
  intros Hp Ha. set (s0 := MkD s.(dev) (<[r := p]> s.(heap)) s.(dworld) s.(dos)).
  assert (Hg : peer_gets r (is_allowed_ip src) s = Ret (Ok true, s0)).
  { unfold peer_gets, on_peer. rewrite Hp. cbn. by rewrite Ha. }
  assert (Hp0 : s0.(heap) !! r = Some p) by (cbn; apply lookup_insert_eq).
  destruct src as [a|a]; cbn [act_on to_tunnel]; (erewrite bind_ok by exact Hg); cbv match; rewrite d_sys_log;
    (eexists; split; [reflexivity|]; split; [done|]; split; [exact Hp0|]).
  - apply (traffic_call s.(dos) (Write4 packet)).
  - apply (traffic_call s.(dos) (Write6 packet)).
Qed.

(** A datagram that is verified, finds its peer and is acted on. *)
Lemma datagram_since udp l b addr s rl rl' parsed r p res t' w' s1 t1 ts :
  around s l r p → (length b ≤ length dst)%nat → s.(dworld).(w_limiters) !! l = Some rl →
  verify_packet (Some (sock_ip addr)) b dst (rl, s.(dworld).(w_env)) = Ret (Ok parsed, (rl', s.(dworld).(w_env))) →
  let par := p.(tunnel).(handshake).(params) in
  find_peer par.(static_private) par.(static_public) parsed s.(dev) = Some r →
  handle_verified_packet parsed dst (p.(tunnel), verified_in s.(dworld) l rl') = Ret (Ok res, (t', w')) →
  (∀ e, res ≠ TErr e) →
  act_on r (λ b, SendTo udp b addr) dst res (moved s r p t' w') = Ret (Ok (), s1) →
  s1.(dev) = s.(dev) → s1.(heap) !! r = Some (with_tunnel t1 p) → t1.(handshake) = t'.(handshake) →
  traffic_of s.(dos) s1.(dos) ts →
  ∃ s2 p2, handle_datagram udp (par.(static_private), par.(static_public)) l dst b addr s = Ret (Ok true, s2) ∧
    since s r p s2 p2 ts ∧ p2.(tunnel) = t1.
Proof.
  intros Ha Hb Hl Hv par Hf Ht Hres Hact Hd Hp1 Hh Htr.
  destruct (datagram_done udp (par.(static_private), par.(static_public)) l b addr s rl rl' parsed r p res t' w' s1
    (ar_ok _ _ _ _ Ha) Hb Hl Hv Hf (ar_peer _ _ _ _ Ha) Ht Hres Hact) as (s2 & Hrun & Hok & Hun).
  pose proof (verified_frame _ _ _ _ _ Ht) as [_ Hpar]. cbn in Hpar.
  destruct (unmoved_since s r p s1 (with_tunnel t1 p) s2 ts) as (p2 & Hsi & Ht2); [done|done| | |done|done|done|].
  - split; [done|]. split; [|done]. unfold peer_key. cbn. by rewrite Hh, Hpar.
  - cbn. by rewrite Hh.
  - by exists s2, p2.
Qed.

(** ** The steps of a handshake *)

(** The limiter of a device that is not loaded. *)
Definition light (l : nat) (public : bytes) (w : world) : Prop :=
  ∃ rl, w.(w_limiters) !! l = Some rl ∧ limiter_of public rl ∧ rl.(count) < rl.(limit).

Lemma light_verifies addr h q idx l w :
  light l h.(params).(peer_static_public) w → packet_wf q → handshake_sender q = Some idx → params_wf h.(params) →
  ∃ rl rl', w.(w_limiters) !! l = Some rl ∧ verify_packet addr (sealed h q) dst (rl, w.(w_env)) = Ret (Ok q, (rl', w.(w_env))).
Proof.
  intros (rl & Hl & Hlo & Hc) Hq Hs Hp. exists rl. eexists. split; [done|].
  rewrite (verify_sealed h q idx) by done. cbn zeta. by rewrite (proj2 (Z.leb_gt _ _)) by done.
Qed.

(** The responder answers an initiation. *)
Lemma initiation_answered udp addr s l r p h pi msg sess h1 e1 :
  around s l r p → light l p.(tunnel).(handshake).(params).(static_public) s.(dworld) →
  params_wf h.(params) → h.(params).(peer_static_public) = p.(tunnel).(handshake).(params).(static_public) →
  packet_wf (PHandshakeInit pi) → p.(tunnel).(packet_queue) = [] →
  receive_handshake_initialization pi dst (p.(tunnel).(handshake), s.(dworld).(w_env)) = Ret (Ok (msg, sess), (h1, e1)) →
  let par := p.(tunnel).(handshake).(params) in
  ∃ s2 p2, handle_datagram udp (par.(static_private), par.(static_public)) l dst (sealed h (PHandshakeInit pi)) addr s =
      Ret (Ok true, s2) ∧
    since s r p s2 p2 [Sent msg] ∧ p2.(tunnel).(sessions) = <[slot sess.(receiving_index) := Some sess]> p.(tunnel).(sessions).
Proof.
  intros Ha Hl Hp Hpk Hpi Hq Hr par. rewrite <- Hpk in Hl.
  destruct (light_verifies (Some (sock_ip addr)) h (PHandshakeInit pi) _ l _ Hl Hpi eq_refl Hp) as (rl & rl' & Hrl & Hv).
  destruct (handle_init_eq pi dst p.(tunnel) (verified_in s.(dworld) l rl') _ _ _ _ Hr) as [x Ht].
  set (t1 := with_t_timers x _) in Ht. set (w1 := with_w_env e1 _) in Ht.
  destruct (act_send udp addr r msg (moved s r p t1 w1) (with_tunnel t1 p)) as (s1 & Hact & Hd & Hp1 & Htr);
    [apply lookup_insert_eq|exact Hq|].
  destruct (anon_accepts _ _ _ _ _ _ Hr) as (half & Hanon & Hkey).
  assert (Hlen : (length (sealed h (PHandshakeInit pi)) ≤ length dst)%nat)
    by (pose proof (sealed_length h (PHandshakeInit pi) Hpi eq_refl); unfold HANDSHAKE_INIT_SZ in Hdst; lia).
  destruct (datagram_since udp l _ addr s rl rl' _ r p (WriteToNetwork msg) t1 w1 s1 t1 [Sent msg] Ha Hlen Hrl Hv)
    as (s2 & p2 & Hrun & Hsi & Ht2); [|exact Ht|done|exact Hact|done|done|done|exact Htr|].
  - unfold find_peer. rewrite Hanon, Hkey. apply Ha.
  - exists s2, p2. split; [done|]. split; [done|]. by rewrite Ht2.
Qed.

(** The initiator takes the response: it sends a keepalive and the packet that
    waited. *)
Lemma response_taken udp addr s l r p h pr sess h2 e2 packet :
  around s l r p → light l p.(tunnel).(handshake).(params).(static_public) s.(dworld) →
  params_wf h.(params) → h.(params).(peer_static_public) = p.(tunnel).(handshake).(params).(static_public) →
  packet_wf (PHandshakeResponse pr) → pr.(hr_receiver_idx) / 256 = p.(p_index) →
  session_at (slot p.(tunnel).(current)) p.(tunnel) = None → p.(tunnel).(packet_queue) = [packet] →
  (length packet + DATA_OVERHEAD_SZ ≤ length dst)%nat →
  receive_handshake_response pr (p.(tunnel).(handshake), s.(dworld).(w_env)) = Ret (Ok sess, (h2, e2)) →
  let par := p.(tunnel).(handshake).(params) in
  let sess' := with_sending_key_counter (wrap 64 (sess.(sending_key_counter) + 1)) sess in
  ∃ s2 p2, handle_datagram udp (par.(static_private), par.(static_public)) l dst (sealed h (PHandshakeResponse pr)) addr s =
      Ret (Ok true, s2) ∧
    since s r p s2 p2 [Sent (encode (data_packet sess []) []); Sent (encode (data_packet sess' packet) [])].
Proof.
  intros Ha Hl Hp Hpk Hpr Hidx Hcur Hq Hlen Hr par sess'. rewrite <- Hpk in Hl.
  destruct (light_verifies (Some (sock_ip addr)) h (PHandshakeResponse pr) _ l _ Hl Hpr eq_refl Hp) as (rl & rl' & Hrl & Hv).
  destruct (handle_response_eq pr dst p.(tunnel) (verified_in s.(dworld) l rl') sess h2 e2 Hcur) as [x Ht];
    [unfold HANDSHAKE_INIT_SZ, DATA_OVERHEAD_SZ in *; lia|exact Hr|].
  set (t1 := with_current _ _) in Ht. set (w1 := with_w_env e2 _) in Ht.
  assert (Hs1 : session_at (slot t1.(current)) t1 = Some sess').
  { unfold session_at. cbn. rewrite list_lookup_insert_eq; [done|].
    destruct (ti_ring _ _ _ (do_tunnels _ _ (ar_ok _ _ _ _ Ha) r p (ar_peer _ _ _ _ Ha))) as [Hlr _]. cbn in Hlr.
    rewrite Hlr. apply slot_lt. }
  destruct (act_send_queued udp addr r (encode (data_packet sess []) []) (moved s r p t1 w1) (with_tunnel t1 p) packet sess')
    as (s1 & t2 & Hact & Hd & Hp1 & Hh & Htr); [apply lookup_insert_eq|exact Hq|exact Hs1|exact Hlen|].
  assert (Hsl : (length (sealed h (PHandshakeResponse pr)) ≤ length dst)%nat)
    by (pose proof (sealed_length h (PHandshakeResponse pr) Hpr eq_refl); unfold HANDSHAKE_INIT_SZ in Hdst; lia).
  destruct (datagram_since udp l _ addr s rl rl' _ r p (WriteToNetwork (encode (data_packet sess []) [])) t1 w1 s1 t2
    [Sent (encode (data_packet sess []) []); Sent (encode (data_packet sess' packet) [])] Ha Hsl Hrl Hv)
    as (s2 & p2 & Hrun & Hsi & _); [|exact Ht|done|exact Hact|done|exact Hp1|exact Hh|exact Htr|by exists s2, p2].
  cbn [find_peer]. apply (around_index s l r p); [done|by apply Hpr|done].
Qed.

(** The device took the data of a session: it was handled with this traffic, and
    the session has marked its counter. *)
Definition took (udp : Z) (addr : SocketAddr) (s : dstate) (l r : nat) (p : Peer) (sess : Session) (win : Validator.window)
    (c : Z) (pt : bytes) (ts : list traffic) : Prop :=
  let par := p.(tunnel).(handshake).(params) in
  ∃ s2 p2 sess', handle_datagram udp (par.(static_private), par.(static_public)) l dst (encode (PData (data_for sess c pt)) []) addr s =
      Ret (Ok true, s2) ∧
    since s r p s2 p2 ts ∧
    session_at (slot sess.(receiving_index)) p2.(tunnel) = Some sess' ∧
    sess' = with_receiving_key_counter sess'.(receiving_key_counter) sess ∧
    Validator.implements sess'.(receiving_key_counter) (Validator.w_mark c win).2.

(** A session of a peer that can take counter [c]. *)
Record open_for (s : dstate) (l r : nat) (p : Peer) (sess : Session) (win : Validator.window) (c : Z) : Prop := {
  of_around : around s l r p;
  of_limiter : is_Some (s.(dworld).(w_limiters) !! l);
  of_session : session_at (slot sess.(receiving_index)) p.(tunnel) = Some sess;
  of_width : in_width 32 sess.(receiving_index);
  of_index : sess.(receiving_index) / 256 = p.(p_index);
  of_counter : Validator.small_counter c;
  of_window : Validator.implements sess.(receiving_key_counter) win;
  of_accepts : Validator.w_accepts c win = true;
}.

(** The content is validated, and what comes of it is done. *)
Lemma data_acted udp addr s l r p sess win c pt ts :
  open_for s l r p sess win c → (length pt + DATA_OVERHEAD_SZ ≤ length dst)%nat →
  (∀ t w, ∃ res t', validate_decapsulated_packet pt (t, w) = Ret (Ok res, (t', w)) ∧ t'.(sessions) = t.(sessions) ∧
     t'.(handshake) = t.(handshake) ∧ (∀ e, res ≠ TErr e) ∧
     ∃ s1, act_on r (λ b, SendTo udp b addr) dst res (moved s r p t' w) = Ret (Ok (), s1) ∧ s1.(dev) = s.(dev) ∧
       s1.(heap) !! r = Some (with_tunnel t' p) ∧ traffic_of s.(dos) s1.(dos) ts) →
  took udp addr s l r p sess win c pt ts.
Proof.
  intros [Ha [rl Hrl] Hs Hw Hi Hc Him Hacc] Hlen Hval. unfold took. set (par := p.(tunnel).(handshake).(params)).
  assert (Hwf : packet_wf (PData (data_for sess c pt))) by (by apply data_for_wf).
  pose proof (verify_data (Some (sock_ip addr)) (data_for sess c pt) dst rl s.(dworld).(w_env) Hwf) as Hv.
  destruct (verified_data dst p.(tunnel) (verified_in s.(dworld) l rl) sess win c pt Hs Hlen Hc Him Hacc)
    as (sess' & t1 & Him' & Hse & Hs1 & _ & Ht).
  destruct (Hval t1 (verified_in s.(dworld) l rl)) as (res & t2 & Hr & Hss & Hhs & Hne & s1 & Hact & Hd & Hp1 & Htr).
  assert (Ht' : handle_verified_packet (PData (data_for sess c pt)) dst (p.(tunnel), verified_in s.(dworld) l rl) =
    Ret (Ok res, (t2, verified_in s.(dworld) l rl))) by (rewrite Ht; unfold mbind, M_bind, attempt; by rewrite Hr).
  assert (Hsl : (length (encode (PData (data_for sess c pt)) []) ≤ length dst)%nat).
  { rewrite length_encode by done. cbn. rewrite length_aead_seal. unfold DATA_OVERHEAD_SZ in Hlen. lia. }
  destruct (datagram_since udp l _ addr s rl rl _ r p res t2 (verified_in s.(dworld) l rl) s1 t2 ts Ha Hsl Hrl Hv)
    as (s2 & p2 & Hrun & Hsi & Ht2);
    [|exact Ht'|exact Hne|exact Hact|done|done|done|exact Htr|].
  - cbn [find_peer]. by apply (around_index s l r p).
  - exists s2, p2, sess'. rewrite Ht2. unfold session_at in *. by rewrite Hss.
Qed.

(** A keepalive is taken in silence. *)
Lemma keepalive_taken udp addr s l r p sess win c :
  open_for s l r p sess win c → took udp addr s l r p sess win c [] [].
Proof.
  intros Ho. apply data_acted; [done|unfold HANDSHAKE_INIT_SZ, DATA_OVERHEAD_SZ in *; cbn; lia|].
  intros t w. exists TDone, t. split_and!; [done..|]. exists (moved s r p t w).
  split_and!; [done|done|apply lookup_insert_eq|apply traffic_refl].
Qed.

(** A packet from an address that the peer may use is written to the interface. *)
Lemma packet_taken udp addr s l r p sess win c pt v src :
  open_for s l r p sess win c → (length pt + DATA_OVERHEAD_SZ ≤ length dst)%nat →
  ip_version pt = Some v → ip_header v pt = Some (Z.of_nat (length pt), src) → is_allowed_ip src p = true →
  took udp addr s l r p sess win c pt [Written pt].
Proof.
  intros Ho Hlen Hv Hh Hal. apply data_acted; [done|done|]. intros t w.
  destruct (validate_whole pt v src t w Hv Hh) as (t2 & Hval & Hss & Hhs). exists (to_tunnel pt src), t2.
  split; [done|]. split; [done|]. split; [done|]. split; [by destruct src|].
  destruct (act_write (λ b, SendTo udp b addr) r pt src (moved s r p t2 w) (with_tunnel t2 p)) as (s1 & Hact & Hd & Hp1 & Htr);
    [apply lookup_insert_eq|exact Hal|]. exists s1. done.
Qed.

(** ** A packet from the interface *)

Lemma send_to_endpoint_sent u4 u6 e b s :
  is_Some e.(ep_conn) ∨ is_Some e.(ep_addr) →
  ∃ s1, send_to_endpoint u4 u6 e b s = Ret (Ok (), s1) ∧ s1.(dev) = s.(dev) ∧ s1.(heap) = s.(heap) ∧
    s1.(dworld) = s.(dworld) ∧ traffic_of s.(dos) s1.(dos) [Sent b].
Proof.
  intros He. unfold send_to_endpoint.
  destruct (ep_conn e) as [c|]; [|destruct (ep_addr e) as [[ip port|ip port scope]|]; [..|by destruct He as [[]|[]]]];
    rewrite d_sys_log; (eexists; split; [reflexivity|]; split_and!; [done..|apply (traffic_call s.(dos))]).
Qed.

(** A packet that is routed to an idle peer starts a handshake with it. *)
Lemma packet_starts u4 u6 s l r p packet a msg h1 e1 :
  around s l r p → idle p.(tunnel) → (length packet + DATA_OVERHEAD_SZ ≤ length dst)%nat →
  dst_address packet = Some a → find s.(dev).(peers_by_ip) a = Some r →
  is_Some p.(p_endpoint).(ep_conn) ∨ is_Some p.(p_endpoint).(ep_addr) →
  format_handshake_initiation dst (p.(tunnel).(handshake), s.(dworld).(w_env)) = Ret (Ok msg, (h1, e1)) →
  ∃ s1 p1, handle_outgoing u4 u6 dst packet s = Ret (Ok (), s1) ∧ since s r p s1 p1 [Sent msg] ∧
    p1.(tunnel).(handshake) = h1 ∧ p1.(tunnel).(packet_queue) = [packet] ∧
    session_at (slot p1.(tunnel).(current)) p1.(tunnel) = None ∧ s1.(dworld).(w_limiters) = s.(dworld).(w_limiters).
Proof.
  intros Ha [Hid Hst Hq] Hlen Hda Hf He Hfm. pose proof (ar_peer _ _ _ _ Ha) as Hp.
  destruct (encapsulate_starts packet dst p.(tunnel) s.(dworld) msg h1 e1 Hid Hst Hfm) as [x Hx].
  set (t1 := with_t_timers x _) in Hx. set (w1 := with_w_env e1 _) in Hx. set (p1 := with_tunnel t1 p).
  set (s0 := moved s r p t1 w1). set (s0' := MkD s0.(dev) (<[r := p1]> s0.(heap)) s0.(dworld) s0.(dos)).
  assert (Hp0 : s0.(heap) !! r = Some p1) by apply lookup_insert_eq.
  destruct (send_to_endpoint_sent u4 u6 p.(p_endpoint) msg s0' He) as (s1 & Hs1 & Hd & Hh & Hw & Htr).
  assert (Hrun : handle_outgoing u4 u6 dst packet s = Ret (Ok (), s1)).
  { unfold handle_outgoing. rewrite Hda. erewrite bind_ok by reflexivity. cbn [id]. rewrite Hf.
    erewrite bind_ok by (apply (call_tunnel_run _ _ _ p _ t1 w1); [exact Hp|exact Hx]). cbv match.
    erewrite bind_ok; [exact Hs1|]. fold s0. unfold peer_gets, on_peer. by rewrite Hp0. }
  destruct (wp_elim _ _ _ (handle_outgoing_safe (length dst) u4 u6 dst packet s (ar_ok _ _ _ _ Ha) Hlen (le_n _)))
    as (y & s2 & Hrun2 & Hset & _). rewrite Hrun in Hrun2. injection Hrun2 as <- <-.
  assert (Hpar : h1.(params) = p.(tunnel).(handshake).(params)) by exact (proj2 (encapsulate_frame packet dst _ _ _ Hx)).
  exists s1, p1. split; [done|]. split; [split|].
  - apply Hset.
  - apply Hset.
  - rewrite Hh. apply lookup_insert_eq.
  - split; [done|]. split; [|done]. unfold peer_key. cbn. by rewrite Hpar.
  - cbn. by rewrite Hpar.
  - exact Htr.
  - rewrite Hw. unfold p1, t1, queue_packet. rewrite Hq. done.
Qed.
(** ** The handlers *)

Lemma udp_handler_loop udp pending s l r p :
  around s l r p → let par := p.(tunnel).(handshake).(params) in
  udp_handler udp dst pending s = udp_loop udp (par.(static_private), par.(static_public)) l dst MAX_ITR pending s.
Proof.
  intros Ha par. unfold udp_handler. erewrite bind_ok by reflexivity. rewrite (ar_keys _ _ _ _ Ha).
  erewrite bind_ok by reflexivity. erewrite bind_ok by reflexivity. rewrite (ar_limiter _ _ _ _ Ha).
  by erewrite bind_ok by reflexivity.
Qed.

Lemma udp_one udp b addr s l r p s1 :
  around s l r p → let par := p.(tunnel).(handshake).(params) in
  handle_datagram udp (par.(static_private), par.(static_public)) l dst b addr s = Ret (Ok true, s1) →
  udp_handler udp dst [(b, addr)] s = Ret (Ok [], s1).
Proof.
  intros Ha par Hd1. rewrite (udp_handler_loop _ _ _ _ _ _ Ha). change MAX_ITR with (S (S 98)). cbn [udp_loop].
  by erewrite bind_ok by exact Hd1.
Qed.

Lemma udp_two udp b c addr s l r p s1 s2 :
  around s l r p → let par := p.(tunnel).(handshake).(params) in
  handle_datagram udp (par.(static_private), par.(static_public)) l dst b addr s = Ret (Ok true, s1) →
  handle_datagram udp (par.(static_private), par.(static_public)) l dst c addr s1 = Ret (Ok true, s2) →
  udp_handler udp dst [(b, addr); (c, addr)] s = Ret (Ok [], s2).
Proof.
  intros Ha par Hd1 Hd2. rewrite (udp_handler_loop _ _ _ _ _ _ Ha). change MAX_ITR with (S (S (S 97))). cbn [udp_loop].
  erewrite bind_ok by exact Hd1. cbv match. by erewrite bind_ok by exact Hd2.
Qed.

Lemma iface_one mtu reads packet u4 u6 s s1 :
  mtu ≤ Z.of_nat (length dst) →
  s.(dev).(udp4) = Some u4 → s.(dev).(udp6) = Some u6 → reads 0%nat = Ok packet → reads 1%nat = Err (IfaceRead WouldBlock) →
  handle_outgoing u4 u6 dst packet s = Ret (Ok (), s1) →
  iface_handler mtu dst reads s = Ret (Ok Continue, s1).
Proof.
  intros Hm%Z.leb_le H4 H6 R0 R1 Ho. unfold iface_handler. erewrite bind_ok by reflexivity. cbn [id]. rewrite H4, H6.
  erewrite bind_ok by reflexivity. erewrite bind_ok by reflexivity. change MAX_ITR with (S (S 98)). cbn [iface_loop].
  rewrite Hm. erewrite bind_ok by reflexivity. rewrite R0. erewrite bind_ok by exact Ho.
  erewrite bind_ok by reflexivity. by rewrite R1.
Qed.

(** The responder, once it has answered: the keepalive, and the packet. *)
Lemma responder_delivers udp addr s l r p ri ii k1 k2 packet v src :
  around s l r p → session_at (slot ri) p.(tunnel) = Some (Session_new ri ii k1 k2) →
  in_width 32 ri → ri / 256 = p.(p_index) → (length packet + DATA_OVERHEAD_SZ ≤ length dst)%nat →
  ip_version packet = Some v → ip_header v packet = Some (Z.of_nat (length packet), src) → is_allowed_ip src p = true →
  let data c pt := encode (PData (MkPacketData ri c (aead_chacha20_seal k1 c pt []))) [] in
  ∃ s', udp_handler udp dst [(data 0 [], addr); (data 1 packet, addr)] s = Ret (Ok [], s') ∧ traffic_of s.(dos) s'.(dos) [Written packet].
Proof.
  intros Ha Hs Hri Hg Hlen Hv Hh Hal data. set (sess := Session_new ri ii k1 k2) in *.
  destruct (keepalive_taken udp addr s l r p sess Validator.w_empty 0) as (s1 & p1 & sess1 & Hd1 & Hsi & Hs1 & Hse & Him).
  { split; [done|by apply (do_limiter _ _ (ar_ok _ _ _ _ Ha)), Ha|done..|apply Validator.default_implements|by apply bool_decide_eq_true_2]. }
  pose proof (around_since _ _ _ _ _ _ _ Ha Hsi) as Ha1.
  assert (Hx : sess1.(receiving_index) = ri ∧ sess1.(receiver) = k1) by (by rewrite Hse). destruct Hx as [Hx1 Hx2].
  destruct (packet_taken udp addr s1 l r p1 sess1 (Validator.w_mark 0 Validator.w_empty).2 1 packet v src)
    as (s2 & p2 & sess2 & Hd2 & Hsi2 & _); [|done..| |].
  { split; [done|by apply (do_limiter _ _ (ar_ok _ _ _ _ Ha1)), Ha1|by rewrite Hx1|by rewrite Hx1| |done|done|by vm_compute].
    rewrite Hx1, Hg. symmetry. apply Hsi. }
  { by rewrite (since_allowed _ _ _ _ _ _ _ Hsi). }
  exists s2. split; [|exact (traffic_trans _ _ _ [] [Written packet] (si_traffic _ _ _ _ _ _ Hsi) (si_traffic _ _ _ _ _ _ Hsi2))].
  apply (udp_two udp _ _ addr s l r p s1 s2 Ha); [exact Hd1|]. unfold data_for in Hd2. rewrite Hx1, Hx2 in Hd2.
  rewrite <- (si_params _ _ _ _ _ _ Hsi). exact Hd2.
Qed.
End Datagram.

(** ** Two devices *)

Section TwoDevices.
Context `{CryptoLaws, NetTableLaws, HashOrder}.

(** A device that can take part: it has the peer, it is not loaded, and its
    buffer holds a handshake message. *)
Record ready (dst : bytes) (s : dstate) (l r : nat) (p : Peer) : Prop := {
  re_around : around dst s l r p;
  re_light : light l p.(tunnel).(handshake).(params).(static_public) s.(dworld);
  re_buffer : (HANDSHAKE_INIT_SZ ≤ length dst)%nat;
}.

(** A device with its sockets open routes the packet to a peer that it can reach. *)
Record routes (s : dstate) (packet : bytes) (r : nat) (p : Peer) : Prop := {
  ro_sockets : is_Some s.(dev).(udp4) ∧ is_Some s.(dev).(udp6);
  ro_peer : ∃ a, dst_address packet = Some a ∧ find s.(dev).(peers_by_ip) a = Some r;
  ro_endpoint : is_Some p.(p_endpoint).(ep_conn) ∨ is_Some p.(p_endpoint).(ep_addr);
}.

(** C25.  A packet that the first device reads from its interface, and routes to
    a peer with which it has no session yet, arrives: when each device is handed
    the datagrams that the other sends, the first starts a handshake, the second
    answers it, the first then sends a keepalive and the packet, and the second
    writes that very packet to its interface, and nothing else.  No handler
    fails.  The two devices are each other's peers, neither is loaded, the
    packet comes from an address that the second allows, the MTU of the first is
    not larger than its buffer, and the clock of the first is ahead of the last handshake the second has seen. *)
Theorem device_delivery dstA sA lA rA pA udpA addrA dstB sB lB rB pB udpB addrB mtu reads packet v src :
  ready dstA sA lA rA pA → ready dstB sB lB rB pB →
  paired pA.(tunnel).(handshake).(params) pB.(tunnel).(handshake).(params) →
  idle pA.(tunnel) → pB.(tunnel).(packet_queue) = [] →
  after (Tai64N_parse (ext_stamp (stamp_time pA.(tunnel).(handshake).(stamper)
      (sA.(dworld).(w_env).(e_clock) sA.(dworld).(w_env).(e_tick))))) pB.(tunnel).(handshake).(last_handshake_timestamp) = true →
  mtu ≤ Z.of_nat (length dstA) →
  reads 0%nat = Ok packet → reads 1%nat = Err (IfaceRead WouldBlock) → routes sA packet rA pA →
  ip_version packet = Some v → ip_header v packet = Some (Z.of_nat (length packet), src) → is_allowed_ip src pB = true →
  (length packet + DATA_OVERHEAD_SZ ≤ length dstA)%nat → (length packet + DATA_OVERHEAD_SZ ≤ length dstB)%nat →
  ∃ init resp keepalive data sA1 sB1 sA2 sB2,
    iface_handler mtu dstA reads sA = Ret (Ok Continue, sA1) ∧ traffic_of sA.(dos) sA1.(dos) [Sent init] ∧
    udp_handler udpB dstB [(init, addrA)] sB = Ret (Ok [], sB1) ∧ traffic_of sB.(dos) sB1.(dos) [Sent resp] ∧
    udp_handler udpA dstA [(resp, addrB)] sA1 = Ret (Ok [], sA2) ∧
    traffic_of sA1.(dos) sA2.(dos) [Sent keepalive; Sent data] ∧
    udp_handler udpB dstB [(keepalive, addrA); (data, addrA)] sB1 = Ret (Ok [], sB2) ∧
    traffic_of sB1.(dos) sB2.(dos) [Written packet].
Proof.
  intros [HaA HlA HdA] [HaB HlB HdB] Hp Hid HqB Haft Hmtu R0 R1 [[[u4 U4] [u6 U6]] (a & Hda & Hfi) Hep] Hv Hh Hal HleA HleB.
  pose proof (do_tunnels _ _ (ar_ok _ _ _ _ _ HaA) _ _ (ar_peer _ _ _ _ _ HaA)) as HA.
  pose proof (do_tunnels _ _ (ar_ok _ _ _ _ _ HaB) _ _ (ar_peer _ _ _ _ _ HaB)) as HB.
  destruct (ti_handshake _ _ _ HA) as [_ HwA HgA _ _]. destruct (ti_handshake _ _ _ HB) as [_ HwB HgB _ _].
  destruct (agreement_run pA.(tunnel).(handshake) sA.(dworld).(w_env) dstA pB.(tunnel).(handshake) sB.(dworld).(w_env) dstB)
    as (pi & h1 & e1 & pr & hR1 & eR1 & k1 & k2 & Hf & Hpi & Hri & Hpr & Hrx & Hrr);
    [done|done|done|apply HA|apply HA|done|done|unfold HANDSHAKE_INIT_SZ, HANDSHAKE_RESP_SZ in *; lia|].
  set (ii := incremented (Handshake.next_index pA.(tunnel).(handshake))) in *.
  set (ri := incremented (Handshake.next_index pB.(tunnel).(handshake))) in *.
  destruct (packet_starts dstA u4 u6 sA lA rA pA packet a _ h1 e1 HaA Hid HleA Hda Hfi Hep Hf)
    as (sA1 & pA1 & Ho & HsA & Hh1 & Hq1 & Hc1 & Hl1).
  destruct (initiation_answered dstB HdB udpB addrA sB lB rB pB pA.(tunnel).(handshake) pi _ _ _ _ HaB HlB
    (pd_i _ _ Hp) (pd_ir _ _ Hp) Hpi HqB Hri) as (sB1 & pB1 & Hb1 & HsB & Hss).
  pose proof (around_since _ _ _ _ _ _ _ _ HaA HsA) as HaA1. pose proof (around_since _ _ _ _ _ _ _ _ HaB HsB) as HaB1.
  destruct (Hrr sA1.(dworld).(w_env)) as (h2 & e2 & Hr).
  destruct (response_taken dstA HdA udpA addrB sA1 lA rA pA1 pB.(tunnel).(handshake) pr (Session_new ii ri k2 k1) h2 e2 packet HaA1)
    as (sA2 & pA2 & Hb2 & HsA2);
    [unfold light; by rewrite Hl1, (si_params _ _ _ _ _ _ _ HsA)|apply Hp|rewrite (si_params _ _ _ _ _ _ _ HsA); apply Hp|exact Hpr| |exact Hc1|exact Hq1|exact HleA|rewrite Hh1; exact Hr|].
  { rewrite Hrx. by apply (since_index _ _ _ _ _ _ _ _ HsA). }
  destruct (responder_delivers dstB HdB udpB addrA sB1 lB rB pB1 ri ii k1 k2 packet v src HaB1) as (sB2 & Hb3 & Ht3);
    [| |by apply (since_index _ _ _ _ _ _ _ _ HsB)|done|done|done| |].
  - unfold session_at. rewrite Hss. cbn. rewrite list_lookup_insert_eq; [done|]. destruct (ti_ring _ _ _ HB) as [Hn _].
    cbn in Hn. rewrite Hn. apply slot_lt.
  - by apply incremented_width.
  - by rewrite (since_allowed _ _ _ _ _ _ _ _ HsB).
  - eexists _, _, _, _, sA1, sB1, sA2, sB2. split; [exact (iface_one dstA mtu reads packet u4 u6 sA sA1 Hmtu U4 U6 R0 R1 Ho)|].
    split; [apply HsA|]. split; [exact (udp_one _ _ _ _ _ _ _ _ _ HaB Hb1)|]. split; [apply HsB|].
    split; [exact (udp_one _ _ _ _ _ _ _ _ _ HaA1 Hb2)|]. split; [apply HsA2|]. split; [exact Hb3|exact Ht3].
Qed.
End TwoDevices.

(** ** Witness *)

Section DeviceDeliveryWitness.
#[local] Existing Instance toy_crypto.
#[local] Existing Instance toy_laws.
#[local] Existing Instance map_table.
#[local] Existing Instance map_table_laws.
#[local] Existing Instance by_key.

Definition configured (ops : list config_op) : dstate :=
  foldl (λ s op, match configure op s with Ret (_, s') => s' | Panic => s end) test_device ops.

Lemma configured_reachable ops : reachable (zeros 148) (configured ops).
Proof.
  unfold configured. generalize test_reachable. generalize test_device.
  induction ops as [|op ops IH]; intros s Hs; cbn [foldl]; [done|]. apply IH.
  destruct (configure op s) as [[r s']|] eqn:Hr; [|done]. by eapply reach_config.
Qed.

(** Two devices with each other as a peer. *)
Definition device_with (own other : bytes) : dstate :=
  configured [OpKey own; OpListen 51820;
    OpPeer (x25519_public other) false false (Some test_endpoint) [MkAllowedIP (v4 10 0 0 0) 8] None None].
Definition peer_ref (own other : bytes) : nat := default 0%nat ((device_with own other).(dev).(peers) !! x25519_public other).
Definition peer_in (own other : bytes) : Peer :=
  default (MkPeer (fresh_tunn initiator []) 0 (MkEndpoint None None) AllowedIps_new None) ((device_with own other).(heap) !! peer_ref own other).
Definition one_read (n : nat) : result Error bytes := if (n =? 0)%nat then Ok ip_packet else Err (IfaceRead WouldBlock).

Lemma some_default {A} (d : A) (o : option A) : bool_decide (is_Some o) = true → o = Some (default d o).
Proof. intros Ho%bool_decide_eq_true_1. by destruct o; [|destruct Ho]. Qed.

(** What [ready] asks of a device, computed. *)
Definition limiter_light (public : bytes) (o : option RateLimiter) : bool :=
  match o with
  | Some rl => bool_decide (rl.(mac1_key) = b2s_hash LABEL_MAC1 public) &&
      bool_decide (rl.(rl_cookie_key) = b2s_hash LABEL_COOKIE public) && (rl.(count) <? rl.(limit))
  | None => false
  end.

Lemma light_computed l public w : limiter_light public (w.(w_limiters) !! l) = true → light l public w.
Proof.
  unfold limiter_light, light. destruct (_ !! l) as [rl|]; [|done].
  intros [[Hm%bool_decide_eq_true_1 Hc%bool_decide_eq_true_1]%andb_prop Hl%Z.ltb_lt]%andb_prop. by exists rl.
Qed.

Lemma test_ready l own other :
  let s := device_with own other in let p := peer_in own other in
  bool_decide (is_Some (s.(dev).(peers) !! x25519_public other)) = true →
  bool_decide (is_Some (s.(heap) !! peer_ref own other)) = true →
  p.(tunnel).(handshake).(params) = NoiseParams_new own (x25519_public own) (x25519_public other) None →
  s.(dev).(key_pair) = Some (own, x25519_public own) → s.(dev).(d_rate_limiter) = Some l →
  limiter_light (x25519_public own) (s.(dworld).(w_limiters) !! l) = true →
  ready (zeros 148) s l (peer_ref own other) p.
Proof.
  intros s p Hk Hh Hp Hkp Hl Hli. split; [split| |vm_compute; lia].
  - apply reachable_ok; [vm_compute; lia|apply configured_reachable].
  - by apply some_default.
  - unfold peer_key. rewrite Hp. by apply some_default.
  - by rewrite Hp.
  - done.
  - rewrite Hp. by apply light_computed.
Qed.

Lemma device_delivery_witness :
  ∃ init resp keepalive data sA1 sB1 sA2 sB2,
    iface_handler 116 (zeros 148) one_read (device_with k1 k2) = Ret (Ok Continue, sA1) ∧
    traffic_of (device_with k1 k2).(dos) sA1.(dos) [Sent init] ∧
    udp_handler 7 (zeros 148) [(init, test_endpoint)] (device_with k2 k1) = Ret (Ok [], sB1) ∧
    traffic_of (device_with k2 k1).(dos) sB1.(dos) [Sent resp] ∧
    udp_handler 7 (zeros 148) [(resp, test_endpoint)] sA1 = Ret (Ok [], sA2) ∧
    traffic_of sA1.(dos) sA2.(dos) [Sent keepalive; Sent data] ∧
    udp_handler 7 (zeros 148) [(keepalive, test_endpoint); (data, test_endpoint)] sB1 = Ret (Ok [], sB2) ∧
    traffic_of sB1.(dos) sB2.(dos) [Written ip_packet].
Proof.
  apply (device_delivery (zeros 148) (device_with k1 k2) 0 (peer_ref k1 k2) (peer_in k1 k2) 7 test_endpoint
    (zeros 148) (device_with k2 k1) 0 (peer_ref k2 k1) (peer_in k2 k1) 7 test_endpoint 116 one_read ip_packet 4 (V4 ip_source)).
  - apply test_ready; vm_compute; reflexivity.
  - apply test_ready; vm_compute; reflexivity.
  - replace ((peer_in k1 k2).(tunnel).(handshake).(params)) with initiator_params by (vm_compute; reflexivity).
    replace ((peer_in k2 k1).(tunnel).(handshake).(params)) with responder_params by (vm_compute; reflexivity).
    exact test_paired.
  - split; vm_compute; reflexivity.
  - vm_compute; reflexivity.
  - vm_compute; reflexivity.
  - vm_compute; discriminate.
  - reflexivity.
  - reflexivity.
  - split; [split; apply (bool_decide_unpack _); vm_compute; exact I| |right; apply (bool_decide_unpack _); vm_compute; exact I].
    exists (v4 10 0 0 2). split; vm_compute; reflexivity.
  - vm_compute; reflexivity.
  - vm_compute; reflexivity.
  - vm_compute; reflexivity.
  - vm_compute; lia.
  - vm_compute; lia.
Defined.
End DeviceDeliveryWitness.
