(* ===== verification/EventLoop.v ===== *)
(** * The handlers on the threads of a device

    The handlers of Handlers.v run one after the other.  On the threads of a
    device they interleave: a handler has the guard of the device, and takes
    the mutex of a peer for one call of its tunnel at a time.  Here each of
    them is the program of its sections (device/mod.rs, lines 544-895), which
    run alone does what the handler does; and among any number of threads none
    of them panics. *)

From Stdlib Require Import Strings.String.
From S2P Require Import Prelude Errors ReplayWindow Time Crypto Packet Session Tai64N Handshake.
From S2P Require Import RateLimiter Tunn Tunnel TunnTimers Frame Lfsr Text Serialization AllowedIps Peer Device Api.
From S2P Require Import Handlers ApiServer DevLock DeviceSafe.
From coqutil Require Import Byte.

(** ** The programs *)

Section Programs.
Context `{Crypto, NetTable, HashOrder, Base64, Hex}.

Abbreviation DP := (prog dstate).

(** A section, and what follows it. *)
Definition atomically {A} (m : M Error dstate A) (k : A → DP) : DP :=
  PSect (λ s, match m s with Ret (Ok a, s') => Some (s', k a) | _ => None end).

(** With the mutex of a peer: call its tunnel, and look up whether the peer may
    use the address of what comes out. *)
Definition call_and_check (peer : nat) (m : M WireGuardError (Tunn * world) TunnResult) :
    M Error dstate (TunnResult * bool) :=
  r ← call_tunnel peer m;
  match r with
  | WriteToTunnelV4 _ addr => allowed ← peer_gets peer (is_allowed_ip (V4 addr)); mret (r, allowed)
  | WriteToTunnelV6 _ addr => allowed ← peer_gets peer (is_allowed_ip (V6 addr)); mret (r, allowed)
  | r => mret (r, true)
  end.

(** The flush takes the mutex for each packet. *)
Fixpoint flush_prog (turns : nat) (peer : nat) (send : bytes → syscall) (dst : bytes) (k : DP) : DP :=
  match turns with
  | O => k
  | S turns =>
    atomically (call_tunnel peer (decapsulate None [] dst)) (λ r,
      match r with
      | WriteToNetwork packet =>
        atomically (d_sys (sys_ (send packet))) (λ _, flush_prog turns peer send dst k)
      | _ => k
      end)
  end.

Definition act_prog (turns : nat) (peer : nat) (send : bytes → syscall) (dst : bytes) (r : TunnResult)
    (allowed : bool) (k : DP) : DP :=
  match r with
  | TDone | TErr _ => k
  | WriteToNetwork packet =>
    atomically (d_sys (sys_ (send packet))) (λ _, flush_prog turns peer send dst k)
  | WriteToTunnelV4 packet _ => if allowed then atomically (d_sys (sys_ (Write4 packet))) (λ _, k) else k
  | WriteToTunnelV6 packet _ => if allowed then atomically (d_sys (sys_ (Write6 packet))) (λ _, k) else k
  end.

(** One datagram; it goes on at [again] or, if it counts, at [counted]. *)
Definition datagram_prog (turns : nat) (udp : Z) (keys : bytes * bytes) (rate_limiter : nat) (dst packet : bytes)
    (addr : SocketAddr) (again counted : DP) : DP :=
  atomically (on_device_limiter rate_limiter (verify_packet (Some (sock_ip addr)) packet dst)) (λ v,
    match v with
    | Err (WriteToNetwork cookie) => atomically (d_sys (sys_ (SendTo udp cookie addr))) (λ _, again)
    | Err _ => again
    | Ok parsed_packet =>
      atomically (d_gets id) (λ d,
        match find_peer keys.1 keys.2 parsed_packet d with
        | None => again
        | Some peer =>
          atomically (call_and_check peer (handle_verified_packet parsed_packet dst)) (λ x,
            match x.1 with
            | TErr _ => again
            | _ => act_prog turns peer (λ p, SendTo udp p addr) dst x.1 x.2
                     (atomically (follow peer addr) (λ _, counted))
            end)
        end)
    end).

Fixpoint udp_prog (turns : nat) (udp : Z) (keys : bytes * bytes) (rate_limiter : nat) (dst : bytes) (iter : nat)
    (pending : list (bytes * SocketAddr)) : DP :=
  match pending with
  | [] => PDone Continue
  | (packet, addr) :: pending =>
    datagram_prog turns udp keys rate_limiter dst packet addr
      (udp_prog turns udp keys rate_limiter dst iter pending)
      (match iter with
       | S (S n) => udp_prog turns udp keys rate_limiter dst (S n) pending
       | _ => PDone Continue
       end)
  end.

Fixpoint conn_prog (turns : nat) (peer : nat) (udp : Z) (peer_addr : IpAddr) (dst : bytes) (iter : nat)
    (pending : list bytes) : DP :=
  match iter, pending with
  | S iter, packet :: pending =>
    atomically (call_and_check peer (decapsulate (Some peer_addr) packet dst)) (λ x,
      act_prog turns peer (SendConn udp) dst x.1 x.2 (conn_prog turns peer udp peer_addr dst iter pending))
  | _, _ => PDone Continue
  end.

Fixpoint iface_prog (u4 u6 mtu : Z) (dst : bytes) (reads : nat → result Error bytes) (todo i : nat) : DP :=
  match todo with
  | O => PDone Continue
  | S todo =>
    atomically (assert_ (mtu <=? Z.of_nat (length dst))) (λ _,
      match reads i with
      | Ok src => atomically (handle_outgoing u4 u6 dst src) (λ _, iface_prog u4 u6 mtu dst reads todo (S i))
      | Err (IfaceRead Interrupted) | Err (IfaceRead WouldBlock) => PDone Continue
      | Err _ => PDone Exit
      end)
  end.

Fixpoint timers_prog (u4 u6 : Z) (dst : bytes) (l : list nat) : DP :=
  match l with
  | [] => PDone Continue
  | peer :: l => atomically (peer_timer u4 u6 dst peer) (λ _, timers_prog u4 u6 dst l)
  end.

(** The handler of an event. *)
Definition event_prog (turns : nat) (dst : bytes) (ev : dev_event) : DP :=
  match ev with
  | EvUdp udp pending =>
    atomically (kp ← d_gets key_pair; keys ← unwrap kp; rl ← d_gets d_rate_limiter; l ← unwrap rl; mret (keys, l))
      (λ x, udp_prog turns udp x.1 x.2 dst MAX_ITR pending)
  | EvConn peer udp addr pending => conn_prog turns peer udp addr dst MAX_ITR pending
  | EvIface mtu reads =>
    atomically (d ← d_gets id; u4 ← unwrap d.(udp4); u6 ← unwrap d.(udp6); mret (u4, u6))
      (λ x, iface_prog x.1 x.2 mtu dst reads MAX_ITR 0)
  | EvReset => atomically reset_timer PDone
  | EvTimers =>
    atomically (d_gets id) (λ d,
      match d.(udp4), d.(udp6) with
      | Some u4, Some u6 => timers_prog u4 u6 dst (values d.(peers))
      | _, _ => PDone Continue
      end)
  end.

(** The [set] command. *)
Definition set_write (lines : list (option bytes)) (s : dstate) : option (dstate * DP) :=
  match api_set lines s with Ret (Ok _, s') => Some (s', PDone Continue) | _ => None end.

Definition set_prog (lines : list (option bytes)) : DP := PWrite (set_write lines).

(** The [get] command: what it writes goes to the connection, not to the
    device. *)
Fixpoint get_prog (l : list (bytes * nat)) : DP :=
  match l with
  | [] => PDone Continue
  | (k, peer) :: l => atomically (peer_report k peer) (λ _, get_prog l)
  end.

Definition command_prog (cmd : bytes) (lines : list (option bytes)) : DP :=
  if decide (cmd = str "get=1") then atomically (d_gets id) (λ d, get_prog (entries d.(peers)))
  else if decide (cmd = str "set=1") then set_prog lines
  else PDone Continue.

(** The handlers of the configuration socket and descriptor. *)
Definition api_prog (conn : option (list (option bytes))) : DP :=
  match conn with
  | None | Some (None :: _) => PDone Continue
  | Some [] => command_prog (str_pop []) []
  | Some (Some cmd :: lines) => command_prog (str_pop cmd) lines
  end.

Definition api_fd_prog (conn : list (option bytes)) : DP :=
  match conn with
  | None :: _ => atomically (d_sys (sys_ TriggerExit)) (λ _, PDone Exit)
  | conn => api_prog (Some conn)
  end.
End Programs.

(** ** A program that runs alone does what the handler does *)

Fixpoint run_alone {T} (p : prog T) (d : T) : option (T * Action) :=
  match p with
  | PDone a => Some (d, a)
  | PSect m | PWrite m => match m d with Some (d', p) => run_alone p d' | None => None end
  end.

Section Alone.
Context `{Crypto, NetTable, HashOrder}.

(** Run [m], and go on with its value. *)
Definition ends {A B} (m : M Error dstate A) (k : A → dstate → option B) (s : dstate) : option B :=
  match m s with Ret (Ok a, s') => k a s' | _ => None end.

Lemma run_atomically {A} (m : M Error dstate A) k s :
  run_alone (atomically m k) s = ends m (λ a, run_alone (k a)) s.
Proof. unfold ends, atomically. cbn. by destruct (m s) as [[[a|e] s']|]. Qed.

Lemma ends_bind {A B C} (m : M Error dstate A) (f : A → M Error dstate B) (k : B → dstate → option C) s :
  ends (m ≫= f) k s = ends m (λ a, ends (f a) k) s.
Proof. unfold ends, mbind, M_bind. by destruct (m s) as [[[a|e] s']|]. Qed.

Lemma ends_ext {A B} (m : M Error dstate A) (k k' : A → dstate → option B) s :
  (∀ a s', k a s' = k' a s') → ends m k s = ends m k' s.
Proof. intros Hk. unfold ends. destruct (m s) as [[[a|e] s']|]; auto. Qed.

Lemma flush_alone n peer send dst k s :
  run_alone (flush_prog n peer send dst k) s = ends (flush n peer send dst) (λ _, run_alone k) s.
Proof.
  revert s. induction n as [|n IH]; intros s; [done|]. cbn [flush_prog flush]. rewrite run_atomically, ends_bind.
  apply ends_ext. intros r s1. destruct r; try done. rewrite run_atomically, ends_bind. apply ends_ext. intros _ s2. apply IH.
Qed.

Lemma check_alone {B} peer m (k : TunnResult * bool → dstate → option B) s :
  ends (call_and_check peer m) k s = ends (call_tunnel peer m) (λ r, ends (match r with
    | WriteToTunnelV4 _ addr => allowed ← peer_gets peer (is_allowed_ip (V4 addr)); mret (r, allowed)
    | WriteToTunnelV6 _ addr => allowed ← peer_gets peer (is_allowed_ip (V6 addr)); mret (r, allowed)
    | r => mret (r, true)
    end) k) s.
Proof. apply ends_bind. Qed.

(** The answer of the tunnel and what is done with it. *)
Lemma act_alone peer send dst k r s :
  ends (match r with
    | WriteToTunnelV4 _ addr => allowed ← peer_gets peer (is_allowed_ip (V4 addr)); mret (r, allowed)
    | WriteToTunnelV6 _ addr => allowed ← peer_gets peer (is_allowed_ip (V6 addr)); mret (r, allowed)
    | r => mret (r, true)
    end) (λ x, run_alone (act_prog FLUSH_TURNS peer send dst x.1 x.2 k)) s =
  ends (act_on peer send dst r) (λ _, run_alone k) s.
Proof.
  destruct r as [|e|packet|packet addr|packet addr]; try done; cbn [act_on].
  - etransitivity; [apply run_atomically|]. rewrite ends_bind. apply ends_ext. intros _ s1.
    rewrite flush_alone, ends_bind. by apply ends_ext.
  - rewrite !ends_bind. apply ends_ext. intros [] s1; [|done]. cbn. apply run_atomically.
  - rewrite !ends_bind. apply ends_ext. intros [] s1; [|done]. cbn. apply run_atomically.
Qed.

Lemma datagram_alone udp keys l dst packet addr again counted s :
  run_alone (datagram_prog FLUSH_TURNS udp keys l dst packet addr again counted) s =
  ends (handle_datagram udp keys l dst packet addr) (λ b, run_alone (if b : bool then counted else again)) s.
Proof.
  unfold datagram_prog, handle_datagram. rewrite run_atomically, ends_bind. apply ends_ext. intros [p|e] s1.
  2:{ destruct e; try done. rewrite run_atomically, ends_bind. by apply ends_ext. }
  rewrite run_atomically, ends_bind. apply ends_ext. intros d s2. destruct (find_peer _ _ _ _) as [peer|]; [|done].
  rewrite run_atomically, check_alone, ends_bind. apply ends_ext. intros r s3.
  set (go := atomically (follow peer addr) (λ _, counted)).
  assert (Hgo : ∀ s, ends (act_on peer (λ p, SendTo udp p addr) dst r) (λ _, run_alone go) s =
    ends (_ ← act_on peer (λ p, SendTo udp p addr) dst r; _ ← follow peer addr; mret true)
      (λ b, run_alone (if b : bool then counted else again)) s).
  { intros s'. rewrite ends_bind. apply ends_ext. intros _ s4. rewrite ends_bind. apply run_atomically. }
  destruct r as [|e|q|q a|q a]; try done.
  all: rewrite <- Hgo, <- act_alone, ?ends_bind; try done; apply ends_ext; by intros b s4.
Qed.

Lemma udp_alone udp keys l dst iter pending s :
  run_alone (udp_prog FLUSH_TURNS udp keys l dst iter pending) s =
  ends (udp_loop udp keys l dst iter pending) (λ _ s', Some (s', Continue)) s.
Proof.
  revert iter s. induction pending as [|[packet addr] pending IH]; intros iter s; [done|].
  cbn [udp_prog udp_loop]. rewrite datagram_alone, ends_bind. apply ends_ext. intros [] s1; [|apply IH].
  destruct iter as [|[|n]]; [done|done|apply IH].
Qed.

Lemma conn_alone peer udp addr dst iter pending s :
  run_alone (conn_prog FLUSH_TURNS peer udp addr dst iter pending) s =
  ends (conn_loop peer udp addr dst iter pending) (λ _ s', Some (s', Continue)) s.
Proof.
  revert iter s. induction pending as [|packet pending IH]; intros [|iter] s; try done. cbn [conn_prog conn_loop].
  unfold handle_connected. rewrite run_atomically, check_alone, !ends_bind. apply ends_ext. intros r s1.
  rewrite act_alone. apply ends_ext. intros _ s2. apply IH.
Qed.

Lemma iface_alone u4 u6 mtu dst reads todo i s :
  run_alone (iface_prog u4 u6 mtu dst reads todo i) s = ends (iface_loop u4 u6 mtu dst reads todo i) (λ a s', Some (s', a)) s.
Proof.
  revert i s. induction todo as [|todo IH]; intros i s; [done|]. cbn [iface_prog iface_loop].
  rewrite run_atomically, ends_bind. apply ends_ext. intros [] s0. destruct (reads i) as [src|e]; [|by destruct e as [| | | | | | | | | | | |[]| |]].
  rewrite run_atomically, ends_bind. apply ends_ext. intros _ s1. apply IH.
Qed.

Lemma timers_alone u4 u6 dst l s :
  run_alone (timers_prog u4 u6 dst l) s = ends (for_each l (peer_timer u4 u6 dst)) (λ _ s', Some (s', Continue)) s.
Proof.
  revert s. induction l as [|peer l IH]; intros s; [done|]. cbn [timers_prog for_each].
  rewrite run_atomically, ends_bind. apply ends_ext. intros _ s1. apply IH.
Qed.

(** What each handler of an event gives the loop. *)
Definition event_action (dst : bytes) (ev : dev_event) : M Error dstate Action :=
  match ev with
  | EvUdp udp pending => _ ← udp_handler udp dst pending; mret Continue
  | EvConn peer udp addr pending => _ ← conn_handler peer udp addr dst pending; mret Continue
  | EvIface mtu reads => iface_handler mtu dst reads
  | EvReset => reset_timer
  | EvTimers => peers_timer dst
  end.

Lemma event_alone dst ev s :
  run_alone (event_prog FLUSH_TURNS dst ev) s = ends (event_action dst ev) (λ a s', Some (s', a)) s.
Proof.
  destruct ev as [udp pending|peer udp addr pending|mtu reads| |]; cbn [event_prog event_action].
  - unfold udp_handler. rewrite run_atomically, !ends_bind. apply ends_ext. intros kp s1. rewrite !ends_bind.
    apply ends_ext. intros keys s2. rewrite !ends_bind. apply ends_ext. intros rl s3. rewrite !ends_bind.
    apply ends_ext. intros l s4. apply udp_alone.
  - unfold conn_handler. rewrite ends_bind. apply conn_alone.
  - unfold iface_handler. rewrite run_atomically, !ends_bind. apply ends_ext. intros d s1. rewrite !ends_bind.
    apply ends_ext. intros u4 s2. rewrite !ends_bind. apply ends_ext. intros u6 s3. apply iface_alone.
  - apply run_atomically.
  - unfold peers_timer. rewrite run_atomically, ends_bind. apply ends_ext. intros d s1.
    destruct (udp4 d) as [u4|]; [|done]. destruct (udp6 d) as [u6|]; [|done]. rewrite ends_bind. apply timers_alone.
Qed.

Lemma get_alone `{Base64, Hex} l s :
  run_alone (get_prog l) s = ends (peers_lines l) (λ _ s', Some (s', Continue)) s.
Proof.
  revert s. induction l as [|[k r] l IH]; intros s; [done|]. cbn [get_prog peers_lines].
  rewrite run_atomically, ends_bind. apply ends_ext. intros report s1. rewrite IH, ends_bind. by apply ends_ext.
Qed.

Lemma command_alone `{Base64, Hex} cmd lines s :
  run_alone (command_prog cmd lines) s = ends (api_command cmd lines) (λ _ s', Some (s', Continue)) s.
Proof.
  unfold command_prog, api_command, api_get. rewrite ends_bind. case_decide; [|case_decide; [|done]].
  - rewrite run_atomically, !ends_bind. apply ends_ext. intros d s1. rewrite get_alone, ends_bind. by apply ends_ext.
  - cbn. unfold set_write. rewrite ends_bind. unfold ends. by destruct (api_set lines s) as [[[status|e] s1]|].
Qed.

Lemma api_alone `{Base64, Hex} conn s :
  run_alone (api_prog conn) s = ends (api_handler conn) (λ x s', Some (s', x.2)) s.
Proof.
  destruct conn as [[|[cmd|] lines]|]; cbn [api_prog api_handler]; try done; rewrite command_alone, ends_bind; by apply ends_ext.
Qed.

Lemma api_fd_alone `{Base64, Hex} conn s :
  run_alone (api_fd_prog conn) s = ends (api_fd_handler conn) (λ x s', Some (s', x.2)) s.
Proof.
  destruct conn as [|[cmd|] lines]; cbn [api_fd_prog api_fd_handler api_prog];
    rewrite ?run_atomically, ?command_alone, ends_bind; by apply ends_ext.
Qed.
End Alone.

(** ** Safety among the other threads *)

Section Among.
Context `{CryptoLaws, NetTableLaws, HashOrder, Base64} (buf : nat) (excuse : prog dstate → dstate → Prop).

(** What a section does to the others. *)
Definition interferes (s s' : dstate) : Prop := device_ok buf s → settled buf s s'.

#[local] Instance interferes_preorder : PreOrder interferes.
Proof.
  split; [intros s Hs; by apply settled_refl|]. intros s1 s2 s3 H12 H23 Hok. specialize (H12 Hok).
  eapply settled_trans; [exact H12|]. by apply H23, H12.
Qed.

Abbreviation among := (csafe (device_ok buf) interferes excuse).

(** A section that is safe wherever the others may have brought the device. *)
Lemma among_atomically {A} (P : A → Prop) m k s :
  device_ok buf s → (∀ s1, settled buf s s1 → safe buf P m s1) →
  (∀ a s2, settled buf s s2 → P a → among (k a) s2) → among (atomically m k) s.
Proof.
  intros Hok Hm Hk s1 Hs1. specialize (Hs1 Hok). destruct (wp_elim _ _ _ (Hm s1 Hs1)) as (r & s2 & Hr & Hs2 & a & -> & Ha).
  rewrite Hr. split; [by intros _|]. apply Hk; [by eapply settled_trans|done].
Qed.

Lemma among_sys c k s :
  device_ok buf s → (∀ s', settled buf s s' → among k s') → among (atomically (d_sys (sys_ c)) (λ _, k)) s.
Proof.
  intros Hok Hk. apply (among_atomically (λ _, True)); [done| |by auto]. intros s1 Hs1. apply safe_sys_, Hs1.
Qed.

Lemma flush_among n peer p send dst k s :
  device_ok buf s → s.(heap) !! peer = Some p → (buf ≤ length dst)%nat → (COOKIE_REPLY_SZ ≤ length dst)%nat →
  (∀ s', settled buf s s' → among k s') → among (flush_prog n peer send dst k) s.
Proof.
  intros Hs Hp Hb Hc. revert s p Hs Hp. induction n as [|n IH]; intros s p Hs Hp Hk; cbn [flush_prog];
    [by apply Hk, settled_refl|].
  apply (among_atomically (λ _, True)); [done| |].
  - intros s1 Hs1. destruct (settled_peer _ _ _ _ _ Hs1 Hp) as (p1 & Hp1 & _).
    apply (safe_call_tunnel _ _ peer p1); [apply Hs1|done|apply decapsulate_frame|done|].
    apply decapsulate_safe; [apply (do_tunnels _ _ (se_ok _ _ _ Hs1) _ _ Hp1)|done|cbn; lia|done].
  - intros r s1 Hs1 _. pose proof (se_ok _ _ _ Hs1) as Hok1. destruct r; try by apply Hk.
    apply among_sys; [done|]. intros s2 Hs2.
    assert (H02 : settled buf s s2) by (by eapply settled_trans). destruct (settled_peer _ _ _ _ _ H02 Hp) as (p2 & Hp2 & _).
    apply (IH s2 p2); [apply Hs2|done|]. intros s3 Hs3. apply Hk. by eapply settled_trans.
Qed.

Lemma act_among n peer p send dst r allowed k s :
  device_ok buf s → s.(heap) !! peer = Some p → (buf ≤ length dst)%nat → (COOKIE_REPLY_SZ ≤ length dst)%nat →
  (∀ s', settled buf s s' → among k s') → among (act_prog n peer send dst r allowed k) s.
Proof.
  intros Hs Hp Hb Hc Hk. destruct r; cbn [act_prog]; try (by apply Hk, settled_refl).
  - apply among_sys; [done|]. intros s1 Hs1. destruct (settled_peer _ _ _ _ _ Hs1 Hp) as (p1 & Hp1 & _).
    apply (flush_among n peer p1); [apply Hs1|done..|]. intros s2 Hs2. apply Hk. by eapply settled_trans.
  - destruct allowed; [by apply among_sys|by apply Hk, settled_refl].
  - destruct allowed; [by apply among_sys|by apply Hk, settled_refl].
Qed.

(** A call of the tunnel of a peer, and the look at its addresses. *)
Lemma check_safe peer p m s :
  device_ok buf s → s.(heap) !! peer = Some p → preserves tunn_frame m →
  wp m (λ r s', tunn_inv buf p.(p_index) s' ∧ ∃ x, r = Ok x) (p.(tunnel), s.(dworld)) →
  safe buf (λ _, True) (call_and_check peer m) s.
Proof.
  intros Hs Hp Hf Hm. unfold call_and_check. eapply (safe_bind _ (λ _, True)).
  { by apply (safe_call_tunnel _ _ peer p). }
  intros r s1 Hs1 _. pose proof (se_ok _ _ _ Hs1) as Hok. destruct (settled_peer _ _ _ _ _ Hs1 Hp) as (p1 & Hp1 & _).
  destruct r; try (by apply safe_ret); (eapply safe_bind; [by apply (safe_peer_gets _ peer p1)|]);
    intros b s2 Hs2 _; apply safe_ret; [apply Hs2|done|apply Hs2|done].
Qed.

Lemma verify_safe l dst packet addr s :
  device_ok buf s → is_Some (s.(dworld).(w_limiters) !! l) → (COOKIE_REPLY_SZ ≤ length dst)%nat →
  safe buf (λ r, match r with Ok p => parse_incoming_packet packet = Ok p | Err _ => True end)
    (on_device_limiter l (verify_packet addr packet dst)) s.
Proof.
  intros Hs Hl Hc. apply on_device_limiter_safe; [done|done|]. intros rl.
  eapply wp_mono; [by apply verify_packet_wp|]. intros r [rl' e'] (_ & He & Hr). split; [done|]. by destruct r.
Qed.

Lemma datagram_among n udp keys l dst packet addr again counted s :
  device_ok buf s → is_Some (s.(dworld).(w_limiters) !! l) → (buf ≤ length dst)%nat →
  (COOKIE_REPLY_SZ ≤ length dst)%nat → (length packet ≤ length dst)%nat →
  (∀ s', settled buf s s' → among again s') → (∀ s', settled buf s s' → among counted s') →
  among (datagram_prog n udp keys l dst packet addr again counted) s.
Proof.
  intros Hs Hl Hb Hc Hlen Hag Hco. unfold datagram_prog. eapply among_atomically; [done| |].
  { intros s1 Hs1. apply verify_safe; [apply Hs1|by apply (settled_limiter buf s)|done]. }
  intros [p|e] s1 Hs1 Hpk; pose proof (se_ok _ _ _ Hs1) as Hok1.
  2:{ destruct e; try by apply Hag. apply among_sys; [done|]. intros s2 Hs2. apply Hag. by eapply settled_trans. }
  apply (among_atomically (λ d, d = s1.(dev))); [done| |].
  { intros s2 Hs2. rewrite <- (se_dev _ _ _ Hs2). apply (safe_d_gets _ id), Hs2. }
  intros d s2 Hs2 ->. pose proof (se_ok _ _ _ Hs2) as Hok2. assert (H02 : settled buf s s2) by (by eapply settled_trans).
  rewrite <- (se_dev _ _ _ Hs2). destruct (find_peer _ _ _ _) as [peer|] eqn:Hf; [|by apply Hag].
  destruct (find_peer_there _ _ _ _ _ _ Hok2 Hf) as [q Hq].
  destruct (parse_sound _ _ Hpk) as (Hwf & macs & Hm & ->). rewrite length_encode in Hlen by done.
  apply (among_atomically (λ _, True)); [done| |].
  { intros s3 Hs3. destruct (settled_peer _ _ _ _ _ Hs3 Hq) as (q3 & Hq3 & _).
    apply (check_safe peer q3); [apply Hs3|done|apply verified_frame|].
    apply handle_verified_safe; [apply (do_tunnels _ _ (se_ok _ _ _ Hs3) _ _ Hq3)|done|unfold COOKIE_REPLY_SZ, DATA_OVERHEAD_SZ in *; lia|].
    destruct p; try done. lia. }
  intros [r allowed] s3 Hs3 _. assert (H03 : settled buf s s3) by (by eapply settled_trans).
  destruct (settled_peer _ _ _ _ _ Hs3 Hq) as (q3 & Hq3 & _). cbn [fst snd].
  assert (Hgo : among (act_prog n peer (λ p, SendTo udp p addr) dst r allowed (atomically (follow peer addr) (λ _, counted))) s3).
  { apply (act_among n peer q3); [apply Hs3|done..|]. intros s4 Hs4. apply (among_atomically (λ _, True)); [apply Hs4| |].
    - intros s5 Hs5. destruct (settled_peer _ _ _ _ _ (settled_trans _ _ _ _ Hs4 Hs5) Hq3) as (q5 & Hq5 & _).
      apply (follow_safe _ peer q5); [apply Hs5|done].
    - intros _ s5 Hs5 _. apply Hco. eapply settled_trans; [exact H03|]. by eapply settled_trans. }
  destruct r; try exact Hgo. by apply Hag.
Qed.

Lemma udp_among n udp keys l dst iter pending s :
  device_ok buf s → is_Some (s.(dworld).(w_limiters) !! l) → (buf ≤ length dst)%nat →
  (COOKIE_REPLY_SZ ≤ length dst)%nat → Forall (λ d, length d.1 ≤ length dst)%nat pending →
  among (udp_prog n udp keys l dst iter pending) s.
Proof.
  intros Hs Hl Hb Hc Hp. revert iter s Hs Hl. induction Hp as [|[packet addr] pending Hd Hp IH]; intros iter s Hs Hl;
    cbn [udp_prog]; [done|].
  apply datagram_among; try done; intros s1 Hs1; pose proof (settled_limiter _ _ _ _ Hs1 Hl).
  - apply IH; [apply Hs1|done].
  - destruct iter as [|[|k]]; [done|done|]. apply IH; [apply Hs1|done].
Qed.

Lemma conn_among n peer p udp addr dst iter pending s :
  device_ok buf s → s.(heap) !! peer = Some p → (buf ≤ length dst)%nat → (COOKIE_REPLY_SZ ≤ length dst)%nat →
  Forall (λ d, length d ≤ length dst)%nat pending → among (conn_prog n peer udp addr dst iter pending) s.
Proof.
  intros Hs Hp Hb Hc Hl. revert iter s p Hs Hp. induction Hl as [|packet pending Hd Hl IH]; intros [|iter] s p Hs Hp;
    cbn [conn_prog]; try done.
  apply (among_atomically (λ _, True)); [done| |].
  - intros s1 Hs1. destruct (settled_peer _ _ _ _ _ Hs1 Hp) as (p1 & Hp1 & _).
    apply (check_safe peer p1); [apply Hs1|done|apply decapsulate_frame|].
    apply decapsulate_safe; [apply (do_tunnels _ _ (se_ok _ _ _ Hs1) _ _ Hp1)|done..].
  - intros [r allowed] s1 Hs1 _. destruct (settled_peer _ _ _ _ _ Hs1 Hp) as (p1 & Hp1 & _). cbn [fst snd].
    apply (act_among n peer p1); [apply Hs1|done..|]. intros s2 Hs2.
    destruct (settled_peer _ _ _ _ _ Hs2 Hp1) as (p2 & Hp2 & _). apply (IH iter s2 p2); [apply Hs2|done].
Qed.

Lemma iface_among u4 u6 mtu dst reads todo i s :
  device_ok buf s → (buf ≤ length dst)%nat → mtu ≤ Z.of_nat (length dst) → (∀ n src, reads n = Ok src → length src + DATA_OVERHEAD_SZ ≤ buf)%nat →
  among (iface_prog u4 u6 mtu dst reads todo i) s.
Proof.
  intros Hs Hb Hm%Z.leb_le Hr. revert i s Hs. induction todo as [|todo IH]; intros i s Hs; cbn [iface_prog]; [done|].
  apply (among_atomically (λ _, True)); [done|intros s1 Hs1; rewrite Hm; apply safe_ret; [apply Hs1|done]|].
  intros [] s0 Hs0 _. pose proof (se_ok _ _ _ Hs0) as Hok0. destruct (reads i) as [src|e] eqn:He; [|by repeat case_match].
  apply (among_atomically (λ _, True)); [done| |intros _ s1 Hs1 _; apply IH, Hs1].
  intros s1 Hs1. apply handle_outgoing_safe; [apply Hs1|by eapply Hr|done].
Qed.

Lemma timers_among u4 u6 dst l s :
  device_ok buf s → (∀ r, r ∈ l → is_Some (s.(heap) !! r)) → (DATA_OVERHEAD_SZ ≤ length dst)%nat →
  (DATA_OVERHEAD_SZ ≤ buf)%nat → among (timers_prog u4 u6 dst l) s.
Proof.
  intros Hs Hl Hd Hb. revert s Hs Hl. induction l as [|r l IH]; intros s Hs Hl; cbn [timers_prog]; [done|].
  assert (Hthere : ∀ s', settled buf s s' → ∀ q, q ∈ r :: l → is_Some (s'.(heap) !! q)).
  { intros s' Hs' q [p Hp]%Hl. destruct (settled_peer _ _ _ _ _ Hs' Hp) as (p' & Hp' & _). eauto. }
  apply (among_atomically (λ _, True)); [done| |].
  - intros s1 Hs1. destruct (Hthere s1 Hs1 r) as [p Hp]; [left|]. apply (peer_timer_safe _ _ _ _ r p); [apply Hs1|done..].
  - intros _ s1 Hs1 _. apply IH; [apply Hs1|]. intros q Hq. apply (Hthere s1 Hs1). by right.
Qed.
End Among.

Section Workers.
Context `{CryptoLaws, NetTableLaws, HashOrder, Base64, Hex} (turns : nat) (dst : bytes).

(** The excuses: the handler of an event that lacks a key or a socket, and a
    [set] command that does not come to its end. *)
Definition may_panic (p : prog dstate) (d : dstate) : Prop :=
  (∃ ev, p = event_prog turns dst ev ∧ event_unready d ev) ∨
  (∃ lines, p = set_prog lines ∧ ∀ status d', api_set lines d ≠ Ret (Ok status, d')).

Abbreviation among := (csafe (device_ok (length dst)) (interferes (length dst)) may_panic).

Lemma unready_among ev s : device_ok (length dst) s → event_unready s ev → among (event_prog turns dst ev) s.
Proof.
  intros Hs Hu. destruct ev as [udp pending|peer udp addr pending|mtu reads| |]; try done.
  - intros s1 Hs1. pose proof (se_dev _ _ _ (Hs1 Hs)) as Hd. cbn in Hu. rewrite <- Hd in Hu.
    unfold mbind, M_bind. cbn. rewrite Hu. left. exists (EvUdp udp pending). split; [|done]. reflexivity.
  - intros s1 Hs1. pose proof (se_dev _ _ _ (Hs1 Hs)) as Hd. cbn in Hu. rewrite <- Hd in Hu.
    assert (Hn : (d ← d_gets id; u4 ← unwrap d.(udp4); u6 ← unwrap d.(udp6); mret (u4, u6)) s1 = Panic :> outcome (result Error (Z * Z) * dstate)).
    { unfold mbind, M_bind. cbn. destruct (udp4 _) as [u4|]; [|done]. cbn. destruct (udp6 _) as [u6|]; [|done]. by destruct Hu. }
    rewrite Hn. left. by exists (EvIface mtu reads).
Qed.

Lemma event_among ev s :
  device_ok (length dst) s → (HANDSHAKE_INIT_SZ ≤ length dst)%nat → event_fits dst s ev →
  among (event_prog turns dst ev) s.
Proof.
  unfold HANDSHAKE_INIT_SZ. intros Hs Hd Hev.
  destruct (event_unready_dec s ev) as [Hu|Hu]; [by apply unready_among|].
  assert (Hc : (COOKIE_REPLY_SZ ≤ length dst)%nat) by (unfold COOKIE_REPLY_SZ; lia).
  assert (Ho : (DATA_OVERHEAD_SZ ≤ length dst)%nat) by (unfold DATA_OVERHEAD_SZ; lia).
  destruct ev as [udp pending|peer udp addr pending|mtu reads| |]; cbn [event_prog event_fits event_unready] in *.
  - destruct (key_pair (dev s)) as [kp|] eqn:Hkp; [|done]. destruct (do_key _ _ Hs (ex_intro _ kp Hkp)) as [l Hl].
    apply (among_atomically _ _ (λ x, x = (kp, l))); [done| |].
    + intros s1 Hs1. unfold safe, wp, mbind, M_bind. cbn. rewrite (se_dev _ _ _ Hs1), Hkp. cbn.
      rewrite (se_dev _ _ _ Hs1), Hl. split; [apply settled_refl, Hs1|eauto].
    + intros x s1 Hs1 ->. apply udp_among; [apply Hs1| |done..]. apply (do_limiter _ _ (se_ok _ _ _ Hs1)).
      by rewrite (se_dev _ _ _ Hs1).
  - destruct Hev as [[p Hp] Hl]. by apply (conn_among _ _ _ peer p).
  - destruct Hev as [Hm Hr]. destruct (udp4 (dev s)) as [u4|] eqn:H4'; [|tauto]. destruct (udp6 (dev s)) as [u6|] eqn:H6; [|tauto].
    apply (among_atomically _ _ (λ x, x = (u4, u6))); [done| |].
    + intros s1 Hs1. unfold safe, wp, mbind, M_bind. cbn. rewrite (se_dev _ _ _ Hs1), H4'. cbn. rewrite H6.
      split; [apply settled_refl, Hs1|eauto].
    + intros x s1 Hs1 ->. apply iface_among; [apply Hs1|done|lia|]. intros k src Hk%Hr. lia.
  - apply (among_atomically _ _ (λ _, True)); [done| |done]. intros s1 Hs1. apply reset_timer_safe, Hs1.
  - apply (among_atomically _ _ (λ d, d = s.(dev))); [done| |].
    + intros s1 Hs1. rewrite <- (se_dev _ _ _ Hs1). apply (safe_d_gets _ id), Hs1.
    + intros d s1 Hs1 ->. rewrite <- (se_dev _ _ _ Hs1). pose proof (se_ok _ _ _ Hs1) as Hok.
      destruct (udp4 _) as [u4|]; [|done]. destruct (udp6 _) as [u6|]; [|done].
      apply timers_among; [done| |done..]. intros r Hr. destruct (values_there _ _ _ Hok Hr) as [p Hp]. eauto.
Qed.

Lemma set_among lines s : among (set_prog lines) s.
Proof.
  cbn. intros s1 Hs1. destruct (set_write lines s1) as [[s2 p]|] eqn:Hw.
  - revert Hw. unfold set_write. destruct (api_set lines s1) as [[[status|e] s3]|] eqn:Hr; try done. intros [= <- <-]. split; [|done].
    assert (PreOrder (λ s s', device_ok (length dst) s → device_ok (length dst) s')) by (split; [by intros ??|]; intros ???; auto).
    revert Hr Hs1. apply (api_set_kept (λ s s', device_ok (length dst) s → device_ok (length dst) s')).
    intros op s4 r s5 Hc Hs4. by eapply configure_ok.
  - right. exists lines. split; [done|]. intros status d' Hr. unfold set_write in Hw. by rewrite Hr in Hw.
Qed.

Lemma get_among l s :
  device_ok (length dst) s → (∀ k r, (k, r) ∈ l → is_Some (s.(heap) !! r)) → among (get_prog l) s.
Proof.
  revert s. induction l as [|[k r] l IH]; intros s Hs Hl; [done|]. cbn [get_prog].
  destruct (Hl k r) as [p Hp]; [by left|]. apply (among_atomically _ _ (λ _, True)); [done| |].
  - intros s1 Hs1. destruct (settled_peer _ _ _ _ _ Hs1 Hp) as (p1 & Hp1 & _).
    apply (peer_report_safe _ _ _ p1); [apply Hs1|done].
  - intros _ s1 Hs1 _. apply IH; [apply Hs1|]. intros k' r' Hin. destruct (Hl k' r') as [q Hq]; [by right|].
    destruct (settled_peer _ _ _ _ _ Hs1 Hq) as (q1 & Hq1 & _). eauto.
Qed.

Lemma command_among cmd lines s : device_ok (length dst) s → among (command_prog cmd lines) s.
Proof.
  intros Hs. unfold command_prog. case_decide; [|case_decide; [apply set_among|done]].
  apply (among_atomically _ _ (λ d, d = s.(dev))); [done| |].
  - intros s1 Hs1. rewrite <- (se_dev _ _ _ Hs1). apply (safe_d_gets _ id), Hs1.
  - intros d s1 Hs1 ->. rewrite <- (se_dev _ _ _ Hs1). apply get_among; [apply Hs1|]. intros k r Hin.
    destruct (values_there _ _ r (se_ok _ _ _ Hs1)) as [p Hp]; [|eauto].
    unfold values. apply list_elem_of_fmap. by exists (k, r).
Qed.

Lemma api_among conn s : device_ok (length dst) s → among (api_prog conn) s.
Proof. intros Hs. destruct conn as [[|[cmd|] lines]|]; cbn [api_prog]; try done; by apply command_among. Qed.

Lemma api_fd_among conn s : device_ok (length dst) s → among (api_fd_prog conn) s.
Proof.
  intros Hs. destruct conn as [|[cmd|] lines]; cbn [api_fd_prog]; [by apply api_among|by apply api_among|].
  by apply among_sys.
Qed.

(** What the event queue may start: the handler of an event, of the
    configuration socket or descriptor whatever comes there, or a handler that
    does nothing to the device (a notifier, a signal, the end of the control
    socket). *)
Inductive starts (s : dstate) : prog dstate → Prop :=
| starts_event ev : event_fits dst s ev → starts s (event_prog turns dst ev)
| starts_api conn : starts s (api_prog conn)
| starts_api_fd conn : starts s (api_fd_prog conn)
| starts_action a : starts s (PDone a).


(** C29.  A [set] command can stop a device for good: when a worker reads a
    private key of 64 bytes whose third byte continues a character, it panics
    with the write lock.  In a build of the release profile, where a panic
    aborts, this is the end of the process.  In a build where a panic unwinds,
    from then on no thread has a guard or ever gets one, so no packet and no
    command is handled any more, and dropping the handle of the device does not
    return. *)
Theorem bad_key_stops_device how barging n d0 ls s i key b rest e :
  length key = 64%nat → key !! 2%nat = Some b → 128 ≤ code b < 192 → Forall (λ x, x ≠ equals) key →
  process_run barging how ls (Running (start n d0)) = Some (Running s) →
  s.(threads) !! i = Some (WMut (set_write (Some (str "private_key=" ++ key ++ [newline]) :: rest))) →
  ∃ x, process_step barging how i e (Running s) = Some x ∧
    match how with
    | Abort => x = Aborted
    | Unwind => ∀ ls' x', process_run barging Unwind ls' x = Some x' →
        ∃ s', x' = Running s' ∧ ∀ j p, s'.(threads) !! j = Some p → has_read p = false
    end.
Proof.
  intros Hlen Hb Hc Hk Hr%process_run_run Hi.
  set (s1 := goto i WUnwind (drop_write (cancel_yield s))).
  assert (Hs : step barging i e s = Some s1).
  { unfold step. rewrite Hi. cbn [mbind option_bind step_write]. unfold set_write. by rewrite (set_bad_key_panics key b). }
  assert (Hu : s1.(threads) !! i = Some WUnwind) by (apply list_lookup_insert_eq; by eapply lookup_lt_Some).
  unfold process_step. rewrite Hs. cbn [mbind option_bind]. destruct how; eexists; (split; [reflexivity|]).
  - intros ls' x' (s' & -> & Hr')%unwind_run. exists s'. split; [done|]. intros j p Hp.
    eapply (panic_while_writing_blocks barging n d0 (ls ++ [(i, e)]) s1); [|exact Hu|done|exact Hr'|exact Hp].
    rewrite run_app, Hr. cbn. by rewrite Hs.
  - by rewrite Hu.
Qed.
End Workers.

(** ** Witnesses *)

Section WorkerWitnesses.
#[local] Existing Instance toy_crypto.
#[local] Existing Instance toy_laws.
#[local] Existing Instance map_table.
#[local] Existing Instance map_table_laws.
#[local] Existing Instance by_key.
#[local] Existing Instance no_base64.
#[local] Existing Instance lower_hex.

(** The device when it starts listening. *)
Definition listening : dstate :=
  match open_listen_socket 0 test_device with Ret (_, s) => s | Panic => test_device end.

Lemma listening_run : open_listen_socket 0 test_device = Ret (Ok (), listening).
Proof.
  destruct (is_ok_run (open_listen_socket 0 test_device)) as ([] & s & Hr); [by vm_compute|]. unfold listening. by rewrite Hr.
Qed.

(** Schedules with what may start in any state. *)
Lemma run_reach starts ls (s s' : shared dstate) :
  Forall (λ x : nat * poll_event dstate, ∀ p, x.2 = EvRun p → ∀ d, starts d p) ls →
  run fair ls s = Some s' → ∀ s0, reach fair starts s0 s → reach fair starts s0 s'.
Proof.
  intros Hls. revert s. induction Hls as [|[i e] ls Hx _ IH]; intros s; cbn; [by intros [= <-]|].
  destruct (step fair i e s) as [s1|] eqn:Hs; [|done]. intros Hr s0 Hs0. apply (IH s1 Hr).
  eapply reach_step; [exact Hs0| |exact Hs]. intros p Hp. by apply Hx.
Qed.

(** Two workers come to poll; then the one handles the timers while the other
    sets a key. *)
Definition both_poll : list (nat * poll_event dstate) := replicate 12 (0%nat, EvError) ++ replicate 12 (1%nat, EvError).
Definition set_conn : option (list (option bytes)) :=
  Some [Some (str "set=1" ++ [newline]); Some (str "private_key=" ++ to_lower_hex k2 ++ [newline])].
Definition timers_and_set : list (nat * poll_event dstate) :=
  both_poll ++ [(0%nat, EvRun (event_prog 3 (zeros 148) EvTimers));
                (1%nat, EvRun (api_prog set_conn));
                (0%nat, EvError); (1%nat, EvError); (0%nat, EvError); (0%nat, EvRun (event_prog 3 (zeros 148) EvReset))].

Definition goes_through (ls : list (nat * poll_event dstate)) : bool :=
  match run fair ls (start 2 listening) with Some _ => true | None => false end.

Lemma test_new : lfsr_new (MkIndexLfsr 1 1 77) ∧ os_ok test_os.
Proof. split; [by split|by eexists]. Qed.

Lemma timers_and_set_start :
  Forall (λ x : nat * poll_event dstate, ∀ p, x.2 = EvRun p → ∀ d, starts 3 (zeros 148) d p) timers_and_set.
Proof.
  unfold timers_and_set, both_poll. rewrite !Forall_app. split_and!; [by apply Forall_replicate|by apply Forall_replicate|].
  apply Forall_cons. split; [intros p [= <-] d; exact (starts_event 3 (zeros 148) d EvTimers I)|].
  apply Forall_cons. split; [intros p [= <-] d; exact (starts_api 3 (zeros 148) d set_conn)|].
  do 3 (apply Forall_cons; split; [by intros p|]).
  apply Forall_cons. split; [intros p [= <-] d; exact (starts_event 3 (zeros 148) d EvReset I)|]. by apply Forall_nil.
Qed.

Lemma timers_and_set_run : ∃ s, run fair timers_and_set (start 2 listening) = Some s.
Proof.
  assert (Hok : goes_through timers_and_set = true) by (vm_compute; reflexivity). revert Hok. unfold goes_through.
  destruct (run fair timers_and_set (start 2 listening)) as [s|]; [by exists s|discriminate].
Qed.

(** A datagram comes to a worker before a key is set. *)
Definition too_early : list (nat * poll_event dstate) :=
  both_poll ++ [(0%nat, EvRun (event_prog 3 (zeros 148) (EvUdp 7 [])))].

Definition dies (ls : list (nat * poll_event dstate)) (i : nat) : bool :=
  match run fair ls (start 2 listening) ≫= step fair i EvError with
  | Some s => panicking (s.(threads) !! i)
  | None => false
  end.

Lemma too_early_start :
  Forall (λ x : nat * poll_event dstate, ∀ p, x.2 = EvRun p → ∀ d, starts 3 (zeros 148) d p) too_early.
Proof.
  unfold too_early, both_poll. rewrite !Forall_app. split_and!; [by apply Forall_replicate|by apply Forall_replicate|].
  apply Forall_cons. split; [intros p [= <-] d; exact (starts_event 3 (zeros 148) d (EvUdp 7 []) (Forall_nil_2 _))|].
  by apply Forall_nil.
Qed.

Lemma too_early_dies : ∃ s s', run fair too_early (start 2 listening) = Some s ∧
  step fair 0 EvError s = Some s' ∧ panicking (s'.(threads) !! 0%nat) = true.
Proof.
  assert (Hok : dies too_early 0 = true) by (vm_compute; reflexivity). revert Hok. unfold dies.
  destruct (run fair too_early (start 2 listening)) as [s|]; [|discriminate]. cbn [mbind option_bind].
  destruct (step fair 0 EvError s) as [s'|] eqn:Hs; [|discriminate]. intros Hp. by exists s, s'.
Qed.


(** The key of the witness of [key_text_faults], in a command. *)
Definition bad_key : bytes := key_text (byte.of_Z <$> [97; 195; 169]) 61.
Definition bad_lines : list (option bytes) := [Some (str "private_key=" ++ bad_key ++ [newline])].

Lemma bad_key_facts :
  length bad_key = 64%nat ∧ bad_key !! 2%nat = Some (byte.of_Z 169) ∧ 128 ≤ code (byte.of_Z 169) < 192 ∧
  Forall (λ x, x ≠ equals) bad_key.
Proof.
  split_and!; [reflexivity|reflexivity|by vm_compute|by vm_compute|].
  apply (bool_decide_eq_true_1 (Forall (λ x, x ≠ equals) bad_key)). vm_compute. reflexivity.
Qed.

Lemma bad_key_stops_device_witness :
  ∃ s, (∀ how, process_run fair how (to_write (set_write bad_lines)) (Running (start 2 listening)) = Some (Running s)) ∧
    process_step fair Abort 0 EvError (Running s) = Some Aborted ∧
    ∃ x, process_step fair Unwind 0 EvError (Running s) = Some x ∧
      ∀ ls' x', process_run fair Unwind ls' x = Some x' →
        ∃ s', x' = Running s' ∧ ∀ j p, s'.(threads) !! j = Some p → has_read p = false.
Proof.
  destruct bad_key_facts as (Hl & Hb & Hc & Hk). eexists. split; [intros how; exact (to_write_process how (set_write bad_lines) listening)|].
  destruct (bad_key_stops_device Abort fair 2 listening _ _ 0 bad_key (byte.of_Z 169) [] EvError
    Hl Hb Hc Hk (to_write_process Abort (set_write bad_lines) listening) eq_refl) as (x & Hx & ->). split; [exact Hx|].
  exact (bad_key_stops_device Unwind fair 2 listening _ _ 0 bad_key (byte.of_Z 169) [] EvError
    Hl Hb Hc Hk (to_write_process Unwind (set_write bad_lines) listening) eq_refl).
Defined.
End WorkerWitnesses.
