(* ===== verification/UnitTests.v ===== *)
(** * The unit tests of the program

    The tests of device/allowed_ips.rs, noise/session.rs, noise/handshake.rs and
    noise/mod.rs, over the definitions of this development: an assertion that
    does not hold panics.  The tests of the routing table hold with every table
    that has the laws of [NetTableLaws]; those of the order in which a table is
    walked, which the crate does not promise, are compared without the order.
    The tests of a tunnel are run with the toy functions of [toy_crypto] and a
    clock that only moves when a test moves it. *)

From Stdlib Require Import Strings.Ascii.
From stdpp Require Import strings.
From S2P Require Import Prelude Errors ReplayWindow Time Crypto Packet Session Tai64N Handshake RateLimiter Tunn Lfsr AllowedIps.
From coqutil Require Import Byte.

(** A test passes when it returns. *)
Definition passes {E S A} (test : M E S A) (s : S) : Prop := ∃ a s', test s = Ret (Ok a, s').

Lemma passes_ok {E S A} (test : M E S A) s : is_ok (test s) = true → passes test s.
Proof. exact (is_ok_run (test s)). Qed.

(** ** The routing table *)

Definition v6 (groups : list Z) : IpAddr := V6 (groups ≫= to_be_bytes 2).

Definition entry : Type := AllowedIP * ascii.
Definition net (a : IpAddr) (cidr : Z) (c : ascii) : entry := (MkAllowedIP a cidr, c).

Section RoutingTests.
Context `{NetTable} {E : Type}.

Abbreviation RM := (M E (table ascii)).

Definition inserts (l : list entry) : RM () :=
  for_each l (λ '(ip, data), _ ← ips_insert ip.(ai_addr) ip.(ai_cidr) data; mret ()).

Definition found (q : IpAddr * option ascii) : RM () :=
  map ← get;
  assert_ (bool_decide (find map q.1 = q.2)).

Definition finds (l : list (IpAddr * option ascii)) : RM () := for_each l found.

Definition not_found (c : ascii) (a : IpAddr) : RM () :=
  map ← get;
  assert_ (bool_decide (find map a ≠ Some c)).

Definition start_empty : RM () := modify (λ _, AllowedIps_new).

Definition sample_networks : list entry :=
  [ net (v4 127 0 0 1) 32 "1"; net (v4 45 25 15 1) 30 "6"; net (v4 127 0 15 1) 16 "2"; net (v4 127 1 15 1) 24 "3";
    net (v4 255 1 15 1) 24 "4"; net (v4 60 25 15 1) 32 "5"; net (v6 [553; 0; 0; 1; 0; 0; 0; 0]) 128 "7" ]%char.

Definition build_allowed_ips : RM () :=
  _ ← start_empty;
  inserts sample_networks.

Definition sample_finds : list (IpAddr * option ascii) :=
  [ (v4 127 0 0 1, Some "1"); (v4 127 0 255 255, Some "2"); (v4 127 1 255 255, None); (v4 127 0 255 255, Some "2");
    (v4 127 1 15 255, Some "3"); (v4 127 0 255 255, Some "2"); (v4 127 1 15 255, Some "3"); (v4 255 1 15 2, Some "4");
    (v4 60 25 15 1, Some "5"); (v4 20 0 0 100, None); (v6 [553; 0; 0; 1; 0; 0; 0; 0], Some "7");
    (v6 [553; 0; 0; 1; 0; 0; 0; 1], None); (v4 45 25 15 1, Some "6") ]%char.

Definition test_allowed_ips_insert_find : RM () :=
  _ ← build_allowed_ips;
  finds sample_finds.

(** The next entries of an iteration, and then no more. *)
Definition nexts (expected : list (ascii * IpAddr * Z)) : RM () :=
  map ← get;
  assert_ (bool_decide (ips_iter map ⊆+ expected) && bool_decide (length (ips_iter map) = length expected)).

Definition test_allowed_ips_remove : RM () :=
  _ ← build_allowed_ips;
  _ ← modify (remove (λ c, bool_decide (c = "5" ∨ c = "1" ∨ c = "7")%char));
  nexts [ ("6", v4 45 25 15 0, 30); ("2", v4 127 0 0 0, 16); ("3", v4 127 1 15 0, 24); ("4", v4 255 1 15 0, 24) ]%char.

Definition test_allowed_ips_iter : RM () :=
  _ ← build_allowed_ips;
  nexts [ ("6", v4 45 25 15 0, 30); ("5", v4 60 25 15 1, 32); ("2", v4 127 0 0 0, 16); ("1", v4 127 0 0 1, 32);
    ("3", v4 127 1 15 0, 24); ("4", v4 255 1 15 0, 24); ("7", v6 [553; 0; 0; 1; 0; 0; 0; 0], 128) ]%char.

Definition v4_networks : list entry :=
  [ net (v4 192 168 4 0) 24 "a"; net (v4 192 168 4 4) 32 "b"; net (v4 192 168 0 0) 16 "c"; net (v4 192 95 5 64) 27 "d";
    net (v4 192 95 5 65) 27 "c"; net (v4 0 0 0 0) 0 "e"; net (v4 64 15 112 0) 20 "g"; net (v4 64 15 123 211) 25 "h";
    net (v4 10 0 0 0) 25 "a"; net (v4 10 0 0 128) 25 "b"; net (v4 10 1 0 0) 30 "a"; net (v4 10 1 0 4) 30 "b";
    net (v4 10 1 0 8) 29 "c"; net (v4 10 1 0 16) 29 "d" ]%char.

Definition v4_finds : list (IpAddr * option ascii) :=
  [ (v4 192 168 4 20, Some "a"); (v4 192 168 4 0, Some "a"); (v4 192 168 4 4, Some "b"); (v4 192 168 200 182, Some "c");
    (v4 192 95 5 68, Some "c"); (v4 192 95 5 96, Some "e"); (v4 64 15 116 26, Some "g"); (v4 64 15 127 3, Some "g") ]%char.

Definition v4_hosts : list IpAddr := [v4 1 0 0 0; v4 64 0 0 0; v4 128 0 0 0; v4 192 0 0 0; v4 255 0 0 0].

Definition v4_host_networks : list entry := (λ a, net a 32 "a"%char) <$> v4_hosts.

Definition is_a (c : ascii) : bool := bool_decide (c = "a"%char).

Definition test_allowed_ips_v4_kernel_compatibility : RM () :=
  _ ← start_empty;
  _ ← inserts v4_networks;
  _ ← finds v4_finds;
  _ ← inserts v4_host_networks;
  _ ← finds ((λ a, (a, Some "a"%char)) <$> v4_hosts);
  _ ← modify (remove is_a);
  _ ← for_each v4_hosts (not_found "a"%char);
  _ ← modify ips_clear;
  _ ← inserts [net (v4 192 168 0 0) 16 "a"; net (v4 192 168 0 0) 24 "a"]%char;
  _ ← modify (remove is_a);
  not_found "a"%char (v4 192 168 0 1).

Definition v6_networks : list entry :=
  [ net (v6 [0x2607; 0x5300; 0x6000; 0x6b00; 0; 0; 0xc05f; 0x0543]) 128 "d";
    net (v6 [0x2607; 0x5300; 0x6000; 0x6b00; 0; 0; 0; 0]) 64 "c";
    net (v6 [0; 0; 0; 0; 0; 0; 0; 0]) 0 "e";
    net (v6 [0; 0; 0; 0; 0; 0; 0; 0]) 0 "f";
    net (v6 [0x2404; 0x6800; 0; 0; 0; 0; 0; 0]) 32 "g";
    net (v6 [0x2404; 0x6800; 0x4004; 0x0800; 0xdead; 0xbeef; 0xdead; 0xbeef]) 64 "h";
    net (v6 [0x2404; 0x6800; 0x4004; 0x0800; 0xdead; 0xbeef; 0xdead; 0xbeef]) 128 "a";
    net (v6 [0x2444; 0x6800; 0x40e4; 0x0800; 0xdeae; 0xbeef; 0x0def; 0xbeef]) 128 "c";
    net (v6 [0x2444; 0x6800; 0xf0e4; 0x0800; 0xeeae; 0xbeef; 0; 0]) 98 "b" ]%char.

Definition v6_finds : list (IpAddr * option ascii) :=
  [ (v6 [0x2607; 0x5300; 0x6000; 0x6b00; 0; 0; 0xc05f; 0x0543], Some "d");
    (v6 [0x2607; 0x5300; 0x6000; 0x6b00; 0; 0; 0xc02e; 0x01ee], Some "c");
    (v6 [0x2607; 0x5300; 0x6000; 0x6b01; 0; 0; 0; 0], Some "f");
    (v6 [0x2404; 0x6800; 0x4004; 0x0806; 0; 0; 0; 0x1006], Some "g");
    (v6 [0x2404; 0x6800; 0x4004; 0x0806; 0; 0x1234; 0; 0x5678], Some "g");
    (v6 [0x2404; 0x67ff; 0x4004; 0x0806; 0; 0x1234; 0; 0x5678], Some "f");
    (v6 [0x2404; 0x6801; 0x4004; 0x0806; 0; 0x1234; 0; 0x5678], Some "f");
    (v6 [0x2404; 0x6800; 0x4004; 0x0800; 0; 0x1234; 0; 0x5678], Some "h");
    (v6 [0x2404; 0x6800; 0x4004; 0x0800; 0; 0; 0; 0], Some "h");
    (v6 [0x2404; 0x6800; 0x4004; 0x0800; 0x1010; 0x1010; 0x1010; 0x1010], Some "h");
    (v6 [0x2404; 0x6800; 0x4004; 0x0800; 0xdead; 0xbeef; 0xdead; 0xbeef], Some "a") ]%char.

Definition test_allowed_ips_v6_kernel_compatibility : RM () :=
  _ ← start_empty;
  _ ← inserts v6_networks;
  finds v6_finds.

Definition test_allowed_ips_iter_zero_leaf_bits : RM () :=
  _ ← start_empty;
  _ ← inserts [net (v4 10 111 0 1) 32 "1"; net (v4 10 111 0 2) 32 "2"; net (v4 10 111 0 3) 32 "3"]%char;
  nexts [("1", v4 10 111 0 1, 32); ("2", v4 10 111 0 2, 32); ("3", v4 10 111 0 3, 32)]%char.
End RoutingTests.

(** *** They pass with every lawful table *)

Definition net_wf (e : entry) : bool :=
  (length (ip_bytes e.1.(ai_addr)) =? ip_octets e.1.(ai_addr))%nat && (0 <=? e.1.(ai_cidr)) &&
  (e.1.(ai_cidr) <=? ip_width e.1.(ai_addr)).

Definition answered (l : list entry) (q : IpAddr * option ascii) : bool :=
  (length (ip_bytes q.1) =? ip_octets q.1)%nat && bool_decide (scan q.1 l = q.2).

Section RoutingPasses.
Context `{NetTableLaws} {E : Type}.

Lemma inserts_run t l l' :
  represents t l → forallb net_wf l' = true → ∃ t', inserts (E := E) l' t = Ret (Ok (), t') ∧ represents t' (l ++ l').
Proof.
  intros Ht Hl. apply insert_all_represents; [done|]. apply Forall_forall. intros e He.
  rewrite forallb_forall in Hl.
  specialize (Hl e (proj1 (list_elem_of_In _ _) He)). unfold net_wf in Hl. unfold allowed_wf, ip_wf.
  apply andb_prop in Hl as [[Hw Hlo]%andb_prop Hhi]. apply Nat.eqb_eq in Hw. split; [exact Hw|lia].
Qed.

Lemma finds_run t l qs : represents t l → forallb (answered l) qs = true → finds (E := E) qs t = Ret (Ok (), t).
Proof.
  intros Ht. unfold finds. induction qs as [|q qs IH]; [done|]. cbn [forallb for_each]. intros [Hq Hqs]%andb_prop.
  apply andb_prop in Hq as [Hw Hs]. apply Nat.eqb_eq in Hw. apply bool_decide_eq_true in Hs.
  assert (Hf : found (E := E) q t = Ret (Ok (), t)).
  { unfold found. erewrite bind_ok by reflexivity. rewrite (find_scan t l q.1 Ht Hw), Hs. by rewrite bool_decide_eq_true_2. }
  erewrite bind_ok by exact Hf. by apply IH.
Qed.

Lemma removed_run a t : ip_wf a → not_found (E := E) "a"%char a (remove is_a t) = Ret (Ok (), remove is_a t).
Proof.
  intros Ha. unfold not_found. erewrite bind_ok by reflexivity. rewrite bool_decide_eq_true_2; [done|].
  intros Hf. apply find_remove in Hf; [|done]. by apply bool_decide_eq_false in Hf.
Qed.

Lemma all_removed_run l t : Forall ip_wf l → for_each l (not_found (E := E) "a"%char) (remove is_a t) = Ret (Ok (), remove is_a t).
Proof.
  induction 1 as [|a l Ha _ IH]; [done|]. cbn [for_each]. erewrite bind_ok by (by apply removed_run). exact IH.
Qed.

Lemma insert_find_passes t : passes (E := E) test_allowed_ips_insert_find t.
Proof.
  unfold passes, test_allowed_ips_insert_find, build_allowed_ips. exists ().
  destruct (inserts_run AllowedIps_new [] sample_networks represents_new eq_refl) as (t1 & Hi & Hr).
  exists t1. erewrite bind_ok by (erewrite bind_ok by reflexivity; exact Hi).
  apply (finds_run t1 _ _ Hr). by vm_compute.
Qed.

Lemma v6_kernel_passes t : passes (E := E) test_allowed_ips_v6_kernel_compatibility t.
Proof.
  unfold passes, test_allowed_ips_v6_kernel_compatibility. exists ().
  destruct (inserts_run AllowedIps_new [] v6_networks represents_new eq_refl) as (t1 & Hi & Hr).
  exists t1. erewrite bind_ok by reflexivity. erewrite bind_ok by exact Hi.
  apply (finds_run t1 _ _ Hr). by vm_compute.
Qed.

Lemma v4_kernel_passes t : passes (E := E) test_allowed_ips_v4_kernel_compatibility t.
Proof.
  unfold passes, test_allowed_ips_v4_kernel_compatibility. exists ().
  destruct (inserts_run AllowedIps_new [] v4_networks represents_new eq_refl) as (t1 & Hi1 & Hr1).
  destruct (inserts_run t1 _ v4_host_networks Hr1 eq_refl) as (t2 & Hi2 & Hr2).
  destruct (inserts_run AllowedIps_new [] [net (v4 192 168 0 0) 16 "a"; net (v4 192 168 0 0) 24 "a"]%char represents_new eq_refl)
    as (t3 & Hi3 & _).
  exists (remove is_a t3). erewrite bind_ok by reflexivity. erewrite bind_ok by exact Hi1.
  erewrite bind_ok by (apply (finds_run t1 _ _ Hr1); by vm_compute). erewrite bind_ok by exact Hi2.
  erewrite bind_ok by (apply (finds_run t2 _ _ Hr2); by vm_compute). erewrite bind_ok by reflexivity.
  erewrite bind_ok by (apply all_removed_run; by repeat constructor). erewrite bind_ok by reflexivity.
  erewrite bind_ok by exact Hi3. erewrite bind_ok by reflexivity. by apply removed_run.
Qed.
End RoutingPasses.

Section RoutingRuns.
#[local] Existing Instance map_table.

Lemma iteration_tests_pass :
  passes (E := ()) test_allowed_ips_remove ∅ ∧ passes (E := ()) test_allowed_ips_iter ∅ ∧
  passes (E := ()) test_allowed_ips_iter_zero_leaf_bits ∅.
Proof. split_and!; apply passes_ok; by vm_compute. Qed.
End RoutingRuns.

(** ** The replay window *)

Section ReplayTest.
Import Validator.

Abbreviation VM := (M () ReceivingKeyCounterValidator).

Definition marks (accepted : bool) (counter : Z) : VM () := λ c,
  let '(r, c') := mark_did_receive counter c in
  match r, accepted with Ok _, true | Err _, false => Ret (Ok (), c') | _, _ => Panic end.

(** [mark_did_receive] succeeds, and fails when it is called again. *)
Definition marks_once (counter : Z) : VM () :=
  _ ← marks true counter;
  marks false counter.

Definition will (expected : option WireGuardError) (counter : Z) : VM () :=
  c ← get;
  assert_ (match will_accept counter c, expected with
           | Ok _, None => true
           | Err e, Some e' => bool_decide (e = e')
           | _, _ => false
           end).

(** [a..b] *)
Definition range (a b : Z) : list Z := (λ i, a + Z.of_nat i) <$> seq 0 (Z.to_nat (b - a)).

Definition test_replay_counter : VM () :=
  _ ← for_each [0; 1; 63; 15] marks_once;
  _ ← for_each (range 64 (N_BITS + 128)) marks_once;
  _ ← marks true (N_BITS * 3);
  _ ← for_each (range 0 (N_BITS * 2 + 1)) (λ i, _ ← will (Some InvalidCounter) i; marks false i);
  _ ← for_each (range (N_BITS * 2 + 1) (N_BITS * 3)) (will None);
  _ ← will (Some DuplicateCounter) (N_BITS * 3);
  _ ← for_each (reverse (range (N_BITS * 2 + 1) (N_BITS * 3))) marks_once;
  _ ← for_each [N_BITS * 3 + 70; N_BITS * 3 + 71; N_BITS * 3 + 72; N_BITS * 3 + 72 + 125; N_BITS * 3 + 63] (marks true);
  for_each [N_BITS * 3 + 70; N_BITS * 3 + 71; N_BITS * 3 + 72] (marks false).

Lemma replay_test_passes : passes test_replay_counter default.
Proof. apply passes_ok. by vm_compute. Qed.
End ReplayTest.

(** ** A tunnel *)

Section TunnelTests.
Context `{Crypto}.

Definition symmetric_chacha20_seal_open : bool :=
  let key := zeros 32 in
  let aad := zeros 32 in
  let encrypted_nothing := aead_chacha20_seal key 0 [] aad in
  match aead_chacha20_open key 0 encrypted_nothing aad with Ok _ => true | Err _ => false end.

Lemma seal_open_passes `{!CryptoLaws} : symmetric_chacha20_seal_open = true.
Proof. unfold symmetric_chacha20_seal_open. by rewrite aead_open_seal. Qed.

(** The two ends, [my_tun] and [their_tun]. *)
Record ends := MkEnds { my_tun : Tunn; their_tun : Tunn; around : world }.

Abbreviation EM := (M WireGuardError ends).

Definition mine {A} (m : TM A) : EM A :=
  zoom (λ s, (s.(my_tun), s.(around))) (λ x s, MkEnds x.1 s.(their_tun) x.2) m.
Definition theirs {A} (m : TM A) : EM A :=
  zoom (λ s, (s.(their_tun), s.(around))) (λ x s, MkEnds s.(my_tun) x.1 x.2) m.

Definition create_two_tuns : M WireGuardError world (Tunn * Tunn) :=
  my_secret_key ← zoom w_env with_w_env (fill_bytes 32);
  my_idx ← zoom w_env with_w_env next_u32;
  their_secret_key ← zoom w_env with_w_env (fill_bytes 32);
  their_idx ← zoom w_env with_w_env next_u32;
  my_tun ← Tunn_new my_secret_key (x25519_public their_secret_key) None None my_idx None;
  their_tun ← Tunn_new their_secret_key (x25519_public my_secret_key) None None their_idx None;
  mret (my_tun, their_tun).

(** A test, between two new tunnels. *)
Definition between {A} (test : EM A) : M WireGuardError world A := λ w,
  match create_two_tuns w with
  | Ret (Ok (a, b), w') =>
    match test (MkEnds a b w') with
    | Ret (r, s) => Ret (r, s.(around))
    | Panic => Panic
    end
  | Ret (Err e, w') => Ret (Err e, w')
  | Panic => Panic
  end.

Definition to_network (r : TunnResult) : TM bytes := match r with WriteToNetwork sent => mret sent | _ => panic end.
Definition is_done (r : TunnResult) : TM () := match r with TDone => mret () | _ => panic end.

Definition create_handshake_init : TM bytes :=
  r ← tunn_format_handshake_initiation (zeros 2048) false;
  to_network r.

Definition create_handshake_response (handshake_init : bytes) : TM bytes :=
  r ← decapsulate None handshake_init (zeros 2048);
  to_network r.

Definition parse_handshake_resp (handshake_resp : bytes) : TM bytes :=
  r ← decapsulate None handshake_resp (zeros 2048);
  to_network r.

Definition parse_keepalive (keepalive : bytes) : TM () :=
  r ← decapsulate None keepalive (zeros 2048);
  is_done r.

Definition shake_hands : EM () :=
  init ← mine create_handshake_init;
  resp ← theirs (create_handshake_response init);
  keepalive ← mine (parse_handshake_resp resp);
  theirs (parse_keepalive keepalive).

Definition create_two_tuns_and_handshake {A} (test : EM A) : M WireGuardError world A :=
  between (_ ← shake_hands; test).

Definition is_packet {S} (right : Packet → bool) (data : bytes) : M WireGuardError S () :=
  match parse_incoming_packet data with
  | Ok packet => assert_ (right packet)
  | Err _ => panic
  end.

Definition is_init (p : Packet) : bool := match p with PHandshakeInit _ => true | _ => false end.
Definition is_response (p : Packet) : bool := match p with PHandshakeResponse _ => true | _ => false end.
Definition is_data (p : Packet) : bool := match p with PData _ => true | _ => false end.

Definition timers_done (dst : bytes) : TM () :=
  r ← update_timers dst;
  is_done r.

Definition update_timer_results_in_handshake : TM () :=
  r ← update_timers (zeros 2048);
  packet_data ← to_network r;
  is_packet is_init packet_data.

(** [MockClock::advance] *)
Definition clock_later (d : Duration) (i : Instant) : Instant :=
  let ns := instant_ns i + d in TimeSpec (ns / NANOSECOND) (ns mod NANOSECOND).
Definition advance_clock (d : Duration) : EM () :=
  modify (λ s, MkEnds s.(my_tun) s.(their_tun)
    (let e := s.(around).(w_env) in
     with_w_env (Env (λ i, clock_later d (e.(e_clock) i)) e.(e_system) e.(e_tick) e.(e_rng) e.(e_rng_pos)) s.(around))).

Definition create_two_tunnels_linked_to_eachother : M WireGuardError world () := between (mret ()).

Definition handshake_init : M WireGuardError world () :=
  between (
    init ← mine create_handshake_init;
    is_packet is_init init).

Definition handshake_init_and_response : M WireGuardError world () :=
  between (
    init ← mine create_handshake_init;
    resp ← theirs (create_handshake_response init);
    is_packet is_response resp).

Definition full_handshake : M WireGuardError world () :=
  between (
    init ← mine create_handshake_init;
    resp ← theirs (create_handshake_response init);
    keepalive ← mine (parse_handshake_resp resp);
    is_packet is_data keepalive).

Definition full_handshake_plus_timers : M WireGuardError world () :=
  create_two_tuns_and_handshake (
    _ ← mine (timers_done []);
    theirs (timers_done [])).

(** [create_ipv4_udp_packet] comes from the crate etherparse. *)
Context (create_ipv4_udp_packet : bytes).

Definition new_handshake_after_two_mins : M WireGuardError world () :=
  create_two_tuns_and_handshake (
    _ ← advance_clock (from_secs 1);
    _ ← theirs (timers_done []);
    _ ← mine (timers_done (zeros 1024));
    _ ← mine (r ← encapsulate create_ipv4_udp_packet (zeros 1024); to_network r);
    _ ← advance_clock REKEY_AFTER_TIME;
    _ ← theirs (timers_done []);
    mine update_timer_results_in_handshake).

Definition handshake_no_resp_rekey_timeout : M WireGuardError world () :=
  between (
    init ← mine create_handshake_init;
    _ ← is_packet is_init init;
    _ ← advance_clock REKEY_TIMEOUT;
    mine update_timer_results_in_handshake).

Definition one_ip_packet : M WireGuardError world () :=
  create_two_tuns_and_handshake (
    data ← mine (r ← encapsulate create_ipv4_udp_packet (zeros 1024); to_network r);
    r ← theirs (decapsulate None data (zeros 1024));
    match r with
    | WriteToTunnelV4 recv _ => assert_ (bool_decide (create_ipv4_udp_packet = recv))
    | _ => panic
    end).
End TunnelTests.

Section TunnelRuns.
#[local] Existing Instance toy_crypto.

Definition still_env : env := Env (λ _, test_clock 0) test_env.(e_system) 0 test_env.(e_rng) 0.
Definition still_world : world := MkWorld still_env ∅.

(** From 192.168.1.2 to 192.168.1.3, with the four bytes 0, 1, 2, 3. *)
Definition udp_packet : bytes :=
  byte.of_Z <$> [69; 0; 0; 32; 0; 0; 64; 0; 5; 17; 242; 119; 192; 168; 1; 2; 192; 168; 1; 3;
    22; 46; 0; 23; 0; 12; 0; 0; 0; 1; 2; 3].

Lemma tunnel_tests_pass :
  passes create_two_tunnels_linked_to_eachother still_world ∧ passes handshake_init still_world ∧
  passes handshake_init_and_response still_world ∧ passes full_handshake still_world ∧
  passes full_handshake_plus_timers still_world ∧ passes (new_handshake_after_two_mins udp_packet) still_world ∧
  passes handshake_no_resp_rekey_timeout still_world ∧ passes (one_ip_packet udp_packet) still_world.
Proof. split_and!; apply passes_ok; by vm_compute. Qed.
End TunnelRuns.
